(* ===== verification/_CoqProject ===== *)
-Q . S2P
Prelude.v
Paging.v
Platform.v
Tx.v
Schema.v
Store.v
Launch.v
LaunchTables.v
GoStrings.v
Base64.v
ScopeToken.v
Fixtures.v
Keyrings.v
Cursor.v
LaunchParams.v
Secrets.v
OpenEnv.v
Claim.v
Admin.v
Listener.v
Events.v
Controls.v
TaskLogs.v
Listing.v
ListHttp.v
Lifecycle.v
Queue.v
Durable.v
Config.v
Conc.v
OpenHands.v
Docker.v
DockerSafe.v
DockerProps.v
Cache.v
Kube.v
KubeSafe.v
KubeProps.v
JwtClaims.v
WorkingToken.v
GatewayStore.v
Gateway.v
GatewaySafe.v
GatewayProps.v
GatewayConfig.v
GatewayRun.v
Calendar.v
UiReads.v
UiHttp.v
UiProps.v
Feed.v
UiStream.v
