(* ===== verification/Prelude.v ===== *)
(** * FlowAI: a verification library for the State Registry, its Executors and its gateway

    FlowAI runs coding tasks. Listeners (svc/) bring work items in, the State Registry
    (svc/state-registry) keeps them in PostgreSQL as a queue of tasks, Executors (executor/)
    claim the tasks and report on them, and operators configure and watch the system through
    the API gateway (svc/api-gateway). The State Registry is the keeper of the queue; this
    library models its store, the package svc/state-registry/internal/store with the types of
    internal/platform and the tables of internal/migrations/sql, and proves what it promises.
    On the other side of the protocol it models the two Executors, the packages
    executor/docker_openhands/internal/executor and executor/k8s-openhands/internal/executor,
    the second with its recovery cache and its restarts, and proves that they keep it. Operators
    watch the queue through the operator interface of the registry, its dashboards, lists and live
    streams, which are modelled from the request to the answer. In front
    of it stands the API gateway, svc/api-gateway, which logs operators in and forwards their
    requests; the library models all of it but its listener and proves why a request is forwarded.

    ** Parts of the program and files of the library

    Foundations.
    - Prelude (this file): the result type of Go's (value, error) pairs, the list and map
      lemmas and the tactics everything uses.
    - Paging: keyset pages and the walk along their cursors.
    - Platform: the classes of the code the repository calls and does not contain: the text
      order of the database (Collation), the precision of its timestamps (PgTime), JSON
      (JsonCodec, JsonCompact), RFC 3339 (TimeCodec) and AES-256-GCM (Aead). Schema adds
      ImageCodec, the jsonb form of an image, and ScopeToken adds TokenCodec, the JSON form of
      token segments and the HMACs. Each field that is a law states the documented
      behaviour a theorem relies on; Fixtures has an instance of each.
    - GoStrings, Base64: the functions of strings and encoding/base64 the source uses.
    - Tx: the database/sql discipline as a state and error monad. A transaction works on a
      copy of the database; query, exec and their variants are statements, each of which the
      environment may refuse; commit makes the copy durable; an operation that returns before
      its commit is rolled back. An environment (TxEnv) decides the outages, the clock, the
      identifiers drawn and the nonces, so every theorem over all environments is a theorem
      over all failures. A commit that fails may have become durable, its acknowledgement alone
      being lost (env_lost), and a result that the code reads without a look at rows.Err() may
      break off after any number of rows (env_cut). run_reads is a read of two statements
      outside a transaction, each with its own state of the database.
    - Schema: one record per row, one finite map per table, and for every statement that
      writes a function that applies the constraints of its table. LaunchTables: the
      constraints, partial indexes and triggers of the tables of definitions and secrets.
    - Store: the sentinel errors of the store and the reads its files share.
    - Fixtures: concrete instances and a small registry for the witnesses.

    Components, a file per Go file or two; a definition has the name of the function it
    models.
    - Claim: store/executor.go. RegisterExecutor, DiscoverExecutorTasks, ClaimTask (the
      visibility of the task, its position in the queue, the image, the frozen launch
      parameters, the created event, the scope token of the response).
    - Launch: store/launch_parameter_resolution.go. The layers of the global, team and task
      type scopes, frozen into a snapshot and its secret references.
    - ScopeToken: the token functions of store/scope_tokens.go and the lookup of
      store/scope_token_keyring.go. OpenEnv: OpenEnvironment of store/scope_tokens.go.
    - Listener: store/listener.go. Events: store/events.go, with the lists of events.
      Controls: store/controls.go and store/control_events.go, with the audit log.
      TaskLogs: store/task_logs.go. Admin: store/admin.go.
    - LaunchParams: store/ui_launch_parameters.go and store/environments.go.
      Secrets: store/secrets.go.
    - Listing: the task and task type lists of store/listing.go. Keyrings: the parsing of the
      rings of store/scope_token_keyring.go and config/cursor_keyring.go. Cursor:
      cursor/cursor.go, the authenticated cursor tokens and the page sizes. ListHttp: the list
      handlers of httpapi/list_gateway.go, list_admin.go and audit.go with the trusted gateway
      middleware of gateway_context.go; the queries, cursors and pages end to end; and the point
      read of a task (store/task_point_read.go, httpapi/task_point_read.go).

    The operator interface.
    - Calendar: civil dates, ISO weeks and months and the texts of their keys, with the laws the
      dashboards need.
    - UiReads: store/ui_operator.go. The window of a dashboard and its buckets, the lists and point
      reads of tasks, executors, events and audit entries. The class Ilike is the ILIKE of the
      database. UiHttp: httpapi/ui_operator.go, the handlers in front of these reads; the class
      UiCursorCodec is the JSON of a position. UiProps: their guarantees.
    - Feed: a stream that follows a table by an instant and an identifier: the loop, its run beside
      the operations of the registry ([live_step]), and its contract, proved for every feed that
      keeps the laws [feed_ok]. UiStream: store/ui_stream.go and httpapi/events_stream.go, whose
      two streams are such feeds.

    The whole.
    - Lifecycle: [op] is the type of all operations that change state, [perform] runs one in
      an environment, [step] and [reachable] are the registry as a transition system that
      starts empty. Operations interleave in any order. The files of the store serialise their
      writers with row locks and one queue lock, so a step is a whole operation; the lock
      statements are kept as statements that can fail.
    - Queue: the abstract specification, a queue of jobs with its moves, and the refinement.
    - Durable: the tables that only grow. Config: the histories of definitions and secrets.

    The Docker executor.
    - Conc: goroutines as programs of atomic steps over a shared state, their interleavings
      (world_step), and a rely-guarantee logic with exclusive tokens (Protocol, wp) whose
      adequacy theorem turns verified goroutines into an invariant of every reachable state.
    - OpenHands: the pure functions of executor.go, openhands_logs.go and v0002.go: the status
      and the text of a frame, the prompt, the image, the environment of a container.
    - Docker: executor.go, v0002.go and task_controls.go. [Exec] is the Executor with its task
      slots on a heap, because goroutines share them; every function that takes the mutex is
      an atomic step, every request to the registry, Docker, OpenHands or the clock is a call;
      [thread_body] has the goroutines (Run, the poll loop, a task, its stream, the watcher of
      its container, its controls, the joins of drain).
    - DockerSafe: the abstract protocol of a task ([phase_of]), the invariant [exec_ok], the
      tokens (the main goroutine, the goroutine of a slot, its removal, the right to report its end) and
      the verification of every goroutine. DockerProps: the contract, and concrete runs.

    The Kubernetes executor.
    - Cache: executor/k8s-openhands/internal/cache. The buckets of encoded records and their
      operations, and the reference they are equivalent to, a memory of records.
    - Kube: executor.go, v0002.go, pod_lifecycle.go and the publication of openhands_logs.go,
      as goroutines in the way of Docker. The cache is part of [Executor] as its memory of
      records; [kube_step] is a step of a goroutine, or the end of the process at any point
      and a new Run on what its cache holds.
    - KubeSafe: what a history of calls says (the phase of a task, the pods alive, the events
      sent), the invariant [kube_ok], the tokens (the main goroutine, an identifier that was
      drawn) and the verification of every goroutine. KubeProps: the contract, and runs with
      restarts.

    The API gateway.
    - JwtClaims: oidc/team_claims.go, jwtverify/verifier.go and the checks of
      adminauth/authenticator.go: claim pointers, team claims, scopes, RSA keys and the registered
      claims of a provider token. The class Jose is the JSON of the segments and RSA.
    - WorkingToken: workingtoken/signer.go and verifier.go, sessioncrypto/cipher.go. The class
      WorkingCodec is the JSON of a working token.
    - GatewayStore: store/sessions.go and store/mappings.go over the tables of
      migrations/sql/00001_auth_schema.sql, with the invariant [gate_ok] of the tables. The class
      Sha256 is the hash of sessions, identifiers and operators.
    - Gateway: oidc/flow.go, httpapi/server.go and stateregistry/client.go. The login flow and the
      handlers are goroutines over [Gate]: the database, the pending authorizations, the key caches
      of the two verifiers and the history of calls and store operations, which no code reads.
      [gate_step] is a step of a goroutine, or the end of the process at any point and a new one on
      the database it left. The class GatewayCodec is the JSON of the documents and net/url.
    - GatewaySafe: what a history must have shown before an event ([allowed]), the invariant, and
      the verification of every goroutine with rules over histories ([safe]). GatewayProps: the
      guarantees. GatewayConfig: config/config.go, oidc.NewFlow and the assembly of
      cmd/api-gateway/main.go. GatewayRun: a concrete gateway and one history of it, for the
      witnesses and the corners.

    ** What the theorems show

    - The queue. Every operation is one permitted move of the abstract queue, or none
      ([Queue.perform_refines]); an Executor that claims takes the first task that discovery
      lists for it ([Claim.ClaimTask_fifo]); a task is executed by one Executor at most,
      under any interleaving and any failures ([Queue.ClaimTask_exclusive]); it is never
      lost, reassigned or set back ([Queue.task_over_time]).
    - The log. A task's state, its assignment and its events determine each other
      ([Lifecycle.reachable_log], [Lifecycle.reachable_assignment], [Lifecycle.reachable_order])
      and what is recorded stays recorded ([Durable.history_append_only]).
    - Effects. For each write, what a success changes, row by row ([Claim.ClaimTask_effect], with
      the launch parameters it freezes, [Events.AppendTaskEvent_effect],
      [Controls.AppendTaskControlEvent_effect]), and that an error changes nothing, or all of it
      when only the acknowledgement of the commit was lost ([Lifecycle.perform_atomic]); retries are
      replayed ([Claim.ClaimTask_retry], [Listener.IngestTask_idempotent],
      [Controls.CreateTaskControl_idempotent], [Events.AppendTaskEvent_retry]).
    - Secrets. A token is accepted only with the MAC of the pinned key and within five
      minutes ([ScopeToken.scope_token_sound], [ScopeToken.scope_token_lifetime]); an
      environment is opened only for the holder of the task, with the values frozen for it,
      and leaves an audit entry ([OpenEnv.OpenEnvironment_authorised]); the refusals cannot
      be told apart ([OpenEnv.OpenEnvironment_unrevealing]); and in every reachable registry
      the holder does get the values ([Config.OpenEnvironment_available]), because the
      versions of a secret are complete and open under their binding
      ([Config.reachable_secrets], [Config.reachable_definitions]).
    - Lists. Discovery, histories, log pages and the audit log are sound, sorted, complete and
      follow their cursors without gaps or repetitions. A client of GET /v1/tasks that follows
      the cursors of the responses receives its team's tasks exactly once
      ([ListHttp.gateway_listTasks_pages]) and no others ([ListHttp.gateway_listTasks_team]);
      a cursor serves the list, caller and filters it was issued for and nothing else
      ([Cursor.cursor_roundtrip], [Cursor.cursor_sound]); page sizes are 1 to 200
      ([Cursor.ParseLimit_spec]). The rings that start-up accepts are usable
      ([Keyrings.buildScopeTokenKeyring_ok], [Keyrings.LoadRotatingCursorKeyring_ok]).
    - The operator interface. The buckets of a dashboard are a whole week or month, in order, and
      count every task of the team once, on its day and in its state; the counts above them come from an
      earlier statement and miss states when its result breaks off ([UiProps.dashboard_complete],
      [UiProps.counts_break_off]). Which selections have a dashboard, which an error and which an
      answer without a body is exact ([UiProps.dashboard_selection],
      [UiProps.negative_year_unanswered]); the date of a bucket opens the list of the tasks
      it counts ([UiProps.bucket_opens_tasks]). Reads are answered from the rows of their team, and
      what the team is not shown is not found
      ([UiProps.ui_team_only], [ListHttp.gateway_readTask_spec]) and the feed of a task pages through
      its events ([UiProps.taskEvents_pages]), but for events that share a cursor
      ([UiProps.feed_skips]). A live stream, beside all operations and failures, sends frames of its
      subscription only, in order, none twice and, between its start and its position, all but those
      that commit behind it ([UiStream.stream_exact], [UiStream.events_stream_exact]); at rest it
      delivers everything ([UiStream.stream_delivers], [UiStream.events_stream_delivers]), and a
      client resumes where it stopped ([UiStream.reconnect_resumes]). That a frame can commit behind
      the position is shown on a run ([UiStream.task_missed]).
    - The Docker executor, under every interleaving and every answer of the outside. Its calls
      on a task follow the abstract protocol ([DockerProps.executor_refines_protocol]): a
      container is started only under a granted claim and an accepted running report
      ([DockerProps.container_authorised]) and its task ends with one report at most and is
      never taken again ([DockerProps.task_ends_once]). Slots and containers stay within the
      capacity ([DockerProps.capacity_respected]), ports are exclusive and in range
      ([DockerProps.ports_exclusive]); once the goroutines have ended no slot is left and every
      container that was started was stopped, or its forced removal was asked for
      ([DockerProps.nothing_left_behind]). Where a task ends without a report is stated by
      [DockerProps.terminal_mark_unreported] and shown on runs ([DockerProps.lost_port],
      [DockerProps.closed_stream_unreported], [DockerProps.late_report_without_team],
      [DockerProps.full_run_reports]).
    - The Kubernetes executor, under every interleaving, every answer and every restart. A pod
      is created only under a granted claim and an accepted running report, once per grant
      ([KubeProps.pod_authorised]), and the environment of a task is opened only under its
      claim ([KubeProps.environment_authorised]). With truthful listings the pods stay within
      the capacity ([KubeProps.max_pods_respected]). An event in the outbox is accepted only
      after its acknowledgement and a retry is the same event ([KubeProps.outbox_contract]).
      A new process takes up pods of this executor, for their tasks, only
      ([KubeProps.slots_name_own_pods]). The cache is a memory of records
      ([Cache.store_equals_memory]). What a restart does not survive is shown on runs
      ([KubeProps.torn_start], [KubeProps.refused_start], [KubeProps.gone_pod_kept],
      [KubeProps.intent_dropped], [KubeProps.early_restart_fails],
      [KubeProps.uncreated_unreported], [KubeProps.refused_end_strands_pod]).
    - The API gateway, under every interleaving, every answer, every failure of its database and
      every restart. A request reaches the State Registry only with the operator and the team of a
      working token that the gateway signed, that has not expired and that its database confirmed for a
      live session ([GatewayProps.forwarded_proved]); nothing else of the trusted headers can come from
      the client ([GatewayProps.forwarded_headers]), and a request with such a token is forwarded
      ([GatewayProps.valid_request_served]). Every access in the database stands on a login with this
      gateway's nonce and verifier, a membership the provider stated for that subject and a mapping
      an administrator registered ([GatewayProps.access_stands]); a token is given out only for
      such an access and is recorded for its session ([GatewayProps.issued_token_proved]). The store
      does what its operations promise, revocation included, and refuses for a reason, without a
      change unless its acknowledgement was lost ([GatewayProps.store_refines],
      [GatewayStore.ReplaceMembership_effect], [GatewayStore.Delete_effect],
      [GatewayStore.Create_available]). Tokens live from issue to expiry
      ([WorkingToken.working_token_lifetime]); envelopes open for their session only
      ([WorkingToken.envelope_bound_to_session]); the claims of a login are exactly those of its
      document ([JwtClaims.Normalize_spec], [JwtClaims.pointers_agree],
      [JwtClaims.pointer_roundtrip], [JwtClaims.in_window_spec]); and an accepted configuration
      trusts its issuers and audiences only ([GatewayConfig.Load_accepts],
      [GatewayConfig.setup_trust]).
    - Limits of the code that the theorems make precise: [Events.AppendTaskEvent_order_gap],
      [Controls.AppendTaskControlEvent_unassigned], [LaunchParams.ReplaceLaunchParameters_late_error],
      [OpenEnv.decrypt_before_denial] and [Secrets.CreateSecret_same_name]; and a key identifier
      with a dot ends every list at its first page ([Cursor.cursor_roundtrip]). Of the gateway:
      [JwtClaims.ancient_token_accepted], [GatewayRun.userinfo_adds_nothing],
      [GatewayRun.no_registry] and [GatewayRun.database_down].

    ** Choices

    - An instant is a count of nanoseconds in Z; a column keeps it at the precision of PgTime.
      A text column is a string of bytes. The image columns and the values columns of jsonb
      hold what they decode to; a nil map is an empty one.
    - An error of the store is its sentinel or the innermost failed statement with its context;
      the outer contexts that fmt.Errorf adds around it are dropped.
    - strings.TrimSpace and strings.ToUpper are modelled for ASCII. Where Go ranges over a map and the order cannot
      be observed, the model takes the order of the map's list.
    - A failed commit, or a failed statement outside a transaction, has changed nothing or all of
      it; the environment decides. A result that breaks off is the failure of its statement where the
      code looks at rows.Err(). Of the loops that do not look, the one outside a transaction, over the
      counts of a dashboard, gets the rows that came; inside a transaction, in resolve_layers and
      appendLaunchParameterRevision, a connection that breaks fails the transaction with every later statement,
      so there too it is the failure of the statement.
    - Of the operator interface: where a read makes two statements outside a transaction the second sees
      its own state of the database. Of the JSON of an answer only the instants of a dashboard are
      modelled, which do not always marshal;
      whole microseconds are kept by a timestamp column ([UiProps.pg_whole]), where a
      theorem says so; a selection with leading spaces inside its numbers, which Sscanf skips, is
      left out. A tick of a stream is one step; a commit is late when its key is not behind the
      position at that moment.
    - Of the Docker executor: a context or a timer can end at any time, so the answers of the
      calls that wait on one are arbitrary; the iteration over a Go map is a permutation
      (MapRange) where its order matters and that of map_to_list in drain; the answer of a
      claim is about the task it was made for ([Docker.sane]); an identifier that commandIDFor
      may drop is drawn before its critical section. Run starts with an identity and an
      identifier; logging and readiness flags are left out. The loops of goroutines are jumps
      (Goto), each round is a finite program.
    - Of the Kubernetes executor: a database transaction of the cache is one atomic step that
      takes effect or reports what the disk says; that names of pods are DNS names
      ([Kube.sane]) and, where a theorem says so, that listings are complete
      ([KubeSafe.truthful]) and identifiers distinct ([KubeSafe.distinct]) is assumed of the
      outside. The channels of a pod's goroutine are fields of its slot. A select may be
      answered by any of its cases.
    - Of the gateway: a store operation is one atomic step in an environment drawn before it, also where
      it reads with two statements; a
      session is known by the SHA-256 of its identifier, and where a theorem says so, two logins
      are not given the same one ([GatewayProps.sessions_distinct]), which 32 random bytes give. What
      net/http does before and around a handler (routing, cleaning of paths, limits, redirects that its
      client follows) is in the request and in the answer of a call. Conversions of float64 to
      int64 are those of amd64.
    - Recursion is structural except for the walks along cursors
      ([Paging.page_walk]), which are the clients' loops; their fuel
      is the number of rows left plus one and the theorems show that it is enough.

    ** Not modelled

    The HTTP handlers that decode requests for the writing store operations; the upgrade of a
    WebSocket, which answers a parameter of the handlers; of the Executors
    the loading of their configuration, their HTTP, Docker and Kubernetes clients and probes, the
    directory and the file lock of the cache, and the first registration and the cached identity
    of the Docker executor, whose task machine does not use its cache; of the gateway the listener,
    its shutdown and the runner of its migrations; and the web page. *)

From stdpp Require Import base gmap sets list strings sorting.
From Stdlib Require Export ZArith Lia.

#[global] Set Default Goal Selector "!".

Declare Scope flow_scope.
Delimit Scope flow_scope with flow.
#[global] Open Scope flow_scope.

(** ** Results: a Go pair (value, error) that is either a value or an error *)

Inductive result (E A : Type) : Type :=
| Ok (a : A)
| Err (e : E).
Arguments Ok {_ _} _.
Arguments Err {_ _} _.

#[export] Instance result_eq_dec `{EqDecision E, EqDecision A} : EqDecision (result E A).
Proof. solve_decision. Defined.

Definition is_ok {E A} (r : result E A) : bool :=
  match r with Ok _ => true | Err _ => false end.

(** ** Machine integers *)

(** An int64: the value modulo 2^64 in two's complement. *)
Definition wrap64 (z : Z) : Z := ((z + 2 ^ 63) mod 2 ^ 64 - 2 ^ 63)%Z.
Definition in_int64 (z : Z) : Prop := (- 2 ^ 63 ≤ z < 2 ^ 63)%Z.

Lemma wrap64_id z : in_int64 z → wrap64 z = z.
Proof. unfold wrap64, in_int64. intros H. rewrite Z.mod_small; lia. Qed.

Lemma wrap64_range z : in_int64 (wrap64 z).
Proof. unfold wrap64, in_int64. pose proof (Z.mod_pos_bound (z + 2 ^ 63) (2 ^ 64)). lia. Qed.

(** ** Tactics of the library *)

(** Case analysis on the scrutinee of the first match of a hypothesis. *)
Ltac destr_in H :=
  match type of H with
  | context [match ?x with _ => _ end] =>
      lazymatch x with
      | context [match _ with _ => _ end] => fail
      | _ => let E := fresh "E" in destruct x eqn:E
      end
  end.

Ltac destr_goal :=
  match goal with
  | |- context [match ?x with _ => _ end] =>
      lazymatch x with
      | context [match _ with _ => _ end] => fail
      | _ => let E := fresh "E" in destruct x eqn:E
      end
  end.

(** Turns decided propositions and boolean connectives into hypotheses. *)
Ltac to_prop :=
  repeat match goal with
  | H : bool_decide _ = true |- _ => apply bool_decide_eq_true in H
  | H : bool_decide _ = false |- _ => apply bool_decide_eq_false in H
  | H : andb _ _ = true |- _ => apply andb_true_iff in H as [? ?]
  | H : orb _ _ = false |- _ => apply orb_false_iff in H as [? ?]
  | H : negb _ = true |- _ => apply negb_true_iff in H
  | H : negb _ = false |- _ => apply negb_false_iff in H
  | H : _ ∧ _ |- _ => destruct H
  | H : ¬ (_ ≠ _) |- _ => apply dec_stable in H
  end.

Create HintDb flow.

(** ** Filtering *)

Lemma list_filter_all {A} (P : A → Prop) `{!∀ x, Decision (P x)} l :
  Forall P l → filter P l = l.
Proof. induction 1 as [|x l Hx _ IH]; [done|]. by rewrite filter_cons_True, IH. Qed.

Lemma list_filter_none {A} (P : A → Prop) `{!∀ x, Decision (P x)} l :
  Forall (λ x, ¬ P x) l → filter P l = [].
Proof. induction 1 as [|x l Hx _ IH]; [done|]. by rewrite filter_cons_False, IH. Qed.

Lemma StronglySorted_filter {A} (R : relation A) (P : A → Prop) `{!∀ x, Decision (P x)} l :
  StronglySorted R l → StronglySorted R (filter P l).
Proof.
  induction 1 as [|x l Hs IH Hall]; [constructor|].
  rewrite filter_cons. case_decide; [|done]. constructor; [done|].
  apply Forall_forall. intros y [_ Hy]%list_elem_of_filter. by apply (proj1 (Forall_forall _ _) Hall).
Qed.

(** ** Ordered, limited query results *)

Section order_by.
Context {A : Type} (R : relation A) `{!RelDecision R}.

(** ORDER BY: sort the selected rows; LIMIT is [take]. *)
Definition order_by (l : list A) : list A := merge_sort R l.

Lemma order_by_perm l : order_by l ≡ₚ l.
Proof using. apply merge_sort_Permutation. Qed.

Lemma elem_of_order_by x l : x ∈ order_by l ↔ x ∈ l.
Proof using. by rewrite order_by_perm. Qed.

Lemma order_by_nil_iff l : order_by l = [] ↔ l = [].
Proof using.
  split; intros H; [|by rewrite H].
  apply Permutation_nil_r. by rewrite <- (order_by_perm l), H.
Qed.

Lemma order_by_sorted `{!Transitive R, !Total R} l : StronglySorted R (order_by l).
Proof using. by apply StronglySorted_merge_sort. Qed.

(** A limited selection is sorted, holds selected rows only, and leaves out a row only when
    it is full of rows that do not come after it. *)
Lemma take_order_by `{!Transitive R, !Total R} n l :
  (length (take n (order_by l)) ≤ n)%nat ∧ StronglySorted R (take n (order_by l)) ∧
  (∀ x, x ∈ take n (order_by l) → x ∈ l) ∧
  (∀ x, x ∈ l → x ∈ take n (order_by l) ∨
     (length (take n (order_by l)) = n ∧ ∀ y, y ∈ take n (order_by l) → R y x)).
Proof using.
  pose proof (order_by_sorted l) as Hs. rewrite <- (take_drop n (order_by l)) in Hs.
  split_and!.
  - rewrite length_take. lia.
  - by eapply StronglySorted_app_1_l.
  - intros x Hx. apply elem_of_order_by. rewrite <- (take_drop n (order_by l)).
    apply elem_of_app. by left.
  - intros x Hx. apply elem_of_order_by in Hx.
    rewrite <- (take_drop n (order_by l)) in Hx. apply elem_of_app in Hx as [Hx|Hx]; [by left|].
    right. split.
    + rewrite length_take. destruct (decide (n ≤ length (order_by l))%nat) as [?|Hn]; [lia|].
      rewrite drop_ge in Hx by lia. by apply not_elem_of_nil in Hx.
    + intros y Hy. by eapply StronglySorted_app_1_elem_of.
Qed.

(** The first row of an ordered selection is least. *)
Lemma order_by_head_least `{!Transitive R, !Total R, !Reflexive R} l x :
  head (order_by l) = Some x → x ∈ l ∧ ∀ y, y ∈ l → R x y.
Proof using.
  intros Hh. destruct (order_by l) as [|z zs] eqn:E; [done|]. simplify_eq/=.
  pose proof (order_by_sorted l) as Hs. rewrite E in Hs.
  apply StronglySorted_inv in Hs as [_ Hall]. split.
  - apply elem_of_order_by. rewrite E. by left.
  - intros y Hy. apply elem_of_order_by in Hy. rewrite E in Hy.
    apply elem_of_cons in Hy as [->|Hy]; [done|].
    by apply (proj1 (Forall_forall _ _) Hall).
Qed.
End order_by.
