(* ===== verification/Paging.v ===== *)
(** * Keyset pagination

    The listings of the stores select the rows behind a cursor in key order, read one row more
    than the page holds, and hand out the key of the last row of the page as the next cursor.
    Walking the pages visits every row once, in order. *)

From stdpp Require Import base list sorting.
From S2P Require Import Prelude.

(** A page and the row the next cursor points at. *)
Definition page_of {A} (limit : nat) (l : list A) : list A * option A :=
  if (limit <? length l)%nat then (take limit l, last (take limit l)) else (l, None).

Section keyset.
Context {A K : Type} (R : relation K) (key : A → K) `{!RelDecision R, !Transitive R, !Total R}.

(** The order of the rows, by their keys. *)
Definition by_key : relation A := λ x y, R (key x) (key y).
#[export] Instance by_key_dec : RelDecision by_key.
Proof using All. intros x y. unfold by_key. apply _. Defined.
#[export] Instance by_key_trans : Transitive by_key.
Proof using All. intros x y z. unfold by_key. apply transitivity. Qed.
#[export] Instance by_key_total : Total by_key.
Proof using All. intros x y. apply (total R). Qed.

(** [beyond c x]: the row comes strictly after the cursor. *)
Definition beyond (c : option K) (x : A) : bool :=
  match c with None => true | Some y => bool_decide (¬ R (key x) y) end.

Definition keyset_page (limit : nat) (c : option K) (rows : list A) : list A * option K :=
  let '(page, next) :=
    page_of limit (take (S limit) (order_by by_key (filter (λ x, beyond c x) rows))) in
  (page, key <$> next).

(** The rows a page is cut from: one more than it holds. *)
Definition keyset_fetch (limit : nat) (c : option K) (rows : list A) : list A :=
  take (S limit) (order_by by_key (filter (λ x, beyond c x) rows)).

Lemma keyset_page_fetch limit c rows :
  keyset_page limit c rows = prod_map id (fmap key) (page_of limit (keyset_fetch limit c rows)).
Proof using. unfold keyset_page, keyset_fetch. by destruct (page_of _ _). Qed.

(** Following the cursors, [fuel] pages at most. *)
Fixpoint keyset_walk (fuel limit : nat) (c : option K) (rows : list A) : list A :=
  match fuel with
  | O => []
  | S fuel' =>
      let '(page, next) := keyset_page limit c rows in
      match next with None => page | Some _ => page ++ keyset_walk fuel' limit next rows end
  end.

(** Rows that compare equal are the same row. *)
Definition distinct_keys (rows : list A) : Prop :=
  NoDup rows ∧ ∀ x y, x ∈ rows → y ∈ rows → by_key x y → by_key y x → x = y.

Lemma order_by_filter (P : A → Prop) `{!∀ x, Decision (P x)} rows :
  distinct_keys rows → order_by by_key (filter P rows) = filter P (order_by by_key rows).
Proof using All.
  intros [_ Hd]. apply (StronglySorted_unique_strong by_key).
  - intros x y Hx Hy Hxy Hyx. apply elem_of_order_by, list_elem_of_filter in Hx as [_ Hx].
    apply list_elem_of_filter in Hy as [_ Hy]. apply elem_of_order_by in Hy. by apply Hd.
  - apply order_by_sorted; apply _.
  - apply StronglySorted_filter. apply order_by_sorted; apply _.
  - by rewrite order_by_perm, (order_by_perm by_key rows).
Qed.

(** What lies behind a row of a sorted duplicate free list. *)
Lemma filter_beyond l x k :
  StronglySorted by_key (l ++ x :: k) → distinct_keys (l ++ x :: k) →
  filter (λ y, beyond (Some (key x)) y) (l ++ x :: k) = k.
Proof using All.
  intros Hs [Hnd Hd]. rewrite filter_app.
  assert (Hback : ∀ y, y = x ∨ y ∈ l → ¬ beyond (Some (key x)) y).
  { intros y Hy. unfold beyond. rewrite bool_decide_eq_false_2; [tauto|].
    intros Hn. apply Hn. change (by_key y x). destruct Hy as [->|Hy]; [by destruct (total by_key x x)|].
    eapply StronglySorted_app_1_elem_of; [done|done|by left]. }
  rewrite (list_filter_none _ l), filter_cons_False; [|by apply Hback; left|].
  2:{ apply Forall_forall. intros y Hy. apply Hback. by right. }
  apply list_filter_all, Forall_forall. intros y Hy. apply bool_decide_pack. intros Hyx.
  apply StronglySorted_app_1_r in Hs as Hk. apply StronglySorted_inv in Hk as [_ Hk].
  assert (y = x) as ->.
  { apply Hd; [| |done|by apply (proj1 (Forall_forall _ _) Hk)];
      apply elem_of_app; right; [by right|by left]. }
  apply NoDup_app in Hnd as (_ & _ & Hnd). by apply NoDup_cons in Hnd as [? _].
Qed.

Lemma distinct_keys_perm l k : l ≡ₚ k → distinct_keys l → distinct_keys k.
Proof using.
  intros Hp [Hnd Hd]. split; [by rewrite <- Hp|]. intros x y. rewrite <- !Hp. apply Hd.
Qed.

(** The page behind a row of the sorted listing is the next segment of the listing. *)
Lemma keyset_page_after limit l x k rows :
  distinct_keys rows → order_by by_key rows = l ++ x :: k →
  keyset_page limit (Some (key x)) rows = prod_map id (fmap key) (page_of limit (take (S limit) k)).
Proof using All.
  intros Hd Ho. unfold keyset_page. rewrite order_by_filter by done. rewrite Ho.
  rewrite filter_beyond; [by destruct (page_of _ _)| |].
  - rewrite <- Ho. apply order_by_sorted; apply _.
  - rewrite <- Ho. eapply distinct_keys_perm; [symmetry; apply order_by_perm|done].
Qed.

Lemma keyset_page_first limit rows :
  keyset_page limit None rows
  = prod_map id (fmap key) (page_of limit (take (S limit) (order_by by_key rows))).
Proof using.
  unfold keyset_page. rewrite list_filter_all by (by apply Forall_forall).
  by destruct (page_of _ _).
Qed.

(** A page holds selected rows only. *)
Lemma keyset_page_rows limit c rows page next x :
  keyset_page limit c rows = (page, next) → x ∈ page → x ∈ rows.
Proof using.
  unfold keyset_page, page_of. intros Hp Hx.
  assert (x ∈ take (S limit) (order_by by_key (filter (λ x, beyond c x) rows))) as Hin.
  { destruct (_ <? _)%nat; simplify_eq; [|done].
    by eapply subseteq_take. }
  apply subseteq_take in Hin. apply elem_of_order_by, list_elem_of_filter in Hin. apply Hin.
Qed.

(** and no more of them than asked for. *)
Lemma keyset_page_length limit c rows page next :
  limit ≠ 0 → keyset_page limit c rows = (page, next) → (length page ≤ limit)%nat.
Proof using.
  unfold keyset_page, page_of. intros Hl.
  destruct (_ <? _)%nat eqn:E; intros [= <- _]; rewrite ?length_take; [lia|].
  apply Nat.ltb_ge in E. by rewrite length_take in E.
Qed.

Lemma page_of_spec {B} limit (k : list B) :
  limit ≠ 0 →
  page_of limit (take (S limit) k)
  = if (limit <? length k)%nat then (take limit k, last (take limit k)) else (k, None).
Proof using.
  intros Hl. unfold page_of. rewrite length_take.
  destruct (limit <? length k)%nat eqn:E.
  - apply Nat.ltb_lt in E. assert ((limit <? S limit `min` length k)%nat = true) as ->
      by (apply Nat.ltb_lt; lia). by rewrite take_take, Nat.min_l by lia.
  - apply Nat.ltb_ge in E. assert ((limit <? S limit `min` length k)%nat = false) as ->
      by (apply Nat.ltb_ge; lia). by rewrite take_ge by lia.
Qed.

(** From a cursor into the sorted listing the walk yields the rest of it. *)
Lemma keyset_walk_from fuel limit c l k rows :
  limit ≠ 0 → distinct_keys rows → (length k < fuel)%nat → order_by by_key rows = l ++ k →
  (c = None ∧ l = []) ∨ (∃ x, c = Some (key x) ∧ last l = Some x) →
  keyset_walk fuel limit c rows = k.
Proof using All.
  intros Hl Hd. revert c l k. induction fuel as [|fuel IH]; intros c l k Hf Ho Hc; [lia|]. simpl.
  assert (keyset_page limit c rows
          = prod_map id (fmap key) (page_of limit (take (S limit) k))) as ->.
  { destruct Hc as [[-> ->]|(x & -> & (l' & ->)%last_Some)].
    - by rewrite keyset_page_first, Ho.
    - rewrite <- app_assoc in Ho. by eapply keyset_page_after. }
  rewrite page_of_spec by done. destruct (limit <? length k)%nat eqn:E; [|done].
  apply Nat.ltb_lt in E.
  destruct (last (take limit k)) as [x|] eqn:El.
  2:{ apply last_None in El. apply (f_equal length) in El. rewrite length_take in El. simpl in El. lia. }
  trans (take limit k ++ drop limit k); [f_equal|apply take_drop].
  apply (IH _ (l ++ take limit k)).
  - rewrite length_drop. lia.
  - by rewrite <- app_assoc, take_drop.
  - right. exists x. split; [done|]. by rewrite last_app, El.
Qed.

(** Walking the pages from the start lists every row once, in order. *)
Lemma keyset_walk_all fuel limit rows :
  limit ≠ 0 → distinct_keys rows → (length rows < fuel)%nat →
  keyset_walk fuel limit None rows = order_by by_key rows.
Proof using All.
  intros Hl Hd Hf. apply (keyset_walk_from _ _ _ []); [done..| | |by left].
  - by rewrite (Permutation_length (order_by_perm by_key rows)).
  - done.
Qed.
End keyset.

(** ** Clients that follow cursors

    A client asks for the first page, then for the page behind each cursor it is given, [fuel]
    pages at most; a refused request ends it. *)
Fixpoint page_walk {B C} (fuel : nat) (fetch : option C → option (list B * option C))
    (c : option C) : option (list B) :=
  match fuel with
  | O => Some []
  | S fuel' =>
      match fetch c with
      | None => None
      | Some (page, None) => Some page
      | Some (page, Some next) => app page <$> page_walk fuel' fetch (Some next)
      end
  end.

Section clients.
Context {A K B C : Type} (R : relation K) (key : A → K).
Context `{!RelDecision R, !Transitive R, !Total R}.

Lemma keyset_page_next limit c rows page k :
  keyset_page R key limit c rows = (page, Some k) → ∃ x, x ∈ rows ∧ key x = k.
Proof using.
  unfold keyset_page, page_of. destruct (_ <? _)%nat; [|done].
  intros [= _ Hl]. apply fmap_Some in Hl as (x & Hl & ->).
  exists x. split; [|done]. apply last_Some in Hl as [l' Hl].
  assert (x ∈ take limit (take (S limit) (order_by (by_key R key) (filter (λ x, beyond R key c x) rows)))) as Hx.
  { rewrite Hl. apply elem_of_app. right. by left. }
  apply subseteq_take, subseteq_take in Hx.
  apply elem_of_order_by, list_elem_of_filter in Hx. apply Hx.
Qed.

(** When every fetch renders a keyset page and hands out the cursor of its next key, the client
    sees the whole listing, once and in order. *)
Lemma page_walk_all (enc : K → C) (P : A → B → Prop) fetch fuel limit rows :
  limit ≠ 0 → distinct_keys R key rows → (length rows < fuel)%nat →
  (∀ c, (∀ k, c = Some k → ∃ x, x ∈ rows ∧ key x = k) →
     let '(l, next) := keyset_page R key limit c rows in
     ∃ bs, fetch (enc <$> c) = Some (bs, enc <$> next) ∧ Forall2 P l bs) →
  ∃ bs, page_walk fuel fetch None = Some bs ∧ Forall2 P (order_by (by_key R key) rows) bs.
Proof using All.
  intros Hl Hd Hf Hfetch.
  rewrite <- (keyset_walk_all R key fuel limit) by done. clear Hf.
  change (@None C) with (enc <$> None).
  assert (∀ k, None = Some k → ∃ x, x ∈ rows ∧ key x = k) as Hc by done. revert Hc.
  generalize (@None K) as c. induction fuel as [|fuel IH]; intros c Hc; [by exists []|].
  cbn [page_walk keyset_walk].
  specialize (Hfetch c Hc). destruct (keyset_page R key limit c rows) as [l next] eqn:Ep.
  destruct Hfetch as (bs & -> & HP). destruct next as [k|]; cbn [fmap option_fmap option_map];
    [|by exists bs].
  destruct (IH (Some k)) as (bs' & Hw & HP').
  { intros k' [= <-]. by eapply keyset_page_next. }
  cbn [fmap option_fmap option_map] in Hw.
  rewrite Hw. exists (bs ++ bs'). split; [done|]. by apply Forall2_app.
Qed.
End clients.

Lemma page_walk_ext {B C} fuel (f g : option C → option (list B * option C)) c :
  (∀ c, f c = g c) → page_walk fuel f c = page_walk fuel g c.
Proof.
  intros Hfg. revert c. induction fuel as [|fuel IH]; intros c; [done|]. simpl. rewrite Hfg.
  destruct (g c) as [[page [next|]]|]; [by rewrite IH|done..].
Qed.
