(* ===== verification/Platform.v ===== *)
(** * Interfaces to what the source calls but does not contain

    PostgreSQL's text ordering, timestamp storage and jsonb casts, and the codecs the
    handlers apply to strings. Each is a class: the operations the source uses and, as
    fields, the documented laws the theorems rely on. Concrete instances used by the
    witnesses are at the end. *)

From stdpp Require Import base strings sorting.
From Stdlib Require Import Ascii.
From S2P Require Import Prelude.
#[local] Open Scope Z_scope.

(** PostgreSQL compares text with the collation of the database: a total order whose ties
    are broken bytewise, so equal means identical. *)
Class Collation := {
  coll_le : relation string;
  coll_dec :: RelDecision coll_le;
  coll_po :: PartialOrder coll_le;
  coll_total :: Total coll_le;
}.

(** timestamptz columns keep microseconds: storing an instant (nanoseconds since the epoch)
    is monotone and idempotent. *)
Class PgTime := {
  pg_ts : Z → Z;
  pg_ts_mono a b : a ≤ b → pg_ts a ≤ pg_ts b;
  pg_ts_idem a : pg_ts (pg_ts a) = pg_ts a;
}.

(** Values of [encoding/json] decoded into [any]. A finite float64 is [m * 2 ^ e] with [m] odd
    or zero; an object is the key-sorted list of its entries, each key once. *)
Inductive json : Type :=
| JNull
| JBool (b : bool)
| JNum (m e : Z)
| JStr (s : string)
| JArr (l : list json)
| JObj (l : list (string * json)).

(** Structural equality of decoded values, [reflect.DeepEqual] of the source. *)
Fixpoint json_eqb (a b : json) {struct a} : bool :=
  let fix arr (l k : list json) : bool :=
    match l, k with
    | [], [] => true
    | x :: l', y :: k' => json_eqb x y && arr l' k'
    | _, _ => false
    end in
  let fix obj (l k : list (string * json)) : bool :=
    match l, k with
    | [], [] => true
    | (n, x) :: l', (n', y) :: k' => bool_decide (n = n') && json_eqb x y && obj l' k'
    | _, _ => false
    end in
  match a, b with
  | JNull, JNull => true
  | JBool x, JBool y => Bool.eqb x y
  | JNum m e, JNum m' e' => Z.eqb m m' && Z.eqb e e'
  | JStr s, JStr s' => bool_decide (s = s')
  | JArr l, JArr k => arr l k
  | JObj l, JObj k => obj l k
  | _, _ => false
  end.

(** Decoding of payload bytes and the jsonb cast of PostgreSQL. The cast rejects some valid
    documents; the text it stores decodes to the same value as the text it was given. *)
Class JsonCodec := {
  json_valid : string → bool;
  json_unmarshal : string → option json;
  json_marshal : json → string;
  jsonb_cast : string → option string;
  jsonb_cast_value s s' : jsonb_cast s = Some s' → json_unmarshal s' = json_unmarshal s;
}.

(** json.Compact: the document without insignificant space, nothing for an invalid one; and
    json.Marshal of a json.RawMessage, which is [null] for an absent one and an error for an
    invalid one. *)
Class JsonCompact := {
  json_compact : string → option string;
  json_remarshal : string → option string;
}.

(** RFC 3339 timestamps with nanoseconds. *)
Class TimeCodec := {
  parse_rfc3339 : string → option Z;
  format_rfc3339 : Z → string;
  parse_format t : parse_rfc3339 (format_rfc3339 t) = Some t;
}.

(** ** Authenticated encryption (crypto/aes, crypto/cipher) *)

(** [gcm_seal key nonce aad plaintext] is the ciphertext and the tag. Opening succeeds exactly
    on what sealing under the same key, nonce and associated data gives. *)
Class Aead := {
  gcm_seal : string → string → string → string → string * string;
  gcm_open : string → string → string → string → string → option string;
  gcm_open_seal k n a p : gcm_open k n a (gcm_seal k n a p).1 (gcm_seal k n a p).2 = Some p;
  gcm_open_sound k n a c t p : gcm_open k n a c t = Some p → gcm_seal k n a p = (c, t);
  gcm_tag_length k n a p : String.length (gcm_seal k n a p).2 = 16%nat;
}.

(** Lookup of an object key, [m[key]] on a Go map of decoded values. *)
Fixpoint obj_lookup (k : string) (l : list (string * json)) : option json :=
  match l with
  | [] => None
  | (n, v) :: l' => if bool_decide (n = k) then Some v else obj_lookup k l'
  end.

(** Conversion of a float64 to an integer truncates toward zero. *)
Definition float_to_int (m e : Z) : Z :=
  if 0 <=? e then m * 2 ^ e else Z.quot m (2 ^ (- e)).

(** ** Instances for the witnesses *)

(** Every instant is truncated to a whole number of microseconds. *)
Definition micros (t : Z) : Z := 1000 * (t / 1000).

Lemma micros_mono a b : a ≤ b → micros a ≤ micros b.
Proof. intros H. unfold micros. apply Z.mul_le_mono_nonneg_l; [lia|]. by apply Z.div_le_mono. Qed.

Lemma micros_idem a : micros (micros a) = micros a.
Proof. unfold micros. rewrite (Z.mul_comm 1000 (a / 1000)), Z.div_mul; lia. Qed.

Definition pg_micros : PgTime :=
  {| pg_ts := micros; pg_ts_mono := micros_mono; pg_ts_idem := micros_idem |}.

(** The C collation orders text by bytes. *)
Definition collation_C : Collation := {| coll_le := String.le |}.

(** A binary codec of instants, enough to run the definitions on. *)
Fixpoint pos_bits (p : positive) : string :=
  match p with
  | xH => ""
  | xO p' => String "0"%char (pos_bits p')
  | xI p' => String "1"%char (pos_bits p')
  end.

Fixpoint bits_pos (s : string) : option positive :=
  match s with
  | EmptyString => Some xH
  | String c s' =>
      if bool_decide (c = "0"%char) then xO <$> bits_pos s'
      else if bool_decide (c = "1"%char) then xI <$> bits_pos s'
      else None
  end.

Lemma bits_pos_bits p : bits_pos (pos_bits p) = Some p.
Proof. induction p as [p IH|p IH|]; simpl; [by rewrite IH..|done]. Qed.

Definition format_bits (t : Z) : string :=
  match t with
  | Z0 => "z"
  | Zpos p => String "+"%char (pos_bits p)
  | Zneg p => String "-"%char (pos_bits p)
  end.

Definition parse_bits (s : string) : option Z :=
  match s with
  | String c s' =>
      if bool_decide (c = "z"%char) then Some 0
      else if bool_decide (c = "+"%char) then Zpos <$> bits_pos s'
      else if bool_decide (c = "-"%char) then Zneg <$> bits_pos s'
      else None
  | EmptyString => None
  end.

Lemma parse_format_bits t : parse_bits (format_bits t) = Some t.
Proof. destruct t as [|p|p]; simpl; [done|by rewrite bits_pos_bits..]. Qed.

Definition time_bits : TimeCodec :=
  {| parse_rfc3339 := parse_bits; format_rfc3339 := format_bits;
     parse_format := parse_format_bits |}.

(** A codec that knows the empty object and a capacity observation, and reads any other text as
    a string value. *)
Definition quote : string := String "034"%char "".
Definition capacity_document : string := "{" +:+ quote +:+ "max_capacity" +:+ quote +:+ ":7}".

Definition json_plain_decode (s : string) : option json :=
  if bool_decide (s = "") then None
  else if bool_decide (s = "{}") then Some (JObj [])
  else if bool_decide (s = capacity_document) then Some (JObj [("max_capacity", JNum 7 0)])
  else Some (JStr s).

Definition json_plain : JsonCodec.
Proof.
  refine {| json_valid s := bool_decide (s ≠ ""); json_unmarshal := json_plain_decode;
            json_marshal _ := "{}";
            jsonb_cast := Some |}.
  by intros s s' [= ->].
Defined.

Definition compact_plain : JsonCompact := {|
  json_compact := Some;
  json_remarshal s := Some (if bool_decide (s = "") then "null" else s) |}.
