(* ===== verification/Tx.v ===== *)
(** * Transactions: the database/sql discipline of the stores

    A store operation is a sequence of SQL statements over a working copy of the database.
    Every statement may fail, either by an outage (decided by the environment) or by a
    constraint the statement violates, and the operation wraps the failure in an error of
    its own. Only [commit] makes the working copy durable; an operation that returns without
    committing is rolled back by its deferred [tx.Rollback()]. A commit that fails has no effect,
    or its acknowledgement was lost after it took effect: the client cannot tell. *)

From stdpp Require Import base strings list.
From S2P Require Import Prelude Platform.
#[local] Open Scope Z_scope.

(** What a statement reports to its caller: an outage, or the SQLSTATE and the constraint of
    a rejected write. *)
Inductive sql_error : Type :=
| SqlFault
| SqlScan
| SqlState (code constraint : string).

#[export] Instance sql_error_eq_dec : EqDecision sql_error.
Proof. solve_decision. Defined.

(** What the operation reads from outside the database: the transaction timestamp of the
    server, the clock of the process, the random identifiers it draws, which of its statements
    fail, the nonce it draws, unless the random source fails, whether a commit that fails took
    effect, and after how many rows the result of a statement breaks off. *)
Record TxEnv : Type := mkTxEnv {
  env_db_now : Z;
  env_now : Z;
  env_uuid : nat → string;
  env_fault : nat → bool;
  env_nonce : option string;
  env_lost : bool;
  env_cut : nat → option nat;
}.

Record TxSt (S : Type) : Type := mkTxSt {
  ts_db : S;
  ts_durable : S;
  ts_stmt : nat;
  ts_uuid : nat;
}.
Arguments mkTxSt {_}.
Arguments ts_db {_} _.
Arguments ts_durable {_} _.
Arguments ts_stmt {_} _.
Arguments ts_uuid {_} _.

Definition Tx (S E A : Type) : Type := TxEnv → TxSt S → result E A * TxSt S.

Section monad.
Context {S E : Type}.

Definition ret {A} (a : A) : Tx S E A := λ _ st, (Ok a, st).
Definition throw {A} (e : E) : Tx S E A := λ _ st, (Err e, st).

Definition bind {A B} (m : Tx S E A) (f : A → Tx S E B) : Tx S E B :=
  λ env st,
    match m env st with
    | (Ok a, st') => f a env st'
    | (Err e, st') => (Err e, st')
    end.

(** One SQL statement: reads the working copy, may change it, may fail. *)
Definition stmt {A} (wrap : sql_error → E) (f : TxEnv → S → result sql_error (S * A)) : Tx S E A :=
  λ env st,
    let st' := mkTxSt (ts_db st) (ts_durable st) (Datatypes.S (ts_stmt st)) (ts_uuid st) in
    if env_fault env (ts_stmt st) then (Err (wrap SqlFault), st')
    else
      match f env (ts_db st) with
      | Ok (db, a) => (Ok a, mkTxSt db (ts_durable st) (Datatypes.S (ts_stmt st)) (ts_uuid st))
      | Err e => (Err (wrap e), st')
      end.

(** [BeginTx]. *)
Definition begin_tx (wrap : sql_error → E) : Tx S E unit := stmt wrap (λ _ db, Ok (db, ())).

(** A SELECT; [query_scan] is one whose [Scan] can reject the row. *)
Definition query {A} (wrap : sql_error → E) (f : S → A) : Tx S E A :=
  stmt wrap (λ _ db, Ok (db, f db)).

Definition query_scan {A} (wrap : sql_error → E) (f : S → result sql_error A) : Tx S E A :=
  stmt wrap (λ _ db, match f db with Ok a => Ok (db, a) | Err e => Err e end).

(** A SELECT whose rows are read to their end without a look at [rows.Err()]: a result that breaks
    off is taken for a shorter one. *)
Definition query_unchecked {A} (wrap : sql_error → E) (f : S → list A) : Tx S E (list A) :=
  λ env st,
    stmt wrap (λ _ db, Ok (db, match env_cut env (ts_stmt st) with
                               | Some n => take n (f db)
                               | None => f db
                               end)) env st.

(** INSERT, UPDATE and DELETE; with RETURNING. *)
Definition exec (wrap : sql_error → E) (f : Z → S → result sql_error S) : Tx S E unit :=
  stmt wrap (λ env db, match f (env_db_now env) db with Ok db' => Ok (db', ()) | Err e => Err e end).

Definition exec_returning {A} (wrap : sql_error → E)
    (f : Z → S → result sql_error (S * A)) : Tx S E A :=
  stmt wrap (λ env db, f (env_db_now env) db).

(** [tx.Commit()]: on success the working copy is durable, and it is when only the
    acknowledgement fails. *)
Definition commit (wrap : sql_error → E) : Tx S E unit :=
  λ env st,
    let n := Datatypes.S (ts_stmt st) in
    if env_fault env (ts_stmt st)
    then (Err (wrap SqlFault),
          mkTxSt (ts_db st) (if env_lost env then ts_db st else ts_durable st) n (ts_uuid st))
    else (Ok (), mkTxSt (ts_db st) (ts_db st) n (ts_uuid st)).

(** [time.Now()] and [uuid.NewString()]. *)
Definition now : Tx S E Z := λ env st, (Ok (env_now env), st).

Definition fresh_uuid : Tx S E string :=
  λ env st, (Ok (env_uuid env (ts_uuid st)),
             mkTxSt (ts_db st) (ts_durable st) (ts_stmt st) (Datatypes.S (ts_uuid st))).

Definition begin_st (db : S) : TxSt S := mkTxSt db db 0 0.

(** [io.ReadFull(rand.Reader, nonce)]. *)
Definition fresh_nonce (e : E) : Tx S E string :=
  λ env st, match env_nonce env with Some n => (Ok n, st) | None => (Err e, st) end.

(** Two reads outside a transaction: other clients may commit in between, so the second finds
    another database. *)
Definition run_reads {A B} (m : Tx S E A) (f : A → Tx S E B) (env : TxEnv) (db db' : S) :
    result E B :=
  match m env (begin_st db) with
  | (Ok a, st) => (f a env (mkTxSt db' db' (ts_stmt st) (ts_uuid st))).1
  | (Err e, _) => Err e
  end.

(** An operation against a database: its result and the database it leaves. *)
Definition run_tx {A} (m : Tx S E A) (env : TxEnv) (db : S) : result E A * S :=
  let '(r, st) := m env (begin_st db) in (r, ts_durable st).
End monad.

Notation "x <- m ;; k" := (bind m (λ x, k))
  (at level 100, m at next level, right associativity) : flow_scope.
Notation "m ;;; k" := (bind m (λ _, k)) (at level 100, right associativity) : flow_scope.
Notation "'guard' b 'else' e ;; k" := (if b then k else throw e)
  (at level 100, b at level 99, e at level 99, right associativity) : flow_scope.

(** ** Inversion: what a successful run says about its steps *)

Section inversion.
Context {S E : Type}.
Implicit Types st : TxSt S.

Lemma bind_ok {A B} (m : Tx S E A) (f : A → Tx S E B) env st b st' :
  bind m f env st = (Ok b, st') →
  ∃ a st1, m env st = (Ok a, st1) ∧ f a env st1 = (Ok b, st').
Proof. unfold bind. destruct (m env st) as [[a|e] st1]; [eauto|done]. Qed.

Lemma ret_ok {A} (a b : A) env st st' :
  @ret S E A a env st = (Ok b, st') → b = a ∧ st' = st.
Proof. unfold ret. by intros [= -> ->]. Qed.

Lemma throw_ok {A} (e : E) env st (b : A) st' : @throw S E A e env st = (Ok b, st') → False.
Proof. done. Qed.

Lemma stmt_ok {A} wrap (f : TxEnv → S → result sql_error (S * A)) env st a st' :
  @stmt S E A wrap f env st = (Ok a, st') →
  ∃ db, f env (ts_db st) = Ok (db, a) ∧
        ts_db st' = db ∧ ts_durable st' = ts_durable st ∧ ts_uuid st' = ts_uuid st.
Proof.
  unfold stmt. destruct (env_fault env (ts_stmt st)); [done|].
  destruct (f env (ts_db st)) as [[db x]|e] eqn:Ef; [|done].
  intros [= -> <-]. by exists db.
Qed.

Lemma begin_ok wrap env st a st' :
  @begin_tx S E wrap env st = (Ok a, st') →
  ts_db st' = ts_db st ∧ ts_durable st' = ts_durable st ∧ ts_uuid st' = ts_uuid st.
Proof. intros H. apply stmt_ok in H as (db & [= <-] & ? & ? & ?). done. Qed.

Lemma query_ok {A} wrap (f : S → A) env st a st' :
  @query S E A wrap f env st = (Ok a, st') →
  a = f (ts_db st) ∧ ts_db st' = ts_db st ∧ ts_durable st' = ts_durable st ∧
  ts_uuid st' = ts_uuid st.
Proof. intros H. apply stmt_ok in H as (db & [= <- <-] & ? & ? & ?). done. Qed.

Lemma query_scan_ok {A} wrap (f : S → result sql_error A) env st a st' :
  @query_scan S E A wrap f env st = (Ok a, st') →
  f (ts_db st) = Ok a ∧ ts_db st' = ts_db st ∧ ts_durable st' = ts_durable st ∧
  ts_uuid st' = ts_uuid st.
Proof.
  intros H. apply stmt_ok in H as (db & Hf & ? & ? & ?).
  destruct (f (ts_db st)); simplify_eq. done.
Qed.

Lemma query_unchecked_ok {A} wrap (f : S → list A) env st a st' :
  @query_unchecked S E A wrap f env st = (Ok a, st') →
  a = match env_cut env (ts_stmt st) with Some n => take n (f (ts_db st)) | None => f (ts_db st) end.
Proof. intros H. apply stmt_ok in H as (db & Hf & _). by simplify_eq. Qed.

Lemma run_reads_ok {A B} (m : Tx S E A) (f : A → Tx S E B) env db db' b :
  run_reads m f env db db' = Ok b →
  ∃ a st st', m env (begin_st db) = (Ok a, st) ∧
    f a env (mkTxSt db' db' (ts_stmt st) (ts_uuid st)) = (Ok b, st').
Proof.
  unfold run_reads. destruct (m env (begin_st db)) as [[a|e] st]; [|done]. intros Hf.
  destruct (f a env _) as [r st'] eqn:E'. simpl in Hf. subst r. eauto.
Qed.

Lemma exec_ok wrap (f : Z → S → result sql_error S) env st a st' :
  @exec S E wrap f env st = (Ok a, st') →
  f (env_db_now env) (ts_db st) = Ok (ts_db st') ∧ ts_durable st' = ts_durable st ∧
  ts_uuid st' = ts_uuid st.
Proof.
  intros H. apply stmt_ok in H as (db & Hf & ? & ? & ?).
  destruct (f _ (ts_db st)); simplify_eq. done.
Qed.

Lemma exec_returning_ok {A} wrap (f : Z → S → result sql_error (S * A)) env st a st' :
  @exec_returning S E A wrap f env st = (Ok a, st') →
  f (env_db_now env) (ts_db st) = Ok (ts_db st', a) ∧ ts_durable st' = ts_durable st ∧
  ts_uuid st' = ts_uuid st.
Proof. intros H. apply stmt_ok in H as (db & Hf & ? & ? & ?). by subst. Qed.

Lemma commit_ok wrap env st a st' :
  @commit S E wrap env st = (Ok a, st') →
  ts_db st' = ts_db st ∧ ts_durable st' = ts_db st ∧ ts_uuid st' = ts_uuid st.
Proof. unfold commit. destruct (env_fault env (ts_stmt st)); [done|]. by intros [= _ <-]. Qed.

Lemma now_ok env st a st' :
  @now S E env st = (Ok a, st') → a = env_now env ∧ st' = st.
Proof. unfold now. by intros [= <- <-]. Qed.

Lemma fresh_uuid_ok env st a st' :
  @fresh_uuid S E env st = (Ok a, st') →
  a = env_uuid env (ts_uuid st) ∧ ts_db st' = ts_db st ∧ ts_durable st' = ts_durable st ∧
  ts_uuid st' = Datatypes.S (ts_uuid st).
Proof. unfold fresh_uuid. by intros [= <- <-]. Qed.

Lemma fresh_nonce_ok (e : E) env st n st' :
  @fresh_nonce S E e env st = (Ok n, st') → env_nonce env = Some n ∧ st' = st.
Proof. unfold fresh_nonce. destruct (env_nonce env); [|done]. by intros [= <- <-]. Qed.
End inversion.

(** Decomposes a successful run into the facts of its steps. *)
Ltac tx_step :=
  match goal with
  | H : bind _ _ _ _ = (Ok _, _) |- _ =>
      let a := fresh "a" in let st := fresh "st" in
      let H1 := fresh "Hm" in let H2 := fresh "Hk" in
      apply bind_ok in H as (a & st & H1 & H2)
  | H : ret _ _ _ = (Ok _, _) |- _ => apply ret_ok in H as [? ?]
  | H : throw _ _ _ = (Ok _, _) |- _ => exfalso; exact (throw_ok _ _ _ _ _ H)
  | H : begin_tx _ _ _ = (Ok _, _) |- _ => apply begin_ok in H as (? & ? & ?)
  | H : query _ _ _ _ = (Ok _, _) |- _ => apply query_ok in H as (? & ? & ? & ?)
  | H : query_scan _ _ _ _ = (Ok _, _) |- _ => apply query_scan_ok in H as (? & ? & ? & ?)
  | H : exec _ _ _ _ = (Ok _, _) |- _ => apply exec_ok in H as (? & ? & ?)
  | H : exec_returning _ _ _ _ = (Ok _, _) |- _ => apply exec_returning_ok in H as (? & ? & ?)
  | H : commit _ _ _ = (Ok _, _) |- _ => apply commit_ok in H as (? & ? & ?)
  | H : now _ _ = (Ok _, _) |- _ => apply now_ok in H as [? ?]
  | H : fresh_nonce _ _ _ = (Ok _, _) |- _ => apply fresh_nonce_ok in H as [? ?]
  | H : fresh_uuid _ _ = (Ok _, _) |- _ => apply fresh_uuid_ok in H as (? & ? & ? & ?)
  | H : (if ?b then _ else _) _ _ = (Ok _, _) |- _ =>
      let E := fresh "Hg" in destruct b eqn:E
  | H : (match ?x with _ => _ end) _ _ = (Ok _, _) |- _ =>
      let E := fresh "Hc" in destruct x eqn:E
  | H : (let '(_, _) := ?x in _) _ _ = (Ok _, _) |- _ => destruct x
  end.
Ltac tx_inv := repeat (tx_step; cbv beta in *); subst.

(** Applies an operation's own inversion lemma to the run of it in the context. *)
Ltac use_ok lem :=
  match goal with
  | H : _ = (Ok _, _) |- _ => apply lem in H; destruct_and?
  | H : _ = Ok _ |- _ => apply lem in H; destruct_and?
  end.

(** The states of a run are equal field by field: rewrites them to the first one. *)
Ltac tx_states :=
  repeat match goal with
  | H : Ok (ts_db _) = Ok (ts_db _) |- _ => injection H as H; symmetry in H
  | H : ts_db ?a = ts_db ?b |- _ => rewrite H in *; clear H
  | H : ts_durable ?a = ts_durable ?b |- _ => rewrite H in *; clear H
  | H : ts_uuid ?a = ts_uuid ?b |- _ => rewrite H in *; clear H
  | H : ts_durable ?a = ts_db ?b |- _ => rewrite H in *; clear H
  | H : ts_db ?a = ?d |- _ => is_var d; rewrite H in *; clear H
  | H : ts_durable ?a = ?d |- _ => is_var d; rewrite H in *; clear H
  end.

(** ** Atomicity: an operation that reports an error leaves the database unchanged

    With one exception, a commit whose acknowledgement is lost; then it leaves what it would have
    left with the acknowledgement. *)

(** The environment in which the [n]-th statement is answered. *)
Definition answered (n : nat) (env : TxEnv) : TxEnv :=
  mkTxEnv (env_db_now env) (env_now env) (env_uuid env)
    (λ k, if bool_decide (k = n) then false else env_fault env k)
    (env_nonce env) (env_lost env) (env_cut env).

(** [unacknowledged env env']: a failure of [env] was that of an acknowledgement, which [env'] has. *)
Definition unacknowledged (env env' : TxEnv) : Prop :=
  env_lost env = true ∧ ∃ n, env_fault env n = true ∧ env' = answered n env.

Section atomic.
Context {S E : Type}.

(** A success does not depend on whether later statements are answered. *)
Definition steady {A} (m : Tx S E A) : Prop :=
  ∀ env n st a st', m env st = (Ok a, st') → (ts_stmt st' ≤ n)%nat →
    m (answered n env) st = (Ok a, st').

Record never_commits {A} (m : Tx S E A) : Prop := mkNeverCommits {
  nc_durable env st r st' : m env st = (r, st') → ts_durable st' = ts_durable st;
  nc_later env st r st' : m env st = (r, st') → (ts_stmt st ≤ ts_stmt st')%nat;
  nc_steady : steady m }.

Definition never_fails {A} (m : Tx S E A) : Prop :=
  ∀ env st e st', m env st ≠ (Err e, st').

Definition error_keeps {A} (m : Tx S E A) : Prop :=
  ∀ env st e st', m env st = (Err e, st') →
    ts_durable st' = ts_durable st ∨
    env_lost env = true ∧ ∃ n a st'', (ts_stmt st ≤ n)%nat ∧ env_fault env n = true ∧
      m (answered n env) st = (Ok a, st'') ∧ ts_durable st'' = ts_durable st'.

Lemma never_commits_error {A} (m : Tx S E A) : never_commits m → error_keeps m.
Proof. intros [H _ _] env st e st' Hm. left. by apply H in Hm. Qed.

Lemma never_commits_bind {A B} (m : Tx S E A) (f : A → Tx S E B) :
  never_commits m → (∀ a, never_commits (f a)) → never_commits (bind m f).
Proof.
  intros [Hd Hl Hs] Hf. split.
  - intros env st r st'. unfold bind. destruct (m env st) as [[a|e] st1] eqn:Em.
    + intros Hr. apply (nc_durable _ (Hf a)) in Hr. apply Hd in Em. congruence.
    + intros [= <- <-]. by apply Hd in Em.
  - intros env st r st'. unfold bind. destruct (m env st) as [[a|e] st1] eqn:Em.
    + intros Hr. apply (nc_later _ (Hf a)) in Hr. apply Hl in Em. lia.
    + intros [= <- <-]. by apply Hl in Em.
  - intros env n st b st'. unfold bind. destruct (m env st) as [[a|e] st1] eqn:Em; [|done].
    intros Hr Hn. pose proof (nc_later _ (Hf a) _ _ _ _ Hr).
    rewrite (Hs _ n _ _ _ Em) by lia. by apply (nc_steady _ (Hf a)).
Qed.

Lemma error_keeps_bind {A B} (m : Tx S E A) (f : A → Tx S E B) :
  never_commits m → (∀ a, error_keeps (f a)) → error_keeps (bind m f).
Proof.
  intros [Hd Hl Hs] Hf env st e st'. unfold bind.
  destruct (m env st) as [[a|e'] st1] eqn:Em; [|intros [= <- <-]; left; by apply Hd in Em].
  intros Hr. apply Hf in Hr as [Hr|(Hlost & n & b & st2 & Hle & Hn & Hr & Hk)].
  - left. apply Hd in Em. congruence.
  - right. split; [done|]. exists n, b, st2. rewrite (Hs _ _ _ _ _ Em Hle).
    apply Hl in Em. split_and!; [lia|done..].
Qed.

Lemma error_keeps_last {A B} (m : Tx S E A) (f : A → Tx S E B) :
  error_keeps m → (∀ a, never_commits (f a)) → (∀ a, never_fails (f a)) → error_keeps (bind m f).
Proof.
  intros Hm Hk Hf env st e st'. unfold bind.
  destruct (m env st) as [[a|e'] st1] eqn:Em; [by intros ?%Hf|].
  intros [= <- <-]. apply Hm in Em as [?|(Hl & n & a & st2 & Hle & Hn & Hr & Hd)]; [by left|].
  right. split; [done|]. destruct (f a (answered n env) st2) as [[b|e] st3] eqn:Ef; [|by apply Hf in Ef].
  exists n, b, st3. rewrite Hr. pose proof (nc_durable _ (Hk a) _ _ _ _ Ef).
  split_and!; [done..|congruence].
Qed.

Lemma ret_never_fails {A} (a : A) : never_fails (ret a).
Proof. by intros env st e st'. Qed.
Lemma ret_never_commits {A} (a : A) : never_commits (ret a).
Proof. by split; [intros env st r st' [= <- <-]..|intros env n st b st' [= <- <-]]. Qed.
Lemma throw_never_commits {A} (e : E) : never_commits (@throw S E A e).
Proof. by split; [intros env st r st' [= <- <-]..|]. Qed.
(** A statement that does not look at the failures itself. *)
Lemma stmt_never_commits {A} wrap (f : TxEnv → S → result sql_error (S * A)) :
  (∀ n env, f (answered n env) = f env) → never_commits (@stmt S E A wrap f).
Proof.
  intros Hf. split.
  - intros env st r st'. unfold stmt. destruct (env_fault _ _); [by intros [= <- <-]|].
    destruct (f _ _) as [[? ?]|?]; by intros [= <- <-].
  - intros env st r st'. unfold stmt. destruct (env_fault _ _); [intros [= <- <-]; simpl; lia|].
    destruct (f _ _) as [[? ?]|?]; intros [= <- <-]; simpl; lia.
  - intros env n st a st'. unfold stmt. rewrite Hf. simpl. destruct (env_fault env (ts_stmt st)) eqn:Ef; [done|].
    intros Hr Hn. by case_bool_decide.
Qed.
Lemma query_unchecked_never_commits {A} wrap (f : S → list A) :
  never_commits (@query_unchecked S E A wrap f).
Proof.
  split; unfold query_unchecked.
  - intros env st r st' Hr. by refine (nc_durable _ (stmt_never_commits _ _ _) _ _ _ _ Hr).
  - intros env st r st' Hr. by refine (nc_later _ (stmt_never_commits _ _ _) _ _ _ _ Hr).
  - intros env n st a st' Hr Hn. by refine (nc_steady _ (stmt_never_commits _ _ _) _ _ _ _ _ Hr Hn).
Qed.
Lemma now_never_commits : never_commits (@now S E).
Proof. by split; [intros env st r st' [= <- <-]..|intros env n st b st' [= <- <-]]. Qed.
Lemma fresh_uuid_never_commits : never_commits (@fresh_uuid S E).
Proof. by split; [intros env st r st' [= <- <-]..|intros env n st b st' [= <- <-]]. Qed.
Lemma fresh_nonce_never_commits e : never_commits (@fresh_nonce S E e).
Proof.
  split; unfold fresh_nonce.
  - intros env st r st'. destruct (env_nonce env); by intros [= <- <-].
  - intros env st r st'. destruct (env_nonce env); by intros [= <- <-].
  - intros env n st a st'. simpl. by destruct (env_nonce env).
Qed.
Lemma commit_error_keeps wrap : error_keeps (@commit S E wrap).
Proof.
  intros env st e st'. unfold commit. destruct (env_fault env (ts_stmt st)) eqn:Ef; [|done].
  intros [= _ <-]. destruct (env_lost env) eqn:El; [right|by left]. split; [done|].
  eexists (ts_stmt st), _, _. split; [done|]. split; [done|]. simpl. by rewrite bool_decide_eq_true_2.
Qed.

(** The database a failed operation leaves is the one it started from, or, when the acknowledgement
    of its commit is lost, the one it leaves with the acknowledgement. *)
Lemma run_tx_error {A} (m : Tx S E A) env db e db' :
  error_keeps m → run_tx m env db = (Err e, db') →
  db' = db ∨ ∃ env' a, unacknowledged env env' ∧ run_tx m env' db = (Ok a, db').
Proof.
  intros Hm. unfold run_tx. destruct (m env (begin_st db)) as [r st] eqn:Em.
  intros [= -> <-]. apply Hm in Em as [?|(Hl & n & a & st' & _ & Hn & Hr & Hd)]; [by left|right].
  exists (answered n env), a. rewrite Hr, Hd. split; [|done]. split; [done|]. by exists n.
Qed.

(** So whatever it returns, it leaves the database alone or does what a success does. *)
Lemma run_tx_cases {A} (m : Tx S E A) env db r db' :
  error_keeps m → run_tx m env db = (r, db') →
  db' = db ∨ ∃ env' a, run_tx m env' db = (Ok a, db').
Proof.
  intros Hm Hr. destruct r as [a|e]; [right; eauto|].
  apply run_tx_error in Hr as [?|(env' & a & _ & ?)]; [by left|right; eauto|done].
Qed.

Lemma run_tx_ok {A} (m : Tx S E A) env db a db' :
  run_tx m env db = (Ok a, db') → ∃ st, m env (begin_st db) = (Ok a, st) ∧ db' = ts_durable st.
Proof.
  unfold run_tx. destruct (m env (begin_st db)) as [r st] eqn:Em. intros [= -> <-]. eauto.
Qed.

(** An operation that never commits leaves the database unchanged whatever it returns. *)
Lemma run_tx_never_commits {A} (m : Tx S E A) env db r db' :
  never_commits m → run_tx m env db = (r, db') → db' = db.
Proof.
  intros Hm. unfold run_tx. destruct (m env (begin_st db)) as [r' st] eqn:Em.
  intros [= -> <-]. by apply (nc_durable _ Hm) in Em.
Qed.

(** Reads after the transaction do not change what it left. *)
Lemma run_tx_then_reads {A B} (m : Tx S E A) (f : A → Tx S E B) env db r db' :
  (∀ a, never_commits (f a)) → run_tx (bind m f) env db = (r, db') →
  ∃ r', run_tx m env db = (r', db').
Proof.
  intros Hf. unfold run_tx, bind. destruct (m env (begin_st db)) as [[a|e] st] eqn:Em.
  - destruct (f a env st) as [rb st'] eqn:Ef. apply (nc_durable _ (Hf a)) in Ef. intros [= _ <-]. rewrite Ef. eauto.
  - intros [= _ <-]. eauto.
Qed.
End atomic.

#[export] Hint Resolve ret_never_commits ret_never_fails throw_never_commits
  query_unchecked_never_commits now_never_commits fresh_uuid_never_commits fresh_nonce_never_commits commit_error_keeps never_commits_error : flow.

(** Proves [never_commits] and [error_keeps] by following the operation's text. *)
Ltac tx_atomic :=
  repeat first
    [ progress eauto 3 with flow
    | progress unfold begin_tx, query, query_scan, exec, exec_returning
    | apply stmt_never_commits; done
    | match goal with
      | |- never_commits (if _ then _ else _) => destr_goal
      | |- error_keeps (if _ then _ else _) => destr_goal
      | |- never_commits (match _ with _ => _ end) => destr_goal
      | |- error_keeps (match _ with _ => _ end) => destr_goal
      | |- never_commits (bind _ _) => apply never_commits_bind; [|intros ?]
      | |- error_keeps (bind (commit _) _) => apply error_keeps_last; [|intros ?|intros ?]
      | |- error_keeps (bind _ _) => apply error_keeps_bind; [|intros ?]
      end ].
