(* ===== verification/Schema.v ===== *)
(** * The State Registry schema (svc/state-registry/internal/migrations/sql)

    One record per table row and one finite map per table, keyed by its primary key, as the
    three migrations leave them. A write is a function that applies the constraints of the
    table it writes (NOT NULL by typing, CHECK, UNIQUE, PRIMARY KEY, FOREIGN KEY and the
    triggers) and reports the SQLSTATE of the one it violates. Columns that no statement of
    the stores reads or writes are left out. *)

From stdpp Require Import base gmap strings list.
From Stdlib Require Import Ascii.
From S2P Require Import Prelude Platform Tx.
#[local] Open Scope Z_scope.

(** platform.ImageReference, the value of a jsonb image column. *)
Record ImageReference : Type := mkImage { im_repository : string; im_digest : string }.

#[export] Instance image_eq_dec : EqDecision ImageReference.
Proof. solve_decision. Defined.

(** Decoding of the JSON form of an image reference. *)
Class ImageCodec := { image_of_json : string → option ImageReference }.

Record TeamRow : Type := mkTeam {
  tm_id : string; tm_name : string; tm_default_image : string;
  tm_ingested_at : Z; tm_archived_at : option Z }.

Record SourceRow : Type := mkSource {
  ss_id : string; ss_team : string; ss_listener : string;
  ss_default_image : option ImageReference; ss_created_at : Z; ss_updated_at : Z }.

Record TaskTypeRow : Type := mkTaskType {
  tt_id : string; tt_team : string; tt_tag : string;
  tt_default_image : option ImageReference; tt_created_at : Z; tt_updated_at : Z }.

Record ExecutorRow : Type := mkExecutor {
  ex_id : string; ex_scope : string; ex_team : option string; ex_type : string;
  ex_identity : string; ex_tag : string; ex_max_capacity : Z; ex_running_count : Z;
  ex_metadata : string; ex_registered_at : Z; ex_updated_at : Z }.

Record TaskRow : Type := mkTask {
  tk_id : string; tk_team : string; tk_source_system : string; tk_source_id : string;
  tk_type : string; tk_tag : string; tk_payload : string; tk_state : string;
  tk_owner_command : option string; tk_executor : option string; tk_project : option string;
  tk_image : option ImageReference; tk_resolved_image : option ImageReference;
  tk_image_source : option string; tk_ingested_at : Z; tk_claimed_at : option Z }.

Record TaskEventRow : Type := mkTaskEvent {
  te_id : string; te_team : string; te_task : string; te_executor : string;
  te_type : string; te_occurred_at : Z; te_payload : string }.

Record ExecutorEventRow : Type := mkExecutorEvent {
  ee_id : string; ee_executor : string; ee_team : option string; ee_task : option string;
  ee_type : string; ee_occurred_at : Z; ee_payload : string }.

Record AuditRow : Type := mkAudit {
  au_id : string; au_team : option string; au_actor : string; au_actor_type : string;
  au_action : string; au_resource_type : string; au_resource_id : string;
  au_request : string; au_outcome : string; au_scope : option string; au_occurred_at : Z }.

Record TeamAuditRow : Type := mkTeamAudit {
  ta_old_name : option string; ta_new_name : string; ta_old_image : option string;
  ta_new_image : string; ta_archived_at : option Z }.

Record ControlRow : Type := mkControl {
  ct_id : string; ct_team : string; ct_task : string; ct_operator : string;
  ct_action : string; ct_key : string; ct_reason : option string; ct_status : string;
  ct_audit : string; ct_requested_at : Z }.

Record ControlEventRow : Type := mkControlEvent {
  ce_id : string; ce_control : string; ce_task : string; ce_team : string;
  ce_executor : option string; ce_status : string; ce_occurred_at : Z; ce_payload : string }.

Record LogChunkRow : Type := mkLogChunk {
  lc_id : string; lc_task : string; lc_team : string; lc_executor : string;
  lc_offset : Z; lc_stream : string; lc_content : string; lc_occurred_at : Z }.

Record EnvDefRow : Type := mkEnvDef {
  ed_id : string; ed_team : option string; ed_scope : option string;
  ed_task_type : option string; ed_name : string; ed_values : gmap string string;
  ed_image : option string; ed_revision : Z; ed_deleted : bool;
  ed_created_at : Z; ed_updated_at : Z }.

Record SecretRow : Type := mkSecret {
  se_id : string; se_team : option string; se_env : string; se_name : string;
  se_revoked : bool; se_latest_version : option Z; se_created_at : Z; se_updated_at : Z }.

Record SecretVersionRow : Type := mkSecretVersion {
  sv_team : option string; sv_ciphertext : string; sv_nonce : string; sv_tag : string;
  sv_key_id : string; sv_key_version : Z; sv_created_at : Z }.

Record EnvRevisionRow : Type := mkEnvRevision {
  er_team : option string; er_scope : string; er_task_type : option string; er_name : string;
  er_values : gmap string string; er_secret_keys : list string; er_image : option string;
  er_deleted : bool; er_actor : string; er_request : string; er_created_at : Z }.

Record SecretRefRow : Type := mkSecretRef { sr_team : string; sr_secret : string; sr_version : Z }.

Record SnapshotRow : Type := mkSnapshot { sn_team : string; sn_values : gmap string string }.

Record DB : Type := mkDB {
  db_teams : gmap string TeamRow;
  db_sources : gmap string SourceRow;
  db_types : gmap string TaskTypeRow;
  db_executors : gmap string ExecutorRow;
  db_tasks : gmap string TaskRow;
  db_task_events : gmap string TaskEventRow;
  db_executor_events : gmap string ExecutorEventRow;
  db_audit : gmap string AuditRow;
  db_team_audit : gmap string TeamAuditRow;
  db_controls : gmap string ControlRow;
  db_control_events : gmap string ControlEventRow;
  db_logs : gmap string LogChunkRow;
  db_envs : gmap string EnvDefRow;
  db_env_revisions : gmap (string * Z) EnvRevisionRow;
  db_secrets : gmap string SecretRow;
  db_secret_versions : gmap (string * Z) SecretVersionRow;
  db_snapshots : gmap string SnapshotRow;
  db_secret_refs : gmap (string * string) SecretRefRow;
}.

Definition empty_db : DB := mkDB ∅ ∅ ∅ ∅ ∅ ∅ ∅ ∅ ∅ ∅ ∅ ∅ ∅ ∅ ∅ ∅ ∅ ∅.

(** Replacing one table. *)
Definition with_teams (m : gmap string TeamRow) (d : DB) : DB :=
  mkDB m (db_sources d) (db_types d) (db_executors d) (db_tasks d) (db_task_events d)
    (db_executor_events d) (db_audit d) (db_team_audit d) (db_controls d) (db_control_events d)
    (db_logs d) (db_envs d) (db_env_revisions d) (db_secrets d) (db_secret_versions d)
    (db_snapshots d) (db_secret_refs d).
Definition with_sources (m : gmap string SourceRow) (d : DB) : DB :=
  mkDB (db_teams d) m (db_types d) (db_executors d) (db_tasks d) (db_task_events d)
    (db_executor_events d) (db_audit d) (db_team_audit d) (db_controls d) (db_control_events d)
    (db_logs d) (db_envs d) (db_env_revisions d) (db_secrets d) (db_secret_versions d)
    (db_snapshots d) (db_secret_refs d).
Definition with_types (m : gmap string TaskTypeRow) (d : DB) : DB :=
  mkDB (db_teams d) (db_sources d) m (db_executors d) (db_tasks d) (db_task_events d)
    (db_executor_events d) (db_audit d) (db_team_audit d) (db_controls d) (db_control_events d)
    (db_logs d) (db_envs d) (db_env_revisions d) (db_secrets d) (db_secret_versions d)
    (db_snapshots d) (db_secret_refs d).
Definition with_executors (m : gmap string ExecutorRow) (d : DB) : DB :=
  mkDB (db_teams d) (db_sources d) (db_types d) m (db_tasks d) (db_task_events d)
    (db_executor_events d) (db_audit d) (db_team_audit d) (db_controls d) (db_control_events d)
    (db_logs d) (db_envs d) (db_env_revisions d) (db_secrets d) (db_secret_versions d)
    (db_snapshots d) (db_secret_refs d).
Definition with_tasks (m : gmap string TaskRow) (d : DB) : DB :=
  mkDB (db_teams d) (db_sources d) (db_types d) (db_executors d) m (db_task_events d)
    (db_executor_events d) (db_audit d) (db_team_audit d) (db_controls d) (db_control_events d)
    (db_logs d) (db_envs d) (db_env_revisions d) (db_secrets d) (db_secret_versions d)
    (db_snapshots d) (db_secret_refs d).
Definition with_task_events (m : gmap string TaskEventRow) (d : DB) : DB :=
  mkDB (db_teams d) (db_sources d) (db_types d) (db_executors d) (db_tasks d) m
    (db_executor_events d) (db_audit d) (db_team_audit d) (db_controls d) (db_control_events d)
    (db_logs d) (db_envs d) (db_env_revisions d) (db_secrets d) (db_secret_versions d)
    (db_snapshots d) (db_secret_refs d).
Definition with_executor_events (m : gmap string ExecutorEventRow) (d : DB) : DB :=
  mkDB (db_teams d) (db_sources d) (db_types d) (db_executors d) (db_tasks d) (db_task_events d)
    m (db_audit d) (db_team_audit d) (db_controls d) (db_control_events d) (db_logs d) (db_envs
    d) (db_env_revisions d) (db_secrets d) (db_secret_versions d) (db_snapshots d)
    (db_secret_refs d).
Definition with_audit (m : gmap string AuditRow) (d : DB) : DB :=
  mkDB (db_teams d) (db_sources d) (db_types d) (db_executors d) (db_tasks d) (db_task_events d)
    (db_executor_events d) m (db_team_audit d) (db_controls d) (db_control_events d) (db_logs d)
    (db_envs d) (db_env_revisions d) (db_secrets d) (db_secret_versions d) (db_snapshots d)
    (db_secret_refs d).
Definition with_team_audit (m : gmap string TeamAuditRow) (d : DB) : DB :=
  mkDB (db_teams d) (db_sources d) (db_types d) (db_executors d) (db_tasks d) (db_task_events d)
    (db_executor_events d) (db_audit d) m (db_controls d) (db_control_events d) (db_logs d)
    (db_envs d) (db_env_revisions d) (db_secrets d) (db_secret_versions d) (db_snapshots d)
    (db_secret_refs d).
Definition with_controls (m : gmap string ControlRow) (d : DB) : DB :=
  mkDB (db_teams d) (db_sources d) (db_types d) (db_executors d) (db_tasks d) (db_task_events d)
    (db_executor_events d) (db_audit d) (db_team_audit d) m (db_control_events d) (db_logs d)
    (db_envs d) (db_env_revisions d) (db_secrets d) (db_secret_versions d) (db_snapshots d)
    (db_secret_refs d).
Definition with_control_events (m : gmap string ControlEventRow) (d : DB) : DB :=
  mkDB (db_teams d) (db_sources d) (db_types d) (db_executors d) (db_tasks d) (db_task_events d)
    (db_executor_events d) (db_audit d) (db_team_audit d) (db_controls d) m (db_logs d) (db_envs
    d) (db_env_revisions d) (db_secrets d) (db_secret_versions d) (db_snapshots d)
    (db_secret_refs d).
Definition with_logs (m : gmap string LogChunkRow) (d : DB) : DB :=
  mkDB (db_teams d) (db_sources d) (db_types d) (db_executors d) (db_tasks d) (db_task_events d)
    (db_executor_events d) (db_audit d) (db_team_audit d) (db_controls d) (db_control_events d)
    m (db_envs d) (db_env_revisions d) (db_secrets d) (db_secret_versions d) (db_snapshots d)
    (db_secret_refs d).
Definition with_envs (m : gmap string EnvDefRow) (d : DB) : DB :=
  mkDB (db_teams d) (db_sources d) (db_types d) (db_executors d) (db_tasks d) (db_task_events d)
    (db_executor_events d) (db_audit d) (db_team_audit d) (db_controls d) (db_control_events d)
    (db_logs d) m (db_env_revisions d) (db_secrets d) (db_secret_versions d) (db_snapshots d)
    (db_secret_refs d).
Definition with_env_revisions (m : gmap (string * Z) EnvRevisionRow) (d : DB) : DB :=
  mkDB (db_teams d) (db_sources d) (db_types d) (db_executors d) (db_tasks d) (db_task_events d)
    (db_executor_events d) (db_audit d) (db_team_audit d) (db_controls d) (db_control_events d)
    (db_logs d) (db_envs d) m (db_secrets d) (db_secret_versions d) (db_snapshots d)
    (db_secret_refs d).
Definition with_secrets (m : gmap string SecretRow) (d : DB) : DB :=
  mkDB (db_teams d) (db_sources d) (db_types d) (db_executors d) (db_tasks d) (db_task_events d)
    (db_executor_events d) (db_audit d) (db_team_audit d) (db_controls d) (db_control_events d)
    (db_logs d) (db_envs d) (db_env_revisions d) m (db_secret_versions d) (db_snapshots d)
    (db_secret_refs d).
Definition with_secret_versions (m : gmap (string * Z) SecretVersionRow) (d : DB) : DB :=
  mkDB (db_teams d) (db_sources d) (db_types d) (db_executors d) (db_tasks d) (db_task_events d)
    (db_executor_events d) (db_audit d) (db_team_audit d) (db_controls d) (db_control_events d)
    (db_logs d) (db_envs d) (db_env_revisions d) (db_secrets d) m (db_snapshots d)
    (db_secret_refs d).
Definition with_snapshots (m : gmap string SnapshotRow) (d : DB) : DB :=
  mkDB (db_teams d) (db_sources d) (db_types d) (db_executors d) (db_tasks d) (db_task_events d)
    (db_executor_events d) (db_audit d) (db_team_audit d) (db_controls d) (db_control_events d)
    (db_logs d) (db_envs d) (db_env_revisions d) (db_secrets d) (db_secret_versions d) m
    (db_secret_refs d).
Definition with_secret_refs (m : gmap (string * string) SecretRefRow) (d : DB) : DB :=
  mkDB (db_teams d) (db_sources d) (db_types d) (db_executors d) (db_tasks d) (db_task_events d)
    (db_executor_events d) (db_audit d) (db_team_audit d) (db_controls d) (db_control_events d)
    (db_logs d) (db_envs d) (db_env_revisions d) (db_secrets d) (db_secret_versions d)
    (db_snapshots d) m.

(** ** Constants of the platform package *)

Definition ScopeTeam : string := "team".
Definition ScopeSystem : string := "system".
Definition StatePending : string := "pending".
Definition StateCreated : string := "created".
Definition StateRunning : string := "running".
Definition StateFinished : string := "finished".
Definition StateFailed : string := "failed".
Definition TaskStates : list string :=
  [StatePending; StateCreated; StateRunning; StateFinished; StateFailed].
Definition TypeCreated : string := "created".
Definition TypeRunning : string := "running".
Definition TypeFinished : string := "finished".
Definition TypeFailed : string := "failed".
Definition ImageSources : list string :=
  ["task_override"; "task_type_launch_parameters"; "team_launch_parameters";
   "global_launch_parameters"; "task_type_default"; "source_system_default"; "team_default"].
Definition ControlStatuses : list string := ["pending"; "acknowledged"; "completed"; "failed"].

(** ** Checks *)

(** [length(btrim(s)) > 0]: some character is not a space. *)
Fixpoint nonblank (s : string) : bool :=
  match s with
  | EmptyString => false
  | String c s' => bool_decide (c ≠ " "%char) || nonblank s'
  end.

Definition mem (s : string) (l : list string) : bool := bool_decide (s ∈ l).

(** The [integer] type of PostgreSQL. *)
Definition int4 (z : Z) : bool := (- 2 ^ 31 <=? z) && (z <? 2 ^ 31).

Definition check {A} (b : bool) (code constraint : string) (k : result sql_error A) :
    result sql_error A :=
  if b then k else Err (SqlState code constraint).

Lemma check_ok {A} b code con (k : result sql_error A) a :
  check b code con k = Ok a → b = true ∧ k = Ok a.
Proof. unfold check. destruct b; [done|by intros]. Qed.

Definition unique_violation : string := "23505".
Definition foreign_key_violation : string := "23503".
Definition check_violation : string := "23514".
Definition trigger_violation : string := "23000".
Definition invalid_text : string := "22P02".

(** ** teams, source_systems, task_types *)

Definition team_name_free (id name : string) (d : DB) : bool :=
  bool_decide (map_Forall (λ k t, k = id ∨ tm_name t ≠ name) (db_teams d)).

Definition insert_team (t : TeamRow) (d : DB) : result sql_error DB :=
  check (bool_decide (db_teams d !! tm_id t = None)) unique_violation "teams_pkey"
  (check (nonblank (tm_name t)) check_violation "teams_team_name_check"
  (check (team_name_free (tm_id t) (tm_name t) d) unique_violation "teams_team_name_key"
  (Ok (with_teams (<[tm_id t := t]> (db_teams d)) d)))).

(** The update of a team by [protect_team_update]: identity and ingestion time never change,
    an established archival time never changes. *)
Definition update_team (id : string) (f : TeamRow → TeamRow) (d : DB) : result sql_error DB :=
  match db_teams d !! id with
  | None => Ok d
  | Some t =>
      let t' := f t in
      check (bool_decide (tm_id t' = tm_id t ∧ tm_ingested_at t' = tm_ingested_at t ∧
                          (tm_archived_at t = None ∨ tm_archived_at t' = tm_archived_at t)))
            trigger_violation "teams_immutable_fields"
      (check (nonblank (tm_name t')) check_violation "teams_team_name_check"
      (check (team_name_free id (tm_name t') d) unique_violation "teams_team_name_key"
      (Ok (with_teams (<[id := t']> (db_teams d)) d))))
  end.

Definition insert_source (s : SourceRow) (d : DB) : result sql_error DB :=
  check (bool_decide (db_sources d !! ss_id s = None)) unique_violation "source_systems_pkey"
  (check (nonblank (ss_listener s)) check_violation "source_systems_listener_identity_check"
  (check (bool_decide (map_Forall (λ _ s', ss_listener s' ≠ ss_listener s) (db_sources d)))
         unique_violation "source_systems_listener_identity_key"
  (check (bool_decide (is_Some (db_teams d !! ss_team s)))
         foreign_key_violation "source_systems_team_id_fkey"
  (Ok (with_sources (<[ss_id s := s]> (db_sources d)) d))))).

Definition insert_task_type (t : TaskTypeRow) (d : DB) : result sql_error DB :=
  check (bool_decide (db_types d !! tt_id t = None)) unique_violation "task_types_pkey"
  (check (nonblank (tt_tag t)) check_violation "task_types_execution_tag_check"
  (check (bool_decide (is_Some (db_teams d !! tt_team t)))
         foreign_key_violation "task_types_team_id_fkey"
  (Ok (with_types (<[tt_id t := t]> (db_types d)) d)))).

(** ** executors *)

Definition executor_ok (e : ExecutorRow) : bool :=
  (bool_decide (ex_scope e = ScopeTeam ∧ is_Some (ex_team e)) ||
   bool_decide (ex_scope e = ScopeSystem ∧ ex_team e = None)) &&
  nonblank (ex_type e) && nonblank (ex_identity e) && nonblank (ex_tag e) &&
  (0 <=? ex_max_capacity e) && int4 (ex_max_capacity e) &&
  (0 <=? ex_running_count e) && int4 (ex_running_count e).

Definition team_ref (o : option string) (d : DB) : bool :=
  match o with None => true | Some t => bool_decide (is_Some (db_teams d !! t)) end.

Definition insert_executor (e : ExecutorRow) (d : DB) : result sql_error DB :=
  check (bool_decide (db_executors d !! ex_id e = None)) unique_violation "executors_pkey"
  (check (executor_ok e) check_violation "executors_check"
  (check (team_ref (ex_team e) d) foreign_key_violation "executors_team_id_fkey"
  (Ok (with_executors (<[ex_id e := e]> (db_executors d)) d)))).

(** [protect_team_owner_update]: the team of a row never changes. *)
Definition update_executor (id : string) (f : ExecutorRow → ExecutorRow) (d : DB) :
    result sql_error DB :=
  match db_executors d !! id with
  | None => Ok d
  | Some e =>
      let e' := f e in
      check (bool_decide (ex_team e' = ex_team e)) trigger_violation "executors_immutable_team"
      (check (executor_ok e') check_violation "executors_check"
      (Ok (with_executors (<[id := e']> (db_executors d)) d)))
  end.

(** ** tasks *)

Definition claim_fields_null (t : TaskRow) : bool :=
  bool_decide (tk_owner_command t = None ∧ tk_executor t = None ∧ tk_resolved_image t = None ∧
               tk_image_source t = None ∧ tk_claimed_at t = None).

Definition claim_fields_set (t : TaskRow) : bool :=
  bool_decide (is_Some (tk_owner_command t) ∧ is_Some (tk_executor t) ∧
               is_Some (tk_resolved_image t) ∧ is_Some (tk_image_source t) ∧
               is_Some (tk_claimed_at t)).

(** The CHECK clauses of [tasks]: a legal state, a legal image source, and claim columns that
    are all null while the task is pending and all set afterwards. *)
Definition task_ok (t : TaskRow) : bool :=
  nonblank (tk_source_id t) && nonblank (tk_tag t) && mem (tk_state t) TaskStates &&
  match tk_image_source t with None => true | Some s => mem s ImageSources end &&
  (if bool_decide (tk_state t = StatePending) then claim_fields_null t else claim_fields_set t).

(** FOREIGN KEY (team_id, x) REFERENCES source_systems and task_types. *)
Definition source_of_team (team id : string) (d : DB) : bool :=
  match db_sources d !! id with Some s => bool_decide (ss_team s = team) | None => false end.
Definition type_of_team (team id : string) (d : DB) : bool :=
  match db_types d !! id with Some t => bool_decide (tt_team t = team) | None => false end.
Definition task_of_team (team id : string) (d : DB) : bool :=
  match db_tasks d !! id with Some t => bool_decide (tk_team t = team) | None => false end.

(** [validate_task_executor_ownership] and the executor foreign key. *)
Definition task_executor_ok (t : TaskRow) (d : DB) : bool :=
  match tk_executor t with
  | None => true
  | Some e =>
      match db_executors d !! e with
      | None => false
      | Some x => bool_decide (ex_scope x = ScopeTeam → ex_team x = Some (tk_team t))
      end
  end.

(** UNIQUE (team_id, source_system_id, source_id): the row that already holds the key. *)
Definition same_source (team source source_id : string) (t : TaskRow) : bool :=
  bool_decide (tk_team t = team ∧ tk_source_system t = source ∧ tk_source_id t = source_id).

Definition task_by_source (team source source_id : string) (d : DB) : option TaskRow :=
  head (filter (λ t, same_source team source source_id t) ((map_to_list (db_tasks d)).*2)).

(** INSERT ... ON CONFLICT (team_id, source_system_id, source_id) DO NOTHING RETURNING: no row
    when the conflict clause applies. *)
Definition insert_task_once (t : TaskRow) (d : DB) : result sql_error (DB * option TaskRow) :=
  match task_by_source (tk_team t) (tk_source_system t) (tk_source_id t) d with
  | Some _ => Ok (d, None)
  | None =>
      check (bool_decide (db_tasks d !! tk_id t = None)) unique_violation "tasks_pkey"
      (check (task_ok t) check_violation "tasks_check"
      (check (source_of_team (tk_team t) (tk_source_system t) d)
             foreign_key_violation "tasks_team_id_source_system_id_fkey"
      (check (type_of_team (tk_team t) (tk_type t) d)
             foreign_key_violation "tasks_team_id_task_type_id_fkey"
      (check (task_executor_ok t d) foreign_key_violation "tasks_executor_ownership"
      (Ok (with_tasks (<[tk_id t := t]> (db_tasks d)) d, Some t))))))
  end.

(** Each row is stored under its own identifier. *)
Definition tasks_keyed (d : DB) : Prop := map_Forall (λ k t, tk_id t = k) (db_tasks d).

(** A claim column keeps its value once it has one. *)
Definition keeps {A} `{EqDecision A} (old new : option A) : bool :=
  match old with None => true | Some _ => bool_decide (new = old) end.

(** [protect_task_update]. *)
Definition task_update_allowed (t t' : TaskRow) : bool :=
  bool_decide (tk_id t' = tk_id t ∧ tk_team t' = tk_team t ∧
               tk_source_system t' = tk_source_system t ∧ tk_source_id t' = tk_source_id t ∧
               tk_type t' = tk_type t ∧ tk_tag t' = tk_tag t ∧ tk_image t' = tk_image t ∧
               tk_ingested_at t' = tk_ingested_at t) &&
  keeps (tk_owner_command t) (tk_owner_command t') && keeps (tk_executor t) (tk_executor t') &&
  keeps (tk_resolved_image t) (tk_resolved_image t') &&
  keeps (tk_image_source t) (tk_image_source t') && keeps (tk_claimed_at t) (tk_claimed_at t').

Definition update_task (id : string) (f : TaskRow → TaskRow) (d : DB) : result sql_error DB :=
  match db_tasks d !! id with
  | None => Ok d
  | Some t =>
      let t' := f t in
      check (task_update_allowed t t') trigger_violation "tasks_immutable_fields"
      (check (task_ok t') check_violation "tasks_check"
      (check (task_executor_ok t' d) foreign_key_violation "tasks_executor_ownership"
      (Ok (with_tasks (<[id := t']> (db_tasks d)) d))))
  end.

(** ** task_events, executor_events, task_log_chunks *)

(** The event type check, the foreign keys and [validate_task_event_scope]. *)
Definition insert_task_event `{JsonCodec} (e : TaskEventRow) (d : DB) : result sql_error DB :=
  match jsonb_cast (te_payload e), db_executors d !! te_executor e with
  | None, _ => Err (SqlState invalid_text "payload")
  | Some _, None => Err (SqlState foreign_key_violation "task_events_executor_id_fkey")
  | Some p, Some x =>
      check (bool_decide (db_task_events d !! te_id e = None)) unique_violation "task_events_pkey"
      (check (mem (te_type e) [TypeCreated; TypeRunning; TypeFinished; TypeFailed])
             check_violation "task_events_event_type_check"
      (check (task_of_team (te_team e) (te_task e) d)
             foreign_key_violation "task_events_team_id_task_id_fkey"
      (check (bool_decide (ex_scope x = ScopeTeam → ex_team x = Some (te_team e)))
             foreign_key_violation "task_events_scope"
      (Ok (with_task_events
             (<[te_id e := mkTaskEvent (te_id e) (te_team e) (te_task e) (te_executor e)
                             (te_type e) (te_occurred_at e) p]> (db_task_events d)) d)))))
  end.

Definition ExecutorEventTypes : list string :=
  ["registered"; "started"; "healthy"; "busy"; "idle"; "stopping"; "stopped"; "failed";
   "capacity_observed"; "running_count_observed"].

(** [validate_executor_event_scope] and the foreign keys. *)
Definition executor_event_scope_ok (e : ExecutorEventRow) (x : ExecutorRow) (d : DB) : bool :=
  bool_decide (ex_scope x = ScopeTeam → ee_team e = ex_team x) &&
  bool_decide (ex_scope x = ScopeSystem → ee_team e = None) &&
  match ee_task e with
  | None => true
  | Some k =>
      match db_tasks d !! k with
      | None => false
      | Some t => bool_decide (ex_scope x = ScopeTeam → ex_team x = Some (tk_team t))
      end
  end.

Definition insert_executor_event `{JsonCodec} (e : ExecutorEventRow) (d : DB) :
    result sql_error DB :=
  match jsonb_cast (ee_payload e), db_executors d !! ee_executor e with
  | None, _ => Err (SqlState invalid_text "payload")
  | Some _, None => Err (SqlState foreign_key_violation "executor_events_executor_id_fkey")
  | Some p, Some x =>
      check (bool_decide (db_executor_events d !! ee_id e = None))
            unique_violation "executor_events_pkey"
      (check (mem (ee_type e) ExecutorEventTypes) check_violation "executor_events_event_type_check"
      (check (executor_event_scope_ok e x d) foreign_key_violation "executor_events_scope"
      (Ok (with_executor_events
             (<[ee_id e := mkExecutorEvent (ee_id e) (ee_executor e) (ee_team e) (ee_task e)
                             (ee_type e) (ee_occurred_at e) p]> (db_executor_events d)) d))))
  end.

Definition insert_log_chunk (c : LogChunkRow) (d : DB) : result sql_error DB :=
  check (bool_decide (db_logs d !! lc_id c = None)) unique_violation "task_log_chunks_pkey"
  (check ((1 <=? lc_offset c) && mem (lc_stream c) ["work"; "reasoning"])
         check_violation "task_log_chunks_check"
  (check (bool_decide (map_Forall (λ _ r, ¬ (lc_task r = lc_task c ∧ lc_offset r = lc_offset c))
            (db_logs d))) unique_violation "task_log_chunks_task_id_log_offset_key"
  (check (task_of_team (lc_team c) (lc_task c) d &&
          bool_decide (is_Some (db_executors d !! lc_executor c)))
         foreign_key_violation "task_log_chunks_fkey"
  (Ok (with_logs (<[lc_id c := c]> (db_logs d)) d))))).

(** ** audit_entries, team_audit_details *)

Definition ActorTypes : list string :=
  ["operator"; "executor"; "listener"; "system_administrator"; "state_registry"].
Definition Outcomes : list string := ["accepted"; "rejected"; "succeeded"; "failed"].

Definition audit_ok (a : AuditRow) : bool :=
  nonblank (au_actor a) && mem (au_actor_type a) ActorTypes && nonblank (au_action a) &&
  nonblank (au_resource_type a) && nonblank (au_resource_id a) && nonblank (au_request a) &&
  mem (au_outcome a) Outcomes &&
  match au_scope a with None => true | Some s => mem s [ScopeTeam; ScopeSystem] end.

Definition insert_audit (a : AuditRow) (d : DB) : result sql_error DB :=
  check (bool_decide (db_audit d !! au_id a = None)) unique_violation "audit_entries_pkey"
  (check (audit_ok a) check_violation "audit_entries_check"
  (check (team_ref (au_team a) d) foreign_key_violation "audit_entries_team_id_fkey"
  (Ok (with_audit (<[au_id a := a]> (db_audit d)) d)))).

Definition insert_team_audit (id : string) (a : TeamAuditRow) (d : DB) : result sql_error DB :=
  check (bool_decide (db_team_audit d !! id = None)) unique_violation "team_audit_details_pkey"
  (check (bool_decide (is_Some (db_audit d !! id)))
         foreign_key_violation "team_audit_details_audit_id_fkey"
  (Ok (with_team_audit (<[id := a]> (db_team_audit d)) d))).

(** ** task_control_requests, task_control_events *)

Definition same_control (team task operator action key : string) (c : ControlRow) : bool :=
  bool_decide (ct_team c = team ∧ ct_task c = task ∧ ct_operator c = operator ∧
               ct_action c = action ∧ ct_key c = key).

Definition insert_control (c : ControlRow) (d : DB) : result sql_error DB :=
  check (bool_decide (db_controls d !! ct_id c = None)) unique_violation "task_control_requests_pkey"
  (check (nonblank (ct_operator c) && mem (ct_action c) ["cancel"; "interrupt"] &&
          nonblank (ct_key c) && mem (ct_status c) ControlStatuses)
         check_violation "task_control_requests_check"
  (check (bool_decide (map_Forall
            (λ _ r, same_control (ct_team c) (ct_task c) (ct_operator c) (ct_action c) (ct_key c) r
                    = false) (db_controls d)))
         unique_violation "task_control_requests_key"
  (check (task_of_team (ct_team c) (ct_task c) d && bool_decide (is_Some (db_audit d !! ct_audit c)))
         foreign_key_violation "task_control_requests_fkey"
  (Ok (with_controls (<[ct_id c := c]> (db_controls d)) d))))).

Definition set_control_status (s : string) (c : ControlRow) : ControlRow :=
  mkControl (ct_id c) (ct_team c) (ct_task c) (ct_operator c) (ct_action c) (ct_key c)
    (ct_reason c) s (ct_audit c) (ct_requested_at c).

(** UPDATE ... SET status WHERE team_id, task_id and control_id match. *)
Definition update_control_status (team task id s : string) (d : DB) : result sql_error DB :=
  match db_controls d !! id with
  | Some c =>
      if bool_decide (ct_team c = team ∧ ct_task c = task) then
        check (mem s ControlStatuses) check_violation "task_control_requests_status_check"
        (Ok (with_controls (<[id := set_control_status s c]> (db_controls d)) d))
      else Ok d
  | None => Ok d
  end.

Definition insert_control_event `{JsonCodec} (e : ControlEventRow) (d : DB) : result sql_error DB :=
  match jsonb_cast (ce_payload e) with
  | None => Err (SqlState invalid_text "payload")
  | Some p =>
      check (bool_decide (db_control_events d !! ce_id e = None))
            unique_violation "task_control_events_pkey"
      (check (mem (ce_status e) ControlStatuses) check_violation "task_control_events_status_check"
      (check (task_of_team (ce_team e) (ce_task e) d &&
              bool_decide (is_Some (db_controls d !! ce_control e)) &&
              match ce_executor e with
              | None => true
              | Some x => bool_decide (is_Some (db_executors d !! x))
              end) foreign_key_violation "task_control_events_fkey"
      (Ok (with_control_events
             (<[ce_id e := mkControlEvent (ce_id e) (ce_control e) (ce_task e) (ce_team e)
                             (ce_executor e) (ce_status e) (ce_occurred_at e) p]>
                (db_control_events d)) d))))
  end.

(** ** task_launch_parameter_snapshots, task_launch_parameter_secret_refs *)

Definition insert_snapshot_once (task : string) (s : SnapshotRow) (d : DB) : result sql_error DB :=
  match db_snapshots d !! task with
  | Some _ => Ok d
  | None =>
      check (task_of_team (sn_team s) task d) foreign_key_violation "snapshots_fkey"
      (Ok (with_snapshots (<[task := s]> (db_snapshots d)) d))
  end.

(** CHECK (key ~ '^[A-Z_][A-Z0-9_]*$'). *)
Definition env_key_char (first : bool) (c : ascii) : bool :=
  let n := Z.of_nat (nat_of_ascii c) in
  ((65 <=? n) && (n <=? 90)) || (n =? 95) || (negb first && (48 <=? n) && (n <=? 57)).

Fixpoint env_key_rest (s : string) : bool :=
  match s with EmptyString => true | String c s' => env_key_char false c && env_key_rest s' end.

Definition env_key_ok (s : string) : bool :=
  match s with EmptyString => false | String c s' => env_key_char true c && env_key_rest s' end.

Definition insert_secret_ref_once (task key : string) (r : SecretRefRow) (d : DB) :
    result sql_error DB :=
  match db_secret_refs d !! (task, key) with
  | Some _ => Ok d
  | None =>
      check (env_key_ok key && (1 <=? sr_version r)) check_violation "secret_refs_check"
      (check (match db_snapshots d !! task with
              | Some s => bool_decide (sn_team s = sr_team r)
              | None => false
              end && bool_decide (is_Some (db_secret_versions d !! (sr_secret r, sr_version r))))
            foreign_key_violation "secret_refs_fkey"
      (Ok (with_secret_refs (<[(task, key) := r]> (db_secret_refs d)) d)))
  end.

(** ** Inversion of accepted writes *)

Ltac checks_in H :=
  repeat (apply check_ok in H; let Hb := fresh "Hck" in destruct H as [Hb H]; to_prop).

Lemma update_task_ok id f d d' :
  update_task id f d = Ok d' →
  (db_tasks d !! id = None ∧ d' = d) ∨
  ∃ t, db_tasks d !! id = Some t ∧ task_update_allowed t (f t) = true ∧ task_ok (f t) = true ∧
       task_executor_ok (f t) d = true ∧ d' = with_tasks (<[id := f t]> (db_tasks d)) d.
Proof.
  unfold update_task. destruct (db_tasks d !! id) as [t|]; [|intros [= <-]; by left].
  intros H. checks_in H. right. exists t. by simplify_eq.
Qed.

Lemma insert_task_event_ok `{JsonCodec} e d d' :
  insert_task_event e d = Ok d' →
  ∃ p x, jsonb_cast (te_payload e) = Some p ∧ db_executors d !! te_executor e = Some x ∧
    db_task_events d !! te_id e = None ∧ task_of_team (te_team e) (te_task e) d = true ∧
    (ex_scope x = ScopeTeam → ex_team x = Some (te_team e)) ∧
    mem (te_type e) [TypeCreated; TypeRunning; TypeFinished; TypeFailed] = true ∧
    d' = with_task_events
           (<[te_id e := mkTaskEvent (te_id e) (te_team e) (te_task e) (te_executor e)
                           (te_type e) (te_occurred_at e) p]> (db_task_events d)) d.
Proof.
  unfold insert_task_event.
  destruct (jsonb_cast _) as [p|]; [|done]. destruct (db_executors d !! _) as [x|]; [|done].
  intros Hi. checks_in Hi. exists p, x. by simplify_eq.
Qed.

Lemma insert_audit_ok a d d' :
  insert_audit a d = Ok d' →
  db_audit d !! au_id a = None ∧ audit_ok a = true ∧ d' = with_audit (<[au_id a := a]> (db_audit d)) d.
Proof. unfold insert_audit. intros H. checks_in H. by simplify_eq. Qed.

Lemma task_of_team_spec team id d :
  task_of_team team id d = true ↔ ∃ t, db_tasks d !! id = Some t ∧ tk_team t = team.
Proof.
  unfold task_of_team. destruct (db_tasks d !! id) as [t|].
  - rewrite bool_decide_eq_true. split; [eauto|by intros (? & [= <-] & ?)].
  - split; [done|by intros (? & ? & ?)].
Qed.

Lemma task_event_forget `{JsonCodec} e p :
  jsonb_cast (te_payload e) = Some p →
  json_unmarshal p = json_unmarshal (te_payload e).
Proof. apply jsonb_cast_value. Qed.

Lemma insert_executor_ok e d d' :
  insert_executor e d = Ok d' →
  db_executors d !! ex_id e = None ∧ executor_ok e = true ∧ team_ref (ex_team e) d = true ∧
  d' = with_executors (<[ex_id e := e]> (db_executors d)) d.
Proof. unfold insert_executor. intros Hi. checks_in Hi. by simplify_eq. Qed.

Lemma update_executor_ok id f d d' x :
  db_executors d !! id = Some x → update_executor id f d = Ok d' →
  ex_team (f x) = ex_team x ∧ executor_ok (f x) = true ∧
  d' = with_executors (<[id := f x]> (db_executors d)) d.
Proof.
  unfold update_executor. intros Hx Hu. rewrite Hx in Hu. checks_in Hu. by simplify_eq.
Qed.

Lemma insert_executor_event_ok `{JsonCodec} e d d' :
  insert_executor_event e d = Ok d' →
  ∃ p x, jsonb_cast (ee_payload e) = Some p ∧ db_executors d !! ee_executor e = Some x ∧
    db_executor_events d !! ee_id e = None ∧ executor_event_scope_ok e x d = true ∧
    d' = with_executor_events
           (<[ee_id e := mkExecutorEvent (ee_id e) (ee_executor e) (ee_team e) (ee_task e)
                           (ee_type e) (ee_occurred_at e) p]> (db_executor_events d)) d.
Proof.
  unfold insert_executor_event.
  destruct (jsonb_cast _) as [p|]; [|done]. destruct (db_executors d !! _) as [x|]; [|done].
  intros Hi. checks_in Hi. exists p, x. by simplify_eq.
Qed.

Lemma executor_ok_bounds x :
  executor_ok x = true → 0 ≤ ex_max_capacity x < 2 ^ 31 ∧ 0 ≤ ex_running_count x < 2 ^ 31.
Proof.
  unfold executor_ok, int4. rewrite !andb_true_iff, !Z.leb_le, !Z.ltb_lt. lia.
Qed.

Lemma insert_control_ok c d d' :
  insert_control c d = Ok d' →
  db_controls d !! ct_id c = None ∧
  (∀ k r, db_controls d !! k = Some r →
     same_control (ct_team c) (ct_task c) (ct_operator c) (ct_action c) (ct_key c) r = false) ∧
  d' = with_controls (<[ct_id c := c]> (db_controls d)) d.
Proof. unfold insert_control. intros H. checks_in H. by simplify_eq. Qed.

Lemma insert_control_event_ok `{JsonCodec} e d d' :
  insert_control_event e d = Ok d' →
  ∃ p, jsonb_cast (ce_payload e) = Some p ∧ db_control_events d !! ce_id e = None ∧
    mem (ce_status e) ControlStatuses = true ∧
    d' = with_control_events
           (<[ce_id e := mkControlEvent (ce_id e) (ce_control e) (ce_task e) (ce_team e)
                           (ce_executor e) (ce_status e) (ce_occurred_at e) p]>
              (db_control_events d)) d.
Proof.
  unfold insert_control_event. destruct (jsonb_cast _) as [p|]; [|done].
  intros Hi. checks_in Hi. exists p. by simplify_eq.
Qed.

Lemma update_control_status_ok team task id s d d' c :
  db_controls d !! id = Some c → ct_team c = team → ct_task c = task →
  update_control_status team task id s d = Ok d' →
  d' = with_controls (<[id := set_control_status s c]> (db_controls d)) d.
Proof.
  unfold update_control_status. intros Hc Ht Hk Hu. rewrite Hc in Hu.
  rewrite bool_decide_eq_true_2 in Hu by done. checks_in Hu. by simplify_eq.
Qed.

Lemma insert_task_once_ok t d d' o :
  insert_task_once t d = Ok (d', o) →
  (∃ t0, task_by_source (tk_team t) (tk_source_system t) (tk_source_id t) d = Some t0 ∧
         o = None ∧ d' = d) ∨
  (task_by_source (tk_team t) (tk_source_system t) (tk_source_id t) d = None ∧
   db_tasks d !! tk_id t = None ∧ task_ok t = true ∧ type_of_team (tk_team t) (tk_type t) d = true ∧
   o = Some t ∧ d' = with_tasks (<[tk_id t := t]> (db_tasks d)) d).
Proof.
  unfold insert_task_once. destruct (task_by_source _ _ _ _) as [t0|] eqn:E.
  - intros [= <- <-]. left. by exists t0.
  - intros Hi. checks_in Hi. right. by simplify_eq.
Qed.

Lemma task_by_source_ok team source source_id d t :
  task_by_source team source source_id d = Some t →
  (∃ k, db_tasks d !! k = Some t) ∧ same_source team source source_id t = true.
Proof.
  unfold task_by_source. intros Hh. destruct (filter _ _) as [|z zs] eqn:E; simplify_eq/=.
  assert (t ∈ t :: zs) as Hin by by left. rewrite <- E in Hin.
  apply list_elem_of_filter in Hin as [Hs Hin]. split; [|by apply Is_true_true].
  apply list_elem_of_fmap in Hin as ([k t'] & -> & Hk). apply elem_of_map_to_list in Hk. eauto.
Qed.

Lemma task_by_source_none team source source_id d k t :
  task_by_source team source source_id d = None → db_tasks d !! k = Some t →
  same_source team source source_id t = false.
Proof.
  unfold task_by_source. intros Hh Hk.
  destruct (same_source team source source_id t) eqn:Es; [|done].
  assert (t ∈ filter (λ t, same_source team source source_id t) ((map_to_list (db_tasks d)).*2)) as Hin.
  { apply list_elem_of_filter. split; [by rewrite Es|]. apply list_elem_of_fmap.
    exists (k, t). split; [done|]. by apply elem_of_map_to_list. }
  destruct (filter _ _); [by apply not_elem_of_nil in Hin|done].
Qed.

(** The row just inserted is the one its source identifier finds. *)
Lemma task_by_source_inserted t d :
  task_by_source (tk_team t) (tk_source_system t) (tk_source_id t) d = None →
  task_by_source (tk_team t) (tk_source_system t) (tk_source_id t)
    (with_tasks (<[tk_id t := t]> (db_tasks d)) d) = Some t.
Proof.
  intros Hn. destruct (task_by_source _ _ _ (with_tasks _ _)) as [t'|] eqn:E.
  - apply task_by_source_ok in E as [[k Hk] Hs]. simpl in Hk.
    apply lookup_insert_Some in Hk as [[_ ->]|[_ Hk]]; [done|].
    apply (task_by_source_none _ _ _ _ _ _ Hn) in Hk. congruence.
  - apply (task_by_source_none _ _ _ _ (tk_id t) t) in E; [|apply lookup_insert_eq].
    exfalso. apply bool_decide_eq_false in E. by apply E.
Qed.

Lemma insert_team_ok t d d' :
  insert_team t d = Ok d' →
  db_teams d !! tm_id t = None ∧ team_name_free (tm_id t) (tm_name t) d = true ∧
  d' = with_teams (<[tm_id t := t]> (db_teams d)) d.
Proof. unfold insert_team. intros Hi. checks_in Hi. by simplify_eq. Qed.

Lemma insert_source_ok s d d' :
  insert_source s d = Ok d' →
  db_sources d !! ss_id s = None ∧ is_Some (db_teams d !! ss_team s) ∧
  (∀ k s', db_sources d !! k = Some s' → ss_listener s' ≠ ss_listener s) ∧
  d' = with_sources (<[ss_id s := s]> (db_sources d)) d.
Proof. unfold insert_source. intros Hi. checks_in Hi. by simplify_eq. Qed.

Lemma insert_task_type_ok t d d' :
  insert_task_type t d = Ok d' →
  db_types d !! tt_id t = None ∧ is_Some (db_teams d !! tt_team t) ∧
  d' = with_types (<[tt_id t := t]> (db_types d)) d.
Proof. unfold insert_task_type. intros Hi. checks_in Hi. by simplify_eq. Qed.
