(* ===== verification/Store.v ===== *)
(** * Errors and shared reads of the store package (svc/state-registry/internal/store) *)

From stdpp Require Import base gmap strings list.
From S2P Require Import Prelude Paging Platform Tx Schema.
#[local] Open Scope Z_scope.

(** The sentinel errors of the store, an SQL failure wrapped by [fmt.Errorf("context: %w")],
    and an error that carries only its text. *)
Inductive StoreError : Type :=
| ErrExecutorNotFound
| ErrExecutorScopeConflict
| ErrExecutorTeamConflict
| ErrExecutorIdentityMismatch
| ErrExecutorTagMismatch
| ErrTaskAlreadyClaimed
| ErrOlderTaskMustBeClaimedFirst
| ErrEventNotFound
| ErrEventConflict
| ErrNotAssigned
| ErrEventTeamMismatch
| ErrInvalidTaskTransition
| ErrTaskNotFound
| ErrTaskUnknown
| ErrControlEventConflict
| ErrTaskLogConflict
| ErrListenerSourceMismatch
| ErrListenerTaskTypeUnknown
| ErrTeamArchived
| ErrTeamNameConflict
| ErrListenerIdentityConflict
| ErrTeamNotFound
| ErrEnvironmentUnavailable
| ErrLaunchParameterConflict
| ErrWrap (context : string) (cause : sql_error)
| ErrText (text : string).

#[export] Instance store_error_eq_dec : EqDecision StoreError.
Proof. solve_decision. Defined.

Abbreviation TxS := (Tx DB StoreError).

(** platform.ExecutorIdentity, platform.GatewayIdentity, platform.ListenerIdentity and
    platform.AdminIdentity: the authenticated callers. *)
Record ExecutorIdentity : Type := mkExecutorIdentity {
  xi_executor : string; xi_scope : string; xi_team : option string; xi_request : string }.

Record GatewayIdentity : Type := mkGatewayIdentity {
  gi_team : string; gi_operator : string; gi_request : string }.

Record ListenerIdentity : Type := mkListenerIdentity {
  li_team : string; li_source_system : string; li_identity : string; li_request : string }.

Record AdminIdentity : Type := mkAdminIdentity { ai_subject : string; ai_request : string }.

(** sameTeam, sameClaimTeam and sameNullableString: a nullable column against an optional
    request field. *)
Definition sameTeam (existing requested : option string) : bool :=
  match existing, requested with
  | Some e, Some r => bool_decide (e = r)
  | None, None => true
  | _, _ => false
  end.

Lemma sameTeam_eq a b : sameTeam a b = true ↔ a = b.
Proof.
  destruct a as [a|], b as [b|]; simpl; rewrite ?bool_decide_eq_true; split; congruence.
Qed.

(** Scanning a nullable text column into a Go string fails on NULL. *)
Definition scan_text (o : option string) : result sql_error string :=
  match o with Some s => Ok s | None => Err SqlScan end.

(** (Store).executorIdentityMatches: the caller's identity against the registered Executor
    and the team of the task; a failed read is a mismatch. *)
Definition identity_matches (task_team : string) (identity : ExecutorIdentity) (d : DB) : bool :=
  match db_executors d !! xi_executor identity with
  | None => false
  | Some x =>
      if bool_decide (ex_scope x ≠ xi_scope identity) then false
      else if bool_decide (ex_scope x = ScopeTeam) then
        match xi_team identity, ex_team x with
        | Some t, Some t' => bool_decide (t = t') && bool_decide (t' = task_team)
        | _, _ => false
        end
      else match ex_team x, xi_team identity with None, None => true | _, _ => false end
  end.

Definition executorIdentityMatches (task_team : string) (identity : ExecutorIdentity) :
    TxS bool :=
  λ env st,
    match query (ErrWrap "executor identity") (identity_matches task_team identity) env st with
    | (Ok b, st') => (Ok b, st')
    | (Err _, st') => (Ok false, st')
    end.

Lemma executorIdentityMatches_ok team identity env st b st' :
  executorIdentityMatches team identity env st = (Ok b, st') →
  (b = true → identity_matches team identity (ts_db st) = true) ∧
  ts_db st' = ts_db st ∧ ts_durable st' = ts_durable st ∧ ts_uuid st' = ts_uuid st.
Proof.
  unfold executorIdentityMatches, query, stmt.
  destruct (env_fault env (ts_stmt st)); intros [= <- <-]; simpl; split_and!; done.
Qed.

Lemma executorIdentityMatches_never_commits team identity :
  never_commits (executorIdentityMatches team identity).
Proof.
  split; unfold executorIdentityMatches, query, stmt.
  - intros env st r st'. destruct (env_fault env (ts_stmt st)); by intros [= <- <-].
  - intros env st r st'. destruct (env_fault env (ts_stmt st)); intros [= <- <-]; simpl; lia.
  - intros env n st b st'. simpl.
    destruct (env_fault env (ts_stmt st)) eqn:Ef; intros [= <- <-] Hn; simpl in *;
      by rewrite bool_decide_eq_false_2 by lia.
Qed.
#[export] Hint Resolve executorIdentityMatches_never_commits : flow.

(** Rows of a table in the order of its primary key. *)
Definition rows {K V} `{Countable K} (m : gmap K V) : list V := (map_to_list m).*2.

Lemma elem_of_rows {K V} `{Countable K} (m : gmap K V) x : x ∈ rows m ↔ ∃ k, m !! k = Some x.
Proof.
  unfold rows. rewrite list_elem_of_fmap. split.
  - intros ([k y] & -> & Hin). apply elem_of_map_to_list in Hin. eauto.
  - intros [k Hk]. exists (k, x). split; [done|]. by apply elem_of_map_to_list.
Qed.

(** A projection that tells the selected rows apart has no duplicates on them. *)
Lemma NoDup_rows_fmap {V B} (m : gmap string V) (f : V → B) (P : V → Prop) `{!∀ x, Decision (P x)} :
  (∀ k k' x y, m !! k = Some x → m !! k' = Some y → P x → P y → f x = f y → k = k') →
  NoDup (f <$> filter P (rows m)).
Proof.
  intros Hinj. unfold rows. pose proof (NoDup_map_to_list m) as Hnd.
  assert (Hin : ∀ kc, kc ∈ map_to_list m → m !! kc.1 = Some kc.2)
    by (intros [k c]; apply elem_of_map_to_list).
  induction (map_to_list m) as [|[k c] l IH]; [constructor|].
  apply NoDup_cons in Hnd as [Hk Hnd]. simpl. rewrite filter_cons.
  assert (NoDup (f <$> filter P l.*2)) as Htl.
  { apply IH; [done|]. intros kc Hkc. apply Hin. by right. }
  case_decide as Hp; [|done]. simpl. apply NoDup_cons. split; [|done].
  intros (c' & E & Hc')%list_elem_of_fmap.
  apply list_elem_of_filter in Hc' as [Hp' Hc'].
  apply list_elem_of_fmap in Hc' as ([k' c''] & -> & Hkc').
  apply Hk. assert (m !! k = Some c) as Hk1 by (apply (Hin (k, c)); by left).
  assert (m !! k' = Some c'') as Hk2 by (apply (Hin (k', c'')); by right).
  simpl in *. assert (k = k') as <- by by eapply Hinj. by simplify_eq.
Qed.

(** Lexicographic order of (timestamp, text) under a text order: the tuple comparison of the
    ORDER BY clauses and of the FIFO probe. *)
Definition key_lt (lt : string → string → Prop) (t : Z) (id : string) (t' : Z) (id' : string) :
    Prop := t < t' ∨ (t = t' ∧ lt id id').

Section text_order.
Context `{Collation}.

Definition coll_lt (a b : string) : Prop := coll_le a b ∧ a ≠ b.

#[export] Instance coll_lt_dec : RelDecision coll_lt.
Proof using. intros a b. unfold coll_lt. apply _. Defined.

Lemma coll_lt_irrefl a : ¬ coll_lt a a.
Proof using. by intros [_ ?]. Qed.

Lemma coll_not_lt a b : ¬ coll_lt a b → coll_le b a.
Proof using.
  intros Hn. destruct (total coll_le a b) as [Hab|Hba]; [|done].
  destruct (decide (a = b)) as [->|Hne]; [by apply (reflexivity (R := coll_le))|].
  destruct Hn. by split.
Qed.

Lemma coll_lt_not_le a b : coll_lt a b → ¬ coll_le b a.
Proof using. intros [Hab Hne] Hba. apply Hne. by apply (anti_symm coll_le). Qed.

(** The same order, not strict: the relation rows are sorted by. *)
Definition key_le (t : Z) (id : string) (t' : Z) (id' : string) : Prop :=
  t < t' ∨ (t = t' ∧ coll_le id id').

#[export] Instance key_lt_dec t i t' i' : Decision (key_lt coll_lt t i t' i').
Proof using. unfold key_lt. apply _. Defined.
#[export] Instance key_le_dec t i t' i' : Decision (key_le t i t' i').
Proof using. unfold key_le. apply _. Defined.

Lemma key_not_lt t i t' i' : ¬ key_lt coll_lt t i t' i' → key_le t' i' t i.
Proof using.
  unfold key_lt, key_le. intros Hn. destruct (Z.lt_trichotomy t t') as [?|[->|?]].
  - destruct Hn. by left.
  - right. split; [done|]. apply coll_not_lt. intros Hc. apply Hn. by right.
  - by left.
Qed.

Lemma key_lt_not_le t i t' i' : key_lt coll_lt t i t' i' → ¬ key_le t' i' t i.
Proof using.
  unfold key_lt, key_le. intros [?|[-> Hc]] [?|[He Hc']]; try lia.
  by apply coll_lt_not_le in Hc.
Qed.

(** Rows sorted by a (timestamp, text) key. *)
Context {A : Type} (time : A → Z) (key : A → string).

Definition row_le (x y : A) : Prop := key_le (time x) (key x) (time y) (key y).

#[export] Instance row_le_dec : RelDecision row_le.
Proof using. intros x y. unfold row_le. apply _. Defined.
#[export] Instance row_le_refl : Reflexive row_le.
Proof using. intros x. right. split; [done|]. by apply (reflexivity (R := coll_le)). Qed.
#[export] Instance row_le_trans : Transitive row_le.
Proof using.
  intros x y z [?|[? ?]] [?|[? ?]]; unfold row_le, key_le in *; [left; lia..|].
  right. split; [congruence|]. by transitivity (key y).
Qed.
#[export] Instance row_le_total : Total row_le.
Proof using.
  intros x y. unfold row_le, key_le.
  destruct (Z.lt_trichotomy (time x) (time y)) as [?|[E|?]]; [auto| |auto].
  destruct (total coll_le (key x) (key y)); auto.
Qed.

(** Cursor keys: the same order on pairs, ascending and descending. *)
Definition pair_le : relation (Z * string) := λ a b, key_le a.1 a.2 b.1 b.2.
Definition pair_ge : relation (Z * string) := λ a b, pair_le b a.

#[export] Instance pair_le_dec : RelDecision pair_le.
Proof using. intros x y. unfold pair_le. apply _. Defined.
#[export] Instance pair_ge_dec : RelDecision pair_ge.
Proof using. intros x y. unfold pair_ge. apply _. Defined.
#[export] Instance pair_le_trans : Transitive pair_le.
Proof using.
  intros [t i] [t' i'] [t'' i'']. unfold pair_le, key_le. simpl.
  intros [?|[? ?]] [?|[? ?]]; [left; lia..|]. right. split; [congruence|]. by transitivity i'.
Qed.
#[export] Instance pair_ge_trans : Transitive pair_ge.
Proof using. intros x y z Hxy Hyz. exact (pair_le_trans z y x Hyz Hxy). Qed.
#[export] Instance pair_le_total : Total pair_le.
Proof using.
  intros [t i] [t' i']. unfold pair_le, key_le. simpl.
  destruct (Z.lt_trichotomy t t') as [?|[E|?]]; [auto| |auto]. destruct (total coll_le i i'); auto.
Qed.
#[export] Instance pair_ge_total : Total pair_ge.
Proof using. intros x y. apply (total pair_le y x). Qed.

Lemma pair_le_antisym a b : pair_le a b → pair_le b a → a = b.
Proof using.
  destruct a as [t i], b as [t' i']. unfold pair_le, key_le. simpl.
  intros [?|[-> Hc]] [?|[? Hc']]; try lia. f_equal. by apply (anti_symm coll_le).
Qed.

(** Rows of a table stored under their own identifier have distinct keys. *)
Lemma rows_distinct {V} (m : gmap string V) (at_ : V → Z) (id : V → string) (R : relation (Z * string))
    (P : V → Prop) `{!∀ x, Decision (P x)} :
  R = pair_le ∨ R = pair_ge → map_Forall (λ k x, id x = k) m →
  distinct_keys R (λ x, (at_ x, id x)) (filter P (rows m)).
Proof using.
  intros HR Hid.
  assert (Hlk : ∀ x, x ∈ filter P (rows m) → m !! id x = Some x).
  { intros x [_ (k & Hk)%elem_of_rows]%list_elem_of_filter. by rewrite (Hid _ _ Hk). }
  split.
  - apply NoDup_filter. unfold rows. apply NoDup_fmap_2_strong, NoDup_map_to_list.
    intros [k x] [k' x'] Hin Hin' E. simpl in E. subst x'.
    apply elem_of_map_to_list in Hin, Hin'. f_equal.
    rewrite <- (Hid _ _ Hin). apply (Hid _ _ Hin').
  - intros x y Hx Hy Hxy Hyx. apply Hlk in Hx, Hy.
    assert ((at_ x, id x) = (at_ y, id y)) as [= _ E].
    { destruct HR as [-> | ->]; by apply pair_le_antisym. }
    rewrite E in Hx. congruence.
Qed.
End text_order.
