(* ===== verification/Launch.v ===== *)
(** * Launch parameters (store/launch_parameter_resolution.go)

    A claim freezes the launch parameters that apply to its task: the definitions of the
    global, team and task type scopes, layered in that order. *)

From stdpp Require Import base gmap strings list sorting.
From S2P Require Import Prelude Platform Tx Schema Store.
#[local] Open Scope Z_scope.

Definition LaunchScopeGlobal : string := "global".
Definition LaunchScopeTeam : string := "team".
Definition LaunchScopeTaskType : string := "task_type".

(** resolvedSecretReference: the key is the map key. *)
Record secretRef : Type := mkSecretReference { rf_secret : string; rf_version : Z }.

(** resolvedLaunchParameters. *)
Record resolvedLaunchParameters : Type := mkResolved {
  rl_has_values : bool; rl_image : option string; rl_image_source : string }.

(** The WHERE clause and the ORDER BY rank of the definitions query. *)
Definition applicable (team task_type : string) (e : EnvDefRow) : bool :=
  negb (ed_deleted e) &&
  match ed_scope e with
  | None => false
  | Some s =>
      bool_decide (s = LaunchScopeGlobal) ||
      bool_decide (s = LaunchScopeTeam ∧ ed_team e = Some team) ||
      bool_decide (s = LaunchScopeTaskType ∧ ed_team e = Some team ∧ ed_task_type e = Some task_type)
  end.

Definition scope_rank (e : EnvDefRow) : nat :=
  if bool_decide (ed_scope e = Some LaunchScopeGlobal) then 1
  else if bool_decide (ed_scope e = Some LaunchScopeTeam) then 2 else 3.

Definition rank_le (a b : EnvDefRow) : Prop := (scope_rank a ≤ scope_rank b)%nat.
#[export] Instance rank_le_dec : RelDecision rank_le.
Proof. intros a b. unfold rank_le. apply _. Defined.

Definition applicable_definitions (team task_type : string) (d : DB) : list EnvDefRow :=
  order_by rank_le (filter (λ e, applicable team task_type e) (rows (db_envs d))).

(** SELECT name, secret_id, latest_version FROM secrets WHERE environment_id = $1 AND
    revoked = false ORDER BY name; scanning a NULL version fails. *)
Section secrets.
Context `{Collation}.

Definition name_le (a b : SecretRow) : Prop := coll_le (se_name a) (se_name b).
#[export] Instance name_le_dec : RelDecision name_le.
Proof using. intros a b. unfold name_le. apply _. Defined.

Definition scan_ref (s : SecretRow) : option (string * secretRef) :=
  match se_latest_version s with
  | None => None
  | Some v => Some (se_name s, mkSecretReference (se_id s) v)
  end.

Definition active_secrets (env : string) (d : DB) : list SecretRow :=
  order_by name_le
    (filter (λ s, se_env s = env ∧ se_revoked s = false) (rows (db_secrets d))).

Definition secret_refs_of (env : string) (d : DB) : result sql_error (list (string * secretRef)) :=
  match mapM scan_ref (active_secrets env d) with Some l => Ok l | None => Err SqlScan end.
End secrets.

(** The maps the loop threads: plain values, secret references, image and its source. *)
Record layers : Type := mkLayers {
  ly_values : gmap string string; ly_refs : gmap string secretRef;
  ly_image : option string; ly_source : string }.

Definition no_layers : layers := mkLayers ∅ ∅ None "".

(** for key, value := range definitionValues: set the value, drop the reference. *)
Definition add_values (vs : gmap string string) (l : layers) : layers :=
  mkLayers (vs ∪ ly_values l) (filter (λ kr, vs !! kr.1 = None) (ly_refs l))
    (ly_image l) (ly_source l).

(** for secretRows.Next(): set the reference, drop the value. *)
Definition add_ref (l : layers) (kr : string * secretRef) : layers :=
  mkLayers (delete kr.1 (ly_values l)) (<[kr.1 := kr.2]> (ly_refs l)) (ly_image l) (ly_source l).

Definition add_refs (rs : list (string * secretRef)) (l : layers) : layers := foldl add_ref l rs.

Definition image_source_of (scope : option string) (old : string) : string :=
  if bool_decide (scope = Some LaunchScopeGlobal) then "global_launch_parameters"
  else if bool_decide (scope = Some LaunchScopeTeam) then "team_launch_parameters"
  else if bool_decide (scope = Some LaunchScopeTaskType) then "task_type_launch_parameters"
  else old.

Definition add_image (e : EnvDefRow) (l : layers) : layers :=
  match ed_image e with
  | None => l
  | Some i => mkLayers (ly_values l) (ly_refs l) (Some i) (image_source_of (ed_scope e) (ly_source l))
  end.

Definition add_definition (e : EnvDefRow) (rs : list (string * secretRef)) (l : layers) : layers :=
  add_image e (add_refs rs (add_values (ed_values e) l)).

Section resolve.
Context `{Collation}.

Fixpoint resolve_layers (defs : list EnvDefRow) (l : layers) : TxS layers :=
  match defs with
  | [] => ret l
  | e :: rest =>
      rs <- query_scan (ErrWrap "list applicable secret references") (secret_refs_of (ed_id e)) ;;
      resolve_layers rest (add_definition e rs l)
  end.

Fixpoint insert_refs (team task : string) (rs : list (string * secretRef)) : TxS () :=
  match rs with
  | [] => ret ()
  | (key, r) :: rest =>
      exec (ErrWrap "insert task secret reference snapshot")
        (λ _, insert_secret_ref_once task key (mkSecretRef team (rf_secret r) (rf_version r))) ;;;
      insert_refs team task rest
  end.

(** resolveLaunchParametersLocked. *)
Definition resolveLaunchParametersLocked (team task_type task : string) :
    TxS resolvedLaunchParameters :=
  defs <- query (ErrWrap "list applicable launch parameters")
            (applicable_definitions team task_type) ;;
  l <- resolve_layers defs no_layers ;;
  exec (ErrWrap "insert task launch parameter snapshot")
    (λ _, insert_snapshot_once task (mkSnapshot team (ly_values l))) ;;;
  insert_refs team task (map_to_list (ly_refs l)) ;;;
  ret (mkResolved (negb (bool_decide (ly_values l = ∅ ∧ map_to_list (ly_refs l) = [])))
         (ly_image l) (ly_source l)).

(** ** The layering *)

(** A key is resolved either to a plain value or to a secret, never to both. *)
Definition layers_disjoint (l : layers) : Prop :=
  ∀ k, ly_values l !! k = None ∨ ly_refs l !! k = None.

Lemma add_values_disjoint vs l : layers_disjoint l → layers_disjoint (add_values vs l).
Proof using.
  intros Hd k. simpl. destruct (vs !! k) as [v|] eqn:Ev.
  - right. apply map_lookup_filter_None. right. intros r _ Hn. simpl in Hn. congruence.
  - destruct (Hd k) as [Hv|Hr].
    + left. by apply lookup_union_None.
    + right. apply map_lookup_filter_None. by left.
Qed.

Lemma add_ref_disjoint l kr : layers_disjoint l → layers_disjoint (add_ref l kr).
Proof using.
  intros Hd k. simpl. destruct (decide (kr.1 = k)) as [<-|Hne].
  - left. apply lookup_delete_eq.
  - rewrite lookup_delete_ne, lookup_insert_ne by done. apply Hd.
Qed.

Lemma add_refs_disjoint rs l : layers_disjoint l → layers_disjoint (add_refs rs l).
Proof using.
  revert l. induction rs as [|kr rs IH]; intros l Hd; [done|].
  simpl. apply IH. by apply add_ref_disjoint.
Qed.

Lemma add_definition_disjoint e rs l :
  layers_disjoint l → layers_disjoint (add_definition e rs l).
Proof using.
  intros Hd. unfold add_definition, add_image.
  assert (layers_disjoint (add_refs rs (add_values (ed_values e) l))) as Hd'.
  { by apply add_refs_disjoint, add_values_disjoint. }
  destruct (ed_image e); [|done]. intros k. apply (Hd' k).
Qed.

Lemma add_refs_values rs l k :
  k ∉ rs.*1 → ly_values (add_refs rs l) !! k = ly_values l !! k ∧
              ly_refs (add_refs rs l) !! k = ly_refs l !! k.
Proof using.
  revert l. induction rs as [|[k' r] rs IH]; intros l Hk; [done|].
  simpl in Hk. apply not_elem_of_cons in Hk as [Hne Hk].
  simpl. destruct (IH (add_ref l (k', r)) Hk) as [-> ->]. simpl.
  by rewrite lookup_delete_ne, lookup_insert_ne.
Qed.

(** A key the most specific definition sets wins over every layer below. *)
Lemma add_definition_value e rs l k v :
  ed_values e !! k = Some v → k ∉ rs.*1 →
  ly_values (add_definition e rs l) !! k = Some v.
Proof using.
  intros Hv Hk. unfold add_definition, add_image.
  assert (ly_values (add_refs rs (add_values (ed_values e) l)) !! k = Some v) as Hr.
  { rewrite (proj1 (add_refs_values rs (add_values (ed_values e) l) k Hk)).
    simpl. by apply lookup_union_Some_l. }
  destruct (ed_image e); simpl; done.
Qed.

(** A key neither its values nor its secrets mention is inherited. *)
Lemma add_definition_inherits e rs l k :
  ed_values e !! k = None → k ∉ rs.*1 →
  ly_values (add_definition e rs l) !! k = ly_values l !! k ∧
  ly_refs (add_definition e rs l) !! k = ly_refs l !! k.
Proof using.
  intros Hv Hk.
  destruct (add_refs_values rs (add_values (ed_values e) l) k Hk) as [Hvs Hrs].
  assert (ly_values (add_definition e rs l) !! k = (ed_values e ∪ ly_values l) !! k ∧
          ly_refs (add_definition e rs l) !! k
          = filter (λ kr, ed_values e !! kr.1 = None) (ly_refs l) !! k) as [-> ->].
  { unfold add_definition, add_image. destruct (ed_image e); simpl; by rewrite Hvs, Hrs. }
  split.
  - by apply lookup_union_r.
  - destruct (ly_refs l !! k) as [r|] eqn:Er.
    + by apply map_lookup_filter_Some.
    + apply map_lookup_filter_None. by left.
Qed.

Lemma resolve_layers_ok defs l env st l' st' :
  resolve_layers defs l env st = (Ok l', st') →
  ts_db st' = ts_db st ∧ ts_durable st' = ts_durable st ∧ ts_uuid st' = ts_uuid st ∧
  (layers_disjoint l → layers_disjoint l').
Proof using.
  revert l st. induction defs as [|e defs IH]; intros l st; simpl.
  - intros Hr. by apply ret_ok in Hr as [-> ->].
  - intros Hr. tx_step. tx_step. apply IH in Hk as (-> & -> & -> & Hd).
    split_and!; try congruence. intros Hl. by apply Hd, add_definition_disjoint.
Qed.

Lemma resolve_layers_never_commits defs l : never_commits (resolve_layers defs l).
Proof using. revert l. induction defs as [|e defs IH]; intros l; simpl; tx_atomic. Qed.

Lemma insert_refs_never_commits team task rs : never_commits (insert_refs team task rs).
Proof using. induction rs as [|[k r] rs IH]; simpl; tx_atomic. Qed.

Lemma resolveLaunchParametersLocked_never_commits team tt task :
  never_commits (resolveLaunchParametersLocked team tt task).
Proof using.
  unfold resolveLaunchParametersLocked.
  pose proof resolve_layers_never_commits. pose proof insert_refs_never_commits. tx_atomic.
Qed.
End resolve.
#[export] Hint Resolve resolveLaunchParametersLocked_never_commits : flow.

(** ** What the snapshot writes leave alone *)

(** Everything but the launch parameter snapshot tables. *)
Definition same_but_snapshots (d d' : DB) : Prop :=
  with_snapshots ∅ (with_secret_refs ∅ d') = with_snapshots ∅ (with_secret_refs ∅ d).

#[export] Instance same_but_snapshots_equiv : Equivalence same_but_snapshots.
Proof.
  split.
  - done.
  - by intros d d' H.
  - intros d d' d'' H H'. unfold same_but_snapshots in *. congruence.
Qed.

(** Every snapshot is of a task of its team, every reference belongs to a snapshot of its team
    and names a stored version. *)
Record snapshots_valid (d : DB) : Prop := mkSnapshotsValid {
  snv_tasks : ∀ k s, db_snapshots d !! k = Some s → task_of_team (sn_team s) k d = true;
  snv_refs : ∀ k key r, db_secret_refs d !! (k, key) = Some r →
    is_Some (db_secret_versions d !! (sr_secret r, sr_version r)) ∧
    ∃ s, db_snapshots d !! k = Some s ∧ sn_team s = sr_team r;
}.

Lemma insert_snapshot_once_valid task s d d' :
  insert_snapshot_once task s d = Ok d' → snapshots_valid d → snapshots_valid d'.
Proof.
  unfold insert_snapshot_once. destruct (db_snapshots d !! task) as [s0|] eqn:E; [by intros [= <-]|].
  intros [Ht [= <-]]%check_ok [Hs Hr]. constructor; simpl.
  - intros k x [[<- <-]|[_ Hk]]%lookup_insert_Some; [done|by apply Hs].
  - intros k key r Hk. destruct (Hr _ _ _ Hk) as (? & x & Hx & ?). split; [done|].
    exists x. rewrite lookup_insert_ne by congruence. done.
Qed.

Lemma insert_secret_ref_once_valid task key r d d' :
  insert_secret_ref_once task key r d = Ok d' → snapshots_valid d → snapshots_valid d'.
Proof.
  unfold insert_secret_ref_once. destruct (db_secret_refs d !! (task, key)) as [r0|] eqn:E;
    [by intros [= <-]|].
  intros [_ [[Ht Hv]%andb_true_iff [= <-]]%check_ok]%check_ok [Hs Hr]. constructor; simpl; [done|].
  intros k key' x [[[= <- <-] <-]|[_ Hk]]%lookup_insert_Some; [|by eapply Hr].
  destruct (db_snapshots d !! task) as [s|]; [|done]. to_prop. eauto.
Qed.

Lemma insert_refs_valid team task rs env st a st' :
  insert_refs team task rs env st = (Ok a, st') →
  snapshots_valid (ts_db st) → snapshots_valid (ts_db st').
Proof.
  revert st. induction rs as [|[k r] rs IH]; intros st; simpl.
  - intros Hr. by apply ret_ok in Hr as [_ ->].
  - intros Hr Hv. tx_step. tx_step. eapply IH; [done|].
    match goal with H : insert_secret_ref_once _ _ _ _ = _ |- _ =>
      by eapply insert_secret_ref_once_valid in H end.
Qed.

Lemma insert_snapshot_once_frame task s d d' :
  insert_snapshot_once task s d = Ok d' →
  same_but_snapshots d d' ∧ db_snapshots d ⊆ db_snapshots d' ∧ db_secret_refs d' = db_secret_refs d ∧
  db_snapshots d' !! task = Some (default s (db_snapshots d !! task)).
Proof.
  unfold insert_snapshot_once. destruct (db_snapshots d !! task) as [s0|] eqn:E.
  - intros [= <-]. by split_and!.
  - intros [_ [= <-]]%check_ok. split_and!; [done| | done |]; simpl.
    + by apply insert_subseteq.
    + apply lookup_insert_eq.
Qed.

Lemma insert_secret_ref_once_frame task key r d d' :
  insert_secret_ref_once task key r d = Ok d' →
  same_but_snapshots d d' ∧ db_snapshots d' = db_snapshots d ∧
  db_secret_refs d ⊆ db_secret_refs d'.
Proof.
  unfold insert_secret_ref_once. destruct (db_secret_refs d !! (task, key)) as [r0|] eqn:E.
  - intros [= <-]. by split_and!.
  - intros [_ [_ [= <-]]%check_ok]%check_ok. split_and!; [done..|]. simpl. by apply insert_subseteq.
Qed.

Lemma insert_refs_frame team task rs env st a st' :
  insert_refs team task rs env st = (Ok a, st') →
  same_but_snapshots (ts_db st) (ts_db st') ∧
  db_snapshots (ts_db st') = db_snapshots (ts_db st) ∧
  db_secret_refs (ts_db st) ⊆ db_secret_refs (ts_db st') ∧
  ts_durable st' = ts_durable st ∧ ts_uuid st' = ts_uuid st.
Proof.
  revert st. induction rs as [|[k r] rs IH]; intros st; simpl.
  - intros Hr. by apply ret_ok in Hr as [_ ->].
  - intros Hr. tx_step. tx_step. apply IH in Hk as (Q1 & Q2 & Q3 & Q4 & Q5).
    match goal with H : insert_secret_ref_once _ _ _ _ = _ |- _ =>
      apply insert_secret_ref_once_frame in H as (? & ? & ?) end.
    split_and!; [by etransitivity|congruence|by etransitivity|congruence..].
Qed.

(** ** What a claim freezes

    Stated from the tables, key by key, and independently of the loop: the most specific definition that
    mentions a key decides it. *)

(** The definitions that apply to a task, the global ones first and those of its type last. *)
Definition layered (d : DB) (team task_type : string) (defs : list EnvDefRow) : Prop :=
  (∃ globals teams types, defs = globals ++ teams ++ types ∧
     Forall (λ e, ed_scope e = Some "global") globals ∧
     Forall (λ e, ed_scope e = Some "team" ∧ ed_team e = Some team) teams ∧
     Forall (λ e, ed_scope e = Some "task_type" ∧ ed_team e = Some team ∧
                  ed_task_type e = Some task_type) types) ∧
  (∀ e, e ∈ defs ↔ e ∈ rows (db_envs d) ∧ ed_deleted e = false ∧
     (ed_scope e = Some "global" ∨
      ed_team e = Some team ∧ (ed_scope e = Some "team" ∨
        ed_scope e = Some "task_type" ∧ ed_task_type e = Some task_type))).

Definition active_secret (d : DB) (e : EnvDefRow) (key : string) (s : SecretRow) : Prop :=
  s ∈ rows (db_secrets d) ∧ se_env s = ed_id e ∧ se_revoked s = false ∧ se_name s = key.

(** A definition mentions a key with a plain value or with a secret. *)
Definition mentions (d : DB) (e : EnvDefRow) (key : string) : Prop :=
  is_Some (ed_values e !! key) ∨ ∃ s, active_secret d e key s.

(** [frozen_key d defs key value ref]: no definition mentions the key and it is absent; or of the last
    one that does, a secret in its latest version if it has one, and its plain value otherwise. *)
Definition frozen_key (d : DB) (defs : list EnvDefRow) (key : string) (value : option string)
    (ref : option secretRef) : Prop :=
  ((∀ e, e ∈ defs → ¬ mentions d e key) ∧ value = None ∧ ref = None) ∨
  ∃ before e after, defs = before ++ e :: after ∧ (∀ e', e' ∈ after → ¬ mentions d e' key) ∧
    ((∃ s v, active_secret d e key s ∧ se_latest_version s = Some v ∧
        value = None ∧ ref = Some (mkSecretReference (se_id s) v)) ∨
     ((∀ s, ¬ active_secret d e key s) ∧ is_Some value ∧ value = ed_values e !! key ∧ ref = None)).

(** The image of the last definition that has one, with the name of its scope. *)
Definition launch_image (defs : list EnvDefRow) (image : option string) (source : string) : Prop :=
  ((∀ e, e ∈ defs → ed_image e = None) ∧ image = None) ∨
  ∃ before e after i, defs = before ++ e :: after ∧ (∀ e', e' ∈ after → ed_image e' = None) ∧
    ed_image e = Some i ∧ image = Some i ∧
    ((ed_scope e = Some "global" ∧ source = "global_launch_parameters") ∨
     (ed_scope e = Some "team" ∧ source = "team_launch_parameters") ∨
     (ed_scope e = Some "task_type" ∧ source = "task_type_launch_parameters")).

Definition launch_parameters (d : DB) (team task_type : string) (p : layers) : Prop :=
  ∃ defs, layered d team task_type defs ∧
    (∀ key, frozen_key d defs key (ly_values p !! key) (ly_refs p !! key)) ∧
    launch_image defs (ly_image p) (ly_source p).

(** The snapshot of a task is added, and a reference per key that is frozen as a secret; what is there
    stays. *)
Definition snapshot_added (team task : string) (p : layers) (d d' : DB) : Prop :=
  (∀ task', db_snapshots d' !! task' =
     match db_snapshots d !! task' with
     | Some s => Some s
     | None => if bool_decide (task' = task) then Some (mkSnapshot team (ly_values p)) else None
     end) ∧
  (∀ task' key, db_secret_refs d' !! (task', key) =
     match db_secret_refs d !! (task', key) with
     | Some r => Some r
     | None => if bool_decide (task' = task)
               then (λ r, mkSecretRef team (rf_secret r) (rf_version r)) <$> ly_refs p !! key else None
     end).

Section frozen.
Context `{Collation}.

Lemma applicable_spec team tt e :
  applicable team tt e = true ↔ ed_deleted e = false ∧
    (ed_scope e = Some "global" ∨
     ed_team e = Some team ∧ (ed_scope e = Some "team" ∨
       ed_scope e = Some "task_type" ∧ ed_task_type e = Some tt)).
Proof using.
  unfold applicable. rewrite andb_true_iff, negb_true_iff.
  destruct (ed_scope e) as [s|]; [|split; [by intros [_ ?]|by intros (_ & [?|[_ [?|[? _]]]])]].
  unfold LaunchScopeGlobal, LaunchScopeTeam, LaunchScopeTaskType.
  rewrite !orb_true_iff, !bool_decide_eq_true. naive_solver.
Qed.

Lemma rank_split l :
  StronglySorted rank_le l → ∃ a b c, l = a ++ b ++ c ∧
    Forall (λ e, scope_rank e = 1%nat) a ∧ Forall (λ e, scope_rank e = 2%nat) b ∧
    Forall (λ e, scope_rank e = 3%nat) c.
Proof using.
  assert (∀ e, scope_rank e = 1%nat ∨ scope_rank e = 2%nat ∨ scope_rank e = 3%nat) as Hr
    by (intros e; unfold scope_rank; repeat case_bool_decide; auto).
  induction 1 as [|e l Hs (a & b & c & -> & Ha & Hb & Hc) Hle]; [by exists [], [], []|].
  destruct (Hr e) as [E|[E|E]].
  - exists (e :: a), b, c. split; [done|]. split_and!; [by constructor|done..].
  - exists a, (e :: b), c. destruct a as [|x a]; [split_and!; [done..|by constructor|done]|].
    inversion Hle as [|? ? Hx _]; subst. inversion Ha; subst. unfold rank_le in Hx. lia.
  - exists a, b, (e :: c). destruct a as [|x a]; [destruct b as [|x b]|].
    + split_and!; [done..|by constructor].
    + inversion Hle as [|? ? Hx _]; subst. inversion Hb; subst. unfold rank_le in Hx. lia.
    + inversion Hle as [|? ? Hx _]; subst. inversion Ha; subst. unfold rank_le in Hx. lia.
Qed.

Lemma applicable_layered team tt d : layered d team tt (applicable_definitions team tt d).
Proof using.
  assert (∀ e, e ∈ applicable_definitions team tt d ↔ e ∈ rows (db_envs d) ∧ applicable team tt e = true) as Hin.
  { intros e. unfold applicable_definitions. rewrite elem_of_order_by, list_elem_of_filter, Is_true_true. tauto. }
  split; [|intros e; by rewrite Hin, applicable_spec].
  destruct (rank_split (applicable_definitions team tt d)) as (a & b & c & E & Ha & Hb & Hc).
  { apply order_by_sorted; unfold rank_le; [intros x y z; lia|intros x y; lia]. }
  exists a, b, c. split; [done|]. rewrite !Forall_forall in *.
  assert (∀ e, e ∈ a ++ b ++ c → ed_scope e = Some "global" ∨
     ed_team e = Some team ∧ (ed_scope e = Some "team" ∨
       ed_scope e = Some "task_type" ∧ ed_task_type e = Some tt)) as Hall.
  { intros e He. rewrite <- E in He. by apply Hin in He as [_ [_ ?]%applicable_spec]. }
  assert (∀ e s, ed_scope e = Some s → scope_rank e =
    if bool_decide (s = "global") then 1%nat else if bool_decide (s = "team") then 2%nat else 3%nat) as Hrank.
  { intros e s Hs. unfold scope_rank, LaunchScopeGlobal, LaunchScopeTeam. rewrite Hs. repeat case_bool_decide; congruence. }
  split_and!.
  - intros e He. specialize (Ha e He). destruct (Hall e) as [?|[_ [Hs|[Hs _]]]]; [set_solver|done|..];
      rewrite (Hrank _ _ Hs) in Ha; discriminate Ha.
  - intros e He. specialize (Hb e He). destruct (Hall e) as [Hs|[? [?|[Hs _]]]]; [set_solver| |done|];
      rewrite (Hrank _ _ Hs) in Hb; discriminate Hb.
  - intros e He. specialize (Hc e He). destruct (Hall e) as [Hs|[? [Hs|[? ?]]]]; [set_solver|..|done];
      rewrite (Hrank _ _ Hs) in Hc; discriminate Hc.
Qed.

(** The rows that the loop reads for a definition. *)
Lemma secret_refs_spec e d rs :
  secret_refs_of (ed_id e) d = Ok rs →
  ∀ key r, (key, r) ∈ rs ↔ ∃ s v, active_secret d e key s ∧ se_latest_version s = Some v ∧
                                  r = mkSecretReference (se_id s) v.
Proof using.
  unfold secret_refs_of. destruct (mapM scan_ref _) as [l|] eqn:E; [|done]. intros [= ->] key r.
  assert (∀ s, s ∈ active_secrets (ed_id e) d ↔ active_secret d e (se_name s) s) as Hin.
  { intros s. unfold active_secrets, active_secret.
    rewrite elem_of_order_by, list_elem_of_filter. tauto. }
  apply mapM_Some in E. split.
  - intros [i Hi]%list_elem_of_lookup. eapply Forall2_lookup_r in E as (s & Hs & Hsc); [|done].
    unfold scan_ref in Hsc. destruct (se_latest_version s) as [v|] eqn:Ev; [|done]. injection Hsc as <- <-.
    exists s, v. split_and!; [|done..]. by apply Hin, list_elem_of_lookup_2 with i.
  - intros (s & v & Ha & Hv & ->). assert (se_name s = key) as <- by apply Ha.
    apply Hin, list_elem_of_lookup in Ha as [i Hi]. eapply Forall2_lookup_l in E as (y & Hy & Hsc); [|done].
    unfold scan_ref in Hsc. rewrite Hv in Hsc. injection Hsc as <-. by eapply list_elem_of_lookup_2.
Qed.

Lemma secret_refs_keys e d rs key :
  secret_refs_of (ed_id e) d = Ok rs → key ∈ rs.*1 ↔ ∃ s, active_secret d e key s.
Proof using.
  intros Hrs. pose proof (secret_refs_spec _ _ _ Hrs) as Hin. split.
  - intros ([k r] & -> & (s & v & Ha & _)%Hin)%list_elem_of_fmap. by exists s.
  - intros [s Ha]. destruct (se_latest_version s) as [v|] eqn:Ev.
    + apply list_elem_of_fmap. exists (key, mkSecretReference (se_id s) v). split; [done|]. apply Hin. by exists s, v.
    + exfalso. unfold secret_refs_of in Hrs. destruct (mapM scan_ref _) as [l|] eqn:E; [|done].
      apply mapM_Some in E.
      assert (s ∈ active_secrets (ed_id e) d) as [i Hi]%list_elem_of_lookup.
      { unfold active_secrets. rewrite elem_of_order_by, list_elem_of_filter. destruct Ha as (? & ? & ? & ?). done. }
      eapply Forall2_lookup_l in E as (y & _ & Hsc); [|done]. unfold scan_ref in Hsc. by rewrite Ev in Hsc.
Qed.

Lemma add_refs_in rs l key :
  key ∈ rs.*1 → ly_values (add_refs rs l) !! key = None ∧
    ∃ r, ly_refs (add_refs rs l) !! key = Some r ∧ (key, r) ∈ rs.
Proof using.
  revert l. induction rs as [|[k' r'] rs IH]; intros l Hk; [by apply not_elem_of_nil in Hk|].
  cbn [add_refs foldl]. fold (add_refs rs (add_ref l (k', r'))).
  destruct (decide (key ∈ rs.*1)) as [Hin|Hin].
  - destruct (IH (add_ref l (k', r')) Hin) as [-> (r & -> & ?)]. split; [done|]. exists r. split; [done|by right].
  - assert (key = k') as -> by (apply elem_of_cons in Hk as [?|?]; done).
    destruct (add_refs_values rs (add_ref l (k', r')) k' Hin) as [-> ->]. simpl.
    rewrite lookup_delete_eq, lookup_insert_eq. split; [done|]. exists r'. split; [done|by left].
Qed.

Lemma add_definition_fields e rs l :
  ly_values (add_definition e rs l) = ly_values (add_refs rs (add_values (ed_values e) l)) ∧
  ly_refs (add_definition e rs l) = ly_refs (add_refs rs (add_values (ed_values e) l)).
Proof using. unfold add_definition, add_image. by destruct (ed_image e). Qed.

Lemma frozen_key_snoc d defs e rs l key :
  secret_refs_of (ed_id e) d = Ok rs →
  frozen_key d defs key (ly_values l !! key) (ly_refs l !! key) →
  frozen_key d (defs ++ [e]) key (ly_values (add_definition e rs l) !! key)
    (ly_refs (add_definition e rs l) !! key).
Proof using.
  intros Hrs Hf. pose proof (secret_refs_keys _ _ _ key Hrs) as Hkeys.
  assert (∀ e', e' ∈ (@nil EnvDefRow) → ¬ mentions d e' key) as Hnil by (intros e' ?%not_elem_of_nil; done).
  destruct (decide (key ∈ rs.*1)) as [Hin|Hin]; [|destruct (ed_values e !! key) as [v|] eqn:Hv].
  - right. exists defs, e, []. split_and!; [done..|]. left.
    destruct (add_definition_fields e rs l) as [-> ->].
    destruct (add_refs_in rs (add_values (ed_values e) l) key Hin) as [-> (r & -> & Hr)].
    apply (secret_refs_spec _ _ _ Hrs) in Hr as (s & v & ? & ? & ->). by exists s, v.
  - right. exists defs, e, []. split_and!; [done..|]. right.
    rewrite (add_definition_value e rs l key v) by done. rewrite Hv.
    destruct (add_definition_fields e rs l) as [_ ->].
    destruct (add_refs_values rs (add_values (ed_values e) l) key Hin) as [_ ->].
    split_and!; [intros s Hs; by apply Hin, Hkeys; exists s|by eexists|done|].
    simpl. apply map_lookup_filter_None. right. intros r _ Hn. simpl in Hn. congruence.
  - assert (¬ mentions d e key) as Hno.
    { intros [[v Hv']|Hs]; [congruence|by apply Hin, Hkeys]. }
    destruct (add_definition_inherits e rs l key Hv Hin) as [-> ->].
    destruct Hf as [(Hall & ? & ?)|(before & e0 & after & -> & Hafter & Hcase)].
    + left. split; [|done]. intros e' [?| ->%list_elem_of_singleton]%elem_of_app; auto.
    + right. exists before, e0, (after ++ [e]). rewrite <- app_assoc. split_and!; [done| |done].
      intros e' [?| ->%list_elem_of_singleton]%elem_of_app; auto.
Qed.

Lemma launch_image_snoc defs e rs l :
  (ed_scope e = Some "global" ∨ ed_scope e = Some "team" ∨ ed_scope e = Some "task_type") →
  launch_image defs (ly_image l) (ly_source l) →
  launch_image (defs ++ [e]) (ly_image (add_definition e rs l)) (ly_source (add_definition e rs l)).
Proof using.
  intros Hsc Hl.
  assert (ly_image (add_refs rs (add_values (ed_values e) l)) = ly_image l ∧
          ly_source (add_refs rs (add_values (ed_values e) l)) = ly_source l) as [Ei Es].
  { assert (∀ l0, ly_image (add_refs rs l0) = ly_image l0 ∧ ly_source (add_refs rs l0) = ly_source l0) as Hrs.
    { induction rs as [|r rs IH]; intros l0; [done|]. apply (IH (add_ref l0 r)). }
    apply (Hrs (add_values (ed_values e) l)). }
  unfold add_definition, add_image. destruct (ed_image e) as [i|] eqn:Hi.
  - right. exists defs, e, [], i. split_and!; [done|by intros e' ?%not_elem_of_nil|done..|].
    simpl. unfold image_source_of. destruct Hsc as [-> | [-> | ->]]; auto.
  - rewrite Ei, Es. destruct Hl as [[Hall ?]|(before & e0 & after & i & -> & Hafter & Hrest)].
    + left. split; [|done]. intros e' [?| ->%list_elem_of_singleton]%elem_of_app; auto.
    + right. exists before, e0, (after ++ [e]), i. rewrite <- app_assoc. split_and!; [done| |by apply Hrest..].
      intros e' [?| ->%list_elem_of_singleton]%elem_of_app; auto.
Qed.

Lemma resolve_layers_frozen defs done_ l env st l' st' :
  resolve_layers defs l env st = (Ok l', st') →
  (∀ e, e ∈ defs → ed_scope e = Some "global" ∨ ed_scope e = Some "team" ∨ ed_scope e = Some "task_type") →
  (∀ key, frozen_key (ts_db st) done_ key (ly_values l !! key) (ly_refs l !! key)) →
  launch_image done_ (ly_image l) (ly_source l) →
  (∀ key, frozen_key (ts_db st) (done_ ++ defs) key (ly_values l' !! key) (ly_refs l' !! key)) ∧
  launch_image (done_ ++ defs) (ly_image l') (ly_source l').
Proof using.
  revert done_ l st. induction defs as [|e defs IH]; intros done_ l st; simpl.
  - intros [-> _]%ret_ok _ ? ?. by rewrite app_nil_r.
  - intros Hr Hsc Hk Hi. tx_step. tx_step.
    match goal with Hs : secret_refs_of _ _ = Ok _, Hd : ts_db _ = ts_db st |- _ => rename Hs into Hrs; rename Hd into Hdb end.
    rewrite <- Hdb. replace (done_ ++ e :: defs) with ((done_ ++ [e]) ++ defs) by by rewrite <- app_assoc.
    eapply IH; [exact Hk0|intros e' ?; apply Hsc; by right|..].
    + intros key. rewrite Hdb. by apply frozen_key_snoc.
    + apply launch_image_snoc; [|done]. apply Hsc. by left.
Qed.

Lemma insert_refs_added team task rs env st a st' :
  insert_refs team task rs env st = (Ok a, st') → NoDup rs.*1 →
  ∀ task' key, db_secret_refs (ts_db st') !! (task', key) =
    match db_secret_refs (ts_db st) !! (task', key) with
    | Some r => Some r
    | None => if bool_decide (task' = task)
              then (λ r, mkSecretRef team (rf_secret r) (rf_version r)) <$> (list_to_map rs : gmap _ _) !! key
              else None
    end.
Proof using.
  revert st. induction rs as [|[k r] rs IH]; intros st; simpl.
  - intros [_ ->]%ret_ok _ task' key. rewrite lookup_empty. simpl.
    destruct (_ !! _); [done|]. by case_bool_decide.
  - intros Hr [Hk Hnd]%NoDup_cons task' key. tx_step. tx_step.
    match goal with Hi : insert_secret_ref_once _ _ _ _ = _ |- _ => rename Hi into Hins end.
    rewrite (IH _ Hk0 Hnd task' key). unfold insert_secret_ref_once in Hins.
    destruct (db_secret_refs (ts_db st) !! (task, k)) as [r0|] eqn:E.
    + injection Hins as <-. destruct (db_secret_refs (ts_db st) !! (task', key)) eqn:E'; [done|].
      case_bool_decide; [|done]. subst task'. rewrite lookup_insert_ne by congruence. done.
    + apply check_ok in Hins as [_ [_ [= <-]]%check_ok]. simpl.
      destruct (decide ((task', key) = (task, k))) as [[= -> ->]|Hne].
      * rewrite lookup_insert_eq, E, bool_decide_eq_true_2, lookup_insert_eq by done. done.
      * rewrite lookup_insert_ne by congruence. destruct (_ !! (task', key)); [done|].
        case_bool_decide; [|done]. subst. by rewrite lookup_insert_ne by congruence.
Qed.

(** The resolution freezes the launch parameters of the tables it reads, and reports their image. *)
Lemma resolveLaunchParametersLocked_frozen team tt task env st r st' :
  resolveLaunchParametersLocked team tt task env st = (Ok r, st') →
  ∃ p, launch_parameters (ts_db st) team tt p ∧ rl_image r = ly_image p ∧ rl_image_source r = ly_source p ∧
    snapshot_added team task p (ts_db st) (ts_db st').
Proof using.
  unfold resolveLaunchParametersLocked. intros Hr. tx_inv.
  match goal with Hl : resolve_layers _ _ _ _ = (Ok ?p, _) |- _ => rename Hl into Hlay; exists p end.
  pose proof (resolve_layers_ok _ _ _ _ _ _ Hlay) as (Hdb & _).
  match goal with Hd : ts_db ?s = ts_db st |- _ => rename Hd into Hst end.
  apply (resolve_layers_frozen _ []) in Hlay as [Hkeys Himg].
  - rewrite Hst in Hkeys. split; [eexists; split; [apply applicable_layered|by split]|].
    split; [done|]. split; [done|].
    match goal with Hs : insert_snapshot_once _ _ _ = Ok _, Hi : insert_refs _ _ _ _ _ = _ |- _ =>
      pose proof (insert_refs_frame _ _ _ _ _ _ _ Hi) as (_ & Hsn & _);
      pose proof (insert_refs_added _ _ _ _ _ _ _ Hi (NoDup_fst_map_to_list _)) as Hrefs;
      rename Hs into Hsnap end.
    rewrite list_to_map_to_list in Hrefs. rewrite Hdb, Hst in Hsnap.
    pose proof (insert_snapshot_once_frame _ _ _ _ Hsnap) as (_ & _ & Er & _). rewrite Er in Hrefs.
    split; [|exact Hrefs]. intros task'. rewrite Hsn. unfold insert_snapshot_once in Hsnap.
    destruct (db_snapshots (ts_db st) !! task) as [s0|] eqn:E0.
    + injection Hsnap as <-. destruct (_ !! task') eqn:E1; [done|]. case_bool_decide; [congruence|done].
    + apply check_ok in Hsnap as [_ [= <-]]. simpl. destruct (decide (task' = task)) as [->|Hne].
      * by rewrite lookup_insert_eq, E0, bool_decide_eq_true_2.
      * rewrite lookup_insert_ne by done. rewrite bool_decide_eq_false_2 by done. by destruct (_ !! task').
  - intros e He. apply applicable_layered in He as (_ & _ & [?|[_ [?|[? _]]]]); auto.
  - intros key. left. split; [by intros e ?%not_elem_of_nil|].
    unfold no_layers. cbn [ly_values ly_refs]. by rewrite !lookup_empty.
  - left. split; [by intros e ?%not_elem_of_nil|done].
Qed.
End frozen.

(** Freezing launch parameters changes the snapshot tables only, adds to them, and leaves a
    snapshot for the task that a later resolution does not replace. *)
Lemma resolveLaunchParametersLocked_frame `{Collation} team tt task env st r st' :
  resolveLaunchParametersLocked team tt task env st = (Ok r, st') →
  same_but_snapshots (ts_db st) (ts_db st') ∧
  db_snapshots (ts_db st) ⊆ db_snapshots (ts_db st') ∧
  db_secret_refs (ts_db st) ⊆ db_secret_refs (ts_db st') ∧
  is_Some (db_snapshots (ts_db st') !! task) ∧
  (snapshots_valid (ts_db st) → snapshots_valid (ts_db st')) ∧
  ts_durable st' = ts_durable st ∧ ts_uuid st' = ts_uuid st.
Proof.
  unfold resolveLaunchParametersLocked. intros Hr. tx_inv.
  match goal with Hi : insert_refs _ _ _ _ _ = _, Hs : insert_snapshot_once _ _ _ = _ |- _ =>
    pose proof (λ hv, insert_refs_valid _ _ _ _ _ _ _ Hi (insert_snapshot_once_valid _ _ _ _ Hs hv)) end.
  use_ok @resolve_layers_ok. use_ok insert_refs_frame. use_ok insert_snapshot_once_frame.
  tx_states. split_and!; try congruence.
  - match goal with H : db_snapshots _ = db_snapshots _ |- _ => by rewrite H end.
  - match goal with H : db_secret_refs _ = db_secret_refs _ |- _ => by rewrite <- H end.
  - match goal with H : db_snapshots _ = db_snapshots _ |- _ => rewrite H end. eauto.
  - done.
Qed.
