(* ===== verification/LaunchTables.v ===== *)
(** * The tables of launch parameters and secrets

    The constraints, partial unique indexes and triggers of environment_definitions,
    environment_revisions, secrets and secret_versions (migrations/sql), as the write
    operations of LaunchParams, Secrets and OpenEnv meet them. *)

From stdpp Require Import base gmap strings list.
From S2P Require Import Prelude Platform Tx Schema Store Launch.
#[local] Open Scope Z_scope.

Definition out_of_range : string := "22003".

(** ** environment_definitions *)

(** environment_scope_kind_valid and environment_task_type_scope_valid. *)
Definition scope_kind_ok (e : EnvDefRow) : bool :=
  match ed_scope e with
  | None => true
  | Some s =>
      bool_decide (s = LaunchScopeGlobal ∧ ed_team e = None ∧ ed_task_type e = None) ||
      bool_decide (s = LaunchScopeTeam ∧ is_Some (ed_team e) ∧ ed_task_type e = None) ||
      bool_decide (s = LaunchScopeTaskType ∧ is_Some (ed_team e) ∧ is_Some (ed_task_type e))
  end.

(** The partial unique indexes environment_one_active_*_scope. *)
Definition active_conflict (a b : EnvDefRow) : bool :=
  negb (ed_deleted a) && negb (ed_deleted b) && bool_decide (ed_scope a = ed_scope b) &&
  match ed_scope a with
  | None => false
  | Some s =>
      bool_decide (s = LaunchScopeGlobal) ||
      bool_decide (s = LaunchScopeTeam ∧ ed_team a = ed_team b) ||
      bool_decide (s = LaunchScopeTaskType ∧ ed_team a = ed_team b ∧ ed_task_type a = ed_task_type b)
  end.

Definition scope_free (e : EnvDefRow) (d : DB) : bool :=
  bool_decide (map_Forall (λ k e', k = ed_id e ∨ active_conflict e e' = false) (db_envs d)).

(** FOREIGN KEY (team_id, task_type_id), not checked when a column is NULL. *)
Definition task_type_ref (team task_type : option string) (d : DB) : bool :=
  match team, task_type with Some t, Some y => type_of_team t y d | _, _ => true end.

Definition env_ok (e : EnvDefRow) : bool :=
  nonblank (ed_name e) && scope_kind_ok e && (1 <=? ed_revision e).

Definition insert_env (e : EnvDefRow) (d : DB) : result sql_error DB :=
  check (env_ok e) check_violation "environment_definitions_check"
  (check (bool_decide (db_envs d !! ed_id e = None)) unique_violation "environment_definitions_pkey"
  (check (scope_free e d) unique_violation "environment_one_active_scope"
  (check (team_ref (ed_team e) d && task_type_ref (ed_team e) (ed_task_type e) d)
         foreign_key_violation "environment_definitions_fkey"
  (Ok (with_envs (<[ed_id e := e]> (db_envs d)) d))))).

(** UPDATE environment_definitions SET f WHERE environment_id = id AND cond RETURNING. *)
Definition update_env (id : string) (cond : EnvDefRow → bool) (f : EnvDefRow → EnvDefRow) (d : DB) :
    result sql_error (DB * option EnvDefRow) :=
  match db_envs d !! id with
  | None => Ok (d, None)
  | Some e =>
      if cond e then
        let e' := f e in
        check (int4 (ed_revision e')) out_of_range "integer"
        (check (bool_decide (ed_id e' = ed_id e ∧ ed_team e' = ed_team e))
               trigger_violation "environment_definitions_immutable_team"
        (check (env_ok e') check_violation "environment_definitions_check"
        (check (scope_free e' d) unique_violation "environment_one_active_scope"
        (check (task_type_ref (ed_team e') (ed_task_type e') d)
               foreign_key_violation "environment_definitions_fkey"
        (Ok (with_envs (<[id := e']> (db_envs d)) d, Some e'))))))
      else Ok (d, None)
  end.

Lemma insert_env_ok e d d' :
  insert_env e d = Ok d' →
  db_envs d !! ed_id e = None ∧ scope_free e d = true ∧ env_ok e = true ∧
  d' = with_envs (<[ed_id e := e]> (db_envs d)) d.
Proof. unfold insert_env. intros Hi. checks_in Hi. by simplify_eq. Qed.

Lemma update_env_ok id cond f d d' o :
  update_env id cond f d = Ok (d', o) →
  (o = None ∧ d' = d) ∨
  ∃ e, db_envs d !! id = Some e ∧ cond e = true ∧ o = Some (f e) ∧ ed_id (f e) = ed_id e ∧
       env_ok (f e) = true ∧ scope_free (f e) d = true ∧
       d' = with_envs (<[id := f e]> (db_envs d)) d.
Proof.
  unfold update_env. destruct (db_envs d !! id) as [e|]; [|intros [= <- <-]; by left].
  destruct (cond e) eqn:Hc; [|intros [= <- <-]; by left].
  intros Hi. checks_in Hi. simplify_eq. right. exists e. split_and!; naive_solver.
Qed.

(** ** environment_revisions *)

Definition insert_env_revision (id : string) (revision : Z) (r : EnvRevisionRow) (d : DB) :
    result sql_error DB :=
  check ((1 <=? revision) && mem (er_scope r) [LaunchScopeGlobal; LaunchScopeTeam; LaunchScopeTaskType])
        check_violation "environment_revisions_check"
  (check (bool_decide (db_env_revisions d !! (id, revision) = None))
         unique_violation "environment_revisions_pkey"
  (check (bool_decide (is_Some (db_envs d !! id)) && task_type_ref (er_team r) (er_task_type r) d)
         foreign_key_violation "environment_revisions_fkey"
  (Ok (with_env_revisions (<[(id, revision) := r]> (db_env_revisions d)) d)))).

Lemma insert_env_revision_ok id n r d d' :
  insert_env_revision id n r d = Ok d' →
  db_env_revisions d !! (id, n) = None ∧
  d' = with_env_revisions (<[(id, n) := r]> (db_env_revisions d)) d.
Proof. unfold insert_env_revision. intros Hi. checks_in Hi. by simplify_eq. Qed.

(** ** secrets, secret_versions *)

Definition version_ok (v : option Z) : bool := match v with None => true | Some v => 1 <=? v end.

Definition env_of_team (team id : string) (d : DB) : bool :=
  match db_envs d !! id with Some e => bool_decide (ed_team e = Some team) | None => false end.

(** FOREIGN KEY (team_id, environment_id) REFERENCES environment_definitions. *)
Definition env_ref (team : option string) (id : string) (d : DB) : bool :=
  match team with Some t => env_of_team t id d | None => true end.

Definition insert_secret (s : SecretRow) (d : DB) : result sql_error DB :=
  check (nonblank (se_name s) && version_ok (se_latest_version s)) check_violation "secrets_check"
  (check (bool_decide (db_secrets d !! se_id s = None)) unique_violation "secrets_pkey"
  (check (team_ref (se_team s) d && env_ref (se_team s) (se_env s) d)
         foreign_key_violation "secrets_fkey"
  (Ok (with_secrets (<[se_id s := s]> (db_secrets d)) d)))).

(** UPDATE secrets SET f WHERE secret_id = id AND cond RETURNING. *)
Definition update_secret (id : string) (cond : SecretRow → bool) (f : SecretRow → SecretRow) (d : DB) :
    result sql_error (DB * option SecretRow) :=
  match db_secrets d !! id with
  | None => Ok (d, None)
  | Some s =>
      if cond s then
        let s' := f s in
        check (match se_latest_version s' with Some v => int4 v | None => true end)
              out_of_range "integer"
        (check (bool_decide (se_id s' = se_id s ∧ se_team s' = se_team s))
               trigger_violation "secrets_immutable_team"
        (check (nonblank (se_name s') && version_ok (se_latest_version s'))
               check_violation "secrets_check"
        (Ok (with_secrets (<[id := s']> (db_secrets d)) d, Some s'))))
      else Ok (d, None)
  end.

Definition secret_of_team (team : option string) (id : string) (d : DB) : bool :=
  match team, db_secrets d !! id with
  | None, _ => true
  | Some t, Some s => bool_decide (se_team s = Some t)
  | Some _, None => false
  end.

Definition insert_secret_version (id : string) (version : Z) (v : SecretVersionRow) (d : DB) :
    result sql_error DB :=
  check (int4 version) out_of_range "integer"
  (check ((1 <=? version) && (String.length (sv_nonce v) =? 12)%nat &&
          (String.length (sv_tag v) =? 16)%nat && nonblank (sv_key_id v) && (1 <=? sv_key_version v))
         check_violation "secret_versions_check"
  (check (bool_decide (db_secret_versions d !! (id, version) = None))
         unique_violation "secret_versions_pkey"
  (check (secret_of_team (sv_team v) id d) foreign_key_violation "secret_versions_fkey"
  (Ok (with_secret_versions (<[(id, version) := v]> (db_secret_versions d)) d))))).

Lemma insert_secret_ok s d d' :
  insert_secret s d = Ok d' →
  db_secrets d !! se_id s = None ∧ env_ref (se_team s) (se_env s) d = true ∧
  d' = with_secrets (<[se_id s := s]> (db_secrets d)) d.
Proof. unfold insert_secret. intros Hi. checks_in Hi. by simplify_eq. Qed.

Lemma update_secret_ok id cond f d d' o :
  update_secret id cond f d = Ok (d', o) →
  (o = None ∧ d' = d ∧ ∀ s, db_secrets d !! id = Some s → cond s = false) ∨
  ∃ s, db_secrets d !! id = Some s ∧ cond s = true ∧ o = Some (f s) ∧
       d' = with_secrets (<[id := f s]> (db_secrets d)) d.
Proof.
  unfold update_secret. destruct (db_secrets d !! id) as [s|]; [|intros [= <- <-]; by left].
  destruct (cond s) eqn:Hc; [|intros [= <- <-]; left; naive_solver].
  intros Hi. checks_in Hi. simplify_eq. right. by exists s.
Qed.

Lemma insert_secret_version_ok id n v d d' :
  insert_secret_version id n v d = Ok d' →
  db_secret_versions d !! (id, n) = None ∧ secret_of_team (sv_team v) id d = true ∧
  d' = with_secret_versions (<[(id, n) := v]> (db_secret_versions d)) d.
Proof. unfold insert_secret_version. intros Hi. checks_in Hi. by simplify_eq. Qed.
