(* ===== verification/GoStrings.v ===== *)
(** * The parts of Go's strings package the source uses *)

From stdpp Require Import base strings list.
From Stdlib Require Import Ascii.
From S2P Require Import Prelude.
#[local] Open Scope Z_scope.

Definition chars (s : string) : list ascii := String.list_ascii_of_string s.
Definition of_chars (l : list ascii) : string := String.string_of_list_ascii l.

Lemma of_chars_chars s : of_chars (chars s) = s.
Proof. apply String.string_of_list_ascii_of_string. Qed.
Lemma chars_of_chars l : chars (of_chars l) = l.
Proof. apply String.list_ascii_of_string_of_list_ascii. Qed.
Lemma chars_inj s s' : chars s = chars s' → s = s'.
Proof. intros H. by rewrite <- (of_chars_chars s), H, of_chars_chars. Qed.

Lemma chars_app s s' : chars (s +:+ s') = chars s ++ chars s'.
Proof. induction s as [|c s IH]; [done|]. unfold chars in *. simpl. by rewrite IH. Qed.

Lemma length_chars s : length (chars s) = String.length s.
Proof. induction s as [|c s IH]; [done|]. unfold chars in *. simpl. by rewrite IH. Qed.

(** strings.Split for a one-character separator. *)
Fixpoint split_chars (sep : ascii) (l : list ascii) : list (list ascii) :=
  match l with
  | [] => [[]]
  | c :: l' =>
      if bool_decide (c = sep) then [] :: split_chars sep l'
      else match split_chars sep l' with
           | [] => [[c]]
           | p :: ps => (c :: p) :: ps
           end
  end.

Definition split (sep : ascii) (s : string) : list string :=
  of_chars <$> split_chars sep (chars s).

Lemma split_chars_none sep l : sep ∉ l → split_chars sep l = [l].
Proof.
  induction l as [|c l IH]; intros Hn; [done|]. apply not_elem_of_cons in Hn as [Hne Hn].
  simpl. rewrite bool_decide_eq_false_2 by done. by rewrite IH.
Qed.

Lemma split_chars_app sep l k :
  sep ∉ l → split_chars sep (l ++ sep :: k) = l :: split_chars sep k.
Proof.
  induction l as [|c l IH]; intros Hn; simpl.
  - by rewrite bool_decide_eq_true_2.
  - apply not_elem_of_cons in Hn as [Hne Hn].
    rewrite bool_decide_eq_false_2 by done. by rewrite IH.
Qed.

(** Joining three parts that do not contain the separator and splitting gives them back. *)
Lemma split_three sep a b c :
  sep ∉ chars a → sep ∉ chars b → sep ∉ chars c →
  split sep (a +:+ String sep (b +:+ String sep c)) = [a; b; c].
Proof.
  intros Ha Hb Hc. unfold split.
  assert (chars (a +:+ String sep (b +:+ String sep c))
          = chars a ++ sep :: (chars b ++ sep :: chars c)) as ->.
  { rewrite chars_app. f_equal. unfold chars at 1. simpl. f_equal.
    change (chars (b +:+ String sep c) = chars b ++ sep :: chars c). by rewrite chars_app. }
  rewrite !split_chars_app by done. rewrite split_chars_none by done.
  simpl. by rewrite !of_chars_chars.
Qed.

(** Splitting loses nothing: the parts joined by the separator are the text. *)
Fixpoint join_chars (sep : ascii) (ps : list (list ascii)) : list ascii :=
  match ps with
  | [] => []
  | [p] => p
  | p :: ps' => p ++ sep :: join_chars sep ps'
  end.

Lemma split_chars_nonempty sep l : split_chars sep l ≠ [].
Proof.
  destruct l as [|c l]; [done|]. simpl. case_bool_decide; [done|].
  by destruct (split_chars sep l).
Qed.

Lemma join_split sep l : join_chars sep (split_chars sep l) = l.
Proof.
  induction l as [|c l IH]; [done|]. simpl.
  pose proof (split_chars_nonempty sep l) as Hne.
  case_bool_decide as Hc; destruct (split_chars sep l) as [|p [|q ps]]; simplify_eq/=; done || congruence.
Qed.

Lemma split_no_sep sep l p : p ∈ split_chars sep l → sep ∉ p.
Proof.
  revert p. induction l as [|c l IH]; intros p; simpl.
  - rewrite list_elem_of_singleton. intros ->. apply not_elem_of_nil.
  - case_bool_decide as Hc.
    + rewrite elem_of_cons. intros [->|Hp]; [apply not_elem_of_nil|by apply IH].
    + destruct (split_chars sep l) as [|q qs].
      * rewrite list_elem_of_singleton. intros ->. rewrite list_elem_of_singleton. congruence.
      * rewrite elem_of_cons. intros [->|Hp].
        -- rewrite elem_of_cons. intros [->|Hin]; [done|]. by apply (IH q); [left|].
        -- apply IH. by right.
Qed.

(** Splitting around a separator splits both sides. *)
Lemma split_chars_both sep l k :
  split_chars sep (l ++ sep :: k) = split_chars sep l ++ split_chars sep k.
Proof.
  induction l as [|c l IH]; simpl; [by rewrite bool_decide_eq_true_2|].
  case_bool_decide; rewrite IH; [done|].
  pose proof (split_chars_nonempty sep l). by destruct (split_chars sep l).
Qed.

Lemma split_chars_length sep l : sep ∈ l → (2 ≤ length (split_chars sep l))%nat.
Proof.
  intros (l1 & l2 & ->)%list_elem_of_split. rewrite split_chars_both, length_app.
  pose proof (split_chars_nonempty sep l1). pose proof (split_chars_nonempty sep l2).
  destruct (split_chars sep l1), (split_chars sep l2); simpl; done || lia.
Qed.

(** A text is cut in one way at its first separator. *)
Lemma app_sep_inj {A} (sep : A) l k l' k' :
  sep ∉ l → sep ∉ l' → l ++ sep :: k = l' ++ sep :: k' → l = l' ∧ k = k'.
Proof.
  revert l'. induction l as [|c l IH]; intros [|c' l'] Hl Hl' E; simpl in E.
  - by injection E as E2.
  - injection E as E1 E2. destruct Hl'. rewrite E1. by left.
  - injection E as E1 E2. destruct Hl. rewrite E1. by left.
  - injection E as E1 E2. apply not_elem_of_cons in Hl as [_ Hl], Hl' as [_ Hl'].
    destruct (IH l' Hl Hl' E2) as [-> ->]. by rewrite E1.
Qed.

(** strings.HasPrefix and strings.TrimPrefix. *)
Definition has_prefix (p s : string) : bool := String.prefix p s.

Fixpoint trim_prefix_chars (p l : list ascii) : option (list ascii) :=
  match p, l with
  | [], _ => Some l
  | c :: p', d :: l' => if bool_decide (c = d) then trim_prefix_chars p' l' else None
  | _ :: _, [] => None
  end.

Definition trim_prefix (p s : string) : string :=
  match trim_prefix_chars (chars p) (chars s) with Some l => of_chars l | None => s end.

(** strings.LastIndex for a one-character separator, as the text before and after it; the
    index is the length of the first part. *)
Fixpoint cut_last_chars (sep : ascii) (l : list ascii) : option (list ascii * list ascii) :=
  match l with
  | [] => None
  | c :: l' =>
      match cut_last_chars sep l' with
      | Some (a, b) => Some (c :: a, b)
      | None => if bool_decide (c = sep) then Some ([], l') else None
      end
  end.

Definition cut_last (sep : ascii) (s : string) : option (string * string) :=
  match cut_last_chars sep (chars s) with
  | Some (a, b) => Some (of_chars a, of_chars b)
  | None => None
  end.

Lemma cut_last_chars_some sep l a b :
  cut_last_chars sep l = Some (a, b) → l = a ++ sep :: b ∧ sep ∉ b.
Proof.
  revert a b. induction l as [|c l IH]; intros a b; simpl; [done|].
  destruct (cut_last_chars sep l) as [[a' b']|] eqn:E.
  - intros [= <- <-]. destruct (IH a' b' eq_refl) as [-> ?]. done.
  - case_bool_decide as Hc; [|done]. intros [= <- <-]. split; [by subst|].
    clear IH Hc. induction l as [|d l IHl]; [apply not_elem_of_nil|]. simpl in E.
    destruct (cut_last_chars sep l) as [[? ?]|]; [done|]. case_bool_decide; [done|].
    apply not_elem_of_cons. split; [congruence|by apply IHl].
Qed.

Lemma cut_last_chars_app sep a b : sep ∉ b → cut_last_chars sep (a ++ sep :: b) = Some (a, b).
Proof.
  intros Hb. induction a as [|c a IH]; simpl; [|by rewrite IH].
  assert (cut_last_chars sep b = None) as ->.
  { induction b as [|d b IHb]; [done|]. apply not_elem_of_cons in Hb as [Hne Hb].
    simpl. rewrite IHb by done. by rewrite bool_decide_eq_false_2. }
  by rewrite bool_decide_eq_true_2.
Qed.

(** strings.TrimSpace on the ASCII white space. *)
Definition is_space (c : ascii) : bool :=
  let n := Z.of_nat (nat_of_ascii c) in ((9 <=? n) && (n <=? 13)) || (n =? 32).

Fixpoint drop_spaces (l : list ascii) : list ascii :=
  match l with
  | c :: l' => if is_space c then drop_spaces l' else l
  | [] => []
  end.

Definition trim_space (s : string) : string :=
  of_chars (reverse (drop_spaces (reverse (drop_spaces (chars s))))).
