(* ===== verification/Base64.v ===== *)
(** * base64.RawURLEncoding of the Go standard library

    Unpadded base64 with the URL alphabet, the transport encoding of cursors and scope tokens:
    decoding skips carriage returns and line feeds and does not check trailing bits. *)

From stdpp Require Import base strings list.
From Stdlib Require Import Ascii.
From S2P Require Import Prelude.
#[local] Open Scope Z_scope.

Definition alphabet : string := "ABCDEFGHIJKLMNOPQRSTUVWXYZabcdefghijklmnopqrstuvwxyz0123456789-_".

Definition char_of (i : Z) : ascii :=
  match String.get (Z.to_nat i) alphabet with Some c => c | None => "A"%char end.

Fixpoint index_in (c : ascii) (s : string) (i : Z) : option Z :=
  match s with
  | EmptyString => None
  | String c' s' => if bool_decide (c = c') then Some i else index_in c s' (i + 1)
  end.

Definition index_of (c : ascii) : option Z := index_in c alphabet 0.

Definition byte_of (c : ascii) : Z := Z.of_nat (nat_of_ascii c).
Definition of_byte (z : Z) : ascii := ascii_of_nat (Z.to_nat z).

(** EncodeToString: three bytes become four characters; one or two left over become two or
    three. *)
Fixpoint encode_chars (l : list ascii) : list ascii :=
  match l with
  | [] => []
  | [a] =>
      let a := byte_of a in [char_of (a / 4); char_of (a mod 4 * 16)]
  | [a; b] =>
      let a := byte_of a in let b := byte_of b in
      [char_of (a / 4); char_of (a mod 4 * 16 + b / 16); char_of (b mod 16 * 4)]
  | a :: b :: c :: rest =>
      let a := byte_of a in let b := byte_of b in let c := byte_of c in
      char_of (a / 4) :: char_of (a mod 4 * 16 + b / 16) ::
      char_of (b mod 16 * 4 + c / 64) :: char_of (c mod 64) :: encode_chars rest
  end.

Fixpoint decode_indices (l : list Z) : option (list ascii) :=
  match l with
  | [] => Some []
  | [_] => None
  | [i; j] => Some [of_byte (i * 4 + j / 16)]
  | [i; j; k] => Some [of_byte (i * 4 + j / 16); of_byte (j mod 16 * 16 + k / 4)]
  | i :: j :: k :: m :: rest =>
      match decode_indices rest with
      | None => None
      | Some r =>
          Some (of_byte (i * 4 + j / 16) :: of_byte (j mod 16 * 16 + k / 4) ::
                of_byte (k mod 4 * 64 + m) :: r)
      end
  end.

Definition is_newline (c : ascii) : bool :=
  bool_decide (c = "010"%char) || bool_decide (c = "013"%char).

Definition encode (s : string) : string :=
  String.string_of_list_ascii (encode_chars (String.list_ascii_of_string s)).

Definition decode (s : string) : option string :=
  match mapM index_of (filter (λ c, is_newline c = false) (String.list_ascii_of_string s)) with
  | None => None
  | Some l => String.string_of_list_ascii <$> decode_indices l
  end.

(** ** Encoding then decoding is the identity *)

Lemma byte_range c : 0 ≤ byte_of c < 256.
Proof. unfold byte_of. pose proof (nat_ascii_bounded c). lia. Qed.

Lemma of_byte_of c : of_byte (byte_of c) = c.
Proof. unfold of_byte, byte_of. by rewrite Nat2Z.id, ascii_nat_embedding. Qed.

Definition alphabet_check (n : nat) : bool :=
  let c := char_of (Z.of_nat n) in
  bool_decide (index_of c = Some (Z.of_nat n)) && negb (is_newline c) && negb (bool_decide (c = "."%char)).

Lemma alphabet_checked : forallb alphabet_check (seq 0 64) = true.
Proof. vm_compute. reflexivity. Qed.

Lemma char_of_spec i :
  0 ≤ i < 64 → index_of (char_of i) = Some i ∧ is_newline (char_of i) = false ∧ char_of i ≠ "."%char.
Proof.
  intros Hi. pose proof (proj1 (forallb_forall _ _) alphabet_checked (Z.to_nat i)) as Hc.
  unfold alphabet_check in Hc. rewrite Z2Nat.id in Hc by lia.
  assert (In (Z.to_nat i) (seq 0 64)) as Hin by (apply in_seq; lia).
  specialize (Hc Hin). to_prop. done.
Qed.

(** The indices an encoding consists of: every one is a six-bit value. *)
Fixpoint encode_indices (l : list ascii) : list Z :=
  match l with
  | [] => []
  | [a] => let a := byte_of a in [a / 4; a mod 4 * 16]
  | [a; b] =>
      let a := byte_of a in let b := byte_of b in
      [a / 4; a mod 4 * 16 + b / 16; b mod 16 * 4]
  | a :: b :: c :: rest =>
      let a := byte_of a in let b := byte_of b in let c := byte_of c in
      a / 4 :: a mod 4 * 16 + b / 16 :: b mod 16 * 4 + c / 64 :: c mod 64 :: encode_indices rest
  end.

(** Induction three bytes at a time. *)
Lemma list_ind3 {A} (P : list A → Prop) :
  P [] → (∀ a, P [a]) → (∀ a b, P [a; b]) → (∀ a b c l, P l → P (a :: b :: c :: l)) → ∀ l, P l.
Proof.
  intros H0 H1 H2 H3. fix IH 1. intros [|a [|b [|c l]]]; [done|apply H1|apply H2|].
  apply H3, IH.
Qed.

Lemma encode_chars_indices l : encode_chars l = char_of <$> encode_indices l.
Proof. induction l as [|a|a b|a b c l IH] using list_ind3; [done..|]. simpl. by rewrite IH. Qed.

Ltac six_bits := repeat match goal with |- context [byte_of ?c] =>
  let b := fresh "b" in pose proof (byte_range c); set (b := byte_of c) in * end;
  Z.to_euclidean_division_equations; lia.

Lemma encode_indices_range l : Forall (λ i, 0 ≤ i < 64) (encode_indices l).
Proof.
  induction l as [|a|a b|a b c l IH] using list_ind3; simpl.
  - constructor.
  - repeat constructor; six_bits.
  - repeat constructor; six_bits.
  - repeat (constructor; [six_bits|]). done.
Qed.

Lemma of_byte_eq z c : z = byte_of c → of_byte z = c.
Proof. intros ->. apply of_byte_of. Qed.

Lemma decode_encode_indices l : decode_indices (encode_indices l) = Some l.
Proof.
  induction l as [|a|a b|a b c l IH] using list_ind3; cbn [encode_indices decode_indices].
  - done.
  - do 2 f_equal. apply of_byte_eq. six_bits.
  - do 3 f_equal; [apply of_byte_eq; six_bits|]. f_equal. apply of_byte_eq. six_bits.
  - rewrite IH. do 2 f_equal; [apply of_byte_eq; six_bits|].
    f_equal; [apply of_byte_eq; six_bits|]. f_equal. apply of_byte_eq. six_bits.
Qed.

Lemma filter_chars is_ : Forall (λ i, 0 ≤ i < 64) is_ →
  filter (λ c, is_newline c = false) (char_of <$> is_) = char_of <$> is_ ∧
  mapM index_of (char_of <$> is_) = Some is_.
Proof.
  induction 1 as [|i l Hi _ [IH1 IH2]]; [done|]. destruct (char_of_spec i Hi) as (Hx & Hn & _).
  rewrite fmap_cons. split.
  - rewrite filter_cons_True by done. by rewrite IH1.
  - simpl. by rewrite Hx; simpl; rewrite IH2.
Qed.

Lemma decode_encode s : decode (encode s) = Some s.
Proof.
  unfold decode, encode. rewrite String.list_ascii_of_string_of_list_ascii, encode_chars_indices.
  destruct (filter_chars _ (encode_indices_range (String.list_ascii_of_string s))) as [-> ->].
  rewrite decode_encode_indices. simpl. by rewrite String.string_of_list_ascii_of_string.
Qed.

Lemma encode_inj s s' : encode s = encode s' → s = s'.
Proof. intros H. pose proof (decode_encode s) as E. rewrite H, decode_encode in E. congruence. Qed.

(** An encoding never contains the separator of the token formats. *)
Lemma encode_no_dot s : "."%char ∉ String.list_ascii_of_string (encode s).
Proof.
  unfold encode. rewrite String.list_ascii_of_string_of_list_ascii, encode_chars_indices.
  intros (i & Hc & Hi)%list_elem_of_fmap.
  pose proof (proj1 (Forall_forall _ _) (encode_indices_range (String.list_ascii_of_string s)) i Hi) as Hr.
  by destruct (char_of_spec i Hr) as (_ & _ & Hd).
Qed.
