(* ===== verification/ScopeToken.v ===== *)
(** * Scope tokens (store/scope_tokens.go, store/scope_token_keyring.go)

    A claim whose task froze launch parameters hands the Executor a signed token; opening the
    environment verifies it. Signatures are computed under the algorithm the keyring binds to
    the key, never under the one the token's header asks for. *)

From stdpp Require Import base gmap strings list.
From Stdlib Require Import Ascii.
From S2P Require Import Prelude Platform GoStrings Base64.
#[local] Open Scope Z_scope.

Definition scopeTokenAudience : string := "state-registry.environment.open".
Definition scopeTokenType : string := "scope-token+json".

Record scopeTokenHeader : Type := mkTokenHeader {
  th_alg : string; th_kid : string; th_typ : string }.

Record scopeTokenClaims : Type := mkTokenClaims {
  tc_team : string; tc_task : string; tc_executor : string; tc_audience : string;
  tc_key_id : string; tc_issued_at : string; tc_expiry : string }.

(** allowedScopeTokenAlgs. *)
Definition alg_allowed (alg : string) : bool :=
  bool_decide (alg ∈ ["HS256"; "HS384"; "HS512"]).

(** scopeTokenKey and scopeTokenKeyring: each key carries its algorithm; one is active. *)
Record scopeTokenKey : Type := mkKey { sk_bytes : string; sk_alg : string }.
Record scopeTokenKeyring : Type := mkKeyring {
  kr_keys : gmap string scopeTokenKey; kr_primary : string }.

(** activeKey and lookup. *)
Definition activeKey (k : scopeTokenKeyring) : option scopeTokenKey :=
  if bool_decide (kr_primary k = "") then None else kr_keys k !! kr_primary k.

Definition keyring_lookup (k : scopeTokenKeyring) (id : string) : option scopeTokenKey :=
  kr_keys k !! id.

(** What the store is constructed with (NewWithScopeTokenKeyring). *)
Record StoreConfig : Type := mkConfig {
  sc_aes_key : string; sc_keyring : option scopeTokenKeyring }.

(** The JSON and HMAC functions the token is built with. Documents made of text that JSON can
    carry decode strictly to what was encoded. *)
Class TokenCodec := {
  hmac : string → string → string → string;
  header_json : scopeTokenHeader → string;
  claims_json : scopeTokenClaims → string;
  header_decode : string → option scopeTokenHeader;
  claims_decode : string → option scopeTokenClaims;
  json_text : string → Prop;
  header_roundtrip h :
    json_text (th_kid h) → header_decode (header_json h) = Some h;
  claims_roundtrip c :
    json_text (tc_team c) → json_text (tc_task c) → json_text (tc_executor c) →
    json_text (tc_key_id c) → claims_decode (claims_json c) = Some c;
  header_json_nonempty h : header_json h ≠ "";
  claims_json_nonempty c : claims_json c ≠ "";
  hmac_nonempty a k m : hmac a k m ≠ "";
}.

Section tokens.
Context `{TokenCodec, TimeCodec}.

(** scopeTokenMAC: an algorithm outside the allow-list is an error. *)
Definition scopeTokenMAC (alg key input : string) : option string :=
  if alg_allowed alg then Some (hmac alg key input) else None.

Definition dot : ascii := "."%char.
Definition join2 (a b : string) : string := a +:+ String dot b.

(** The part of issueScopeToken that builds the token once the snapshot is known to carry
    values: signed with the active key, valid for five minutes from [issued]. *)
Definition mintScopeToken (keyring : scopeTokenKeyring) (team task executor : string)
    (issued : Z) : option string :=
  match activeKey keyring with
  | None => None
  | Some key =>
      let kid := kr_primary keyring in
      let header := mkTokenHeader (sk_alg key) kid scopeTokenType in
      let claims := mkTokenClaims team task executor scopeTokenAudience kid
        (format_rfc3339 issued) (format_rfc3339 (issued + 5 * 60 * 10 ^ 9)) in
      let signing := join2 (encode (header_json header)) (encode (claims_json claims)) in
      match scopeTokenMAC (sk_alg key) (sk_bytes key) signing with
      | None => None
      | Some mac => Some (join2 signing (encode mac))
      end
  end.

(** The canonical claim shape and the lifetime window of verifyScopeToken. *)
Definition claims_in_window (now : Z) (c : scopeTokenClaims) : bool :=
  match parse_rfc3339 (tc_issued_at c), parse_rfc3339 (tc_expiry c) with
  | Some issued, Some expiry =>
      negb (bool_decide (tc_team c = "" ∨ tc_task c = "" ∨ tc_executor c = "" ∨
                         tc_audience c ≠ scopeTokenAudience)) &&
      negb (now + 30 * 10 ^ 9 <? issued) && (issued <? expiry) &&
      negb (5 * 60 * 10 ^ 9 <? expiry - issued) && (now <? expiry)
  | _, _ => false
  end.

(** verifyScopeToken, against the keyring and the AES key of the store; every denial is the
    same error, so a denial is [None]. *)
Definition verifyScopeToken (keyring : option scopeTokenKeyring) (aes_key : string) (now : Z)
    (token : string) : option scopeTokenClaims :=
  match keyring with
  | None => None
  | Some keyring =>
  if negb (Nat.eqb (String.length aes_key) 32) || Nat.eqb (String.length token) 0 ||
     (8192 <? Z.of_nat (String.length token)) then None
  else
  match split dot token with
  | [p0; p1; p2] =>
      if bool_decide (p0 = "" ∨ p1 = "" ∨ p2 = "") then None
      else
      match decode p0, decode p1 with
      | Some hj, Some cj =>
          match header_decode hj, claims_decode cj with
          | Some header, Some claims =>
              if bool_decide (th_kid header = "" ∨ th_kid header ≠ tc_key_id claims) then None
              else if negb (alg_allowed (th_alg header)) then None
              else
              match keyring_lookup keyring (tc_key_id claims) with
              | None => None
              | Some key =>
                  if bool_decide (th_alg header ≠ sk_alg key) then None
                  else
                  match decode p2, scopeTokenMAC (sk_alg key) (sk_bytes key) (join2 p0 p1) with
                  | Some supplied, Some expected =>
                      if bool_decide (supplied ≠ expected) then None
                      else if bool_decide (th_typ header ≠ scopeTokenType) then None
                      else if claims_in_window now claims then Some claims else None
                  | _, _ => None
                  end
              end
          | _, _ => None
          end
      | _, _ => None
      end
  | _ => None
  end
  end.

(** ** Verification accepts what was issued *)

Lemma encode_nonempty s : s ≠ "" → encode s ≠ "".
Proof using.
  clear. intros Hs He. apply Hs. apply encode_inj. by rewrite He.
Qed.

Lemma join2_join2_split a b c :
  dot ∉ chars a → dot ∉ chars b → dot ∉ chars c → split dot (join2 (join2 a b) c) = [a; b; c].
Proof using.
  clear. intros Ha Hb Hc. unfold join2.
  assert ((a +:+ String dot b) +:+ String dot c = a +:+ String dot (b +:+ String dot c)) as ->.
  { apply chars_inj. rewrite !chars_app.
    change (chars (String dot c)) with (dot :: chars c).
    change (chars (String dot b)) with (dot :: chars b).
    change (chars (String dot (b +:+ String dot c))) with (dot :: chars (b +:+ String dot c)).
    rewrite chars_app. change (chars (String dot c)) with (dot :: chars c).
    by rewrite <- app_assoc. }
  by apply split_three.
Qed.

Lemma window_of_issue now issued kid team task executor :
  team ≠ "" → task ≠ "" → executor ≠ "" →
  issued ≤ now + 30 * 10 ^ 9 → now < issued + 5 * 60 * 10 ^ 9 →
  claims_in_window now
    (mkTokenClaims team task executor scopeTokenAudience kid (format_rfc3339 issued)
       (format_rfc3339 (issued + 5 * 60 * 10 ^ 9))) = true.
Proof using.
  intros ? ? ? ? ?. unfold claims_in_window. simpl. rewrite !parse_format.
  rewrite bool_decide_eq_false_2 by (intros [?|[?|[?|?]]]; done).
  repeat (apply andb_true_iff; split); try apply Z.ltb_lt; try apply negb_true_iff, Z.ltb_ge; try lia.
Qed.

(** An issued token passes every check of a ring that holds its key but the lifetime window. *)
Lemma verify_issued keyring ring aes now team task executor issued token :
  mintScopeToken keyring team task executor issued = Some token →
  kr_keys ring !! kr_primary keyring = kr_keys keyring !! kr_primary keyring →
  String.length aes = 32%nat → Z.of_nat (String.length token) ≤ 8192 →
  json_text team → json_text task → json_text executor → json_text (kr_primary keyring) →
  let claims := mkTokenClaims team task executor scopeTokenAudience (kr_primary keyring)
                  (format_rfc3339 issued) (format_rfc3339 (issued + 5 * 60 * 10 ^ 9)) in
  verifyScopeToken (Some ring) aes now token
  = if claims_in_window now claims then Some claims else None.
Proof using.
  intros Hm Hring Haes Hlen Ht1 Ht2 Ht3 Ht4 claims.
  unfold mintScopeToken, activeKey in Hm. case_bool_decide as Hp; [done|].
  destruct (kr_keys keyring !! kr_primary keyring) as [key|] eqn:Hk; [|done].
  unfold scopeTokenMAC in Hm. destruct (alg_allowed (sk_alg key)) eqn:Ha; [|done].
  simplify_eq/=. fold claims in Hlen |- *.
  set (header := mkTokenHeader (sk_alg key) (kr_primary keyring) scopeTokenType) in *.
  set (p0 := encode (header_json header)) in *. set (p1 := encode (claims_json claims)) in *.
  set (mac := hmac (sk_alg key) (sk_bytes key) (join2 p0 p1)) in *.
  assert (p0 ≠ "") as Hp0 by apply encode_nonempty, header_json_nonempty.
  assert (p1 ≠ "") as Hp1 by apply encode_nonempty, claims_json_nonempty.
  assert (encode mac ≠ "") as Hp2 by apply encode_nonempty, hmac_nonempty.
  unfold verifyScopeToken. rewrite Haes, Nat.eqb_refl. simpl negb. rewrite orb_false_l.
  assert ((String.length (join2 (join2 p0 p1) (encode mac)) =? 0)%nat = false) as ->.
  { apply Nat.eqb_neq. rewrite <- length_chars. unfold join2. rewrite chars_app, length_app.
    unfold chars at 2. simpl. lia. }
  assert ((8192 <? Z.of_nat (String.length (join2 (join2 p0 p1) (encode mac)))) = false) as ->
    by (apply Z.ltb_ge; lia).
  simpl. rewrite join2_join2_split by apply encode_no_dot.
  rewrite bool_decide_eq_false_2 by (intros [?|[?|?]]; done).
  assert (decode p0 = Some (header_json header)) as -> by apply decode_encode.
  assert (decode p1 = Some (claims_json claims)) as -> by apply decode_encode.
  rewrite header_roundtrip, claims_roundtrip by done. simpl.
  rewrite bool_decide_eq_false_2 by (intros [?|?]; done). rewrite Ha. simpl.
  unfold keyring_lookup. rewrite Hring, bool_decide_eq_false_2 by (intros Hne; by apply Hne).
  rewrite decode_encode. unfold scopeTokenMAC. rewrite Ha. fold mac.
  rewrite !bool_decide_eq_false_2 by (intros Hne; by apply Hne). done.
Qed.

(** ** Acceptance is a proof of possession *)

(** What an accepted token was checked against. *)
Definition token_authentic (keyring : scopeTokenKeyring) (now : Z) (token : string)
    (c : scopeTokenClaims) : Prop :=
  ∃ hj p0 p1 p2 mac key,
    split dot token = [p0; p1; p2] ∧ decode p0 = Some hj ∧
    (∃ h, header_decode hj = Some h ∧ th_alg h = sk_alg key ∧ th_kid h = tc_key_id c ∧
          th_typ h = scopeTokenType) ∧
    (∃ cj, decode p1 = Some cj ∧ claims_decode cj = Some c) ∧
    kr_keys keyring !! tc_key_id c = Some key ∧ alg_allowed (sk_alg key) = true ∧
    decode p2 = Some mac ∧ mac = hmac (sk_alg key) (sk_bytes key) (join2 p0 p1) ∧
    claims_in_window now c = true.

Lemma verify_authentic keyring aes now token c :
  verifyScopeToken (Some keyring) aes now token = Some c → token_authentic keyring now token c.
Proof using.
  unfold verifyScopeToken, scopeTokenMAC, keyring_lookup. intros Hv.
  repeat (destr_in Hv; simplify_eq). to_prop.
  match goal with Hn : ¬ (th_kid _ = "" ∨ _) |- _ =>
    apply Decidable.not_or in Hn as [_ Hkid]; apply dec_stable in Hkid end.
  exists s2, s, s0, s1, s7, s6. unfold token_authentic. split_and!; eauto.
Qed.

(** Two keyrings that accept a token read the same claims and pin the same algorithm. *)
Lemma token_authentic_agree keyring keyring' now now' token c c' :
  token_authentic keyring now token c → token_authentic keyring' now' token c' →
  c' = c ∧ ∃ key key', kr_keys keyring !! tc_key_id c = Some key ∧
    kr_keys keyring' !! tc_key_id c = Some key' ∧ sk_alg key' = sk_alg key.
Proof using.
  intros (hj & p0 & p1 & p2 & mac & key & Hs & Hj & (h & Hh & Ha & _) & (cj & Hp1 & Hc) & Hk & _)
         (hj' & q0 & q1 & q2 & mac' & key' & Hs' & Hj' & (h' & Hh' & Ha' & _) & (cj' & Hq1 & Hc') & Hk' & _).
  rewrite Hs in Hs'. injection Hs' as <- <- <-. simplify_eq.
  split; [done|]. exists key, key'. split_and!; congruence.
Qed.

Lemma claims_in_window_spec now c :
  claims_in_window now c = true →
  tc_audience c = scopeTokenAudience ∧ ∃ issued expiry,
    parse_rfc3339 (tc_issued_at c) = Some issued ∧ parse_rfc3339 (tc_expiry c) = Some expiry ∧
    issued ≤ now + 30 * 10 ^ 9 ∧ issued < expiry ≤ issued + 5 * 60 * 10 ^ 9 ∧ now < expiry.
Proof using.
  unfold claims_in_window. destruct (parse_rfc3339 (tc_issued_at c)) as [i|]; [|done].
  destruct (parse_rfc3339 (tc_expiry c)) as [x|]; [|done]. intros Hw.
  repeat match goal with H : _ && _ = true |- _ => apply andb_true_iff in H as [? ?] end.
  repeat match goal with
         | H : negb _ = true |- _ => apply negb_true_iff in H
         | H : (_ <? _) = true |- _ => apply Z.ltb_lt in H
         | H : (_ <? _) = false |- _ => apply Z.ltb_ge in H
         end.
  to_prop. split.
  - apply dec_stable. tauto.
  - exists i, x. split_and!; try done; lia.
Qed.

(** ** Properties *)

(** Lifetime: the token minted for a task at some instant is accepted, with exactly the
    claims it was minted for, until five minutes later and never afterwards, by every ring that
    still holds the key it was minted with, whichever key is active there. *)
Theorem scope_token_lifetime keyring ring aes now team task executor issued token :
  mintScopeToken keyring team task executor issued = Some token →
  kr_keys ring !! kr_primary keyring = kr_keys keyring !! kr_primary keyring →
  String.length aes = 32%nat → Z.of_nat (String.length token) ≤ 8192 →
  json_text team → json_text task → json_text executor → json_text (kr_primary keyring) →
  team ≠ "" → task ≠ "" → executor ≠ "" → issued ≤ now + 30 * 10 ^ 9 →
  verifyScopeToken (Some ring) aes now token
  = if now <? issued + 5 * 60 * 10 ^ 9 then
      Some (mkTokenClaims team task executor scopeTokenAudience (kr_primary keyring)
              (format_rfc3339 issued) (format_rfc3339 (issued + 5 * 60 * 10 ^ 9)))
    else None.
Proof using.
  intros Hm Hring Haes Hlen J1 J2 J3 J4 N1 N2 N3 Hi.
  rewrite (verify_issued _ _ _ _ _ _ _ _ _ Hm Hring Haes Hlen J1 J2 J3 J4).
  destruct (now <? _) eqn:E.
  - apply Z.ltb_lt in E. by rewrite window_of_issue.
  - destruct (claims_in_window now _) eqn:Hw; [|done].
    apply claims_in_window_spec in Hw as (_ & i & x & _ & Hx & _ & _ & Hlt).
    simpl in Hx. rewrite parse_format in Hx. simplify_eq. apply Z.ltb_ge in E. lia.
Qed.

(** An accepted token was authenticated: its third segment is the MAC of the first two under
    the key its claims name and the algorithm the keyring binds to that key; it is meant for this
    service, lives at most five minutes and has not expired; and a keyring that has dropped the
    key, or binds it to another algorithm, refuses the same token at any time. *)
Theorem scope_token_sound keyring aes now token c :
  verifyScopeToken (Some keyring) aes now token = Some c →
  token_authentic keyring now token c ∧ tc_audience c = scopeTokenAudience ∧
  (∃ issued expiry,
     parse_rfc3339 (tc_issued_at c) = Some issued ∧ parse_rfc3339 (tc_expiry c) = Some expiry ∧
     issued ≤ now + 30 * 10 ^ 9 ∧ issued < expiry ≤ issued + 5 * 60 * 10 ^ 9 ∧ now < expiry) ∧
  (∀ keyring' aes' now',
     (∀ key key', kr_keys keyring !! tc_key_id c = Some key →
        kr_keys keyring' !! tc_key_id c = Some key' → sk_alg key' ≠ sk_alg key) →
     verifyScopeToken (Some keyring') aes' now' token = None).
Proof using.
  intros Ha%verify_authentic. pose proof Ha as (_ & _ & _ & _ & _ & _ & _ & _ & _ & _ & _ & _ & _ & _ & Hw).
  apply claims_in_window_spec in Hw as [Haud Hwin]. split_and!; [done..|].
  intros keyring' aes' now' Hdiff.
  destruct (verifyScopeToken (Some keyring') aes' now' token) as [c'|] eqn:E; [|done].
  apply verify_authentic in E.
  destruct (token_authentic_agree _ _ _ _ _ _ _ Ha E) as (_ & key & key' & Hk & Hk' & He).
  by destruct (Hdiff key key').
Qed.
End tokens.
