(* ===== verification/Fixtures.v ===== *)
(** * Concrete interfaces and a small registry

    Instances of the interfaces of Platform and ScopeToken, and a database with one team, one
    source system, one task type, two Executors and two pending tasks. The witnesses of the
    other files run the operations on them. *)

From stdpp Require Import base gmap strings list pretty.
From Stdlib Require Import Ascii.
From S2P Require Import Prelude Platform Tx Schema Store GoStrings ScopeToken.
#[local] Open Scope Z_scope.

(** ** A codec of text lists: each character is marked, each text ends with a zero. *)

Fixpoint field (s : string) (rest : string) : string :=
  match s with
  | EmptyString => String "0"%char rest
  | String c s' => String "1"%char (String c (field s' rest))
  end.

Fixpoint fields (l : list string) : string :=
  match l with [] => "." | s :: l' => field s (fields l') end.

(** Reads fields back; [acc] is the field being read. *)
Fixpoint unfields (s : string) (acc : list ascii) : option (list string) :=
  match s with
  | String "0" s' => (λ l, of_chars (reverse acc) :: l) <$> unfields s' []
  | String "1" (String c s') => unfields s' (c :: acc)
  | String "." EmptyString => if bool_decide (acc = []) then Some [] else None
  | _ => None
  end.

Lemma unfields_field s rest acc :
  unfields (field s rest) acc
  = (λ l, (of_chars (reverse acc) +:+ s) :: l) <$> unfields rest [].
Proof.
  revert acc. induction s as [|c s IH]; intros acc; simpl.
  - assert (of_chars (reverse acc) +:+ "" = of_chars (reverse acc)) as ->; [|done].
    apply chars_inj. rewrite chars_app. apply app_nil_r.
  - rewrite IH. assert (of_chars (reverse (c :: acc)) +:+ s = of_chars (reverse acc) +:+ String c s) as ->;
      [|done].
    apply chars_inj. rewrite !chars_app, !chars_of_chars, reverse_cons, <- app_assoc. done.
Qed.

Lemma unfields_fields l : unfields (fields l) [] = Some l.
Proof. induction l as [|s l IH]; [done|]. simpl. by rewrite unfields_field, IH. Qed.

(** ** Tokens *)

Definition header_fields (h : scopeTokenHeader) : string :=
  fields [th_alg h; th_kid h; th_typ h].
Definition claims_fields (c : scopeTokenClaims) : string :=
  fields [tc_team c; tc_task c; tc_executor c; tc_audience c; tc_key_id c; tc_issued_at c;
          tc_expiry c].

Definition header_unfields (s : string) : option scopeTokenHeader :=
  match unfields s [] with Some [a; k; t] => Some (mkTokenHeader a k t) | _ => None end.
Definition claims_unfields (s : string) : option scopeTokenClaims :=
  match unfields s [] with
  | Some [a; b; c; d; e; f; g] => Some (mkTokenClaims a b c d e f g)
  | _ => None
  end.

Lemma fields_nonempty l : fields l ≠ "".
Proof. destruct l as [|s l]; [done|]. by destruct s. Qed.

(** The tag of a message is the fields of the algorithm, the key and the message. *)
Definition token_fields : TokenCodec.
Proof.
  refine {| hmac a k m := fields [a; k; m];
            header_json := header_fields; claims_json := claims_fields;
            header_decode := header_unfields; claims_decode := claims_unfields;
            json_text _ := True |}.
  - intros [a k t] _. unfold header_unfields, header_fields. by rewrite unfields_fields.
  - intros [a b c d e f g] _ _ _ _. unfold claims_unfields, claims_fields.
    by rewrite unfields_fields.
  - intros h. apply fields_nonempty.
  - intros h. apply fields_nonempty.
  - intros a k m. apply fields_nonempty.
Defined.

(** The ciphertext is the text; the tag is made of the last characters of the associated data. *)
Definition toy_tag (a : string) : string :=
  of_chars (take 16 (reverse (chars a) ++ replicate 16 "0"%char)).

Definition toy_aead : Aead.
Proof.
  refine {| gcm_seal k n a p := (p, toy_tag a);
            gcm_open k n a c t := if bool_decide (t = toy_tag a) then Some c else None |}.
  - intros k n a p. simpl. by rewrite bool_decide_eq_true_2.
  - intros k n a c t p. case_bool_decide; [|done]. intros [= ->]. by subst.
  - intros k n a p. simpl. unfold toy_tag. rewrite <- length_chars, chars_of_chars, length_take.
    rewrite length_app, length_replicate. lia.
Defined.

Definition image_plain : ImageCodec := {| image_of_json _ := None |}.

#[local] Existing Instances pg_micros collation_C time_bits json_plain.

(** ** A registry *)

Definition fx_team : TeamRow := mkTeam "team" "Team" "repo@sha" 0 None.
Definition fx_source : SourceRow := mkSource "src" "team" "listener" None 0 0.
Definition fx_type : TaskTypeRow := mkTaskType "type" "team" "tag" (Some (mkImage "type" "sha")) 0 0.
Definition fx_executor (id : string) : ExecutorRow :=
  mkExecutor id ScopeTeam (Some "team") "docker" id "tag" 2 0 "{}" 0 0.
Definition fx_task (id : string) (ingested : Z) : TaskRow :=
  mkTask id "team" "src" id "type" "tag" "{}" StatePending None None None None None None
    ingested None.

Definition fx_db : DB :=
  with_teams {["team" := fx_team]}
  (with_sources {["src" := fx_source]}
  (with_types {["type" := fx_type]}
  (with_executors (<["ex1" := fx_executor "ex1"]> {["ex2" := fx_executor "ex2"]})
  (with_tasks (<["t1" := fx_task "t1" 1000]> {["t2" := fx_task "t2" 2000]}) empty_db)))).

(** No statement fails; identifiers are drawn from a name. *)
Definition fx_env_named (name : string) (clock : Z) : TxEnv :=
  mkTxEnv clock clock (λ n, name +:+ pretty n) (λ _, false) (Some "0123456789ab") false (λ _, None).
Definition fx_env : Z → TxEnv := fx_env_named "id".

Definition fx_config : StoreConfig :=
  mkConfig "0123456789abcdef0123456789abcdef"
    (Some (mkKeyring {["k1" := mkKey "secret" "HS256"]} "k1")).

Definition fx_identity (id : string) : ExecutorIdentity :=
  mkExecutorIdentity id ScopeTeam (Some "team") "req".

(** ** The properties of scope tokens on a minted token *)

Section witnesses.
#[local] Existing Instances token_fields.

Definition fx_keyring : scopeTokenKeyring := mkKeyring {["k1" := mkKey "secret" "HS256"]} "k1".
Definition fx_minted : string :=
  default "" (mintScopeToken fx_keyring "team" "t1" "ex1" 5000).

Lemma scope_token_lifetime_witness :
  is_Some (verifyScopeToken (Some fx_keyring) (sc_aes_key fx_config) 6000 fx_minted) ∧
  verifyScopeToken (Some fx_keyring) (sc_aes_key fx_config) (5000 + 5 * 60 * 10 ^ 9) fx_minted = None.
Proof.
  destruct (mintScopeToken fx_keyring "team" "t1" "ex1" 5000) as [token|] eqn:E;
    [|vm_compute in E; discriminate E].
  assert (Z.of_nat (String.length token) ≤ 8192) as Hl.
  { vm_compute in E. injection E as <-. vm_compute. discriminate. }
  unfold fx_minted. rewrite E. simpl default. split.
  - rewrite (scope_token_lifetime fx_keyring fx_keyring (sc_aes_key fx_config) 6000 "team" "t1" "ex1"
               5000 token E eq_refl eq_refl Hl I I I I); [eexists; reflexivity|discriminate..|lia].
  - rewrite (scope_token_lifetime fx_keyring fx_keyring (sc_aes_key fx_config)
               (5000 + 5 * 60 * 10 ^ 9) "team" "t1" "ex1" 5000 token E eq_refl eq_refl Hl I I I I); [reflexivity|discriminate..|lia].
Defined.

(** The token is refused once its key is rotated out. *)
Lemma scope_token_sound_witness :
  verifyScopeToken (Some (mkKeyring {["k2" := mkKey "other" "HS256"]} "k2")) (sc_aes_key fx_config) 6000
    fx_minted = None.
Proof.
  destruct (verifyScopeToken (Some fx_keyring) (sc_aes_key fx_config) 6000 fx_minted) as [c|] eqn:E;
    [|vm_compute in E; discriminate E].
  apply (scope_token_sound fx_keyring (sc_aes_key fx_config) 6000 fx_minted c E).
  intros key key' _ Hk. vm_compute in E. injection E as <-. vm_compute in Hk. discriminate Hk.
Defined.
End witnesses.
