(* ===== verification/Keyrings.v ===== *)
(** * Key rings (store/scope_token_keyring.go, config/cursor_keyring.go)

    The operator configures one active key and, for rotation, previous keys as a JSON document.
    Scope tokens and list cursors each have a ring of their own with its own rules. *)

From stdpp Require Import base gmap strings list.
From Stdlib Require Import Ascii.
From S2P Require Import Prelude Platform GoStrings ScopeToken Fixtures.
#[local] Open Scope Z_scope.

(** ** encoding/hex *)

Definition hex_digit (c : ascii) : option Z :=
  let n := Z.of_nat (nat_of_ascii c) in
  if (48 <=? n) && (n <=? 57) then Some (n - 48)
  else if (97 <=? n) && (n <=? 102) then Some (n - 87)
  else if (65 <=? n) && (n <=? 70) then Some (n - 55)
  else None.

(** hex.DecodeString: pairs of digits of either case. *)
Fixpoint hex_decode_chars (l : list ascii) : option (list ascii) :=
  match l with
  | [] => Some []
  | [_] => None
  | a :: b :: l' =>
      match hex_digit a, hex_digit b, hex_decode_chars l' with
      | Some x, Some y, Some r => Some (ascii_of_nat (Z.to_nat (16 * x + y)) :: r)
      | _, _, _ => None
      end
  end.

Definition hex_decode (s : string) : option string := of_chars <$> hex_decode_chars (chars s).

(** ** Identifiers of keys *)

Definition in_range (lo hi : Z) (c : ascii) : bool :=
  let n := Z.of_nat (nat_of_ascii c) in (lo <=? n) && (n <=? hi).

(** A byte of [A-Za-z0-9._:-]. *)
Definition id_char (c : ascii) : bool :=
  in_range 97 122 c || in_range 65 90 c || in_range 48 57 c ||
  bool_decide (c ∈ ["."%char; "_"%char; ":"%char; "-"%char]).

Definition maxKeyIDLength : nat := 64.
Definition maxKeyCount : nat := 8.

(** validScopeTokenKeyID and validCursorKeyID, which are the same function. *)
Definition valid_key_id (id : string) : bool :=
  if bool_decide (id = "") || (maxKeyIDLength <? String.length id)%nat ||
     bool_decide (trim_space id ≠ id)
  then false
  else forallb id_char (chars id).

(** ** The ring of scope tokens *)

Definition DefaultScopeTokenKeyID : string := "state-registry-scope-v1".

(** decodeScopeTokenKey: at least 32 bytes. *)
Definition decodeScopeTokenKey (hex : string) : option string :=
  if bool_decide (hex = "") then None
  else
    match hex_decode (trim_space hex) with
    | Some key => if (String.length key <? 32)%nat then None else Some key
    | None => None
    end.

(** strings.ToUpper on ASCII letters. *)
Definition upper_char (c : ascii) : ascii :=
  if in_range 97 122 c then ascii_of_nat (nat_of_ascii c - 32) else c.
Definition to_upper (s : string) : string := of_chars (upper_char <$> chars s).

Record scopeTokenPreviousEntry : Type := mkPrevious {
  pe_id : string; pe_hex : string; pe_alg : string }.

(** json.Unmarshal into a string: null leaves it empty. *)
Definition json_string (v : json) : option string :=
  match v with JStr s => Some s | JNull => Some "" | _ => None end.

(** One entry: whether it is of the structured shape, and what it holds. *)
Definition previous_entry (id : string) (v : json) : option (bool * scopeTokenPreviousEntry) :=
  match v with
  | JStr hex => Some (false, mkPrevious id hex "")
  | JObj fields =>
      match length fields, obj_lookup "key" fields, obj_lookup "alg" fields with
      | 2%nat, Some key, Some alg =>
          match json_string key, json_string alg with
          | Some hex, Some alg => Some (true, mkPrevious id hex (to_upper (trim_space alg)))
          | _, _ => None
          end
      | _, _, _ => None
      end
  | _ => None
  end.

(** All entries are of one shape. *)
Definition same_shape (l : list (bool * scopeTokenPreviousEntry)) : bool :=
  match l with [] => true | e :: l' => forallb (λ e', Bool.eqb e'.1 e.1) l' end.

Section rings.
Context `{JsonCodec}.

(** json.Unmarshal into a map: an object, or null for the empty map. *)
Definition json_entries (text : string) : option (list (string * json)) :=
  match json_unmarshal text with
  | Some (JObj l) => Some l
  | Some JNull => Some []
  | _ => None
  end.

Definition parseScopeTokenPreviousKeys (text : string) : option (list scopeTokenPreviousEntry) :=
  match json_entries text with
  | None => None
  | Some l =>
      match mapM (λ nv, previous_entry nv.1 nv.2) l with
      | None => None
      | Some es => if same_shape es then Some es.*2 else None
      end
  end.

(** A previous key is added under the algorithm of its entry, or that of the ring. *)
Definition add_previous (primary alg : string) (keys : gmap string scopeTokenKey)
    (e : scopeTokenPreviousEntry) : option (gmap string scopeTokenKey) :=
  if negb (valid_key_id (pe_id e)) then None
  else if bool_decide (pe_id e = primary) then None
  else
    match decodeScopeTokenKey (pe_hex e) with
    | None => None
    | Some key =>
        let entry_alg := if bool_decide (pe_alg e = "") then alg else pe_alg e in
        if negb (alg_allowed entry_alg) then None
        else Some (<[pe_id e := mkKey key entry_alg]> keys)
    end.

Fixpoint add_all_previous (primary alg : string) (keys : gmap string scopeTokenKey)
    (es : list scopeTokenPreviousEntry) : option (gmap string scopeTokenKey) :=
  match es with
  | [] => Some keys
  | e :: es' =>
      match add_previous primary alg keys e with
      | Some keys' => add_all_previous primary alg keys' es'
      | None => None
      end
  end.

(** NewScopeTokenKeyring. *)
Definition buildScopeTokenKeyring (primary_id primary_hex previous alg : string) :
    option scopeTokenKeyring :=
  let primary := if bool_decide (primary_id = "") then DefaultScopeTokenKeyID else primary_id in
  if negb (valid_key_id primary) then None
  else
    let alg := if bool_decide (alg = "") then "HS256" else alg in
    if negb (alg_allowed alg) then None
    else
      match decodeScopeTokenKey primary_hex with
      | None => None
      | Some key =>
          let keys := {[primary := mkKey key alg]} in
          if bool_decide (previous = "") then Some (mkKeyring keys primary)
          else
            match parseScopeTokenPreviousKeys previous with
            | None => None
            | Some es =>
                if (maxKeyCount <? length es + 1)%nat then None
                else (λ ks, mkKeyring ks primary) <$> add_all_previous primary alg keys es
            end
      end.

(** ** The ring of cursors *)

Record CursorKeyring : Type := mkCursorKeyring {
  ck_keys : gmap string string; ck_primary : string }.

Definition CursorKeySingle : string := "state-registry-cursor-v1".

(** decodeCursorKey: exactly 32 bytes, without trimming. *)
Definition decodeCursorKey (hex : string) : option string :=
  if bool_decide (hex = "") then None
  else
    match hex_decode hex with
    | Some key => if (String.length key =? 32)%nat then Some key else None
    | None => None
    end.

Definition add_previous_cursor (primary : string) (keys : gmap string string) (e : string * string) :
    option (gmap string string) :=
  if negb (valid_key_id e.1) then None
  else if bool_decide (e.1 = primary) then None
  else (λ key, <[e.1 := key]> keys) <$> decodeCursorKey e.2.

Fixpoint add_all_cursor (primary : string) (keys : gmap string string) (es : list (string * string)) :
    option (gmap string string) :=
  match es with
  | [] => Some keys
  | e :: es' =>
      match add_previous_cursor primary keys e with
      | Some keys' => add_all_cursor primary keys' es'
      | None => None
      end
  end.

Definition LoadRotatingCursorKeyring (active_id active_hex previous : string) :
    option CursorKeyring :=
  let active := if bool_decide (active_id = "") then CursorKeySingle else active_id in
  if negb (valid_key_id active) then None
  else
    match decodeCursorKey active_hex with
    | None => None
    | Some key =>
        let keys := {[active := key]} in
        if bool_decide (previous = "") then Some (mkCursorKeyring keys active)
        else
          match json_entries previous ≫= mapM (λ nv, pair nv.1 <$> json_string nv.2) with
          | None => None
          | Some es =>
              if (maxKeyCount <? length es + 1)%nat then None
              else (λ ks, mkCursorKeyring ks active) <$> add_all_cursor active keys es
          end
    end.

(** LoadCursorKeyringFromEnv. *)
Definition LoadCursorKeyringFromEnv (hex : string) : option CursorKeyring :=
  LoadRotatingCursorKeyring CursorKeySingle hex "".
End rings.

(** ** What a ring that was built satisfies *)

(** A usable ring of scope tokens. *)
Record scope_ring_ok (k : scopeTokenKeyring) : Prop := mkScopeRingOk {
  sr_primary : is_Some (kr_keys k !! kr_primary k);
  sr_ids : ∀ id key, kr_keys k !! id = Some key → valid_key_id id = true;
  sr_lengths : ∀ id key, kr_keys k !! id = Some key → (32 ≤ String.length (sk_bytes key))%nat;
  sr_algs : ∀ id key, kr_keys k !! id = Some key → alg_allowed (sk_alg key) = true;
  sr_size : (size (kr_keys k) ≤ maxKeyCount)%nat;
}.

Record cursor_ring_ok (k : CursorKeyring) : Prop := mkCursorRingOk {
  cr_primary_key : is_Some (ck_keys k !! ck_primary k);
  cr_ids : ∀ id key, ck_keys k !! id = Some key → valid_key_id id = true;
  cr_lengths : ∀ id key, ck_keys k !! id = Some key → String.length key = 32%nat;
  cr_size : (size (ck_keys k) ≤ maxKeyCount)%nat;
}.

Lemma valid_key_id_spec id :
  valid_key_id id = true →
  id ≠ "" ∧ (String.length id ≤ 64)%nat ∧ Forall (λ c, id_char c = true) (chars id).
Proof.
  unfold valid_key_id. destruct (bool_decide (id = "") || _ || _) eqn:E; [done|].
  apply orb_false_iff in E as [[E1 E2]%orb_false_iff E3]. to_prop. intros Hall.
  split_and!; [done|by apply Nat.ltb_ge in E2|].
  apply Forall_forall. intros c Hc. eapply forallb_forall; [exact Hall|]. by apply list_elem_of_In.
Qed.

Lemma decodeScopeTokenKey_length hex key :
  decodeScopeTokenKey hex = Some key → (32 ≤ String.length key)%nat.
Proof.
  unfold decodeScopeTokenKey. intros Hd. repeat (destr_in Hd; simplify_eq).
  match goal with H : (_ <? 32)%nat = false |- _ => by apply Nat.ltb_ge in H end.
Qed.

Lemma decodeCursorKey_length hex key : decodeCursorKey hex = Some key → String.length key = 32%nat.
Proof.
  unfold decodeCursorKey. intros Hd. repeat (destr_in Hd; simplify_eq).
  match goal with H : (_ =? 32)%nat = true |- _ => by apply Nat.eqb_eq in H end.
Qed.

(** Adding the previous keys: the active one stays, every entry ends up in the ring. *)
Lemma add_all_previous_ok primary alg es keys keys' :
  add_all_previous primary alg keys es = Some keys' →
  keys' !! primary = keys !! primary ∧ (size keys' ≤ size keys + length es)%nat ∧
  ∀ id key, keys' !! id = Some key →
    keys !! id = Some key ∨
    valid_key_id id = true ∧ id ≠ primary ∧ (32 ≤ String.length (sk_bytes key))%nat ∧
    alg_allowed (sk_alg key) = true.
Proof.
  revert keys. induction es as [|e es IH]; intros keys; simpl.
  - intros [= ->]. split_and!; [done|lia|by left].
  - destruct (add_previous primary alg keys e) as [keys1|] eqn:Ea; [|done].
    intros (Hp & Hs & Hk)%IH. unfold add_previous in Ea. cbv zeta in Ea. set (a := if bool_decide (pe_alg e = "") then alg else pe_alg e) in Ea.
    destruct (valid_key_id (pe_id e)) eqn:Ev; [|done]. simpl in Ea. case_bool_decide; [done|].
    destruct (decodeScopeTokenKey (pe_hex e)) as [key|] eqn:Ed; [|done].
    destruct (alg_allowed a) eqn:Ealg; [|done]. simplify_eq/=. apply decodeScopeTokenKey_length in Ed.
    split_and!.
    + by rewrite Hp, lookup_insert_ne by done.
    + rewrite map_size_insert in Hs. destruct (keys !! pe_id e); simpl in *; lia.
    + intros id k [Hk'|?]%Hk; [|by right].
      apply lookup_insert_Some in Hk' as [[<- <-]|[_ ?]]; [right|by left]. by split_and!.
Qed.

Lemma add_all_cursor_ok primary es keys keys' :
  add_all_cursor primary keys es = Some keys' →
  keys' !! primary = keys !! primary ∧ (size keys' ≤ size keys + length es)%nat ∧
  ∀ id key, keys' !! id = Some key →
    keys !! id = Some key ∨ valid_key_id id = true ∧ String.length key = 32%nat.
Proof.
  revert keys. induction es as [|e es IH]; intros keys; simpl.
  - intros [= ->]. split_and!; [done|lia|by left].
  - destruct (add_previous_cursor primary keys e) as [keys1|] eqn:Ea; [|done].
    intros (Hp & Hs & Hk)%IH. unfold add_previous_cursor in Ea.
    repeat (destr_in Ea; simplify_eq). to_prop.
    apply fmap_Some in Ea as (key & Hd%decodeCursorKey_length & ->). split_and!.
    + by rewrite Hp, lookup_insert_ne by done.
    + rewrite map_size_insert in Hs. destruct (keys !! e.1); simpl in *; lia.
    + intros id k [Hk'|?]%Hk; [|by right].
      apply lookup_insert_Some in Hk' as [[<- <-]|[_ ?]]; [right|by left]. by split_and!.
Qed.

Section ring_properties.
Context `{JsonCodec, TokenCodec, TimeCodec}.

(** Every ring that start-up accepts is usable: its active key is in it, under the configured
    identifier and algorithm; every key is at least 32 bytes long, bound to an algorithm of the
    allow-list and named by a valid identifier; there are at most eight; and minting a token under
    the ring never fails. *)
Theorem buildScopeTokenKeyring_ok id hex previous alg k :
  buildScopeTokenKeyring id hex previous alg = Some k →
  scope_ring_ok k ∧
  kr_primary k = (if bool_decide (id = "") then DefaultScopeTokenKeyID else id) ∧
  (∃ key, decodeScopeTokenKey hex = Some key ∧
     activeKey k = Some (mkKey key (if bool_decide (alg = "") then "HS256" else alg))) ∧
  ∀ team task executor issued, is_Some (mintScopeToken k team task executor issued).
Proof using.
  unfold buildScopeTokenKeyring. cbv zeta.
  set (p := if bool_decide (id = "") then DefaultScopeTokenKeyID else id).
  set (a := if bool_decide (alg = "") then "HS256" else alg). intros Hb.
  destruct (valid_key_id p) eqn:Ev; [|done]. simpl in Hb.
  destruct (alg_allowed a) eqn:Ea; [|done]. simpl in Hb.
  destruct (decodeScopeTokenKey hex) as [key|] eqn:Ed; [|done].
  assert (∃ keys, k = mkKeyring keys p ∧ keys !! p = Some (mkKey key a) ∧ (size keys ≤ 8)%nat ∧
            ∀ i x, keys !! i = Some x → valid_key_id i = true ∧
              (32 ≤ String.length (sk_bytes x))%nat ∧ alg_allowed (sk_alg x) = true)
    as (keys & -> & Hp & Hs & Hall).
  { apply decodeScopeTokenKey_length in Ed as Hl. case_bool_decide.
    - simplify_eq. exists {[p := mkKey key a]}. rewrite lookup_singleton_eq, map_size_singleton.
      split_and!; [done|done|lia|]. by intros i x [<- <-]%lookup_singleton_Some.
    - destruct (parseScopeTokenPreviousKeys previous) as [es|]; [|done].
      destruct (maxKeyCount <? length es + 1)%nat eqn:En; [done|]. apply Nat.ltb_ge in En.
      apply fmap_Some in Hb as (keys & Hadd & ->). exists keys.
      apply add_all_previous_ok in Hadd as (Hp & Hs & Hall).
      rewrite lookup_singleton_eq in Hp. rewrite map_size_singleton in Hs.
      split_and!; [done|done|unfold maxKeyCount in *; lia|].
      intros i x [[<- <-]%lookup_singleton_Some|?]%Hall; tauto. }
  apply valid_key_id_spec in Ev as Hne. destruct Hne as (Hne & _ & _).
  assert (activeKey (mkKeyring keys p) = Some (mkKey key a)) as Hact.
  { unfold activeKey. simpl. by rewrite bool_decide_eq_false_2. }
  split_and!; [|done|by exists key|].
  - constructor; simpl; [by eexists|intros i x Hi; apply (Hall i x Hi)..|done].
  - intros team task executor issued. unfold mintScopeToken. rewrite Hact. simpl.
    unfold scopeTokenMAC. rewrite Ea. by eexists.
Qed.

(** Every ring of cursors that start-up accepts has its active key, keys of exactly 32 bytes
    under valid identifiers, and at most eight of them. *)
Theorem LoadRotatingCursorKeyring_ok id hex previous k :
  LoadRotatingCursorKeyring id hex previous = Some k →
  cursor_ring_ok k ∧ ck_primary k = (if bool_decide (id = "") then CursorKeySingle else id) ∧
  ck_keys k !! ck_primary k = decodeCursorKey hex.
Proof using.
  unfold LoadRotatingCursorKeyring. cbv zeta.
  set (p := if bool_decide (id = "") then CursorKeySingle else id). intros Hb.
  destruct (valid_key_id p) eqn:Ev; [|done]. simpl in Hb.
  destruct (decodeCursorKey hex) as [key|] eqn:Ed; [|done].
  assert (∃ keys, k = mkCursorKeyring keys p ∧ keys !! p = Some key ∧ (size keys ≤ 8)%nat ∧
            ∀ i x, keys !! i = Some x → valid_key_id i = true ∧ String.length x = 32%nat)
    as (keys & -> & Hp & Hs & Hall).
  { apply decodeCursorKey_length in Ed as Hl. case_bool_decide.
    - simplify_eq. exists {[p := key]}. rewrite lookup_singleton_eq, map_size_singleton.
      split_and!; [done|done|lia|]. by intros i x [<- <-]%lookup_singleton_Some.
    - destruct (json_entries previous ≫= _) as [es|]; [|done].
      destruct (maxKeyCount <? length es + 1)%nat eqn:En; [done|]. apply Nat.ltb_ge in En.
      apply fmap_Some in Hb as (keys & Hadd & ->). exists keys.
      apply add_all_cursor_ok in Hadd as (Hp & Hs & Hall).
      rewrite lookup_singleton_eq in Hp. rewrite map_size_singleton in Hs.
      split_and!; [done|done|unfold maxKeyCount in *; lia|].
      intros i x [[<- <-]%lookup_singleton_Some|?]%Hall; tauto. }
  split_and!; [|done|done].
  constructor; simpl; [by eexists|intros i x Hi; apply (Hall i x Hi)..|done].
Qed.
End ring_properties.

(** ** On concrete configurations *)

Section witnesses.
#[local] Existing Instances pg_micros collation_C time_bits json_plain token_fields.

Definition fx_hex : string := "00112233445566778899aabbccddeeff00112233445566778899AABBCCDDEEFF".

Lemma buildScopeTokenKeyring_ok_witness :
  ∃ k, buildScopeTokenKeyring "" (" " +:+ fx_hex) "" "HS512" = Some k ∧ scope_ring_ok k ∧
       sk_alg <$> activeKey k = Some "HS512".
Proof.
  destruct (buildScopeTokenKeyring "" (" " +:+ fx_hex) "" "HS512") as [k|] eqn:E;
    [|vm_compute in E; discriminate E].
  exists k. destruct (buildScopeTokenKeyring_ok _ _ _ _ _ E) as (Hok & _ & (key & _ & Ha) & _).
  split; [reflexivity|]. split; [exact Hok|]. rewrite Ha. reflexivity.
Defined.

Lemma LoadRotatingCursorKeyring_ok_witness :
  ∃ k, LoadRotatingCursorKeyring "a.b" fx_hex "" = Some k ∧ cursor_ring_ok k ∧ ck_primary k = "a.b".
Proof.
  destruct (LoadRotatingCursorKeyring "a.b" fx_hex "") as [k|] eqn:E; [|vm_compute in E; discriminate E].
  exists k. destruct (LoadRotatingCursorKeyring_ok _ _ _ _ E) as (Hok & Hp & _).
  split; [reflexivity|]. split; [exact Hok|]. rewrite Hp. reflexivity.
Defined.
End witnesses.
