(* ===== verification/Cursor.v ===== *)
(** * List cursors (internal/cursor/cursor.go)

    The token that continues a list: a MAC-protected document that names the list, the caller it
    was issued to, the filters and the position of the last row; and the validation of the page
    size. *)

From stdpp Require Import base gmap strings list pretty.
From Stdlib Require Import Ascii.
From S2P Require Import Prelude Platform GoStrings Base64 ScopeToken Fixtures Keyrings.
#[local] Open Scope Z_scope.

(** ** Constants *)

Definition Direction : string := "forward".
Definition MaxTokenLength : nat := 1536.
Definition AdminRole : string := "admin".
Definition protocolHeader : string := "v0002-cursor/v1".

Definition OrderingAdminTags : string := "team_id_asc__execution_tag_asc__task_type_id_asc".
Definition OrderingTasksDesc : string := "ingested_at_desc__task_id_desc".
Definition OrderingAuditDesc : string := "occurred_at_desc__audit_id_desc".

Definition EndpointAdminTags : string := "GET:/admin/tags".
Definition EndpointAdminTasks : string := "GET:/admin/tasks".
Definition EndpointGatewayTasks : string := "GET:/v1/tasks".
Definition EndpointGatewayAudit : string := "GET:/v1/audit".

(** ** Identities *)

Record Identity : Type := mkIdentity { id_kind : string; id_team : string; id_operator : string }.

Definition Scope (i : Identity) : string :=
  if bool_decide (id_kind i = "gateway") then "gateway|" +:+ id_team i +:+ "|" +:+ id_operator i
  else if bool_decide (id_kind i = "admin") then "admin|" +:+ AdminRole
  else "unknown|" +:+ id_kind i.

(** Identity.Equal. *)
Definition IdentityEqual (i o : Identity) : bool :=
  if bool_decide (id_kind i ≠ id_kind o) then false
  else if bool_decide (id_kind i = "gateway") then
    bool_decide (id_team i = id_team o ∧ id_operator i = id_operator o)
  else bool_decide (id_kind i = "admin").

(** ** The protected document *)

Record envelope : Type := mkEnvelope {
  nv_endpoint : string; nv_scope : string; nv_ordering : string; nv_direction : string;
  nv_filters : gmap string string;
  nv_tag : option (string * string * string);
  nv_task : option (Z * string);
  nv_audit : option (Z * string);
  nv_environment : option (Z * string);
  nv_secret : option (Z * string);
  nv_version : option (Z * string) }.

Record EncodeIssue : Type := mkIssue {
  is_endpoint : string; is_identity : Identity; is_ordering : string;
  is_filters : gmap string string;
  is_tag : option (string * string * string);
  is_task : option (Z * string);
  is_audit : option (Z * string);
  is_environment : option (Z * string);
  is_secret : option (Z * string);
  is_version : option (Z * string) }.

Record DecodeRequest : Type := mkDecodeRequest {
  dr_token : string; dr_endpoint : string; dr_identity : Identity; dr_ordering : string;
  dr_filters : gmap string string }.

(** An error that unwraps to ErrInvalid, or another one. *)
Inductive cursor_error : Type :=
| Invalid (reason : string)
| Failure (text : string).

#[export] Instance cursor_error_eq_dec : EqDecision cursor_error.
Proof. solve_decision. Defined.

(** The document as JSON. What JSON can carry is read back as it was written: text that is valid
    UTF-8 and positions that are int64 (or int) values. *)
Definition envelope_fits (text : string → Prop) (e : envelope) : Prop :=
  text (nv_endpoint e) ∧ text (nv_scope e) ∧ text (nv_ordering e) ∧ text (nv_direction e) ∧
  map_Forall (λ k v, text k ∧ text v) (nv_filters e) ∧
  (∀ a b c, nv_tag e = Some (a, b, c) → text a ∧ text b ∧ text c) ∧
  (∀ n s, nv_task e = Some (n, s) ∨ nv_audit e = Some (n, s) ∨ nv_environment e = Some (n, s) ∨
          nv_secret e = Some (n, s) ∨ nv_version e = Some (n, s) → in_int64 n ∧ text s).

Class CursorCodec `{TokenCodec} := {
  envelope_json : envelope → string;
  envelope_decode : string → option envelope;
  envelope_roundtrip e : envelope_fits json_text e → envelope_decode (envelope_json e) = Some e;
}.

(** filtersEqual: the same size, and every entry of one in the other. *)
Definition filtersEqual (a b : gmap string string) : bool :=
  if bool_decide (size a ≠ size b) then false
  else bool_decide (map_Forall (λ k v, b !! k = Some v) a).

(** canonicalFilters copies the entries. *)
Definition canonicalFilters (m : gmap string string) : gmap string string :=
  map_fold (λ k v out, <[k := v]> out) ∅ m.

Section cursors.
Context `{CursorCodec}.

(** computeMAC: HMAC-SHA-256 of header, key identifier and document, separated by zero bytes. *)
Definition computeMAC (key key_id doc : string) : string :=
  hmac "HS256" key (protocolHeader +:+ String zero (key_id +:+ String zero doc)).

Definition envelope_of (i : EncodeIssue) : envelope :=
  mkEnvelope (is_endpoint i) (Scope (is_identity i)) (is_ordering i) Direction
    (canonicalFilters (is_filters i)) (is_tag i) (is_task i) (is_audit i) (is_environment i)
    (is_secret i) (is_version i).

Definition join3 (a b c : string) : string := a +:+ String dot (b +:+ String dot c).

Definition Encode (keyring : option CursorKeyring) (i : EncodeIssue) : result cursor_error string :=
  match keyring with
  | None => Err (Failure "nil keyring")
  | Some k =>
      if bool_decide (is_endpoint i = "" ∨ is_ordering i = "") then
        Err (Failure "missing endpoint or ordering")
      else if bool_decide (id_kind (is_identity i) ≠ "gateway" ∧ id_kind (is_identity i) ≠ "admin") then
        Err (Failure "identity kind must be gateway or admin")
      else
        match ck_keys k !! ck_primary k with
        | None | Some "" => Err (Failure "keyring missing key")
        | Some key =>
            let doc := envelope_json (envelope_of i) in
            let mac := computeMAC key (ck_primary k) doc in
            let token := join3 (ck_primary k) (encode doc) (encode mac) in
            if (MaxTokenLength <? String.length token)%nat then
              Err (Failure "encoded token exceeds maximum length")
            else Ok token
        end
  end.

(** The comparisons of a decoded document with the request. *)
Definition check_binding (req : DecodeRequest) (e : envelope) : result cursor_error envelope :=
  if bool_decide (nv_endpoint e ≠ dr_endpoint req) then Err (Invalid "endpoint mismatch")
  else if bool_decide (nv_scope e ≠ Scope (dr_identity req)) then Err (Invalid "scope mismatch")
  else if bool_decide (nv_ordering e ≠ dr_ordering req) then Err (Invalid "ordering mismatch")
  else if bool_decide (nv_direction e ≠ Direction) then Err (Invalid "direction mismatch")
  else if negb (filtersEqual (nv_filters e) (dr_filters req)) then Err (Invalid "filter mismatch")
  else Ok e.

Definition Decode (keyring : option CursorKeyring) (req : DecodeRequest) :
    result cursor_error envelope :=
  match keyring with
  | None => Err (Failure "nil keyring")
  | Some k =>
      if bool_decide (dr_token req = "") then Err (Invalid "empty token")
      else if (MaxTokenLength <? String.length (dr_token req))%nat then Err (Invalid "token too long")
      else
        match split dot (dr_token req) with
        | [key_id; p1; p2] =>
            if bool_decide (key_id = "") || (maxKeyIDLength <? String.length key_id)%nat then
              Err (Invalid "missing key_id")
            else
              match ck_keys k !! key_id with
              | None | Some "" => Err (Invalid "unknown key_id")
              | Some key =>
                  match decode p1 with
                  | None => Err (Invalid "envelope decode")
                  | Some doc =>
                      match decode p2 with
                      | None => Err (Invalid "mac decode")
                      | Some mac =>
                          if bool_decide (computeMAC key key_id doc ≠ mac) then
                            Err (Invalid "mac mismatch")
                          else
                            match envelope_decode doc with
                            | None => Err (Invalid "envelope parse")
                            | Some e => check_binding req e
                            end
                      end
                  end
              end
        | _ => Err (Invalid "malformed token")
        end
  end.
End cursors.

#[global] Arguments Encode {_ _} _ _ : simpl never.
#[global] Arguments Decode {_ _} _ _ : simpl never.

(** ** Page sizes *)

Definition DefaultLimit : Z := 50.
Definition MaxLimit : Z := 200.

Definition is_digit (c : ascii) : bool := in_range 48 57 c.

(** isCanonicalDecimal: digits only, not zero, no leading zero. *)
Definition isCanonicalDecimal (s : string) : bool :=
  if bool_decide (s = "") then false
  else if negb (forallb is_digit (chars s)) then false
  else if bool_decide (s = "0") then false
  else negb (bool_decide (head (chars s) = Some "0"%char)).

Definition digit_value (c : ascii) : Z := Z.of_nat (nat_of_ascii c) - 48.
Definition decimal_value (l : list ascii) : Z := foldl (λ n c, 10 * n + digit_value c) 0 l.

(** strconv.Atoi on digits: a range error beyond int. *)
Definition Atoi (s : string) : option Z :=
  let n := decimal_value (chars s) in if n <? 2 ^ 63 then Some n else None.

(** strconv.Atoi: an optional sign and decimal digits in the range of an int. *)
Definition signed_Atoi (s : string) : option Z :=
  let digits (l : list ascii) :=
    if bool_decide (l = []) || negb (forallb is_digit l) then None else Some (decimal_value l) in
  z ← match chars s with
      | "-"%char :: l => Z.opp <$> digits l
      | "+"%char :: l => digits l
      | l => digits l
      end;
  if (- 2 ^ 63 <=? z) && (z <? 2 ^ 63) then Some z else None.

Record LimitValue : Type := mkLimit { lv_raw : string; lv_value : Z }.

#[export] Instance limit_value_eq_dec : EqDecision LimitValue.
Proof. solve_decision. Defined.

(** The values of the query parameter "limit". *)
Definition ParseLimit (values : list string) : result cursor_error LimitValue :=
  match values with
  | [] => Ok (mkLimit "" DefaultLimit)
  | _ :: _ :: _ => Err (Invalid "limit multiple values")
  | [raw] =>
      if bool_decide (raw = "") then Err (Invalid "limit empty")
      else if bool_decide (trim_space raw ≠ raw) then Err (Invalid "limit whitespace")
      else if negb (isCanonicalDecimal raw) then Err (Invalid "limit not canonical decimal")
      else
        match Atoi raw with
        | None => Err (Invalid "limit not integer")
        | Some n => if (n <? 1) || (MaxLimit <? n) then Err (Invalid "limit out of range")
                    else Ok (mkLimit raw n)
        end
  end.

(** ** Tokens are accepted for what they were issued for *)

Lemma filtersEqual_spec a b : filtersEqual a b = true ↔ a = b.
Proof.
  unfold filtersEqual. case_bool_decide as Hs; split; try done.
  - intros ->. by destruct Hs.
  - intros Hm%bool_decide_eq_true. apply map_subseteq_size_eq.
    + apply map_subseteq_spec. intros k v Hk. by apply Hm.
    + lia.
  - intros ->. apply bool_decide_eq_true. by intros k v Hk.
Qed.

Lemma canonicalFilters_id m : canonicalFilters m = m.
Proof.
  unfold canonicalFilters. induction m as [|k v m Hk Hfst IH] using map_first_key_ind; [done|].
  rewrite map_fold_insert_first_key by done. by rewrite IH.
Qed.

(** The scope tells identities apart whose teams do not contain a bar. *)
Definition bar : ascii := "|"%char.

Definition known_kind (i : Identity) : Prop := id_kind i = "gateway" ∨ id_kind i = "admin".

Lemma scope_equal i j :
  known_kind i → known_kind j → bar ∉ chars (id_team i) → bar ∉ chars (id_team j) →
  Scope i = Scope j ↔ IdentityEqual i j = true.
Proof.
  destruct i as [ki ti oi], j as [kj tj oj]. unfold known_kind, Scope, IdentityEqual. simpl.
  intros [-> | ->] [-> | ->] Hi Hj; simpl; try done.
  rewrite bool_decide_eq_true. split; [|by intros [-> ->]]. intros E.
  apply (f_equal chars) in E. rewrite !chars_app in E. apply (app_inv_head (chars "gateway|")) in E.
  apply (app_sep_inj bar) in E as [Ht Ho]; [|done..].
  by split; apply chars_inj.
Qed.

Section cursor_facts.
Context `{CursorCodec}.

Lemma join3_split a b c : dot ∉ chars b → dot ∉ chars c →
  if bool_decide (dot ∈ chars a) then (3 < length (split dot (join3 a b c)))%nat
  else split dot (join3 a b c) = [a; b; c].
Proof using.
  clear. intros Hb Hc. unfold join3. case_bool_decide as Ha; [|by apply split_three].
  unfold split. rewrite length_fmap, chars_app.
  change (chars (String dot (b +:+ String dot c))) with (dot :: chars (b +:+ String dot c)).
  rewrite chars_app. change (chars (String dot c)) with (dot :: chars c).
  rewrite !split_chars_both, !length_app.
  pose proof (split_chars_length dot _ Ha). rewrite (split_chars_none _ _ Hb), (split_chars_none _ _ Hc).
  simpl. lia.
Qed.

Lemma split_join3 s a b c : split dot s = [a; b; c] → s = join3 a b c.
Proof using.
  clear. unfold split. intros Hs. apply chars_inj. rewrite <- (join_split dot (chars s)).
  destruct (split_chars dot (chars s)) as [|x [|y [|z [|]]]]; simplify_eq/=.
  unfold join3. rewrite chars_app, chars_of_chars. f_equal.
  change (dot :: y ++ dot :: z = dot :: chars (of_chars y +:+ String dot (of_chars z))).
  rewrite chars_app, chars_of_chars. do 2 f_equal.
  change (dot :: z = dot :: chars (of_chars z)). by rewrite chars_of_chars.
Qed.

(** What an issued token looks like. *)
Lemma Encode_ok kr i token :
  Encode (Some kr) i = Ok token →
  known_kind (is_identity i) ∧ ∃ key, ck_keys kr !! ck_primary kr = Some key ∧ key ≠ "" ∧
    (String.length token ≤ MaxTokenLength)%nat ∧
    token = join3 (ck_primary kr) (encode (envelope_json (envelope_of i)))
              (encode (computeMAC key (ck_primary kr) (envelope_json (envelope_of i)))).
Proof using.
  unfold Encode. intros He. case_bool_decide; [done|]. case_bool_decide as Hk; [done|].
  split; [unfold known_kind; destruct (decide (id_kind (is_identity i) = "gateway")); [by left|];
          destruct (decide (id_kind (is_identity i) = "admin")); [by right|tauto]|].
  destruct (ck_keys kr !! ck_primary kr) as [[|c key]|]; [done| |done].
  destruct (MaxTokenLength <? _)%nat eqn:El; [done|]. apply Nat.ltb_ge in El. simplify_eq.
  by exists (String c key).
Qed.

(** Decoding an issued token under a ring that holds its key. *)
Lemma Decode_issued kr ring i token ep ident ord filters :
  Encode (Some kr) i = Ok token → (String.length (ck_primary kr) ≤ maxKeyIDLength)%nat →
  ck_primary kr ≠ "" →
  ck_keys ring !! ck_primary kr = ck_keys kr !! ck_primary kr →
  envelope_fits json_text (envelope_of i) →
  Decode (Some ring) (mkDecodeRequest token ep ident ord filters)
  = if bool_decide (dot ∈ chars (ck_primary kr)) then Err (Invalid "malformed token")
    else check_binding (mkDecodeRequest token ep ident ord filters) (envelope_of i).
Proof using.
  intros (_ & key & Hk & Hkey & Hlen & Htok)%Encode_ok Hid Hne Hring Hfit. unfold Decode. simpl.
  set (doc := envelope_json (envelope_of i)) in *.
  set (mac := computeMAC key (ck_primary kr) doc) in *.
  assert (token ≠ "") as Ht.
  { subst token. intros E%(f_equal chars). unfold join3 in E. rewrite chars_app in E.
    destruct (chars (ck_primary kr)); discriminate E. }
  rewrite bool_decide_eq_false_2 by done. rewrite (proj2 (Nat.ltb_ge _ _) Hlen).
  pose proof (join3_split (ck_primary kr) (encode doc) (encode mac)
                (encode_no_dot _) (encode_no_dot _)) as Hsplit.
  rewrite Htok. case_bool_decide as Hd.
  - destruct (split dot _) as [|x [|y [|z [|]]]]; simpl in Hsplit; done || lia.
  - rewrite Hsplit, bool_decide_eq_false_2 by done. rewrite (proj2 (Nat.ltb_ge _ _) Hid). simpl.
    rewrite Hring, Hk. destruct key as [|c key]; [done|].
    rewrite !decode_encode, bool_decide_eq_false_2 by (intros Hm; by apply Hm).
    unfold doc. by rewrite envelope_roundtrip.
Qed.

Lemma check_binding_ok req e e' :
  check_binding req e = Ok e' ↔
  e' = e ∧ nv_endpoint e = dr_endpoint req ∧ nv_scope e = Scope (dr_identity req) ∧
  nv_ordering e = dr_ordering req ∧ nv_direction e = Direction ∧ nv_filters e = dr_filters req.
Proof using.
  unfold check_binding. rewrite <- filtersEqual_spec.
  repeat (case_bool_decide; [split; [done|intros; destruct_and?; done]|]).
  repeat match goal with H : ¬ (_ ≠ _) |- _ => apply dec_stable in H end.
  destruct (filtersEqual _ _); simpl; split; try done; intros; destruct_and?; try done.
  - by simplify_eq.
  - by subst.
Qed.
End cursor_facts.

(** ** Decimal numerals *)

(** Digits without a leading zero. *)
Definition canonical (l : list ascii) : Prop :=
  Forall (λ c, is_digit c = true) l ∧ head l ≠ Some "0"%char.

Lemma digit_range c : is_digit c = true → 0 ≤ digit_value c ≤ 9.
Proof.
  unfold is_digit, in_range, digit_value. intros [Hl%Z.leb_le Hh%Z.leb_le]%andb_true_iff. lia.
Qed.

Lemma digit_inj c c' : digit_value c = digit_value c' → c = c'.
Proof.
  unfold digit_value. intros E. rewrite <- (ascii_nat_embedding c), <- (ascii_nat_embedding c').
  f_equal. lia.
Qed.

Lemma decimal_value_snoc l c : decimal_value (l ++ [c]) = 10 * decimal_value l + digit_value c.
Proof. unfold decimal_value. by rewrite foldl_app. Qed.

Lemma canonical_snoc l c : canonical (l ++ [c]) → is_digit c = true ∧ canonical l ∧ (l = [] → c ≠ "0"%char).
Proof.
  intros [[Hl Hc]%Forall_app Hh]. rewrite Forall_singleton in Hc. split_and!; [done| |].
  - split; [done|]. by destruct l.
  - intros -> ->. by apply Hh.
Qed.

Lemma canonical_positive l : canonical l → l ≠ [] → 0 < decimal_value l.
Proof.
  induction l as [|c l IH] using rev_ind; intros Hl Hne; [done|].
  apply canonical_snoc in Hl as (Hc & Hl & Hz). rewrite decimal_value_snoc.
  pose proof (digit_range c Hc). destruct (decide (l = [])) as [->|Hn].
  - assert (digit_value c ≠ 0) as Hne0; [|unfold decimal_value; simpl; lia].
    intros E. apply (Hz eq_refl), digit_inj. by rewrite E.
  - specialize (IH Hl Hn). lia.
Qed.

(** A number has one canonical numeral. *)
Lemma canonical_inj l l' : canonical l → canonical l' → decimal_value l = decimal_value l' → l = l'.
Proof.
  revert l'. induction l as [|c l IH] using rev_ind; intros l' Hl Hl' E.
  - destruct (decide (l' = [])) as [->|Hn]; [done|].
    pose proof (canonical_positive _ Hl' Hn) as Hp. rewrite <- E in Hp. unfold decimal_value in Hp. simpl in Hp. lia.
  - destruct l' as [|c' l' _] using rev_ind.
    { pose proof (canonical_positive _ Hl) as Hp. rewrite E in Hp.
      assert (l ++ [c] ≠ []) as Hne by by destruct l. specialize (Hp Hne).
      unfold decimal_value in Hp. simpl in Hp. lia. }
    apply canonical_snoc in Hl as (Hc & Hl & _), Hl' as (Hc' & Hl' & _).
    rewrite !decimal_value_snoc in E.
    pose proof (digit_range c Hc). pose proof (digit_range c' Hc').
    rewrite (IH l' Hl Hl') by lia. do 2 f_equal. apply digit_inj. lia.
Qed.

Lemma isCanonicalDecimal_canonical s : isCanonicalDecimal s = true → canonical (chars s).
Proof.
  unfold isCanonicalDecimal. intros Hs. case_bool_decide; [done|].
  destruct (forallb is_digit (chars s)) eqn:Hd; [|done]. simpl in Hs. case_bool_decide; [done|].
  to_prop. split; [|done]. apply Forall_forall. intros c Hc.
  eapply forallb_forall; [exact Hd|]. by apply list_elem_of_In.
Qed.

Lemma ParseLimit_value values v : ParseLimit values = Ok v → 1 ≤ lv_value v ≤ MaxLimit.
Proof.
  unfold ParseLimit. intros Hp. repeat (destr_in Hp; simplify_eq/=); [unfold DefaultLimit, MaxLimit; lia|].
  match goal with H : (_ || _) = false |- _ => apply orb_false_iff in H as [Hr1%Z.ltb_ge Hr2%Z.ltb_ge] end.
  lia.
Qed.

(** The numerals of the accepted sizes. *)
Definition limit_check (n : nat) : bool :=
  let n := Z.of_nat n in
  bool_decide (ParseLimit [pretty n] = Ok (mkLimit (pretty n) n)) &&
  isCanonicalDecimal (pretty n) && (decimal_value (chars (pretty n)) =? n).

Lemma limits_checked : forallb limit_check (seq 1 200) = true.
Proof. vm_compute. reflexivity. Qed.

Lemma limit_numeral n : 1 ≤ n ≤ 200 →
  ParseLimit [pretty n] = Ok (mkLimit (pretty n) n) ∧ canonical (chars (pretty n)) ∧
  decimal_value (chars (pretty n)) = n.
Proof.
  intros Hn. pose proof (proj1 (forallb_forall _ _) limits_checked (Z.to_nat n)) as Hc.
  unfold limit_check in Hc. rewrite Z2Nat.id in Hc by lia.
  assert (In (Z.to_nat n) (seq 1 200)) as Hin by (apply in_seq; lia).
  specialize (Hc Hin). to_prop. split_and!; [done|by apply isCanonicalDecimal_canonical|by apply Z.eqb_eq].
Qed.

(** ** Properties *)

Section cursor_properties.
Context `{CursorCodec}.

(** C38. Round trip and binding. An issued cursor is read back, with the position it was issued
    with, exactly by the list, the caller, the order and the filters it was issued for, on every
    ring that still holds its key, and by nothing else; but not at all when the identifier of the
    key contains a dot, which the rules for identifiers allow: every such cursor is malformed. *)
Theorem cursor_roundtrip kr ring i token ep ident ord filters :
  Encode (Some kr) i = Ok token → cursor_ring_ok kr →
  ck_keys ring !! ck_primary kr = ck_keys kr !! ck_primary kr →
  envelope_fits json_text (envelope_of i) → known_kind ident →
  bar ∉ chars (id_team (is_identity i)) → bar ∉ chars (id_team ident) →
  ∀ e, Decode (Some ring) (mkDecodeRequest token ep ident ord filters) = Ok e ↔
    dot ∉ chars (ck_primary kr) ∧ e = envelope_of i ∧ ep = is_endpoint i ∧
    IdentityEqual (is_identity i) ident = true ∧ ord = is_ordering i ∧ filters = is_filters i.
Proof using.
  intros He Hok Hring Hfit Hident Hb Hb' e.
  destruct (cr_primary_key _ Hok) as [key Hkey]. apply (cr_ids _ Hok) in Hkey.
  apply valid_key_id_spec in Hkey as (Hne & Hid & _).
  rewrite (Decode_issued _ _ _ _ _ _ _ _ He Hid Hne Hring Hfit).
  apply Encode_ok in He as (Hk & _). case_bool_decide as Hd; [by split; [|intros []]|].
  rewrite check_binding_ok, <- scope_equal by done. simpl. rewrite canonicalFilters_id.
  split; intros; destruct_and?; subst; by split_and!.
Qed.

(** An accepted cursor was authenticated: it consists of a key identifier, a document and the
    MAC of both under the key of that identifier, and the document names the list, the caller,
    the order and the filters of the request. *)
Theorem cursor_sound ring req e :
  Decode (Some ring) req = Ok e →
  nv_endpoint e = dr_endpoint req ∧ nv_scope e = Scope (dr_identity req) ∧
  nv_ordering e = dr_ordering req ∧ nv_direction e = Direction ∧ nv_filters e = dr_filters req ∧
  ∃ key_id p1 p2 key doc, dr_token req = join3 key_id p1 p2 ∧
    ck_keys ring !! key_id = Some key ∧ key ≠ "" ∧
    decode p1 = Some doc ∧ decode p2 = Some (computeMAC key key_id doc) ∧
    envelope_decode doc = Some e.
Proof using.
  unfold Decode. intros Hd. case_bool_decide; [done|].
  destruct (MaxTokenLength <? _)%nat; [done|].
  destruct (split dot (dr_token req)) as [|key_id [|p1 [|p2 [|]]]] eqn:Hs; try done.
  apply split_join3 in Hs. destruct (_ || _); [done|].
  destruct (ck_keys ring !! key_id) as [[|c key]|] eqn:Hk; try done.
  destruct (decode p1) as [doc|] eqn:Hp1; [|done]. destruct (decode p2) as [mac|] eqn:Hp2; [|done].
  case_bool_decide as Hm; [done|].
  destruct (envelope_decode doc) as [e0|] eqn:He; [|done].
  apply check_binding_ok in Hd as (-> & ? & ? & ? & ? & ?). split_and!; [done..|].
  exists key_id, p1, p2, (String c key), doc. by rewrite Hp2, Hm.
Qed.
End cursor_properties.

(** Page sizes. The accepted values are exactly the numerals of 1 to 200 without leading
    zeros, each read as its value; an absent parameter means fifty; everything else is refused. *)
Theorem ParseLimit_spec values v :
  ParseLimit values = Ok v ↔
  (values = [] ∧ v = mkLimit "" DefaultLimit) ∨
  (∃ n, 1 ≤ n ≤ MaxLimit ∧ values = [pretty n] ∧ v = mkLimit (pretty n) n).
Proof.
  split.
  - unfold ParseLimit. destruct values as [|raw [|]]; [intros [= <-]; by left| |done].
    intros Hp. right. case_bool_decide; [done|]. case_bool_decide; [done|].
    destruct (isCanonicalDecimal raw) eqn:Hc; [|done]. simpl in Hp.
    unfold Atoi in Hp. destruct (_ <? 2 ^ 63); [|done].
    destruct ((decimal_value (chars raw) <? 1) || _) eqn:Hr; [done|].
    apply orb_false_iff in Hr as [Hr1%Z.ltb_ge Hr2%Z.ltb_ge]. unfold MaxLimit in *. simplify_eq.
    destruct (limit_numeral (decimal_value (chars raw))) as (_ & Hn & He); [lia|].
    assert (raw = pretty (decimal_value (chars raw))) as E.
    { apply chars_inj, canonical_inj; [by apply isCanonicalDecimal_canonical|done..]. }
    exists (decimal_value (chars raw)). by rewrite <- E.
  - intros [[-> ->]|(n & Hn & -> & ->)]; [done|]. by apply limit_numeral.
Qed.

(** ** A codec and the properties on an issued cursor *)

(** Documents as lists of text fields. *)
Definition triple_fields (p : option (string * string * string)) : list string :=
  match p with Some (a, b, c) => ["1"; a; b; c] | None => ["0"; ""; ""; ""] end.
Definition triple_unfields (f a b c : string) : option (string * string * string) :=
  if bool_decide (f = "1") then Some (a, b, c) else None.

Definition pair_fields (p : option (Z * string)) : list string :=
  match p with Some (n, s) => [format_bits n; s] | None => [""; ""] end.
Definition pair_unfields (n s : string) : option (Z * string) := (λ n, (n, s)) <$> parse_bits n.

Lemma triple_roundtrip p :
  match triple_fields p with [f; a; b; c] => triple_unfields f a b c = p | _ => False end.
Proof. by destruct p as [[[a b] c]|]. Qed.

Lemma pair_roundtrip p :
  match pair_fields p with [n; s] => pair_unfields n s = p | _ => False end.
Proof. destruct p as [[n s]|]; [|done]. unfold pair_unfields. simpl. by rewrite parse_format_bits. Qed.

Fixpoint flat (l : list (string * string)) : list string :=
  match l with [] => [] | (a, b) :: l' => a :: b :: flat l' end.
Fixpoint unflat (l : list string) : list (string * string) :=
  match l with a :: b :: l' => (a, b) :: unflat l' | _ => [] end.

Lemma unflat_flat l : unflat (flat l) = l.
Proof. induction l as [|[a b] l IH]; [done|]. simpl. by rewrite IH. Qed.

Definition envelope_fields (e : envelope) : string :=
  fields ([nv_endpoint e; nv_scope e; nv_ordering e; nv_direction e] ++ triple_fields (nv_tag e) ++
          pair_fields (nv_task e) ++ pair_fields (nv_audit e) ++ pair_fields (nv_environment e) ++
          pair_fields (nv_secret e) ++ pair_fields (nv_version e) ++ flat (map_to_list (nv_filters e))).

Definition envelope_unfields (s : string) : option envelope :=
  match unfields s [] with
  | Some (ep :: sc :: ord :: dr :: f :: a :: b :: c :: n1 :: s1 :: n2 :: s2 :: n3 :: s3 :: n4 :: s4
          :: n5 :: s5 :: l) =>
      Some (mkEnvelope ep sc ord dr (list_to_map (unflat l)) (triple_unfields f a b c)
              (pair_unfields n1 s1) (pair_unfields n2 s2) (pair_unfields n3 s3)
              (pair_unfields n4 s4) (pair_unfields n5 s5))
  | _ => None
  end.

Definition toy_mac (m : string) : string := "#" +:+ of_chars (take 24 (reverse (chars m))).

(** The tokens of Fixtures with short authentication codes. *)
Definition token_short : TokenCodec.
Proof.
  refine {| hmac a k m := toy_mac m;
            header_json := header_fields; claims_json := claims_fields;
            header_decode := header_unfields; claims_decode := claims_unfields;
            json_text _ := True |}; try done.
  - apply (@header_roundtrip token_fields).
  - apply (@claims_roundtrip token_fields).
  - apply (@header_json_nonempty token_fields).
  - apply (@claims_json_nonempty token_fields).
Defined.

Definition cursor_fields : @CursorCodec token_short.
Proof.
  refine (@Build_CursorCodec token_short envelope_fields envelope_unfields _).
  intros [ep sc ord dr fl tg p1 p2 p3 p4 p5] _. unfold envelope_unfields, envelope_fields.
  rewrite unfields_fields. simpl.
  pose proof (triple_roundtrip tg) as Ht. pose proof (pair_roundtrip p1) as H1.
  pose proof (pair_roundtrip p2) as H2. pose proof (pair_roundtrip p3) as H3.
  pose proof (pair_roundtrip p4) as H4. pose proof (pair_roundtrip p5) as H5.
  destruct (triple_fields tg) as [|? [|? [|? [|? [|]]]]]; try done.
  destruct (pair_fields p1) as [|? [|? [|]]]; try done.
  destruct (pair_fields p2) as [|? [|? [|]]]; try done.
  destruct (pair_fields p3) as [|? [|? [|]]]; try done.
  destruct (pair_fields p4) as [|? [|? [|]]]; try done.
  destruct (pair_fields p5) as [|? [|? [|]]]; try done.
  simpl. rewrite unflat_flat, list_to_map_to_list. by subst.
Defined.

Section witnesses.
#[local] Existing Instances token_short cursor_fields.

Definition fx_cursors (id : string) : CursorKeyring := mkCursorKeyring {[id := fx_hex]} id.
Definition fx_gateway : Identity := mkIdentity "gateway" "team" "op".
Definition fx_issue : EncodeIssue :=
  mkIssue EndpointGatewayTasks fx_gateway OrderingTasksDesc {["team_id" := "team"]} None
    (Some (2000, "t2")) None None None None.

(** The ring of one 32 byte key under [id]. *)
Definition fx_ring (id : string) : CursorKeyring :=
  default (mkCursorKeyring ∅ "") (LoadRotatingCursorKeyring (H := json_plain) id fx_hex "").

Lemma fx_ring_ok id k :
  LoadRotatingCursorKeyring (H := json_plain) id fx_hex "" = Some k → cursor_ring_ok k.
Proof.
  unfold LoadRotatingCursorKeyring. intros Hl. destruct (valid_key_id _) eqn:Ev; [|done].
  simpl in Hl. destruct (decodeCursorKey fx_hex) as [key|] eqn:Ed; [|done]. simplify_eq/=.
  apply decodeCursorKey_length in Ed.
  constructor; simpl; rewrite ?lookup_singleton_eq, ?map_size_singleton; [by eexists|..|unfold maxKeyCount; lia];
    by intros ? ? [<- <-]%lookup_singleton_Some.
Qed.

Lemma fx_issue_fits : envelope_fits json_text (envelope_of fx_issue).
Proof.
  assert (in_int64 2000) as Hn by (unfold in_int64; lia).
  do 4 (split; [exact I|]). split; [intros k v _; split; exact I|].
  split; [intros a b c _; split; [exact I|split; exact I]|].
  intros n s [E|[E|[E|[E|E]]]]; cbn in E; [|discriminate E..].
  injection E as <- _. split; [exact Hn|exact I].
Qed.

(** Read back under "k1", malformed under the key identifier "k.1". *)
Lemma cursor_roundtrip_witness :
  ∃ token token',
    Encode (Some (fx_ring "k1")) fx_issue = Ok token ∧
    Encode (Some (fx_ring "k.1")) fx_issue = Ok token' ∧
    Decode (Some (fx_ring "k1")) (mkDecodeRequest token EndpointGatewayTasks fx_gateway
      OrderingTasksDesc {["team_id" := "team"]}) = Ok (envelope_of fx_issue) ∧
    ∀ e, Decode (Some (fx_ring "k.1")) (mkDecodeRequest token' EndpointGatewayTasks fx_gateway
      OrderingTasksDesc {["team_id" := "team"]}) ≠ Ok e.
Proof.
  assert (cursor_ring_ok (fx_ring "k1")) as Hk1 by (apply (fx_ring_ok "k1"); vm_compute; reflexivity).
  assert (cursor_ring_ok (fx_ring "k.1")) as Hk2 by (apply (fx_ring_ok "k.1"); vm_compute; reflexivity).
  assert (known_kind fx_gateway) as Hkind by (left; reflexivity).
  assert (bar ∉ chars (id_team fx_gateway)) as Hb by (apply (bool_decide_unpack _); vm_compute; exact I).
  destruct (Encode (Some (fx_ring "k1")) fx_issue) as [token|] eqn:E1; [|vm_compute in E1; discriminate E1].
  destruct (Encode (Some (fx_ring "k.1")) fx_issue) as [token'|] eqn:E2; [|vm_compute in E2; discriminate E2].
  exists token, token'. split; [reflexivity|]. split; [reflexivity|]. split.
  - apply (cursor_roundtrip _ _ _ _ _ _ _ _ E1 Hk1 eq_refl fx_issue_fits Hkind Hb Hb).
    split_and!; try reflexivity. apply (bool_decide_unpack _). vm_compute. exact I.
  - intros e He.
    apply (cursor_roundtrip _ _ _ _ _ _ _ _ E2 Hk2 eq_refl fx_issue_fits Hkind Hb Hb) in He.
    destruct He as [Hd _]. apply Hd. apply (bool_decide_unpack _). vm_compute. exact I.
Defined.

Lemma cursor_sound_witness :
  ∃ token e, Encode (Some (fx_ring "k1")) fx_issue = Ok token ∧
    Decode (Some (fx_ring "k1")) (mkDecodeRequest token EndpointGatewayTasks fx_gateway
      OrderingTasksDesc {["team_id" := "team"]}) = Ok e ∧ nv_scope e = "gateway|team|op".
Proof.
  destruct (Encode (Some (fx_ring "k1")) fx_issue) as [token|] eqn:E1; [|vm_compute in E1; discriminate E1].
  destruct (Decode (Some (fx_ring "k1")) (mkDecodeRequest token EndpointGatewayTasks fx_gateway
      OrderingTasksDesc {["team_id" := "team"]})) as [e|] eqn:E2;
    [|vm_compute in E1; injection E1 as <-; vm_compute in E2; discriminate E2].
  exists token, e. split; [reflexivity|]. split; [exact E2|].
  apply cursor_sound in E2 as (_ & Hs & _). rewrite Hs. reflexivity.
Defined.
End witnesses.
