(* ===== verification/LaunchParams.v ===== *)
(** * Launch parameter definitions (store/ui_launch_parameters.go, store/environments.go)

    Operators keep one active definition per scope: plain values, an image and secrets. Every
    write advances the revision of the definition and appends the new state to its history. *)

From stdpp Require Import base gmap strings list sorting.
From S2P Require Import Prelude Platform Tx Schema Store Launch LaunchTables Fixtures.
#[local] Open Scope Z_scope.

(** ** Wire types (platform/ui_launch_parameters.go, platform/environment.go) *)

Record LaunchParameterWrite : Type := mkWrite {
  lw_scope : string; lw_task_type : option string; lw_name : string;
  lw_env : gmap string string; lw_image : option string }.

Record LogicalSecretSummary : Type := mkSecretSummary {
  ls_id : string; ls_team : string; ls_env : string; ls_name : string;
  ls_latest_version : Z; ls_revoked : bool }.

Record LaunchParameterDefinition : Type := mkDefinition {
  ld_id : string; ld_team : string; ld_revision : Z; ld_write : LaunchParameterWrite;
  ld_secrets : list LogicalSecretSummary; ld_created_at : Z; ld_updated_at : Z }.

Record LaunchParameterRevision : Type := mkRevision {
  lr_env : string; lr_revision : Z; lr_team : string; lr_write : LaunchParameterWrite;
  lr_secret_keys : list string; lr_deleted : bool; lr_actor : string; lr_request : string;
  lr_created_at : Z }.

Record EnvironmentWriteRequest : Type := mkEnvWrite {
  ew_name : string; ew_project : option string; ew_task : option string;
  ew_parent_task : option string; ew_values : gmap string string }.

Record Environment : Type := mkEnvironment {
  en_id : string; en_env_team : string; en_revision : Z; en_name : string;
  en_values : gmap string string; en_secrets : list LogicalSecretSummary; en_deleted : bool;
  en_created_at : Z; en_updated_at : Z }.

(** ** Scanning rows *)

(** scanLaunchParameters and fillLaunchParameters: the team and the scope scan into Go
    strings, the task type and the image into optional ones. *)
Definition scanLaunchParameters (e : EnvDefRow) : result sql_error LaunchParameterDefinition :=
  match ed_team e, ed_scope e with
  | Some team, Some scope =>
      Ok (mkDefinition (ed_id e) team (ed_revision e)
            (mkWrite scope (ed_task_type e) (ed_name e) (ed_values e) (ed_image e)) []
            (ed_created_at e) (ed_updated_at e))
  | _, _ => Err SqlScan
  end.

(** The same under COALESCE(team_id, ''). *)
Definition scan_coalesced (e : EnvDefRow) : result sql_error LaunchParameterDefinition :=
  match ed_scope e with
  | Some scope =>
      Ok (mkDefinition (ed_id e) (default "" (ed_team e)) (ed_revision e)
            (mkWrite scope (ed_task_type e) (ed_name e) (ed_values e) (ed_image e)) []
            (ed_created_at e) (ed_updated_at e))
  | None => Err SqlScan
  end.

Definition with_secret_summaries (l : list LogicalSecretSummary) (item : LaunchParameterDefinition) :
    LaunchParameterDefinition :=
  mkDefinition (ld_id item) (ld_team item) (ld_revision item) (ld_write item) l
    (ld_created_at item) (ld_updated_at item).

(** The summary of a secret; a NULL latest version does not scan. *)
Definition summarize (s : SecretRow) : result sql_error LogicalSecretSummary :=
  match se_latest_version s with
  | Some v =>
      Ok (mkSecretSummary (se_id s) (default "" (se_team s)) (se_env s) (se_name s) v (se_revoked s))
  | None => Err SqlScan
  end.

(** Scanning the rows of a SELECT one after the other. *)
Fixpoint scan_all {A B} (scan : A → result sql_error B) (l : list A) : result sql_error (list B) :=
  match l with
  | [] => Ok []
  | a :: rest =>
      match scan a, scan_all scan rest with
      | Ok b, Ok bs => Ok (b :: bs)
      | Err e, _ | _, Err e => Err e
      end
  end.

Definition classifyLaunchParameterWrite (e : sql_error) : StoreError :=
  match e with
  | SqlState code _ =>
      if bool_decide (code = unique_violation) then ErrLaunchParameterConflict
      else if bool_decide (code = foreign_key_violation) then ErrEnvironmentUnavailable
      else ErrWrap "write launch parameters" e
  | _ => ErrWrap "write launch parameters" e
  end.

Section launch_parameters.
Context `{Collation, PgTime}.

(** ** Shared steps *)

Definition verifyLaunchParameterScope (team : string) (req : LaunchParameterWrite) : TxS () :=
  if bool_decide (lw_scope req = LaunchScopeTeam ∧ lw_task_type req = None) then ret ()
  else if bool_decide (lw_scope req ≠ LaunchScopeTaskType ∨ default "" (lw_task_type req) = "")
  then throw ErrEnvironmentUnavailable
  else
    exists_ <- query (ErrWrap "verify launch parameter task type")
                 (type_of_team team (default "" (lw_task_type req))) ;;
    if negb exists_ then throw ErrEnvironmentUnavailable else ret ().

(** SELECT name FROM secrets WHERE team_id, environment_id AND revoked = false ORDER BY name. *)
Definition secret_keys (team env : string) (d : DB) : list string :=
  se_name <$> order_by name_le
    (filter (λ s, se_team s = Some team ∧ se_env s = env ∧ se_revoked s = false)
       (rows (db_secrets d))).

Definition revision_row (item : LaunchParameterDefinition) (keys : list string)
    (identity : GatewayIdentity) (deleted : bool) (at_ : Z) : EnvRevisionRow :=
  mkEnvRevision (Some (ld_team item)) (lw_scope (ld_write item)) (lw_task_type (ld_write item))
    (lw_name (ld_write item)) (lw_env (ld_write item)) keys (lw_image (ld_write item)) deleted
    (gi_operator identity) (gi_request identity) at_.

Definition appendLaunchParameterRevision (identity : GatewayIdentity)
    (item : LaunchParameterDefinition) (deleted : bool) : TxS () :=
  keys <- query (ErrWrap "list revision secret keys") (secret_keys (ld_team item) (ld_id item)) ;;
  exec (ErrWrap "append launch parameter revision")
    (λ now, insert_env_revision (ld_id item) (ld_revision item)
              (revision_row item keys identity deleted (pg_ts now))).

Definition gateway_audit (id : string) (identity : GatewayIdentity) (action type resource : string)
    (at_ : Z) : AuditRow :=
  mkAudit id (Some (gi_team identity)) (gi_operator identity) "operator" action type resource
    (gi_request identity) "accepted" None at_.

Definition appendEnvironmentAudit (identity : GatewayIdentity) (action env : string) : TxS () :=
  id <- fresh_uuid ;;
  exec (ErrWrap "append environment audit")
    (λ now, insert_audit (gateway_audit id identity action "environment" env (pg_ts now))).

Definition secret_le : relation SecretRow := row_le se_created_at se_id.

Definition summaries (p : SecretRow → bool) (d : DB) : result sql_error (list LogicalSecretSummary) :=
  scan_all summarize (order_by secret_le (filter (λ s, p s) (rows (db_secrets d)))).

Definition listSecretSummaries (team env : string) : TxS (list LogicalSecretSummary) :=
  query_scan (ErrWrap "list environment secret summaries")
    (summaries (λ s, bool_decide (se_team s = Some team ∧ se_env s = env))).

Definition listUILaunchParameterSecretSummaries (env : string) : TxS (list LogicalSecretSummary) :=
  query_scan (ErrWrap "list UI launch parameter secrets")
    (summaries (λ s, bool_decide (se_env s = env ∧ se_revoked s = false))).

(** ** Writes *)

Definition new_env (id : string) (identity : GatewayIdentity) (req : LaunchParameterWrite) (now : Z) :
    EnvDefRow :=
  mkEnvDef id (Some (gi_team identity)) (Some (lw_scope req)) (lw_task_type req) (lw_name req)
    (lw_env req) (lw_image req) 1 false (pg_ts now) (pg_ts now).

Definition insert_definition (id : string) (identity : GatewayIdentity) (req : LaunchParameterWrite)
    (now : Z) (d : DB) : result sql_error (DB * LaunchParameterDefinition) :=
  match insert_env (new_env id identity req now) d, scanLaunchParameters (new_env id identity req now) with
  | Ok d', Ok item => Ok (d', item)
  | Err e, _ | _, Err e => Err e
  end.

Definition CreateLaunchParameters (identity : GatewayIdentity) (req : LaunchParameterWrite) :
    TxS LaunchParameterDefinition :=
  begin_tx (ErrWrap "begin launch parameters create") ;;;
  verifyLaunchParameterScope (gi_team identity) req ;;;
  id <- fresh_uuid ;;
  item <- exec_returning classifyLaunchParameterWrite (insert_definition id identity req) ;;
  appendLaunchParameterRevision identity item false ;;;
  appendEnvironmentAudit identity "environment.create" id ;;;
  commit (ErrWrap "commit launch parameters create") ;;;
  ret item.

(** The next revision of a definition. *)
Definition replaced (req : LaunchParameterWrite) (now : Z) (e : EnvDefRow) : EnvDefRow :=
  mkEnvDef (ed_id e) (ed_team e) (ed_scope e) (ed_task_type e) (lw_name req) (lw_env req)
    (lw_image req) (ed_revision e + 1) (ed_deleted e) (ed_created_at e) (pg_ts now).

Definition deleted (now : Z) (e : EnvDefRow) : EnvDefRow :=
  mkEnvDef (ed_id e) (ed_team e) (ed_scope e) (ed_task_type e) (ed_name e) (ed_values e)
    (ed_image e) (ed_revision e + 1) true (ed_created_at e) (pg_ts now).

(** UPDATE environment_definitions ... RETURNING, scanned. *)
Definition update_definition (id : string) (cond : EnvDefRow → bool) (f : Z → EnvDefRow → EnvDefRow)
    (now : Z) (d : DB) : result sql_error (DB * option LaunchParameterDefinition) :=
  match update_env id cond (f now) d with
  | Ok (d', None) => Ok (d', None)
  | Ok (d', Some e) => match scanLaunchParameters e with Ok item => Ok (d', Some item) | Err x => Err x end
  | Err x => Err x
  end.

(** WHERE team_id, scope_kind and task_type_id (IS NOT DISTINCT FROM) match AND not deleted. *)
Definition replaceable (team : string) (req : LaunchParameterWrite) (e : EnvDefRow) : bool :=
  bool_decide (ed_team e = Some team ∧ ed_scope e = Some (lw_scope req) ∧
               ed_task_type e = lw_task_type req ∧ ed_deleted e = false).

Definition deletable (team : string) (e : EnvDefRow) : bool :=
  bool_decide (ed_team e = Some team ∧ is_Some (ed_scope e) ∧ ed_deleted e = false).

(** The transaction of ReplaceLaunchParameters. *)
Definition commit_replacement (identity : GatewayIdentity) (env : string)
    (req : LaunchParameterWrite) : TxS LaunchParameterDefinition :=
  begin_tx (ErrWrap "begin launch parameters replace") ;;;
  verifyLaunchParameterScope (gi_team identity) req ;;;
  updated <- exec_returning classifyLaunchParameterWrite
               (update_definition env (replaceable (gi_team identity) req) (replaced req)) ;;
  match updated with
  | None => throw ErrEnvironmentUnavailable
  | Some item =>
      appendLaunchParameterRevision identity item false ;;;
      appendEnvironmentAudit identity "environment.replace" env ;;;
      commit (ErrWrap "commit launch parameters replace") ;;;
      ret item
  end.

(** It reads the secret summaries after its commit. *)
Definition ReplaceLaunchParameters (identity : GatewayIdentity) (env : string)
    (req : LaunchParameterWrite) : TxS LaunchParameterDefinition :=
  item <- commit_replacement identity env req ;;
  secrets <- listSecretSummaries (gi_team identity) env ;;
  ret (with_secret_summaries secrets item).

Definition DeleteLaunchParameters (identity : GatewayIdentity) (env : string) : TxS () :=
  begin_tx (ErrWrap "begin launch parameters delete") ;;;
  updated <- exec_returning (ErrWrap "delete launch parameters")
               (update_definition env (deletable (gi_team identity)) deleted) ;;
  match updated with
  | None => throw ErrEnvironmentUnavailable
  | Some item =>
      appendLaunchParameterRevision identity item true ;;;
      appendEnvironmentAudit identity "environment.delete" env ;;;
      commit (ErrWrap "commit launch parameters delete")
  end.

(** ** Reads *)

Definition env_le : relation EnvDefRow := row_le ed_created_at ed_id.

(** The definitions a team sees: its own and the global one; the filters are optional. *)
Definition listed (team scope : string) (task_type : option string) (e : EnvDefRow) : bool :=
  (bool_decide (ed_team e = Some team ∧
                (ed_scope e = Some LaunchScopeTeam ∨ ed_scope e = Some LaunchScopeTaskType)) ||
   bool_decide (ed_team e = None ∧ ed_scope e = Some LaunchScopeGlobal)) &&
  negb (ed_deleted e) &&
  (bool_decide (scope = "") || bool_decide (ed_scope e = Some scope)) &&
  match task_type with None => true | Some y => bool_decide (ed_task_type e = Some y) end.

Definition listed_rows (team scope : string) (task_type : option string) (limit : nat) (d : DB) :
    list EnvDefRow :=
  take limit (order_by env_le (filter (λ e, listed team scope task_type e) (rows (db_envs d)))).

Fixpoint fill_secrets (items : list LaunchParameterDefinition) : TxS (list LaunchParameterDefinition) :=
  match items with
  | [] => ret []
  | item :: rest =>
      secrets <- listUILaunchParameterSecretSummaries (ld_id item) ;;
      more <- fill_secrets rest ;;
      ret (with_secret_summaries secrets item :: more)
  end.

Definition ListLaunchParameters (team scope : string) (task_type : option string) (limit : nat) :
    TxS (list LaunchParameterDefinition) :=
  items <- query_scan (ErrWrap "list launch parameters")
             (λ d, scan_all scan_coalesced (listed_rows team scope task_type limit d)) ;;
  fill_secrets items.

Definition visible_definition (team env : string) (d : DB) : option EnvDefRow :=
  match db_envs d !! env with
  | Some e =>
      if bool_decide (ed_team e = Some team ∧ is_Some (ed_scope e) ∧ ed_deleted e = false)
      then Some e else None
  | None => None
  end.

Definition GetLaunchParameters (team env : string) : TxS LaunchParameterDefinition :=
  found <- query_scan (ErrWrap "get launch parameters")
             (λ d, match visible_definition team env d with
                   | None => Ok None
                   | Some e => match scanLaunchParameters e with Ok i => Ok (Some i) | Err x => Err x end
                   end) ;;
  match found with
  | None => throw ErrEnvironmentUnavailable
  | Some item =>
      secrets <- listSecretSummaries team env ;;
      ret (with_secret_summaries secrets item)
  end.

Definition scan_revision (kr : (string * Z) * EnvRevisionRow) : result sql_error LaunchParameterRevision :=
  let '((env, n), r) := kr in
  match er_team r with
  | None => Err SqlScan
  | Some team =>
      Ok (mkRevision env n team
            (mkWrite (er_scope r) (er_task_type r) (er_name r) (er_values r) (er_image r))
            (er_secret_keys r) (er_deleted r) (er_actor r) (er_request r) (er_created_at r))
  end.

Definition revision_ge : relation ((string * Z) * EnvRevisionRow) := λ a b, b.1.2 ≤ a.1.2.
#[export] Instance revision_ge_dec : RelDecision revision_ge.
Proof using. clear. intros a b. unfold revision_ge. apply _. Defined.

Definition revisions_of (team env : string) (d : DB) : list ((string * Z) * EnvRevisionRow) :=
  order_by revision_ge
    (filter (λ kr, er_team kr.2 = Some team ∧ kr.1.1 = env) (map_to_list (db_env_revisions d))).

Definition ListLaunchParameterRevisions (team env : string) (limit : nat) :
    TxS (list LaunchParameterRevision) :=
  exists_ <- query (ErrWrap "verify launch parameter history owner")
               (λ d, match db_envs d !! env with
                     | Some e => bool_decide (ed_team e = Some team ∧ is_Some (ed_scope e))
                     | None => false
                     end) ;;
  if negb exists_ then throw ErrEnvironmentUnavailable
  else
    query_scan (ErrWrap "list launch parameter revisions")
      (λ d, scan_all scan_revision (take limit (revisions_of team env d))).

(** ** The legacy environment surface (store/environments.go) *)

Definition hasLegacyNarrowScope (req : EnvironmentWriteRequest) : bool :=
  bool_decide (is_Some (ew_project req) ∨ is_Some (ew_task req) ∨ is_Some (ew_parent_task req)).

Definition legacyEnvironment (item : LaunchParameterDefinition) : Environment :=
  mkEnvironment (ld_id item) (ld_team item) (ld_revision item) (lw_name (ld_write item))
    (lw_env (ld_write item)) (ld_secrets item) false (ld_created_at item) (ld_updated_at item).

Definition legacy_write (req : EnvironmentWriteRequest) : LaunchParameterWrite :=
  mkWrite LaunchScopeTeam None (ew_name req) (ew_values req) None.

Definition CreateEnvironment (identity : GatewayIdentity) (req : EnvironmentWriteRequest) :
    TxS Environment :=
  if hasLegacyNarrowScope req then throw ErrEnvironmentUnavailable
  else item <- CreateLaunchParameters identity (legacy_write req) ;; ret (legacyEnvironment item).

Definition ReplaceEnvironment (identity : GatewayIdentity) (env : string)
    (req : EnvironmentWriteRequest) : TxS Environment :=
  if hasLegacyNarrowScope req then throw ErrEnvironmentUnavailable
  else item <- ReplaceLaunchParameters identity env (legacy_write req) ;; ret (legacyEnvironment item).

Definition DeleteEnvironment (identity : GatewayIdentity) (env : string) : TxS () :=
  DeleteLaunchParameters identity env.

Definition GetEnvironment (team env : string) : TxS Environment :=
  item <- GetLaunchParameters team env ;; ret (legacyEnvironment item).

(** The items after the cursor, in Go: compared by creation time, then bytewise by id. *)
Definition after_environment (after : option (Z * string)) (item : LaunchParameterDefinition) : bool :=
  match after with
  | None => true
  | Some (t, id) =>
      negb ((ld_created_at item <? t) ||
            ((ld_created_at item =? t) && String.leb (ld_id item) id))
  end.

Definition ListEnvironmentsPaged (team : string) (project task : option string) (limit : Z)
    (after : option (Z * string)) : TxS (list Environment * option (Z * string)) :=
  if limit <? 1 then throw (ErrText "ListEnvironmentsPaged: limit must be >= 1")
  else if bool_decide (is_Some project ∨ is_Some task) then ret ([], None)
  else
    items <- ListLaunchParameters team LaunchScopeTeam None (Z.to_nat (limit + 1)) ;;
    let legacy := legacyEnvironment <$> filter (λ i, after_environment after i) items in
    if Z.of_nat (length legacy) <=? limit then ret (legacy, None)
    else
      let page := take (Z.to_nat limit) legacy in
      ret (page, (λ e, (en_created_at e, en_id e)) <$> last page).

Definition ListEnvironments (team : string) (project task : option string) (limit : Z) :
    TxS (list Environment) :=
  r <- ListEnvironmentsPaged team project task limit None ;; ret r.1.
End launch_parameters.

(** ** What the writes do *)

(** A revision row records a definition. *)
Definition records (r : EnvRevisionRow) (e : EnvDefRow) : Prop :=
  er_team r = ed_team e ∧ Some (er_scope r) = ed_scope e ∧ er_task_type r = ed_task_type e ∧
  er_name r = ed_name e ∧ er_values r = ed_values e ∧ er_image r = ed_image e ∧
  er_deleted r = ed_deleted e.

(** The effect of an operation on the definitions: none, a first revision, or the next one. *)
Inductive definition_write (d d' : DB) : Prop :=
| dw_none :
    db_envs d' = db_envs d → db_env_revisions d' = db_env_revisions d → definition_write d d'
| dw_create e r :
    db_envs d !! ed_id e = None → ed_revision e = 1 → scope_free e d = true →
    is_Some (ed_team e) → is_Some (ed_scope e) →
    db_env_revisions d !! (ed_id e, 1) = None → records r e →
    db_envs d' = <[ed_id e := e]> (db_envs d) →
    db_env_revisions d' = <[(ed_id e, 1) := r]> (db_env_revisions d) → definition_write d d'
| dw_advance id e e' r :
    db_envs d !! id = Some e → ed_id e' = ed_id e → ed_team e' = ed_team e →
    ed_scope e' = ed_scope e → ed_task_type e' = ed_task_type e → ed_deleted e = false →
    is_Some (ed_team e) → is_Some (ed_scope e) → ed_created_at e' = ed_created_at e →
    ed_revision e' = ed_revision e + 1 → scope_free e' d = true →
    db_env_revisions d !! (ed_id e, ed_revision e') = None → records r e' →
    db_envs d' = <[id := e']> (db_envs d) →
    db_env_revisions d' = <[(ed_id e, ed_revision e') := r]> (db_env_revisions d) →
    definition_write d d'.

(** What an operation on launch parameters and secrets leaves alone. *)
Record config_frame (d d' : DB) : Prop := mkConfigFrame {
  cf_tasks : db_tasks d' = db_tasks d;
  cf_task_events : db_task_events d' = db_task_events d;
  cf_executors : db_executors d' = db_executors d;
  cf_executor_events : db_executor_events d' = db_executor_events d;
  cf_teams : db_teams d' = db_teams d ∧ db_sources d' = db_sources d ∧ db_types d' = db_types d;
  cf_controls : db_controls d' = db_controls d ∧ db_control_events d' = db_control_events d;
  cf_logs : db_logs d' = db_logs d;
  cf_snapshots : db_snapshots d' = db_snapshots d ∧ db_secret_refs d' = db_secret_refs d;
  cf_audit : db_audit d ⊆ db_audit d';
  cf_versions : db_secret_versions d ⊆ db_secret_versions d';
  cf_revisions : db_env_revisions d ⊆ db_env_revisions d';
}.

#[export] Instance config_frame_refl : Reflexive config_frame.
Proof. by intros d. Qed.

#[export] Instance config_frame_trans : Transitive config_frame.
Proof. intros d1 d2 d3 [] []. constructor; first [congruence|naive_solver congruence|by etrans]. Qed.

Lemma scan_definition_ok e item :
  scanLaunchParameters e = Ok item →
  ed_team e = Some (ld_team item) ∧ ed_scope e = Some (lw_scope (ld_write item)) ∧
  ld_id item = ed_id e ∧ ld_revision item = ed_revision e ∧
  lw_task_type (ld_write item) = ed_task_type e ∧ lw_name (ld_write item) = ed_name e ∧
  lw_env (ld_write item) = ed_values e ∧ lw_image (ld_write item) = ed_image e.
Proof.
  unfold scanLaunchParameters. destruct (ed_team e), (ed_scope e); try done. by intros [= <-].
Qed.

Lemma revision_records e item keys identity del at_ :
  scanLaunchParameters e = Ok item → del = ed_deleted e →
  records (revision_row item keys identity del at_) e.
Proof.
  intros (? & ? & ? & ? & ? & ? & ? & ?)%scan_definition_ok ->.
  unfold records. simpl. split_and!; congruence.
Qed.

Section launch_parameter_facts.
Context `{Collation, PgTime}.

Lemma verifyLaunchParameterScope_ok team req env st a st' :
  verifyLaunchParameterScope team req env st = (Ok a, st') →
  ts_db st' = ts_db st ∧ ts_durable st' = ts_durable st.
Proof using. unfold verifyLaunchParameterScope. intros Hr. tx_inv; tx_states; done. Qed.

Lemma append_revision_ok identity item del env st a st' :
  appendLaunchParameterRevision identity item del env st = (Ok a, st') →
  ts_durable st' = ts_durable st ∧ ∃ keys at_,
    db_env_revisions (ts_db st) !! (ld_id item, ld_revision item) = None ∧
    ts_db st' = with_env_revisions
      (<[(ld_id item, ld_revision item) := revision_row item keys identity del at_]>
         (db_env_revisions (ts_db st))) (ts_db st).
Proof using.
  unfold appendLaunchParameterRevision. intros Hr. tx_inv. use_ok insert_env_revision_ok. tx_states.
  split; [done|]. eexists _, _. split; [done|]. done.
Qed.

Lemma append_audit_ok identity action env_id env st a st' :
  appendEnvironmentAudit identity action env_id env st = (Ok a, st') →
  ts_durable st' = ts_durable st ∧ ∃ row, db_audit (ts_db st) !! au_id row = None ∧
    ts_db st' = with_audit (<[au_id row := row]> (db_audit (ts_db st))) (ts_db st).
Proof using.
  unfold appendEnvironmentAudit. intros Hr. tx_inv. use_ok insert_audit_ok. tx_states.
  split; [done|]. by eexists.
Qed.

Lemma update_definition_ok id cond f now d d' o :
  update_definition id cond f now d = Ok (d', o) →
  (o = None ∧ d' = d) ∨
  ∃ e item, o = Some item ∧ scanLaunchParameters (f now e) = Ok item ∧ db_envs d !! id = Some e ∧
    cond e = true ∧ ed_id (f now e) = ed_id e ∧ scope_free (f now e) d = true ∧
    d' = with_envs (<[id := f now e]> (db_envs d)) d.
Proof using.
  unfold update_definition. destruct (update_env _ _ _ _) as [[d1 o1]|] eqn:E; [|done].
  apply update_env_ok in E as [[-> ->]|(e & He & Hc & -> & Hid & _ & Hf & ->)].
  - intros [= <- <-]. by left.
  - destruct (scanLaunchParameters _) as [item|] eqn:Es; [|done]. intros [= <- <-]. right.
    by exists e, item.
Qed.

(** The tail every write ends with: the revision row and the audit entry of a definition that
    was just stored. *)
Lemma write_tail identity item del action env_id env st st1 st2 a a' e' :
  appendLaunchParameterRevision identity item del env st = (Ok a, st1) →
  appendEnvironmentAudit identity action env_id env st1 = (Ok a', st2) →
  scanLaunchParameters e' = Ok item → del = ed_deleted e' →
  ts_durable st2 = ts_durable st ∧ ∃ r audit,
    records r e' ∧ db_env_revisions (ts_db st) !! (ed_id e', ed_revision e') = None ∧
    db_audit (ts_db st) !! au_id audit = None ∧
    ts_db st2 = with_audit (<[au_id audit := audit]> (db_audit (ts_db st)))
                  (with_env_revisions (<[(ed_id e', ed_revision e') := r]>
                     (db_env_revisions (ts_db st))) (ts_db st)).
Proof using.
  intros (D1 & keys & at_ & Hn & E1)%append_revision_ok (D2 & row & Ha & E2)%append_audit_ok Hs Hd.
  pose proof (revision_records e' item keys identity del at_ Hs Hd) as Hrec.
  apply scan_definition_ok in Hs as (_ & _ & Hid & Hrev & _). rewrite Hid, Hrev in *.
  rewrite E1 in Ha, E2. simpl in Ha, E2. split; [congruence|]. by eexists _, row.
Qed.

(** The facts about one write: its frame, its effect on the definitions, and no effect on the
    secrets. *)
Definition config_step (d d' : DB) : Prop :=
  config_frame d d' ∧ definition_write d d' ∧ db_secrets d' = db_secrets d ∧
  db_secret_versions d' = db_secret_versions d.

Lemma config_step_same d : config_step d d.
Proof using. split_and!; [done| |done..]. by apply dw_none. Qed.

Lemma CreateLaunchParameters_ok identity req env db item db' :
  run_tx (CreateLaunchParameters identity req) env db = (Ok item, db') → config_step db db'.
Proof using.
  intros (st & Hr & ->)%run_tx_ok. unfold CreateLaunchParameters in Hr. tx_inv.
  use_ok verifyLaunchParameterScope_ok.
  match goal with Hi : insert_definition ?id _ _ ?n ?d = Ok _ |- _ =>
    unfold insert_definition in Hi; destruct (insert_env _ d) as [d1|] eqn:Ei; [|done];
    destruct (scanLaunchParameters _) as [i|] eqn:Es; [|done]; injection Hi as Hd1 Hi; subst i;
    apply insert_env_ok in Ei as (Hnew & Hfree & _ & Hd) end.
  match goal with Ha : appendLaunchParameterRevision _ _ _ _ _ = _,
                  Hb : appendEnvironmentAudit _ _ _ _ _ = _ |- _ =>
    destruct (write_tail _ _ _ _ _ _ _ _ _ _ _ _ Ha Hb Es eq_refl)
      as (Hdur & r & audit & Hrec & Hrev & Haud & Hdb) end.
  tx_states. simpl in *. rewrite <- Hd1 in *. subst d1. simpl in *. rewrite Hdb.
  split_and!; [| |done..].
  - constructor; simpl; first [done | by apply insert_subseteq].
  - eapply (dw_create _ _ (new_env (env_uuid env (ts_uuid st1)) identity req (env_db_now env)) r); eauto.
Qed.
(** An update of an active definition followed by its tail. *)
Lemma advance_ok id cond f identity del action env st st1 st2 st3 item a a' :
  (∀ now e, cond e = true →
     ed_team (f now e) = ed_team e ∧ ed_scope (f now e) = ed_scope e ∧
     ed_task_type (f now e) = ed_task_type e ∧ ed_created_at (f now e) = ed_created_at e ∧
     ed_revision (f now e) = ed_revision e + 1 ∧ ed_deleted e = false ∧
     ed_deleted (f now e) = del) →
  update_definition id cond f (env_db_now env) (ts_db st) = Ok (ts_db st1, Some item) →
  appendLaunchParameterRevision identity item del env st1 = (Ok a, st2) →
  appendEnvironmentAudit identity action id env st2 = (Ok a', st3) →
  ts_durable st3 = ts_durable st1 ∧ config_step (ts_db st) (ts_db st3).
Proof using.
  intros Hf Hu Ha Hb.
  apply update_definition_ok in Hu as [[? _]|(e & i & [= <-] & Hs & He & Hc & Hid & Hfree & Hd)]; [done|].
  destruct (Hf (env_db_now env) e Hc) as (F1 & F2 & F3 & F4 & F5 & F6 & F7).
  destruct (write_tail _ _ _ _ _ _ _ _ _ _ _ _ Ha Hb Hs (eq_sym F7))
    as (Hdur & r & audit & Hrec & Hrev & Haud & Hdb).
  split; [done|]. rewrite Hd in *. simpl in *. rewrite Hdb.
  apply scan_definition_ok in Hs as (Ht & Hsc & _). split_and!; [| |done..].
  - constructor; simpl; first [done | by apply insert_subseteq].
  - rewrite Hid in *. rewrite F1 in Ht. rewrite F2 in Hsc.
    eapply (dw_advance _ _ id e (f (env_db_now env) e) r); eauto.
Qed.

Lemma replaceable_replaced team req now e :
  replaceable team req e = true →
  ed_team (replaced req now e) = ed_team e ∧ ed_scope (replaced req now e) = ed_scope e ∧
  ed_task_type (replaced req now e) = ed_task_type e ∧
  ed_created_at (replaced req now e) = ed_created_at e ∧
  ed_revision (replaced req now e) = ed_revision e + 1 ∧ ed_deleted e = false ∧
  ed_deleted (replaced req now e) = false.
Proof using. unfold replaceable. intros (_ & _ & _ & Hd)%bool_decide_eq_true. by split_and!. Qed.

Lemma deletable_deleted team now e :
  deletable team e = true →
  ed_team (deleted now e) = ed_team e ∧ ed_scope (deleted now e) = ed_scope e ∧
  ed_task_type (deleted now e) = ed_task_type e ∧ ed_created_at (deleted now e) = ed_created_at e ∧
  ed_revision (deleted now e) = ed_revision e + 1 ∧ ed_deleted e = false ∧
  ed_deleted (deleted now e) = true.
Proof using. unfold deletable. intros (_ & _ & Hd)%bool_decide_eq_true. by split_and!. Qed.

Lemma commit_replacement_ok identity id req env db item db' :
  run_tx (commit_replacement identity id req) env db = (Ok item, db') → config_step db db'.
Proof using.
  intros (st & Hr & ->)%run_tx_ok. unfold commit_replacement in Hr. tx_inv.
  use_ok verifyLaunchParameterScope_ok. tx_states.
  match goal with Hu : update_definition _ _ _ _ _ = _, Ha : appendLaunchParameterRevision _ _ _ _ _ = _,
                  Hb : appendEnvironmentAudit _ _ _ _ _ = _ |- _ =>
    pose proof (advance_ok _ _ _ _ _ _ _ (begin_st db) _ _ _ _ _ _
                  (λ now e, replaceable_replaced _ req now e) Hu Ha Hb) as [Hd Hst] end.
  by rewrite ?Hd in *.
Qed.

Lemma DeleteLaunchParameters_ok identity id env db a db' :
  run_tx (DeleteLaunchParameters identity id) env db = (Ok a, db') → config_step db db'.
Proof using.
  intros (st & Hr & ->)%run_tx_ok. unfold DeleteLaunchParameters in Hr. tx_inv. tx_states.
  match goal with Hu : update_definition _ _ _ _ _ = _, Ha : appendLaunchParameterRevision _ _ _ _ _ = _,
                  Hb : appendEnvironmentAudit _ _ _ _ _ = _ |- _ =>
    pose proof (advance_ok _ _ _ _ _ _ _ (begin_st db) _ _ _ _ _ _
                  (λ now e, deletable_deleted _ now e) Hu Ha Hb) as [Hd Hst] end.
  by rewrite ?Hd in *.
Qed.
(** ** Failures *)

Lemma verifyLaunchParameterScope_never_commits team req :
  never_commits (verifyLaunchParameterScope team req).
Proof using. unfold verifyLaunchParameterScope. tx_atomic. Qed.

Lemma append_revision_never_commits identity item del :
  never_commits (appendLaunchParameterRevision identity item del).
Proof using. unfold appendLaunchParameterRevision. tx_atomic. Qed.

Lemma append_audit_never_commits identity action id :
  never_commits (appendEnvironmentAudit identity action id).
Proof using. unfold appendEnvironmentAudit. tx_atomic. Qed.

Lemma listSecretSummaries_never_commits team id : never_commits (listSecretSummaries team id).
Proof using. unfold listSecretSummaries. tx_atomic. Qed.
#[local] Hint Resolve verifyLaunchParameterScope_never_commits append_revision_never_commits
  append_audit_never_commits listSecretSummaries_never_commits : flow.

Lemma CreateLaunchParameters_error_keeps identity req :
  error_keeps (CreateLaunchParameters identity req).
Proof using. unfold CreateLaunchParameters. tx_atomic. Qed.

Lemma commit_replacement_error_keeps identity id req :
  error_keeps (commit_replacement identity id req).
Proof using. unfold commit_replacement. tx_atomic. Qed.

Lemma DeleteLaunchParameters_error_keeps identity id :
  error_keeps (DeleteLaunchParameters identity id).
Proof using. unfold DeleteLaunchParameters. tx_atomic. Qed.

(** Whatever an operation returns, its effect is a step. *)
Lemma CreateLaunchParameters_step identity req env db r db' :
  run_tx (CreateLaunchParameters identity req) env db = (r, db') → config_step db db'.
Proof using.
  intros Hr. apply run_tx_cases in Hr as [->|(env' & a & Hr)];
    [apply config_step_same|by eapply CreateLaunchParameters_ok|apply CreateLaunchParameters_error_keeps].
Qed.

Lemma DeleteLaunchParameters_step identity id env db r db' :
  run_tx (DeleteLaunchParameters identity id) env db = (r, db') → config_step db db'.
Proof using.
  intros Hr. apply run_tx_cases in Hr as [->|(env' & a & Hr)];
    [apply config_step_same|by eapply DeleteLaunchParameters_ok|apply DeleteLaunchParameters_error_keeps].
Qed.

Lemma ReplaceLaunchParameters_step identity id req env db r db' :
  run_tx (ReplaceLaunchParameters identity id req) env db = (r, db') → config_step db db'.
Proof using.
  intros Hr. unfold ReplaceLaunchParameters in Hr.
  apply run_tx_then_reads in Hr as [r' Hr]; [|intros a; tx_atomic].
  apply run_tx_cases in Hr as [->|(env' & a & Hr)];
    [apply config_step_same|by eapply commit_replacement_ok|apply commit_replacement_error_keeps].
Qed.
End launch_parameter_facts.

(** ** The history of the definitions *)

(** Every definition of a team has the complete history of its revisions, the last of which
    records its current state; and a scope has at most one active definition. *)
Record env_history (d : DB) : Prop := mkEnvHistory {
  eh_keyed : ∀ id e, db_envs d !! id = Some e → ed_id e = id;
  eh_owned : ∀ id e, db_envs d !! id = Some e → is_Some (ed_team e) ∧ is_Some (ed_scope e);
  eh_revisions : ∀ id e n, db_envs d !! id = Some e →
    is_Some (db_env_revisions d !! (id, n)) ↔ 1 ≤ n ≤ ed_revision e;
  eh_current : ∀ id e, db_envs d !! id = Some e →
    ∃ r, db_env_revisions d !! (id, ed_revision e) = Some r ∧ records r e;
  eh_known : ∀ id n r, db_env_revisions d !! (id, n) = Some r → is_Some (db_envs d !! id);
  eh_active : ∀ id id' e e', db_envs d !! id = Some e → db_envs d !! id' = Some e' →
    active_conflict e e' = true → id = id';
}.

Lemma empty_env_history : env_history empty_db.
Proof. constructor; intros; simplify_map_eq. Qed.

Lemma active_conflict_sym a b : active_conflict a b = active_conflict b a.
Proof.
  unfold active_conflict. destruct (decide (ed_scope a = ed_scope b)) as [E|E].
  - rewrite (bool_decide_eq_true_2 _ E), (bool_decide_eq_true_2 _ (eq_sym E)), <- E.
    rewrite (andb_comm (negb (ed_deleted a))). f_equal. destruct (ed_scope a) as [s|]; [|done].
    f_equal; [f_equal|]; apply bool_decide_ext; naive_solver.
  - rewrite (bool_decide_eq_false_2 _ E), (bool_decide_eq_false_2 (ed_scope b = _)) by congruence.
    by rewrite !andb_false_r.
Qed.

Lemma scope_free_conflict e d k e' :
  scope_free e d = true → db_envs d !! k = Some e' → active_conflict e e' = true → k = ed_id e.
Proof.
  intros Hf%bool_decide_eq_true Hk Hc. apply (map_Forall_lookup_1 _ _ _ _ Hf) in Hk as [?|?]; congruence.
Qed.

(** The row that replaces the definition with its own identifier. *)
Lemma history_insert d d' e r :
  env_history d → is_Some (ed_team e) → is_Some (ed_scope e) → 1 ≤ ed_revision e →
  (∀ n, is_Some (db_env_revisions d !! (ed_id e, n)) ↔ 1 ≤ n < ed_revision e) →
  scope_free e d = true → records r e →
  db_envs d' = <[ed_id e := e]> (db_envs d) →
  db_env_revisions d' = <[(ed_id e, ed_revision e) := r]> (db_env_revisions d) → env_history d'.
Proof.
  intros Hi Ht Hs Hge Hrev Hf Hrec Ee Er. constructor; rewrite ?Ee, ?Er.
  - intros id x [[<- <-]|[_ Hx]]%lookup_insert_Some; [done|by eapply eh_keyed].
  - intros id x [[_ <-]|[_ Hx]]%lookup_insert_Some; [done|by eapply eh_owned].
  - intros id x n [[<- <-]|[Hne Hx]]%lookup_insert_Some.
    + destruct (decide (n = ed_revision e)) as [-> |Hn].
      * rewrite lookup_insert_eq. split; [lia|eauto].
      * rewrite lookup_insert_ne, Hrev by congruence. lia.
    + rewrite lookup_insert_ne by congruence. by apply eh_revisions.
  - intros id x [[<- <-]|[Hne Hx]]%lookup_insert_Some.
    + exists r. by rewrite lookup_insert_eq.
    + destruct (eh_current _ Hi _ _ Hx) as (r' & Hr' & ?). exists r'.
      by rewrite lookup_insert_ne by congruence.
  - intros id n x [[[= <- <-] _]|[_ Hx]]%lookup_insert_Some.
    + rewrite lookup_insert_eq. eauto.
    + apply (eh_known _ Hi) in Hx. destruct (decide (id = ed_id e)) as [-> |].
      * rewrite lookup_insert_eq. eauto.
      * by rewrite lookup_insert_ne.
  - intros id id' x x' Hx Hx' Hc.
    apply lookup_insert_Some in Hx as [[<- <-]|[Hne Hx]];
      apply lookup_insert_Some in Hx' as [[<- <-]|[Hne' Hx']]; [done| | |by eapply eh_active].
    + by destruct (scope_free_conflict _ _ _ _ Hf Hx' Hc).
    + rewrite active_conflict_sym in Hc. by destruct (scope_free_conflict _ _ _ _ Hf Hx Hc).
Qed.

Lemma write_history d d' : definition_write d d' → env_history d → env_history d'.
Proof.
  intros [Ee Er|e r Hn H1 Hf Ht Hs Hr Hrec Ee Er
         |id e e' r He Hid Ht Hs Hty Hdel Hts Hss Hc Hrev Hf Hnr Hrec Ee Er] Hi.
  - destruct Hi. constructor; rewrite ?Ee, ?Er; done.
  - eapply (history_insert d d' e r); try done; rewrite ?H1; try done.
    intros n. split; [|lia]. intros [x Hx]. apply (eh_known _ Hi) in Hx as [? Hx]. congruence.
  - pose proof (eh_keyed _ Hi _ _ He) as Hk. rewrite <- Hk, <- Hid in Ee. rewrite <- Hid in Er.
    assert (1 ≤ ed_revision e) as Hge.
    { destruct (eh_current _ Hi _ _ He) as (x & Hx & _).
      pose proof (proj1 (eh_revisions _ Hi id e (ed_revision e) He) (mk_is_Some _ _ Hx)). lia. }
    eapply (history_insert d d' e' r); try done; rewrite ?Ht, ?Hs; try done; [lia|].
    intros n. rewrite Hid, Hk, Hrev, (eh_revisions _ Hi id e n He). lia.
Qed.

(** ** On the small registry *)

Section witnesses.
#[local] Existing Instances pg_micros collation_C.

Definition fx_gateway : GatewayIdentity := mkGatewayIdentity "team" "op" "req".
Definition fx_write (value : string) : LaunchParameterWrite :=
  mkWrite LaunchScopeTeam None "params" {["A" := value]} None.

(** The registry with one definition, "p0". *)
Definition fx_params : DB :=
  (run_tx (CreateLaunchParameters fx_gateway (fx_write "old")) (fx_env_named "p" 2000) fx_db).2.

Definition replace_with (env : TxEnv) : option StoreError * option (Z * option string) :=
  let '(r, d) := run_tx (ReplaceLaunchParameters fx_gateway "p0" (fx_write "new")) env fx_params in
  (match r with Ok _ => None | Err e => Some e end,
   (λ e, (ed_revision e, ed_values e !! "A")) <$> db_envs d !! "p0").

(** A replacement that reports an error may have taken effect: the summaries of the secrets
    are read after the commit, and when that read fails the caller gets an error although the
    new revision is stored; a failure of any earlier statement leaves the old one. *)
Theorem ReplaceLaunchParameters_late_error :
  replace_with (mkTxEnv 3000 3000 (λ _, "audit") (λ n, bool_decide (n = 6%nat)) None false (λ _, None))
  = (Some (ErrWrap "list environment secret summaries" SqlFault), Some (2, Some "new")) ∧
  (∀ k, (k < 6)%nat →
     (replace_with (mkTxEnv 3000 3000 (λ _, "audit") (λ n, bool_decide (n = k)) None false (λ _, None))).2
     = Some (1, Some "old")) ∧
  replace_with (mkTxEnv 3000 3000 (λ _, "audit") (λ _, false) None false (λ _, None)) = (None, Some (2, Some "new")).
Proof.
  split; [vm_compute; reflexivity|]. split; [|vm_compute; reflexivity].
  intros k Hk. do 6 (destruct k as [|k]; [vm_compute; reflexivity|]). lia.
Qed.

(** A scope holds one active definition; creating a second one is a conflict. *)
Example CreateLaunchParameters_conflict :
  run_tx (CreateLaunchParameters fx_gateway (fx_write "again")) (fx_env_named "q" 4000) fx_params
  = (Err ErrLaunchParameterConflict, fx_params).
Proof. vm_compute. reflexivity. Qed.
End witnesses.
