(* ===== verification/Secrets.v ===== *)
(** * Secrets (store/secrets.go)

    Operators attach secrets to launch parameter definitions. Every value is sealed under the
    store's AES-256-GCM key, bound to its team, secret and version, and stored as an append
    only version; every write also advances the revision of the definition. *)

From stdpp Require Import base gmap strings list sorting pretty.
From Stdlib Require Import Ascii.
From S2P Require Import Prelude Paging Platform Tx Schema Store Launch LaunchTables GoStrings.
From S2P Require Import ScopeToken Fixtures LaunchParams.
#[local] Open Scope Z_scope.

(** ** Encryption *)

(** aes.NewCipher accepts three key lengths. *)
Definition aes_key_ok (key : string) : bool :=
  let n := String.length key in ((n =? 16) || (n =? 24) || (n =? 32))%nat.

(** fmt.Sprintf of team, secret and version, separated by NUL. *)
Definition secret_aad (team secret : string) (version : Z) : string :=
  team +:+ String zero (secret +:+ String zero (pretty version)).

Definition localKeyID : string := "local-aes-v1".

(** ** Wire types (platform/secret.go) *)

Record SecretCreateRequest : Type := mkSecretCreate { qsc_name : string; qsc_value : string }.

Record LogicalSecret : Type := mkLogicalSecret {
  lg_id : string; lg_team : string; lg_env : string; lg_name : string; lg_latest_version : Z;
  lg_revoked : bool; lg_created_at : Z; lg_updated_at : Z }.

Record SecretVersion : Type := mkVersion {
  vs_secret : string; vs_team : string; vs_version : Z; vs_key_id : string; vs_key_version : Z;
  vs_created_at : Z }.

Definition SecretWriteResponse : Type := LogicalSecret * SecretVersion.

(** Scanning into Go values: NULL teams and versions do not scan. *)
Definition scan_secret (s : SecretRow) : result sql_error LogicalSecret :=
  match se_team s, se_latest_version s with
  | Some team, Some v =>
      Ok (mkLogicalSecret (se_id s) team (se_env s) (se_name s) v (se_revoked s)
            (se_created_at s) (se_updated_at s))
  | _, _ => Err SqlScan
  end.

Definition scan_version (kv : (string * Z) * SecretVersionRow) : result sql_error SecretVersion :=
  let '((secret, n), v) := kv in
  match sv_team v with
  | Some team =>
      Ok (mkVersion secret team n (sv_key_id v) (sv_key_version v) (sv_created_at v))
  | None => Err SqlScan
  end.

Section secrets.
Context `{Collation, PgTime, Aead}.
Context (cfg : StoreConfig).

(** ** Shared steps *)

Definition encryptSecret (team secret : string) (version : Z) (plaintext : string) :
    TxS (string * string * string) :=
  if negb (aes_key_ok (sc_aes_key cfg)) then throw (ErrText "initialize AES cipher")
  else
    nonce <- fresh_nonce (ErrText "generate AES-GCM nonce") ;;
    let '(ciphertext, tag) :=
      gcm_seal (sc_aes_key cfg) nonce (secret_aad team secret version) plaintext in
    ret (ciphertext, nonce, tag).

Definition version_row (team ciphertext nonce tag : string) (now : Z) : SecretVersionRow :=
  mkSecretVersion (Some team) ciphertext nonce tag localKeyID 1 (pg_ts now).

Definition insertSecretVersion (team secret : string) (version : Z) (ciphertext nonce tag : string) :
    TxS SecretVersion :=
  exec_returning (ErrWrap "insert secret version")
    (λ now d, match insert_secret_version secret version (version_row team ciphertext nonce tag now) d,
                    scan_version ((secret, version), version_row team ciphertext nonce tag now) with
              | Ok d', Ok v => Ok (d', v)
              | Err e, _ | _, Err e => Err e
              end).

(** WHERE team_id, environment_id AND scope_kind IN ('team', 'task_type') AND deleted = false. *)
Definition holds_secrets (team : string) (e : EnvDefRow) : bool :=
  bool_decide (ed_team e = Some team ∧
               (ed_scope e = Some LaunchScopeTeam ∨ ed_scope e = Some LaunchScopeTaskType) ∧
               ed_deleted e = false).

Definition secret_env_exists (team env : string) (d : DB) : bool :=
  match db_envs d !! env with Some e => holds_secrets team e | None => false end.

Definition verifyLaunchDefinitionForSecret (team env : string) : TxS () :=
  found <- query (ErrWrap "verify launch parameter definition for secret")
             (secret_env_exists team env) ;;
  if negb found then throw ErrEnvironmentUnavailable else ret ().

Definition appendSecretAudit (identity : GatewayIdentity) (action secret : string) : TxS () :=
  id <- fresh_uuid ;;
  exec (ErrWrap "append secret audit")
    (λ now, insert_audit (gateway_audit id identity action "secret" secret (pg_ts now))).

(** The definition with its revision advanced. *)
Definition bumped (now : Z) (e : EnvDefRow) : EnvDefRow :=
  mkEnvDef (ed_id e) (ed_team e) (ed_scope e) (ed_task_type e) (ed_name e) (ed_values e)
    (ed_image e) (ed_revision e + 1) (ed_deleted e) (ed_created_at e) (pg_ts now).

Definition appendSecretDefinitionRevision (identity : GatewayIdentity) (env : string) : TxS () :=
  updated <- exec_returning (ErrWrap "advance launch parameter revision for secret")
               (update_definition env (holds_secrets (gi_team identity)) bumped) ;;
  match updated with
  | None => throw ErrEnvironmentUnavailable
  | Some item => appendLaunchParameterRevision identity item false
  end.

(** ** CreateSecret *)

Definition new_secret (id team env name : string) (now : Z) : SecretRow :=
  mkSecret id (Some team) env name false (Some 1) (pg_ts now) (pg_ts now).

Definition insert_logical_secret (id team env name : string) (now : Z) (d : DB) :
    result sql_error (DB * LogicalSecret) :=
  match insert_secret (new_secret id team env name now) d,
        scan_secret (new_secret id team env name now) with
  | Ok d', Ok s => Ok (d', s)
  | Err e, _ | _, Err e => Err e
  end.

Definition CreateSecret (identity : GatewayIdentity) (env : string) (req : SecretCreateRequest) :
    TxS SecretWriteResponse :=
  if negb (String.length (sc_aes_key cfg) =? 32)%nat then throw (ErrText "AES-256-GCM key unavailable")
  else
    begin_tx (ErrWrap "begin secret create") ;;;
    verifyLaunchDefinitionForSecret (gi_team identity) env ;;;
    id <- fresh_uuid ;;
    sealed <- encryptSecret (gi_team identity) id 1 (qsc_value req) ;;
    let '(ciphertext, nonce, tag) := sealed in
    secret <- exec_returning (ErrWrap "insert logical secret")
                (insert_logical_secret id (gi_team identity) env (qsc_name req)) ;;
    version <- insertSecretVersion (gi_team identity) id 1 ciphertext nonce tag ;;
    appendSecretDefinitionRevision identity env ;;;
    appendSecretAudit identity "secret.create" id ;;;
    commit (ErrWrap "commit secret create") ;;;
    ret (secret, version).

(** ** ReplaceSecret *)

Definition secret_at (team env id : string) (d : DB) : option SecretRow :=
  match db_secrets d !! id with
  | Some s => if bool_decide (se_team s = Some team ∧ se_env s = env) then Some s else None
  | None => None
  end.

(** The scanned row a SELECT on a secret gives, if any. *)
Definition read_secret (p : SecretRow → bool) (team env id : string) (d : DB) :
    result sql_error (option LogicalSecret) :=
  match secret_at team env id d with
  | Some s => if p s then match scan_secret s with Ok l => Ok (Some l) | Err e => Err e end else Ok None
  | None => Ok None
  end.

Definition advanced_secret (version now : Z) (s : SecretRow) : SecretRow :=
  mkSecret (se_id s) (se_team s) (se_env s) (se_name s) (se_revoked s) (Some version)
    (se_created_at s) (pg_ts now).

(** UPDATE secrets ... RETURNING updated_at: no row does not scan. *)
Definition advance_secret (team id : string) (version now : Z) (d : DB) : result sql_error (DB * Z) :=
  match update_secret id (λ s, bool_decide (se_team s = Some team)) (advanced_secret version now) d with
  | Ok (d', Some s) => Ok (d', se_updated_at s)
  | Ok (_, None) => Err SqlScan
  | Err e => Err e
  end.

Definition at_version (version updated : Z) (s : LogicalSecret) : LogicalSecret :=
  mkLogicalSecret (lg_id s) (lg_team s) (lg_env s) (lg_name s) version (lg_revoked s)
    (lg_created_at s) updated.

Definition ReplaceSecret (identity : GatewayIdentity) (env id value : string) :
    TxS SecretWriteResponse :=
  if negb (String.length (sc_aes_key cfg) =? 32)%nat then throw (ErrText "AES-256-GCM key unavailable")
  else
    begin_tx (ErrWrap "begin secret replace") ;;;
    verifyLaunchDefinitionForSecret (gi_team identity) env ;;;
    found <- query_scan (ErrWrap "lock logical secret")
               (read_secret (λ s, negb (se_revoked s)) (gi_team identity) env id) ;;
    match found with
    | None => throw ErrEnvironmentUnavailable
    | Some secret =>
        let next := lg_latest_version secret + 1 in
        sealed <- encryptSecret (gi_team identity) id next value ;;
        let '(ciphertext, nonce, tag) := sealed in
        version <- insertSecretVersion (gi_team identity) id next ciphertext nonce tag ;;
        updated <- exec_returning (ErrWrap "advance logical secret version")
                     (advance_secret (gi_team identity) id next) ;;
        appendSecretDefinitionRevision identity env ;;;
        appendSecretAudit identity "secret.replace" id ;;;
        commit (ErrWrap "commit secret replace") ;;;
        ret (at_version next updated secret, version)
    end.

(** ** RevokeSecret *)

Definition revoked_secret (now : Z) (s : SecretRow) : SecretRow :=
  mkSecret (se_id s) (se_team s) (se_env s) (se_name s) true (se_latest_version s)
    (se_created_at s) (pg_ts now).

Definition revoke_row (team env id : string) (now : Z) (d : DB) : result sql_error DB :=
  match update_secret id (λ s, bool_decide (se_team s = Some team ∧ se_env s = env))
          (revoked_secret now) d with
  | Ok (d', _) => Ok d'
  | Err e => Err e
  end.

Definition as_revoked (updated : Z) (s : LogicalSecret) : LogicalSecret :=
  mkLogicalSecret (lg_id s) (lg_team s) (lg_env s) (lg_name s) (lg_latest_version s) true
    (lg_created_at s) updated.

Definition RevokeSecret (identity : GatewayIdentity) (env id : string) : TxS LogicalSecret :=
  begin_tx (ErrWrap "begin secret revoke") ;;;
  verifyLaunchDefinitionForSecret (gi_team identity) env ;;;
  found <- query_scan (ErrWrap "lock logical secret for revoke")
             (read_secret (λ _, true) (gi_team identity) env id) ;;
  match found with
  | None => throw ErrEnvironmentUnavailable
  | Some secret =>
      if lg_revoked secret then
        commit (ErrWrap "commit secret revoke") ;;; ret secret
      else
        exec (ErrWrap "revoke logical secret") (revoke_row (gi_team identity) env id) ;;;
        clock <- now ;;
        appendSecretDefinitionRevision identity env ;;;
        appendSecretAudit identity "secret.revoke" id ;;;
        commit (ErrWrap "commit secret revoke") ;;;
        ret (as_revoked clock secret)
  end.

(** ** Reads *)

Definition GetSecret (team env id : string) : TxS LogicalSecret :=
  _ <- GetLaunchParameters team env ;;
  found <- query_scan (ErrWrap "get logical secret") (read_secret (λ _, true) team env id) ;;
  match found with Some s => ret s | None => throw ErrEnvironmentUnavailable end.

Definition secret_key (s : SecretRow) : Z * string := (se_created_at s, se_id s).

Definition env_secrets (team env : string) (d : DB) : list SecretRow :=
  filter (λ s, se_team s = Some team ∧ se_env s = env) (rows (db_secrets d)).

Definition ListSecretsPaged (team env : string) (limit : Z) (after : option (Z * string)) :
    TxS (list LogicalSecret * option (Z * string)) :=
  if limit <? 1 then throw (ErrText "ListSecretsPaged: limit must be >= 1")
  else
    begin_tx (ErrWrap "begin secret list") ;;;
    verifyLaunchDefinitionForSecret team env ;;;
    page <- query_scan (ErrWrap "list logical secrets")
              (λ d, scan_all scan_secret
                      (keyset_fetch pair_le secret_key (Z.to_nat limit) after (env_secrets team env d))) ;;
    commit (ErrWrap "commit secret list") ;;;
    let '(items, last) := page_of (Z.to_nat limit) page in
    ret (items, (λ s, (lg_created_at s, lg_id s)) <$> last).

Definition ListSecrets (team env : string) (limit : Z) : TxS (list LogicalSecret) :=
  r <- ListSecretsPaged team env limit None ;; ret r.1.

(** The order (version, secret_id), within one secret. *)
Definition version_key (kv : (string * Z) * SecretVersionRow) : Z * string := (kv.1.2, kv.1.1).

Definition versions_of (team id : string) (d : DB) : list ((string * Z) * SecretVersionRow) :=
  filter (λ kv, sv_team kv.2 = Some team ∧ kv.1.1 = id) (map_to_list (db_secret_versions d)).

Definition ListSecretVersionsPaged (team env id : string) (limit : Z) (after : option (Z * string)) :
    TxS (list SecretVersion * option (Z * string)) :=
  if limit <? 1 then throw (ErrText "ListSecretVersionsPaged: limit must be >= 1")
  else
    begin_tx (ErrWrap "begin secret version list") ;;;
    verifyLaunchDefinitionForSecret team env ;;;
    probe <- query (ErrWrap "verify secret for version list") (secret_at team env id) ;;
    match probe with
    | None => throw ErrEnvironmentUnavailable
    | Some _ =>
        page <- query_scan (ErrWrap "list secret versions")
                  (λ d, scan_all scan_version
                          (keyset_fetch pair_le version_key (Z.to_nat limit) after
                             (versions_of team id d))) ;;
        commit (ErrWrap "commit secret version list") ;;;
        let '(items, last) := page_of (Z.to_nat limit) page in
        ret (items, (λ v, (vs_version v, vs_secret v)) <$> last)
    end.

Definition ListSecretVersions (team env id : string) (limit : Z) : TxS (list SecretVersion) :=
  r <- ListSecretVersionsPaged team env id limit None ;; ret r.1.

Definition GetSecretVersion (team env id : string) (n : Z) : TxS SecretVersion :=
  _ <- GetSecret team env id ;;
  found <- query_scan (ErrWrap "get secret version")
             (λ d, match db_secret_versions d !! (id, n) with
                   | Some v =>
                       if bool_decide (sv_team v = Some team)
                       then match scan_version ((id, n), v) with Ok x => Ok (Some x) | Err e => Err e end
                       else Ok None
                   | None => Ok None
                   end) ;;
  match found with Some v => ret v | None => throw ErrEnvironmentUnavailable end.
End secrets.

(** ** What the writes do *)

(** A stored version that seals a value under the key, bound to its team, secret and version. *)
Definition seals `{Aead} (key : string) (id : string) (n : Z) (row : SecretVersionRow)
    (value : string) : Prop :=
  ∃ team, sv_team row = Some team ∧
    gcm_open key (sv_nonce row) (secret_aad team id n) (sv_ciphertext row) (sv_tag row) = Some value.

(** The effect of an operation on the secrets. *)
Inductive secret_write `{PgTime, Aead} (key : string) (d d' : DB) : Prop :=
| sw_none :
    db_secrets d' = db_secrets d → db_secret_versions d' = db_secret_versions d →
    secret_write key d d'
| sw_create s row value :
    db_secrets d !! se_id s = None → db_secret_versions d !! (se_id s, 1) = None →
    is_Some (se_team s) → sv_team row = se_team s → se_latest_version s = Some 1 →
    se_revoked s = false → seals key (se_id s) 1 row value →
    db_secrets d' = <[se_id s := s]> (db_secrets d) →
    db_secret_versions d' = <[(se_id s, 1) := row]> (db_secret_versions d) → secret_write key d d'
| sw_replace id s s' v row value :
    db_secrets d !! id = Some s → se_latest_version s = Some v → se_revoked s = false →
    se_id s' = se_id s → se_team s' = se_team s → se_env s' = se_env s → se_name s' = se_name s →
    se_revoked s' = false → se_latest_version s' = Some (v + 1) →
    db_secret_versions d !! (id, v + 1) = None → sv_team row = se_team s →
    seals key id (v + 1) row value →
    db_secrets d' = <[id := s']> (db_secrets d) →
    db_secret_versions d' = <[(id, v + 1) := row]> (db_secret_versions d) → secret_write key d d'
| sw_revoke id s at_ :
    db_secrets d !! id = Some s → se_revoked s = false →
    db_secrets d' = <[id := revoked_secret at_ s]> (db_secrets d) →
    db_secret_versions d' = db_secret_versions d → secret_write key d d'.

Section secret_facts.
Context `{Collation, PgTime, Aead}.
Context (cfg : StoreConfig).

Lemma encryptSecret_ok team secret n value env st r st' :
  encryptSecret cfg team secret n value env st = (Ok r, st') →
  ts_db st' = ts_db st ∧ ts_durable st' = ts_durable st ∧
  gcm_open (sc_aes_key cfg) r.1.2 (secret_aad team secret n) r.1.1 r.2 = Some value.
Proof using.
  unfold encryptSecret. intros Hr. tx_inv. split; [done|]. split; [done|]. simpl.
  match goal with E : gcm_seal ?k ?n ?a ?p = _ |- _ =>
    pose proof (gcm_open_seal k n a p) as Ho; by rewrite E in Ho end.
Qed.

Lemma verifyLaunchDefinition_ok team id env st a st' :
  verifyLaunchDefinitionForSecret team id env st = (Ok a, st') →
  ts_db st' = ts_db st ∧ ts_durable st' = ts_durable st ∧ secret_env_exists team id (ts_db st) = true.
Proof using.
  unfold verifyLaunchDefinitionForSecret. intros Hr. tx_inv. tx_states.
  match goal with Hn : negb _ = false |- _ => apply negb_false_iff in Hn end. done.
Qed.

Lemma insertSecretVersion_ok team id n ct nonce tag env st v st' :
  insertSecretVersion team id n ct nonce tag env st = (Ok v, st') →
  ts_durable st' = ts_durable st ∧ db_secret_versions (ts_db st) !! (id, n) = None ∧
  vs_version v = n ∧ vs_secret v = id ∧
  ts_db st' = with_secret_versions
    (<[(id, n) := version_row team ct nonce tag (env_db_now env)]> (db_secret_versions (ts_db st)))
    (ts_db st).
Proof using.
  unfold insertSecretVersion. intros Hr. tx_inv.
  destruct (insert_secret_version _ _ _ _) as [d1|] eqn:E; [|done]. simplify_eq/=.
  apply insert_secret_version_ok in E as (Hn & _ & E). by rewrite E.
Qed.

(** The tail of every write: the definition advances and the change is audited. *)
Lemma secret_tail identity id action secret env st st1 st2 a a' :
  appendSecretDefinitionRevision identity id env st = (Ok a, st1) →
  appendSecretAudit identity action secret env st1 = (Ok a', st2) →
  ts_durable st2 = ts_durable st ∧ config_step (ts_db st) (ts_db st2).
Proof using.
  unfold appendSecretDefinitionRevision, appendSecretAudit. intros Ha Hb. tx_inv.
  match goal with Hu : update_definition _ _ _ _ _ = _ |- _ =>
    apply update_definition_ok in Hu as [[? _]|(e & i & Hi & Hs & He & Hc & Hid & Hfree & Hd)]; [done|] end.
  simplify_eq.
  match goal with Hr : appendLaunchParameterRevision _ _ _ _ _ = _ |- _ =>
    apply append_revision_ok in Hr as (Hdur & keys & at_ & Hrev & Hdb) end.
  match goal with Hi : insert_audit _ _ = _ |- _ => apply insert_audit_ok in Hi as (Hna & _ & Hd3) end.
  unfold holds_secrets in Hc. apply bool_decide_eq_true in Hc as (Ht & Hsc & Hdel).
  pose proof (revision_records _ _ keys identity false at_ Hs (eq_sym Hdel)) as Hrec.
  apply scan_definition_ok in Hs as (_ & _ & Hid' & Hrev' & _). rewrite Hid', Hrev' in *.
  tx_states. rewrite Hdb, Hd in *. simpl in *. rewrite Hd3. unfold config_step. split_and!; [done| | |done..].
  - constructor; simpl; first [done | by apply insert_subseteq].
  - eapply (dw_advance _ _ id e (bumped (env_db_now env) e)); simpl; eauto.
    destruct Hsc as [-> | ->]; eauto.
Qed.
(** One write: the frame and the effects on definitions and secrets. *)
Definition secret_step (d d' : DB) : Prop :=
  config_frame d d' ∧ definition_write d d' ∧ secret_write (sc_aes_key cfg) d d'.

Lemma secret_step_same d : secret_step d d.
Proof using. split_and!; [done|by apply dw_none|by apply sw_none]. Qed.

Lemma secret_step_intro d d' :
  config_frame d d' ∧ definition_write d d' → secret_write (sc_aes_key cfg) d d' → secret_step d d'.
Proof using. by intros [? ?] ?. Qed.

Lemma config_step_secret d d' : config_step d d' → secret_step d d'.
Proof using. intros (? & ? & ? & ?). split_and!; [done..|]. by apply sw_none. Qed.

(** Changing the two secret tables before the tail. *)
Lemma config_step_secrets d d1 d2 ms mv :
  d1 = with_secret_versions mv (with_secrets ms d) → db_secret_versions d ⊆ mv →
  config_step d1 d2 → config_frame d d2 ∧ definition_write d d2.
Proof using.
  intros -> Hsub (Hf & Hw & _). split.
  - destruct Hf. constructor; simpl in *; try done. by etrans.
  - destruct Hw; [by apply dw_none|by eapply dw_create|by eapply dw_advance].
Qed.

Lemma read_secret_ok p team env id d l :
  read_secret p team env id d = Ok (Some l) →
  ∃ s, db_secrets d !! id = Some s ∧ p s = true ∧ se_team s = Some team ∧ se_env s = env ∧
    scan_secret s = Ok l ∧ se_latest_version s = Some (lg_latest_version l) ∧
    lg_revoked l = se_revoked s.
Proof using.
  unfold read_secret, secret_at. destruct (db_secrets d !! id) as [s|]; [|done].
  case_bool_decide as Hb; [|done]. destruct Hb as [Ht He]. destruct (p s) eqn:Hp; [|done].
  destruct (scan_secret s) as [l'|] eqn:Es; [|done]. intros [= <-]. exists s. split_and!; try done.
  - unfold scan_secret in Es. destruct (se_team s), (se_latest_version s); simplify_eq/=. done.
  - unfold scan_secret in Es. destruct (se_team s), (se_latest_version s); simplify_eq/=. done.
Qed.

Lemma CreateSecret_ok identity id req env db r db' :
  run_tx (CreateSecret cfg identity id req) env db = (Ok r, db') →
  secret_step db db' ∧ ∃ row, db_secret_versions db' !! (lg_id r.1, 1) = Some row ∧
    sv_team row = Some (gi_team identity) ∧
    seals (sc_aes_key cfg) (lg_id r.1) 1 row (qsc_value req).
Proof using.
  intros (st & Hr & ->)%run_tx_ok. unfold CreateSecret in Hr. tx_inv.
  use_ok verifyLaunchDefinition_ok. use_ok encryptSecret_ok. use_ok insertSecretVersion_ok.
  match goal with Hi : insert_logical_secret ?i ?t ?e ?n ?w ?d = Ok _ |- _ =>
    unfold insert_logical_secret in Hi; destruct (insert_secret _ d) as [d1|] eqn:Ei; [|done];
    simpl in Hi; injection Hi as Hd1 Hl; apply insert_secret_ok in Ei as (Hnew & _ & Hd) end.
  match goal with Ha : appendSecretDefinitionRevision _ _ _ _ = _, Hb : appendSecretAudit _ _ _ _ _ = _ |- _ =>
    destruct (secret_tail _ _ _ _ _ _ _ _ _ _ Ha Hb) as (Hdur & Hstep); pose proof (proj2 (proj2 Hstep)) as [Es Ev] end.
  subst d1. tx_states. simpl in *. rewrite <- Hd1 in *. simpl in *.
  match goal with Hv : ts_db _ = with_secret_versions (<[_ := ?row]> _) _,
                  Ho : gcm_open _ _ _ _ _ = Some _ |- _ =>
    rewrite Hv in *; simpl in *; set (v := row) in *;
    assert (seals (sc_aes_key cfg) (lg_id a3) 1 v (qsc_value req)) as Hseal
      by (exists (gi_team identity); split; [done|]; subst a3; exact Ho) end.
  split; [apply secret_step_intro|].
  - eapply config_step_secrets; [reflexivity| |exact Hstep]. by apply insert_subseteq.
  - subst a3. eapply (sw_create _ _ _ (new_secret _ (gi_team identity) id (qsc_name req) _) v);
      simpl; eauto.
  - exists v. rewrite Ev. subst a3. simpl in *. split; [apply lookup_insert_eq|]. done.
Qed.

Lemma advance_secret_ok team id n now d d' t s :
  db_secrets d !! id = Some s → advance_secret team id n now d = Ok (d', t) →
  d' = with_secrets (<[id := advanced_secret n now s]> (db_secrets d)) d.
Proof using.
  unfold advance_secret. intros Hs. destruct (update_secret _ _ _ _) as [[d1 [s'|]]|] eqn:E; try done.
  intros [= <- _]. apply update_secret_ok in E as [(? & _ & _)|(x & Hx & _ & _ & ->)]; [done|].
  by simplify_eq.
Qed.

Lemma ReplaceSecret_ok identity env_id id value env db r db' :
  run_tx (ReplaceSecret cfg identity env_id id value) env db = (Ok r, db') →
  secret_step db db' ∧ ∃ s v row, db_secrets db !! id = Some s ∧ se_revoked s = false ∧
    se_latest_version s = Some v ∧ vs_version r.2 = v + 1 ∧
    db_secret_versions db !! (id, v + 1) = None ∧
    db_secret_versions db' = <[(id, v + 1) := row]> (db_secret_versions db) ∧
    seals (sc_aes_key cfg) id (v + 1) row value.
Proof using.
  intros (st & Hr & ->)%run_tx_ok. unfold ReplaceSecret in Hr. tx_inv.
  use_ok verifyLaunchDefinition_ok. use_ok encryptSecret_ok. use_ok insertSecretVersion_ok.
  match goal with Hf : read_secret _ _ _ _ _ = Ok (Some ?l) |- _ =>
    apply read_secret_ok in Hf as (sec & Hs & Hnr & Hteam & Henv & _ & Hlat & _) end.
  match goal with Ha : appendSecretDefinitionRevision _ _ _ _ = _, Hb : appendSecretAudit _ _ _ _ _ = _ |- _ =>
    destruct (secret_tail _ _ _ _ _ _ _ _ _ _ Ha Hb) as (Hdur & Hstep); pose proof (proj2 (proj2 Hstep)) as [Es Ev] end.
  apply negb_true_iff in Hnr. tx_states. simpl in *.
  match goal with Hv : ts_db _ = with_secret_versions (<[_ := ?row]> _) _,
                  Ho : gcm_open _ _ _ _ _ = Some _, Hu : advance_secret _ _ _ _ _ = _ |- _ =>
    rewrite Hv in *; simpl in *; eapply advance_secret_ok in Hu; [|exact Hs];
    rewrite Hu in *; simpl in *; set (v := row) in *;
    assert (seals (sc_aes_key cfg) id (lg_latest_version l + 1) v value) as Hseal
      by (exists (gi_team identity); split; [done|]; exact Ho) end.
  split; [apply secret_step_intro|].
  - eapply config_step_secrets; [| |exact Hstep]; [reflexivity|]. by apply insert_subseteq.
  - eapply (sw_replace _ _ _ id sec (advanced_secret (lg_latest_version l + 1) _ sec)
              (lg_latest_version l) v value); simpl; eauto.
  - exists sec, (lg_latest_version l), v. by split_and!.
Qed.

Lemma RevokeSecret_ok identity env_id id env db l db' :
  run_tx (RevokeSecret identity env_id id) env db = (Ok l, db') →
  lg_revoked l = true ∧ secret_step db db' ∧
  ∃ s, db_secrets db !! id = Some s ∧ se_team s = Some (gi_team identity) ∧ se_env s = env_id ∧
    ((se_revoked s = true ∧ db' = db) ∨
     (se_revoked s = false ∧ ∃ at_, db_secrets db' = <[id := revoked_secret at_ s]> (db_secrets db))).
Proof using.
  intros (st & Hr & ->)%run_tx_ok. unfold RevokeSecret in Hr. tx_inv;
    use_ok verifyLaunchDefinition_ok;
    match goal with Hf : read_secret _ _ _ _ _ = Ok (Some ?l) |- _ =>
      apply read_secret_ok in Hf as (s & Hs & _ & Hteam & Henv & _ & _ & Hrev) end.
  - tx_states. split; [done|]. split; [apply secret_step_same|]. exists s.
    split_and!; try done. left. split; [congruence|done].
  - match goal with Ha : appendSecretDefinitionRevision _ _ _ _ = _, Hb : appendSecretAudit _ _ _ _ _ = _ |- _ =>
      destruct (secret_tail _ _ _ _ _ _ _ _ _ _ Ha Hb) as (Hdur & Hstep); pose proof (proj2 (proj2 Hstep)) as [Es Ev] end.
    match goal with Hu : revoke_row _ _ _ _ _ = Ok _ |- _ =>
      unfold revoke_row in Hu; destruct (update_secret _ _ _ _) as [[d1 o]|] eqn:Eu; [|done];
      injection Hu as Hd1 end.
    tx_states. simpl in *.
    apply update_secret_ok in Eu as [(_ & _ & Hno)|(x & Hx & _ & _ & Hd)].
    { exfalso. specialize (Hno _ Hs). apply bool_decide_eq_false in Hno. by apply Hno. }
    assert (x = s) as -> by congruence. rewrite Hd in Hd1. rewrite <- Hd1 in *. simpl in *.
    assert (se_revoked s = false) as Hnr by congruence.
    split; [done|]. split; [apply secret_step_intro|].
    + by eapply (config_step_secrets _ _ _ _ (db_secret_versions db)); [| |exact Hstep].
    + by eapply sw_revoke.
    + exists s. split_and!; try done. right. eauto.
Qed.
End secret_facts.

(** ** Failures *)

Section secret_failures.
Context `{Collation, PgTime, Aead}.
Context (cfg : StoreConfig).

Lemma encryptSecret_never_commits team id n value : never_commits (encryptSecret cfg team id n value).
Proof using. unfold encryptSecret. tx_atomic. Qed.

Lemma insertSecretVersion_never_commits team id n c x t :
  never_commits (insertSecretVersion team id n c x t).
Proof using. unfold insertSecretVersion. tx_atomic. Qed.

Lemma verifyLaunchDefinition_never_commits team env :
  never_commits (verifyLaunchDefinitionForSecret team env).
Proof using. unfold verifyLaunchDefinitionForSecret. tx_atomic. Qed.

Lemma appendSecretAudit_never_commits identity action id :
  never_commits (appendSecretAudit identity action id).
Proof using. unfold appendSecretAudit. tx_atomic. Qed.

Lemma appendSecretDefinitionRevision_never_commits identity env :
  never_commits (appendSecretDefinitionRevision identity env).
Proof using.
  unfold appendSecretDefinitionRevision. pose proof append_revision_never_commits. tx_atomic.
Qed.
#[local] Hint Resolve encryptSecret_never_commits insertSecretVersion_never_commits
  verifyLaunchDefinition_never_commits appendSecretAudit_never_commits
  appendSecretDefinitionRevision_never_commits : flow.

Lemma CreateSecret_error_keeps identity env req : error_keeps (CreateSecret cfg identity env req).
Proof using. unfold CreateSecret. tx_atomic. Qed.

Lemma ReplaceSecret_error_keeps identity env id value :
  error_keeps (ReplaceSecret cfg identity env id value).
Proof using. unfold ReplaceSecret. tx_atomic. Qed.

Lemma RevokeSecret_error_keeps identity env id : error_keeps (RevokeSecret identity env id).
Proof using. unfold RevokeSecret. tx_atomic. Qed.

Lemma CreateSecret_step identity env_id req env db r db' :
  run_tx (CreateSecret cfg identity env_id req) env db = (r, db') → secret_step cfg db db'.
Proof using.
  intros Hr. apply run_tx_cases in Hr as [->|(env' & a & Hr)];
    [apply secret_step_same|by apply CreateSecret_ok in Hr as [? _]|apply CreateSecret_error_keeps].
Qed.

Lemma ReplaceSecret_step identity env_id id value env db r db' :
  run_tx (ReplaceSecret cfg identity env_id id value) env db = (r, db') → secret_step cfg db db'.
Proof using.
  intros Hr. apply run_tx_cases in Hr as [->|(env' & a & Hr)];
    [apply secret_step_same|by apply ReplaceSecret_ok in Hr as [? _]|apply ReplaceSecret_error_keeps].
Qed.

Lemma RevokeSecret_step identity env_id id env db r db' :
  run_tx (RevokeSecret identity env_id id) env db = (r, db') → secret_step cfg db db'.
Proof using.
  intros Hr. apply run_tx_cases in Hr as [->|(env' & a & Hr)];
    [apply secret_step_same|by apply (RevokeSecret_ok cfg) in Hr as (_ & ? & _)|apply RevokeSecret_error_keeps].
Qed.
End secret_failures.

(** ** The history of the secrets *)

(** Every secret has exactly the versions 1 to its latest one, all of its team, and every stored
    version opens under the key of the store. *)
Record secret_history `{Aead} (key : string) (d : DB) : Prop := mkSecretHistory {
  sh_keyed : ∀ id s, db_secrets d !! id = Some s → se_id s = id;
  sh_owned : ∀ id s, db_secrets d !! id = Some s →
    is_Some (se_team s) ∧ ∃ v, se_latest_version s = Some v ∧ 1 ≤ v ∧
      ∀ n, is_Some (db_secret_versions d !! (id, n)) ↔ 1 ≤ n ≤ v;
  sh_known : ∀ id n row, db_secret_versions d !! (id, n) = Some row →
    (∃ s, db_secrets d !! id = Some s ∧ sv_team row = se_team s) ∧ ∃ value, seals key id n row value;
}.

Lemma empty_secret_history `{Aead} key : secret_history key empty_db.
Proof. constructor; intros; simplify_map_eq. Qed.

Lemma secret_history_write `{PgTime, Aead} key d d' :
  secret_write key d d' → secret_history key d → secret_history key d'.
Proof.
  intros [Es Ev|s row value Hn Hnv Ht Hrt Hl Hr Hseal Es Ev
         |id s s' v row value Hs Hl Hr Hid Ht He Hnm Hr' Hl' Hnv Hrt Hseal Es Ev
         |id s at_ Hs Hr Es Ev] Hi.
  - destruct Hi. constructor; rewrite ?Es, ?Ev; done.
  - constructor; rewrite ?Es, ?Ev.
    + intros id x [[<- <-]|[_ Hx]]%lookup_insert_Some; [done|by eapply sh_keyed].
    + intros id x [[<- <-]|[Hne Hx]]%lookup_insert_Some.
      * split; [done|]. exists 1. split; [done|]. split; [lia|]. intros n.
        destruct (decide (n = 1)) as [-> |Hn1]; [rewrite lookup_insert_eq; split; [lia|eauto]|].
        rewrite lookup_insert_ne by congruence. split; [|lia]. intros [r Hx].
        apply (sh_known _ _ Hi) in Hx as [(y & Hy & _) _]. congruence.
      * destruct (sh_owned _ _ Hi _ _ Hx) as (? & v & ? & ? & Hv). split; [done|]. exists v.
        split; [done|]. split; [done|]. intros n. by rewrite lookup_insert_ne by congruence.
    + intros id n x [[[= <- <-] <-]|[Hne Hx]]%lookup_insert_Some.
      * split; [|eauto]. exists s. by rewrite lookup_insert_eq.
      * apply (sh_known _ _ Hi) in Hx as [(y & Hy & Hty) Hv]. split; [|done]. exists y.
        rewrite lookup_insert_ne by congruence. done.
  - pose proof (sh_keyed _ _ Hi _ _ Hs) as Hk. constructor; rewrite ?Es, ?Ev.
    + intros k x [[<- <-]|[_ Hx]]%lookup_insert_Some; [congruence|by eapply sh_keyed].
    + intros k x [[<- <-]|[Hne Hx]]%lookup_insert_Some.
      * destruct (sh_owned _ _ Hi _ _ Hs) as (? & v' & Hv' & Hge & Hvs). simplify_eq.
        split; [by rewrite Ht|]. exists (v + 1). split; [done|]. split; [lia|]. intros n.
        destruct (decide (n = v + 1)) as [-> |Hn1].
        -- rewrite lookup_insert_eq. split; [lia|eauto].
        -- rewrite lookup_insert_ne, Hvs by congruence. lia.
      * destruct (sh_owned _ _ Hi _ _ Hx) as (? & v' & ? & ? & Hv). split; [done|]. exists v'.
        split; [done|]. split; [done|]. intros n. by rewrite lookup_insert_ne by congruence.
    + intros k n x [[[= <- <-] <-]|[Hne Hx]]%lookup_insert_Some.
      * split; [|eauto]. exists s'. rewrite lookup_insert_eq. split; [done|congruence].
      * apply (sh_known _ _ Hi) in Hx as [(y & Hy & Hty) Hv]. split; [|done].
        destruct (decide (k = id)) as [-> |Hk']; [|exists y; by rewrite lookup_insert_ne].
        exists s'. rewrite lookup_insert_eq. simplify_eq. split; [done|congruence].
  - pose proof (sh_keyed _ _ Hi _ _ Hs) as Hk. constructor; rewrite ?Es, ?Ev.
    + intros k x [[<- <-]|[_ Hx]]%lookup_insert_Some; [done|by eapply sh_keyed].
    + intros k x [[<- <-]|[Hne Hx]]%lookup_insert_Some; [|by eapply sh_owned].
      destruct (sh_owned _ _ Hi _ _ Hs) as (? & v' & Hv' & Hvs). by eauto.
    + intros k n x Hx. apply (sh_known _ _ Hi) in Hx as [(y & Hy & Hty) Hv]. split; [|done].
      destruct (decide (k = id)) as [-> |Hk']; [|exists y; by rewrite lookup_insert_ne].
      eexists. rewrite lookup_insert_eq. split; [done|]. simpl. congruence.
Qed.

(** ** On the small registry *)

Section witnesses.
#[local] Existing Instances pg_micros collation_C toy_aead.

Definition fx_secret (name value : string) : TxS SecretWriteResponse :=
  CreateSecret fx_config fx_gateway "p0" (mkSecretCreate name value).
Definition fx_one_secret : DB := (run_tx (fx_secret "KEY" "first") (fx_env_named "s" 2100) fx_params).2.
Definition fx_two_secrets : DB :=
  (run_tx (fx_secret "KEY" "second") (fx_env_named "u" 2200) fx_one_secret).2.

(** Nothing keeps the names of the active secrets of a definition apart: the second secret of
    the same name is accepted, and which of the two a claim freezes for the key is decided by
    the order in which the database returns equal names. *)
Example CreateSecret_same_name :
  se_name <$> active_secrets "p0" fx_two_secrets = ["KEY"; "KEY"] ∧
  match secret_refs_of "p0" fx_two_secrets with
  | Ok l => ly_refs (add_refs l no_layers) !! "KEY" ≠ ly_refs (add_refs (reverse l) no_layers) !! "KEY"
  | Err _ => False
  end.
Proof. vm_compute. split; [reflexivity|discriminate]. Qed.
End witnesses.
