(* ===== verification/OpenEnv.v ===== *)
(** * Opening an environment (store/scope_tokens.go)

    The Executor of a claimed task exchanges its scope token for the values frozen at the claim:
    the plain values of the snapshot and the decrypted versions of the referenced secrets.
    Whatever is missing or wrong, the answer is the same. *)

From stdpp Require Import base gmap strings list sorting.
From S2P Require Import Prelude Platform Tx Schema Store Launch LaunchTables ScopeToken Fixtures.
From S2P Require Import LaunchParams Secrets.
#[local] Open Scope Z_scope.

(** OpenEnvironmentRequest: the store does not read its environment identifier. *)
Record OpenEnvironmentRequest : Type := mkOpen {
  or_task : string; or_token : string; or_identity : ExecutorIdentity; or_request : string }.

Record OpenEnvironmentResponse : Type := mkOpened {
  oe_team : string; oe_task : string; oe_executor : string; oe_values : gmap string string }.

Section open_environment.
Context `{Collation, PgTime, TimeCodec, TokenCodec, Aead}.
Context (cfg : StoreConfig).

(** A stored version under the key of the store, bound to its COALESCE(team_id, ''). *)
Definition decryptSecret (id : string) (n : Z) (row : SecretVersionRow) : option string :=
  if negb (aes_key_ok (sc_aes_key cfg)) then None
  else gcm_open (sc_aes_key cfg) (sv_nonce row)
         (secret_aad (default "" (sv_team row)) id n) (sv_ciphertext row) (sv_tag row).

(** A secret reference of a task joined with the version it names. *)
Record open_row : Type := mkOpenRow {
  ow_key : string; ow_secret : string; ow_version : Z; ow_row : SecretVersionRow }.

Definition join_version (d : DB) (kr : (string * string) * SecretRefRow) : option open_row :=
  mkOpenRow kr.1.2 (sr_secret kr.2) (sr_version kr.2) <$>
    db_secret_versions d !! (sr_secret kr.2, sr_version kr.2).

Definition key_order (a b : open_row) : Prop := coll_le (ow_key a) (ow_key b).
#[export] Instance key_order_dec : RelDecision key_order.
Proof using. clear -H. intros a b. unfold key_order. apply _. Defined.

Definition open_rows (team task : string) (d : DB) : list open_row :=
  order_by key_order
    (omap (join_version d)
       (filter (λ kr, sr_team kr.2 = team ∧ kr.1.1 = task) (map_to_list (db_secret_refs d)))).

(** The loop over the rows: how many were decrypted, and the values, unless one fails. *)
Fixpoint decrypt_rows (rows : list open_row) (values : gmap string string) :
    nat * option (gmap string string) :=
  match rows with
  | [] => (0%nat, Some values)
  | r :: rest =>
      match decryptSecret (ow_secret r) (ow_version r) (ow_row r) with
      | None => (0%nat, None)
      | Some plaintext =>
          let '(n, out) := decrypt_rows rest (<[ow_key r := plaintext]> values) in (S n, out)
      end
  end.

(** SELECT of the task joined with its snapshot: team, Executor, state and values. *)
Definition assigned_row (task : string) (d : DB) :
    result sql_error (string * string * string * gmap string string) :=
  match db_tasks d !! task, db_snapshots d !! task with
  | Some t, Some s =>
      if bool_decide (sn_team s = tk_team t) then
        match tk_executor t with
        | Some x => Ok (tk_team t, x, tk_state t, sn_values s)
        | None => Err SqlScan
        end
      else Err SqlScan
  | _, _ => Err SqlScan
  end.

Definition open_audit (id team : string) (req : OpenEnvironmentRequest) (at_ : Z) : AuditRow :=
  mkAudit id (Some team) (xi_executor (or_identity req)) "executor" "launch_parameters.open" "task"
    (or_task req) (or_request req) "succeeded" (Some (xi_scope (or_identity req))) at_.

Definition open_values (req : OpenEnvironmentRequest) (team : string) (values : gmap string string) :
    TxS OpenEnvironmentResponse :=
  rows <- query (ErrWrap "list open secrets") (open_rows team (or_task req)) ;;
  match (decrypt_rows rows values).2 with
  | None => throw ErrEnvironmentUnavailable
  | Some opened =>
      id <- fresh_uuid ;;
      exec (ErrWrap "append environment open audit")
        (λ at_, insert_audit (open_audit id team req (pg_ts at_))) ;;;
      commit (ErrWrap "commit environment open") ;;;
      ret (mkOpened team (or_task req) (xi_executor (or_identity req)) opened)
  end.

Definition OpenEnvironment (req : OpenEnvironmentRequest) : TxS OpenEnvironmentResponse :=
  let me := xi_executor (or_identity req) in
  clock <- now ;;
  match verifyScopeToken (sc_keyring cfg) (sc_aes_key cfg) clock (or_token req) with
  | None => throw ErrEnvironmentUnavailable
  | Some claims =>
      if bool_decide (tc_task claims ≠ or_task req ∨ tc_executor claims ≠ me)
      then throw ErrEnvironmentUnavailable
      else
        begin_tx (ErrWrap "begin environment open") ;;;
        row <- query_scan (λ _, ErrEnvironmentUnavailable) (assigned_row (or_task req)) ;;
        let '(team, assigned, state, values) := row in
        if bool_decide (assigned ≠ me ∨ tc_team claims ≠ team ∨ tc_executor claims ≠ assigned ∨
                        (state ≠ StateCreated ∧ state ≠ StateRunning))
        then throw ErrEnvironmentUnavailable
        else if bool_decide (xi_scope (or_identity req) = ScopeTeam ∧
                             xi_team (or_identity req) ≠ Some team)
        then throw ErrEnvironmentUnavailable
        else open_values req team values
  end.

(** ** Authorization *)

(** What opening the environment of a task takes. *)
Record authorised (req : OpenEnvironmentRequest) (now : Z) (d : DB) (t : TaskRow) (s : SnapshotRow)
    (c : scopeTokenClaims) : Prop := mkAuthorised {
  oa_token : verifyScopeToken (sc_keyring cfg) (sc_aes_key cfg) now (or_token req) = Some c;
  oa_claims : tc_task c = or_task req ∧ tc_executor c = xi_executor (or_identity req) ∧
              tc_team c = tk_team t;
  oa_task : db_tasks d !! or_task req = Some t;
  oa_snapshot : db_snapshots d !! or_task req = Some s ∧ sn_team s = tk_team t;
  oa_assigned : tk_executor t = Some (xi_executor (or_identity req));
  oa_state : tk_state t = StateCreated ∨ tk_state t = StateRunning;
  oa_scope : xi_scope (or_identity req) = ScopeTeam → xi_team (or_identity req) = Some (tk_team t);
}.

Lemma assigned_row_ok task d team x state values :
  assigned_row task d = Ok (team, x, state, values) →
  ∃ t s, db_tasks d !! task = Some t ∧ db_snapshots d !! task = Some s ∧ sn_team s = tk_team t ∧
    tk_executor t = Some x ∧ team = tk_team t ∧ state = tk_state t ∧ values = sn_values s.
Proof using.
  unfold assigned_row. destruct (db_tasks d !! task) as [t|]; [|done].
  destruct (db_snapshots d !! task) as [s|]; [|done]. case_bool_decide; [|done].
  destruct (tk_executor t) eqn:Ex; [|done]. intros [= <- <- <- <-]. by exists t, s.
Qed.

Lemma OpenEnvironment_ok req env db r db' :
  run_tx (OpenEnvironment req) env db = (Ok r, db') →
  ∃ t s c audit, authorised req (env_now env) db t s c ∧
    (decrypt_rows (open_rows (tk_team t) (or_task req) db) (sn_values s)).2 = Some (oe_values r) ∧
    oe_team r = tk_team t ∧ oe_task r = or_task req ∧
    oe_executor r = xi_executor (or_identity req) ∧
    db_audit db !! au_id audit = None ∧ au_action audit = "launch_parameters.open" ∧
    au_actor audit = xi_executor (or_identity req) ∧ au_resource_id audit = or_task req ∧
    au_request audit = or_request req ∧
    db' = with_audit (<[au_id audit := audit]> (db_audit db)) db.
Proof using.
  intros (st & Hr & ->)%run_tx_ok. unfold OpenEnvironment, open_values in Hr. tx_inv.
  match goal with Ha : assigned_row _ _ = Ok _ |- _ =>
    apply assigned_row_ok in Ha as (t & sn & Ht & Hsn & Hteam & Hx & -> & -> & ->) end.
  match goal with Ha : insert_audit _ _ = Ok _ |- _ => apply insert_audit_ok in Ha as (Hna & _ & Hd) end.
  to_prop. tx_states.
  repeat match goal with Hn : ¬ (_ ∨ _) |- _ => apply Decidable.not_or in Hn as [? ?] end.
  to_prop. simpl in *. subst.
  exists t, sn, s, (open_audit (env_uuid env 0) (tk_team t) req (pg_ts (env_db_now env))).
  split_and!; try done; try congruence.
  constructor; try done.
  - destruct (decide (tk_state t = StateCreated)); [by left|]. right.
    apply dec_stable. tauto.
  - intros Hscope. apply dec_stable. tauto.
Qed.

(** ** Denial *)

(** Without an outage, a request that is not authorised is denied, and nothing changes. *)
Lemma OpenEnvironment_denial req env db :
  (∀ n, env_fault env n = false) → (∀ t s c, ¬ authorised req (env_now env) db t s c) →
  run_tx (OpenEnvironment req) env db = (Err ErrEnvironmentUnavailable, db).
Proof using.
  intros Hnf Hno.
  unfold run_tx, OpenEnvironment, begin_tx, query_scan, stmt, bind, now, throw, begin_st. simpl.
  destruct (verifyScopeToken _ _ _ _) as [c|] eqn:Hv; [|done].
  case_bool_decide as Hc; [done|]. apply Decidable.not_or in Hc as [Hc1 Hc2]. to_prop.
  rewrite !Hnf. simpl.
  destruct (assigned_row (or_task req) db) as [[[[team x] state] values]|] eqn:Ha; [|done].
  apply assigned_row_ok in Ha as (t & s & Ht & Hs & Hteam & Hx & -> & -> & ->). simpl.
  case_bool_decide as Hg; [done|]. case_bool_decide as Hg'; [done|].
  destruct (Hno t s c).
  repeat (apply Decidable.not_or in Hg as [? Hg]). to_prop.
  constructor; try done; try congruence.
  - destruct (decide (tk_state t = StateCreated)); [by left|]. right. apply dec_stable. tauto.
  - intros Hscope. apply dec_stable. tauto.
Qed.

(** ** Success *)

(** Without an outage, an authorised request whose rows decrypt succeeds. *)
Lemma OpenEnvironment_runs req env db t s c out :
  authorised req (env_now env) db t s c → (∀ n, env_fault env n = false) →
  db_audit db !! env_uuid env 0 = None → is_Some (db_teams db !! tk_team t) →
  audit_ok (open_audit (env_uuid env 0) (tk_team t) req (pg_ts (env_db_now env))) = true →
  (decrypt_rows (open_rows (tk_team t) (or_task req) db) (sn_values s)).2 = Some out →
  ∃ db', run_tx (OpenEnvironment req) env db
         = (Ok (mkOpened (tk_team t) (or_task req) (xi_executor (or_identity req)) out), db').
Proof using.
  intros [Hv (Hc1 & Hc2 & Hc3) Ht [Hs Hst] Hx Hstate Hscope] Hnf Huuid Hteam Haudit Hout.
  unfold run_tx, OpenEnvironment, open_values, begin_tx, query_scan, query, exec, commit, stmt, bind,
    now, fresh_uuid, ret, begin_st. simpl. rewrite Hv.
  rewrite bool_decide_eq_false_2 by (intros [?|?]; done). rewrite !Hnf. simpl.
  unfold assigned_row. rewrite Ht, Hs, (bool_decide_eq_true_2 _ Hst), Hx. simpl.
  rewrite bool_decide_eq_false_2 by (intros [?|[?|[?|[? ?]]]]; (done || congruence || naive_solver)).
  rewrite bool_decide_eq_false_2 by (intros [? Hn]; by apply Hn, Hscope).
  rewrite !Hnf. simpl. rewrite Hout. rewrite !Hnf. simpl.
  unfold insert_audit, check, team_ref. simpl. rewrite (bool_decide_eq_true_2 _ Huuid), Haudit.
  rewrite (bool_decide_eq_true_2 _ Hteam). simpl. rewrite Hnf. eauto.
Qed.

(** ** The values *)

(** The value a key has once the rows are opened over the plain values. *)
Lemma decrypt_rows_values rows values out :
  (decrypt_rows rows values).2 = Some out → NoDup (ow_key <$> rows) →
  (∀ r, r ∈ rows → ∃ p, decryptSecret (ow_secret r) (ow_version r) (ow_row r) = Some p ∧
                        out !! ow_key r = Some p) ∧
  (∀ k, k ∉ ow_key <$> rows → out !! k = values !! k).
Proof using.
  revert values. induction rows as [|r rows IH]; intros values; simpl.
  - intros [= ->] _. split; [intros r Hr; by apply not_elem_of_nil in Hr|done].
  - destruct (decryptSecret _ _ _) as [p|] eqn:Hp; [|done].
    destruct (decrypt_rows rows _) as [n o] eqn:E. simpl. intros -> [Hnin Hnd]%NoDup_cons.
    destruct (IH (<[ow_key r := p]> values)) as [Hrows Hrest]; [by rewrite E|done|]. split.
    + intros r' [-> | Hin]%elem_of_cons; [|by apply Hrows]. exists p. split; [done|].
      rewrite Hrest by done. apply lookup_insert_eq.
    + intros k [Hne Hk]%not_elem_of_cons. rewrite Hrest by done. by apply lookup_insert_ne.
Qed.

(** Rows that all decrypt are opened, and each is counted once. *)
Lemma decrypt_rows_total rows values :
  (∀ r, r ∈ rows → is_Some (decryptSecret (ow_secret r) (ow_version r) (ow_row r))) →
  ∃ out, decrypt_rows rows values = (length rows, Some out).
Proof using.
  revert values. induction rows as [|r rows IH]; intros values Hall; simpl; [eauto|].
  destruct (Hall r) as [p ->]; [by left|].
  destruct (IH (<[ow_key r := p]> values)) as [out ->]; [|eauto].
  intros r' Hr'. apply Hall. by right.
Qed.

Lemma open_rows_spec team task d r :
  r ∈ open_rows team task d ↔
  ∃ ref, db_secret_refs d !! (task, ow_key r) = Some ref ∧ sr_team ref = team ∧
    ow_secret r = sr_secret ref ∧ ow_version r = sr_version ref ∧
    db_secret_versions d !! (sr_secret ref, sr_version ref) = Some (ow_row r).
Proof using.
  unfold open_rows. rewrite elem_of_order_by, list_elem_of_omap. split.
  - intros ([[tk key] ref] & Hin & Hj). apply list_elem_of_filter in Hin as [[Ht Hk] Hin].
    simpl in *. subst tk. apply elem_of_map_to_list in Hin. unfold join_version in Hj. simpl in Hj.
    destruct (db_secret_versions d !! _) as [v|] eqn:Ev; simplify_eq/=. by exists ref.
  - intros (ref & Href & Ht & Hs & Hn & Hv). exists ((task, ow_key r), ref). split.
    + apply list_elem_of_filter. split; [done|]. by apply elem_of_map_to_list.
    + unfold join_version. simpl. rewrite Hv. simpl. rewrite <- Hs, <- Hn. by destruct r.
Qed.

Lemma open_rows_keys team task d : NoDup (ow_key <$> open_rows team task d).
Proof using.
  unfold open_rows. rewrite order_by_perm.
  assert (Hnd : NoDup (map_to_list (db_secret_refs d))) by apply NoDup_map_to_list.
  apply (NoDup_filter (λ kr, sr_team kr.2 = team ∧ kr.1.1 = task)) in Hnd.
  assert (Hk : ∀ a b, a ∈ filter (λ kr, sr_team kr.2 = team ∧ kr.1.1 = task) (map_to_list (db_secret_refs d)) →
                 b ∈ filter (λ kr, sr_team kr.2 = team ∧ kr.1.1 = task) (map_to_list (db_secret_refs d)) →
                 a.1.2 = b.1.2 → a = b).
  { intros [[t k] r] [[t' k'] r'] [[_ Ht] Ha]%list_elem_of_filter [[_ Ht'] Hb]%list_elem_of_filter E.
    simpl in *. subst. apply elem_of_map_to_list in Ha, Hb. congruence. }
  induction Hnd as [|a l Hnin Hnd IH]; [constructor|]. simpl.
  assert (NoDup (ow_key <$> omap (join_version d) l)) as Htail.
  { apply IH. intros x y Hx Hy. apply Hk; by right. }
  destruct (join_version d a) as [r|] eqn:Ej; [|done]. simpl. apply NoDup_cons. split; [|done].
  intros (r' & Hr' & (b & Hb & Hjb)%list_elem_of_omap)%list_elem_of_fmap.
  assert (a = b) as ->; [|done]. apply Hk; [by left|by right|].
  unfold join_version in *. destruct (db_secret_versions d !! (sr_secret a.2, _)); simplify_eq/=.
  destruct (db_secret_versions d !! (sr_secret b.2, _)); simplify_eq/=. done.
Qed.

Lemma OpenEnvironment_error_keeps req : error_keeps (OpenEnvironment req).
Proof using. unfold OpenEnvironment, open_values. tx_atomic. Qed.

Lemma OpenEnvironment_step req env db r db' :
  run_tx (OpenEnvironment req) env db = (r, db') → config_step db db'.
Proof using.
  intros Hr. apply run_tx_cases in Hr as [->|(env' & a & Hr)]; [apply config_step_same| |].
  - apply OpenEnvironment_ok in Hr as (t & s & c & au & _ & _ & _ & _ & _ & Hn & _ & _ & _ & _ & ->).
    unfold config_step. split_and!; [|by apply dw_none|done..].
    constructor; simpl; first [done | by apply insert_subseteq].
  - apply OpenEnvironment_error_keeps.
Qed.
End open_environment.

(** ** Properties *)

Section open_properties.
Context `{Collation, PgTime, TimeCodec, TokenCodec, Aead}.
Context (cfg : StoreConfig).

(** C27. An environment is opened only for the Executor that holds the task: the token is
    authentic, unexpired and names the caller, the task and its team; the task is assigned to the
    caller and not terminal; a team Executor is of the team. The answer is the frozen plain
    values with the decrypted secrets of the task over them, and the only effect is one audit
    entry that names the caller, the task and the request. *)
Theorem OpenEnvironment_authorised req env db r db' :
  run_tx (OpenEnvironment cfg req) env db = (Ok r, db') →
  ∃ t s c keyring audit, authorised cfg req (env_now env) db t s c ∧
    sc_keyring cfg = Some keyring ∧ token_authentic keyring (env_now env) (or_token req) c ∧
    oe_team r = tk_team t ∧ oe_task r = or_task req ∧ oe_executor r = xi_executor (or_identity req) ∧
    (∀ row, row ∈ open_rows (tk_team t) (or_task req) db →
       ∃ p, decryptSecret cfg (ow_secret row) (ow_version row) (ow_row row) = Some p ∧
            oe_values r !! ow_key row = Some p) ∧
    (∀ k, k ∉ ow_key <$> open_rows (tk_team t) (or_task req) db →
       oe_values r !! k = sn_values s !! k) ∧
    db' = with_audit (<[au_id audit := audit]> (db_audit db)) db ∧
    db_audit db !! au_id audit = None ∧ au_action audit = "launch_parameters.open" ∧
    au_actor audit = xi_executor (or_identity req) ∧ au_resource_id audit = or_task req ∧
    au_request audit = or_request req.
Proof using.
  intros (t & s & c & audit & Ha & Hd & ? & ? & ? & ? & ? & ? & ? & ? & ?)%OpenEnvironment_ok.
  destruct (sc_keyring cfg) as [keyring|] eqn:Ek.
  2:{ pose proof (oa_token _ _ _ _ _ _ _ Ha) as Hv. by rewrite Ek in Hv. }
  pose proof (oa_token _ _ _ _ _ _ _ Ha) as Hv. rewrite Ek in Hv. apply verify_authentic in Hv.
  destruct (decrypt_rows_values _ _ _ _ Hd (open_rows_keys _ _ _)) as [Hrows Hrest].
  by exists t, s, c, keyring, audit.
Qed.

(** Every denial looks the same: when nothing fails, a request that is not authorised, for
    whatever reason, gets the same error, and neither the registry nor its audit log changes. *)
Theorem OpenEnvironment_unrevealing req env db :
  (∀ n, env_fault env n = false) → (∀ t s c, ¬ authorised cfg req (env_now env) db t s c) →
  run_tx (OpenEnvironment cfg req) env db = (Err ErrEnvironmentUnavailable, db).
Proof using. apply OpenEnvironment_denial. Qed.
End open_properties.

Section witnesses.
#[local] Existing Instances pg_micros collation_C time_bits token_fields toy_aead.

(** A request without a token. *)
Lemma OpenEnvironment_unrevealing_witness :
  run_tx (OpenEnvironment fx_config (mkOpen "t1" "" (fx_identity "ex1") "req")) (fx_env 7000) fx_db
  = (Err ErrEnvironmentUnavailable, fx_db).
Proof.
  apply (OpenEnvironment_unrevealing fx_config (mkOpen "t1" "" (fx_identity "ex1") "req")).
  - intros n. reflexivity.
  - intros t s c Ha. pose proof (oa_token _ _ _ _ _ _ _ Ha) as Hv. vm_compute in Hv. discriminate Hv.
Defined.

(** Two secrets of a task: the first opens, the second was tampered with. *)
Definition fx_tampered : list open_row :=
  [ mkOpenRow "A" "s1" 1 (mkSecretVersion (Some "team") "value" "0123456789ab"
      (toy_tag (secret_aad "team" "s1" 1)) localKeyID 1 0);
    mkOpenRow "B" "s2" 1 (mkSecretVersion (Some "team") "value" "0123456789ab"
      (toy_tag (secret_aad "team" "s1" 1)) localKeyID 1 0) ].

(** A denied opening may already have decrypted a secret: the counter the harness observes is
    not zero on every denial. *)
Example decrypt_before_denial : decrypt_rows fx_config fx_tampered ∅ = (1%nat, None).
Proof. vm_compute. reflexivity. Qed.
End witnesses.
