(* ===== verification/Claim.v ===== *)
(** * Registration, discovery and claims (store/executor.go)

    The operations of an Executor on the task queue: register, list the eligible pending tasks
    in FIFO order, and claim the oldest one. *)

From stdpp Require Import base gmap strings list sorting.
From Stdlib Require Import Ascii.
From S2P Require Import Prelude Platform Tx Schema Store GoStrings ScopeToken Launch Fixtures.
#[local] Open Scope Z_scope.

(** ** Wire types (platform/executor.go, platform/claim.go, platform/listing.go) *)

Record RegistrationRequest : Type := mkRegistration {
  rr_scope : string; rr_team : option string; rr_type : string; rr_tag : string;
  rr_max_capacity : Z; rr_running_count : Z; rr_metadata : string }.

Record TaskSummary : Type := mkSummary {
  su_task : string; su_team : string; su_tag : string; su_state : string; su_ingested_at : Z }.

Record ClaimRequest : Type := mkClaimRequest { cr_task : string; cr_command : string }.

Record TaskListEntry : Type := mkEntry {
  en_task : string; en_team : string; en_source_system : string; en_source_id : string;
  en_type : string; en_tag : string; en_payload : option string; en_state : string;
  en_owner_command : option string; en_executor : option string; en_project : option string;
  en_image : option ImageReference; en_resolved_image : option ImageReference;
  en_image_source : option string; en_ingested_at : string; en_claimed_at : option string }.

Record ClaimResponse : Type := mkClaimResponse {
  cs_claim : string; cs_task : TaskListEntry; cs_resolved_image : option ImageReference;
  cs_image_source : option string; cs_claimed_at : option string;
  cs_launch_parameters : bool; cs_scope_token : option string }.

(** ** RegisterExecutor, GetExecutor *)

(** A statement run for its lock. *)
Definition lock (context : string) : TxS () := exec (ErrWrap context) (λ _ d, Ok d).

Definition classify_executor_write (e : sql_error) : StoreError :=
  match e with
  | SqlState code _ =>
      if bool_decide (code = foreign_key_violation) then ErrTeamNotFound
      else ErrWrap "persist executor registration" e
  | _ => ErrWrap "persist executor registration" e
  end.

Section executors.
Context `{Collation, PgTime, JsonCodec}.

Definition cast_metadata (m : string) : result sql_error string :=
  match jsonb_cast m with Some m' => Ok m' | None => Err (SqlState invalid_text "metadata") end.

(** INSERT INTO executors ... RETURNING. *)
Definition insert_registration (id : string) (req : RegistrationRequest) (now : Z) (d : DB) :
    result sql_error (DB * ExecutorRow) :=
  match cast_metadata (rr_metadata req) with
  | Err e => Err e
  | Ok md =>
      let row := mkExecutor id (rr_scope req) (rr_team req) (rr_type req) id (rr_tag req)
                   (rr_max_capacity req) (rr_running_count req) md (pg_ts now) (pg_ts now) in
      match insert_executor row d with Ok d' => Ok (d', row) | Err e => Err e end
  end.

(** UPDATE executors SET ... RETURNING: the scope, the team and the registration time stay. *)
Definition update_registration (id : string) (req : RegistrationRequest) (now : Z) (d : DB) :
    result sql_error (DB * ExecutorRow) :=
  match cast_metadata (rr_metadata req), db_executors d !! id with
  | Err e, _ => Err e
  | _, None => Err SqlScan
  | Ok md, Some x =>
      let row := mkExecutor (ex_id x) (ex_scope x) (ex_team x) (rr_type req) id (rr_tag req)
                   (rr_max_capacity req) (rr_running_count req) md (ex_registered_at x)
                   (pg_ts now) in
      match update_executor id (λ _, row) d with Ok d' => Ok (d', row) | Err e => Err e end
  end.

Definition RegisterExecutor (id : string) (req : RegistrationRequest)
    (identity : ExecutorIdentity) : TxS ExecutorRow :=
  begin_tx (ErrWrap "begin executor registration") ;;;
  lock "lock executor registration" ;;;
  existing <- query (ErrWrap "read executor registration") (λ d, db_executors d !! id) ;;
  match existing with
  | Some x =>
      if bool_decide (ex_scope x ≠ rr_scope req) then throw ErrExecutorScopeConflict
      else if negb (sameTeam (ex_team x) (rr_team req)) then throw ErrExecutorTeamConflict
      else if bool_decide (xi_executor identity ≠ id ∨ xi_scope identity ≠ rr_scope req) ||
              negb (sameTeam (xi_team identity) (rr_team req))
      then throw ErrExecutorIdentityMismatch
      else
        row <- exec_returning classify_executor_write (update_registration id req) ;;
        commit (ErrWrap "commit executor registration") ;;; ret row
  | None =>
      if bool_decide (xi_executor identity ≠ id ∨ xi_scope identity ≠ rr_scope req) ||
         negb (sameTeam (xi_team identity) (rr_team req))
      then throw ErrExecutorIdentityMismatch
      else
        row <- exec_returning classify_executor_write (insert_registration id req) ;;
        commit (ErrWrap "commit executor registration") ;;; ret row
  end.

Definition GetExecutor (id : string) : TxS ExecutorRow :=
  x <- query (ErrWrap "get executor") (λ d, db_executors d !! id) ;;
  match x with Some x => ret x | None => throw ErrExecutorNotFound end.

(** ** DiscoverExecutorTasks *)

(** The WHERE clause shared by discovery and the FIFO probe: pending, the tag, and the team
    for a team Executor. *)
Definition eligible (tag scope : string) (team : option string) (t : TaskRow) : bool :=
  bool_decide (tk_state t = StatePending) && bool_decide (tk_tag t = tag) &&
  (if bool_decide (scope = ScopeTeam) then bool_decide (tk_team t = default "" team) else true).

Definition fifo_le : relation TaskRow := row_le tk_ingested_at tk_id.

Definition summary (t : TaskRow) : TaskSummary :=
  mkSummary (tk_id t) (tk_team t) (tk_tag t) (tk_state t) (tk_ingested_at t).

Definition discovered (tag scope : string) (team : option string) (limit : nat) (d : DB) :
    list TaskRow :=
  take limit (order_by fifo_le (filter (λ t, eligible tag scope team t) (rows (db_tasks d)))).

Definition DiscoverExecutorTasks (id tag : string) (limit : nat) : TxS (list TaskSummary) :=
  x <- query (ErrWrap "read executor discovery binding") (λ d, db_executors d !! id) ;;
  match x with
  | None => throw ErrExecutorNotFound
  | Some x =>
      if bool_decide (tag ≠ ex_tag x) then throw ErrExecutorTagMismatch
      else
        l <- query (ErrWrap "discover executor tasks")
               (discovered (ex_tag x) (ex_scope x) (ex_team x) limit) ;;
        ret (summary <$> l)
  end.

(** isEarlierPendingTask: some eligible task precedes (ingested_at, task_id). *)
Definition earlier_pending (tag scope : string) (team : option string) (ingested : Z)
    (task : string) (d : DB) : bool :=
  existsb (λ t, eligible tag scope team t &&
                bool_decide (key_lt coll_lt (tk_ingested_at t) (tk_id t) ingested task))
    (rows (db_tasks d)).

Lemma earlier_pending_false tag scope team ingested task d :
  earlier_pending tag scope team ingested task d = false ↔
  ∀ k t, db_tasks d !! k = Some t → eligible tag scope team t = true →
         ¬ key_lt coll_lt (tk_ingested_at t) (tk_id t) ingested task.
Proof using.
  unfold earlier_pending. split.
  - intros Hf k t Hk He Hlt. apply not_true_iff_false in Hf. apply Hf.
    apply existsb_exists. exists t. split.
    + apply list_elem_of_In, elem_of_rows. eauto.
    + rewrite He. by apply bool_decide_eq_true.
  - intros Hall. apply not_true_iff_false. intros (t & Hin & Ht)%existsb_exists.
    apply list_elem_of_In, elem_of_rows in Hin as [k Hk]. to_prop. by eapply Hall.
Qed.
End executors.

(** ** Rendering a task row (scanTaskRow, buildClaimResponseForRow) *)

(** The instant time.IsZero names. *)
Definition zero_time : Z := -62135596800 * 10 ^ 9.

Section rendering.
Context `{Collation, PgTime, JsonCodec, TimeCodec, TokenCodec, ImageCodec}.
Context (cfg : StoreConfig).

Definition formatIngestedAt (t : Z) : string :=
  if t =? zero_time then "" else format_rfc3339 t.

(** normalizeJSONPayload. *)
Definition normalizeJSONPayload (raw : string) : option string :=
  if bool_decide (raw = "") then Some "null"
  else if json_valid raw then Some raw else None.

Definition scanTaskRow (t : TaskRow) : TaskListEntry :=
  mkEntry (tk_id t) (tk_team t) (tk_source_system t) (tk_source_id t) (tk_type t) (tk_tag t)
    (normalizeJSONPayload (tk_payload t)) (tk_state t) (tk_owner_command t) (tk_executor t)
    (tk_project t) (tk_image t) (tk_resolved_image t) (tk_image_source t)
    (formatIngestedAt (tk_ingested_at t)) (formatIngestedAt <$> tk_claimed_at t).

Definition scan_task (o : option TaskRow) : result sql_error TaskListEntry :=
  match o with Some t => Ok (scanTaskRow t) | None => Err SqlScan end.

(** The snapshot discriminator: values or secret references are present. *)
Definition snapshot_has_values (task : string) (s : SnapshotRow) (d : DB) : bool :=
  negb (bool_decide (sn_values s = ∅)) ||
  existsb (λ kr, bool_decide (kr.1.1 = task)) (map_to_list (db_secret_refs d)).

(** issueScopeToken: the claim time, when the task has one, is the time of issue. *)
Definition issueScopeToken (task : TaskListEntry) : TxS (option string) :=
  match en_executor task with
  | None => ret None
  | Some executor =>
      match sc_keyring cfg with
      | None => throw (ErrText "scope token keyring unavailable")
      | Some keyring =>
          has <- query (ErrWrap "read claim launch parameter snapshot")
                   (λ d, match db_snapshots d !! en_task task with
                         | Some s => bool_decide (sn_team s = en_team task) &&
                                     snapshot_has_values (en_task task) s d
                         | None => false
                         end) ;;
          if negb has then ret None
          else
            clock <- now ;;
            match (match en_claimed_at task with
                   | None => Some clock
                   | Some c => parse_rfc3339 c
                   end) with
            | None => throw (ErrText "parse claim token issued_at")
            | Some issued =>
                match mintScopeToken keyring (en_team task) (en_task task) executor issued with
                | None => throw (ErrText "scope token active key unavailable")
                | Some token => ret (Some token)
                end
            end
      end
  end.

Definition buildClaimResponseForRow (task : string) : TxS ClaimResponse :=
  entry <- query_scan (ErrWrap "re-read canonical task for retry")
             (λ d, scan_task (db_tasks d !! task)) ;;
  let response := mkClaimResponse "claimed" entry (en_resolved_image entry)
                    (en_image_source entry) (en_claimed_at entry) false None in
  snap <- query (ErrWrap "read launch parameter snapshot discriminator")
            (λ d, (λ s, snapshot_has_values task s d) <$> db_snapshots d !! task) ;;
  match snap with
  | None | Some false => ret response
  | Some true =>
      token <- issueScopeToken entry ;;
      ret (mkClaimResponse "claimed" entry (en_resolved_image entry) (en_image_source entry)
             (en_claimed_at entry) (bool_decide (is_Some token)) token)
  end.

(** ** The effective image (resolveClaimImageLocked) *)

(** An image is either a reference or the JSON text of one, left to the jsonb cast. *)
Inductive claimImage : Type := ImageRef (i : ImageReference) | ImageJSON (text : string).

(** "repository@digest", split at the last at sign with neither side empty. *)
Definition split_image (s : string) : option ImageReference :=
  match cut_last "@"%char s with
  | Some (repository, digest) =>
      if bool_decide (repository = "" ∨ digest = "") then None
      else Some (mkImage repository digest)
  | None => None
  end.

Definition type_default (team task_type : string) (d : DB) : option ImageReference :=
  match db_types d !! task_type with
  | Some t => if bool_decide (tt_team t = team) then tt_default_image t else None
  | None => None
  end.

Definition source_default (team source : string) (d : DB) : option ImageReference :=
  match db_sources d !! source with
  | Some s => if bool_decide (ss_team s = team) then ss_default_image s else None
  | None => None
  end.

Definition resolveClaimImageLocked (team source task_type : string)
    (task_image : option ImageReference) (launch_image : option string) (launch_source : string) :
    TxS (claimImage * string) :=
  match task_image with
  | Some i => ret (ImageRef i, "task_override")
  | None =>
  match launch_image with
  | Some l =>
      match split_image l with
      | None => throw (ErrText "launch parameter image is invalid")
      | Some i => ret (ImageRef i, launch_source)
      end
  | None =>
      tt <- query (ErrWrap "task type default image") (type_default team task_type) ;;
      match tt with
      | Some i => ret (ImageRef i, "task_type_default")
      | None =>
          ss <- query (ErrWrap "source system default image") (source_default team source) ;;
          match ss with
          | Some i => ret (ImageRef i, "source_system_default")
          | None =>
              td <- query_scan (ErrWrap "team default image")
                      (λ d, match db_teams d !! team with
                            | Some t => Ok (tm_default_image t)
                            | None => Err SqlScan
                            end) ;;
              if has_prefix "{" td then ret (ImageJSON td, "team_default")
              else
                match split_image td with
                | None => throw (ErrText "team default image is invalid")
                | Some i => ret (ImageRef i, "team_default")
                end
          end
      end
  end
  end.

(** ** ClaimTask *)

Definition image_column (i : claimImage) : option ImageReference :=
  match i with ImageRef r => Some r | ImageJSON text => image_of_json text end.

Definition claim_row (command executor : string) (claimed_at : Z) (image : ImageReference)
    (source : string) (t : TaskRow) : TaskRow :=
  mkTask (tk_id t) (tk_team t) (tk_source_system t) (tk_source_id t) (tk_type t) (tk_tag t)
    (tk_payload t) StateCreated (Some command) (Some executor) (tk_project t) (tk_image t)
    (Some image) (Some source) (tk_ingested_at t) (Some claimed_at).

(** UPDATE tasks SET current_state = 'created', owner_command_id, executor_id, ... *)
Definition persist_claim (task command executor : string) (claimed_at : Z) (image : claimImage)
    (source : string) (d : DB) : result sql_error DB :=
  match image_column image with
  | None => Err (SqlState invalid_text "resolved_image")
  | Some i => update_task task (claim_row command executor claimed_at i source) d
  end.

(** The payload of the created event: the document of three text fields. *)
Definition created_payload (task executor : string) : string :=
  json_marshal (JObj [("executor", JStr executor);
                      ("message", JStr ("task " +:+ task +:+ " loaded by " +:+ executor));
                      ("task_id", JStr task)]).

Definition created_event (task team executor : string) (at_ : Z) : TaskEventRow :=
  mkTaskEvent ("evt-" +:+ task) team task executor TypeCreated at_ (created_payload task executor).

(** From the eligibility of the task to the committed claim. *)
Definition claim_pending (req : ClaimRequest) (executor : string) (x : ExecutorRow)
    (t : TaskRow) : TxS ClaimResponse :=
  ingested <- query_scan (ErrWrap "read task ingested_at")
                (λ d, match db_tasks d !! cr_task req with
                      | Some t => Ok (tk_ingested_at t) | None => Err SqlScan end) ;;
  earlier <- query (ErrWrap "check older eligible task")
               (earlier_pending (ex_tag x) (ex_scope x) (ex_team x) ingested (cr_task req)) ;;
  if (earlier : bool) then throw ErrOlderTaskMustBeClaimedFirst
  else
    launch <- resolveLaunchParametersLocked (tk_team t) (tk_type t) (cr_task req) ;;
    image <- resolveClaimImageLocked (tk_team t) (tk_source_system t) (tk_type t) (tk_image t)
               (rl_image launch) (rl_image_source launch) ;;
    clock <- now ;;
    exec (ErrWrap "persist claim assignment")
      (λ _, persist_claim (cr_task req) (cr_command req) executor (pg_ts clock) image.1 image.2) ;;;
    exec (ErrWrap "append created event")
      (λ _, insert_task_event (created_event (cr_task req) (tk_team t) executor (pg_ts clock))) ;;;
    response <- buildClaimResponseForRow (cr_task req) ;;
    commit (ErrWrap "commit claim") ;;;
    ret response.

Definition claim_visible (x : ExecutorRow) (t : TaskRow) : bool :=
  negb (bool_decide (ex_scope x = ScopeTeam) &&
        (bool_decide (default "" (ex_team x) = "") ||
         bool_decide (default "" (ex_team x) ≠ tk_team t))) &&
  bool_decide (ex_tag x = tk_tag t).

Definition ClaimTask (req : ClaimRequest) (executor : string) (identity : ExecutorIdentity) :
    TxS ClaimResponse :=
  begin_tx (ErrWrap "begin claim") ;;;
  ox <- query (ErrWrap "read executor for claim") (λ d, db_executors d !! executor) ;;
  match ox with
  | None => throw ErrExecutorNotFound
  | Some x =>
  if bool_decide (xi_executor identity ≠ executor ∨ xi_scope identity ≠ ex_scope x) ||
     negb (sameTeam (ex_team x) (xi_team identity))
  then throw ErrExecutorNotFound
  else
  lock "lock claim eligibility queue" ;;;
  ot <- query (ErrWrap "lock task for claim") (λ d, db_tasks d !! cr_task req) ;;
  match ot with
  | None => throw ErrTaskNotFound
  | Some t =>
  if negb (claim_visible x t) then throw ErrTaskNotFound
  else
  query_scan (ErrWrap "lock claim team")
    (λ d, match db_teams d !! tk_team t with Some _ => Ok () | None => Err SqlScan end) ;;;
  if bool_decide (tk_state t ≠ StatePending) then
    if bool_decide (tk_owner_command t = Some (cr_command req) ∧ tk_executor t = Some executor)
    then buildClaimResponseForRow (cr_task req)
    else throw ErrTaskAlreadyClaimed
  else claim_pending req executor x t
  end
  end.
End rendering.

(** ** What a run of each step establishes *)

Section claim_facts.
Context `{Collation, PgTime, JsonCodec, TimeCodec, TokenCodec, ImageCodec}.
Context (cfg : StoreConfig).

Lemma issueScopeToken_never_commits task : never_commits (issueScopeToken cfg task).
Proof using. unfold issueScopeToken. tx_atomic. Qed.

Lemma buildClaimResponseForRow_never_commits task :
  never_commits (buildClaimResponseForRow cfg task).
Proof using.
  pose proof issueScopeToken_never_commits. unfold buildClaimResponseForRow. tx_atomic.
Qed.

Lemma resolveClaimImageLocked_never_commits team src tt ti li ls :
  never_commits (resolveClaimImageLocked team src tt ti li ls).
Proof using. unfold resolveClaimImageLocked. tx_atomic. Qed.

Lemma ClaimTask_error_keeps req executor identity :
  error_keeps (ClaimTask cfg req executor identity).
Proof using.
  pose proof issueScopeToken_never_commits.
  pose proof buildClaimResponseForRow_never_commits.
  pose proof resolveClaimImageLocked_never_commits.
  unfold ClaimTask, claim_pending, lock. tx_atomic.
Qed.

Lemma RegisterExecutor_error_keeps id req identity :
  error_keeps (RegisterExecutor id req identity).
Proof using. unfold RegisterExecutor, lock. tx_atomic. Qed.

Lemma issueScopeToken_frame task env st r st' :
  issueScopeToken cfg task env st = (Ok r, st') →
  ts_db st' = ts_db st ∧ ts_durable st' = ts_durable st ∧ ts_uuid st' = ts_uuid st.
Proof using. unfold issueScopeToken. intros Hr. tx_inv; tx_states; done. Qed.

(** The response renders the row the working copy holds. *)
Lemma buildClaimResponseForRow_ok task env st r st' :
  buildClaimResponseForRow cfg task env st = (Ok r, st') →
  ts_db st' = ts_db st ∧ ts_durable st' = ts_durable st ∧ ts_uuid st' = ts_uuid st ∧
  ∃ t, db_tasks (ts_db st) !! task = Some t ∧ cs_task r = scanTaskRow t ∧
       cs_claim r = "claimed" ∧ cs_resolved_image r = tk_resolved_image t ∧
       cs_image_source r = tk_image_source t.
Proof using.
  unfold buildClaimResponseForRow. intros Hr.
  tx_inv; try use_ok issueScopeToken_frame; tx_states; split_and!; try done;
    destruct (db_tasks (ts_db st) !! task) as [t|]; simplify_eq/=; by exists t.
Qed.

Lemma resolveClaimImageLocked_frame team src tt ti li ls env st r st' :
  resolveClaimImageLocked team src tt ti li ls env st = (Ok r, st') →
  ts_db st' = ts_db st ∧ ts_durable st' = ts_durable st ∧ ts_uuid st' = ts_uuid st.
Proof using. unfold resolveClaimImageLocked. intros Hr. tx_inv; tx_states; done. Qed.

(** What a committed claim leaves: the frozen launch parameters, the claimed row, and the
    created event in the lifecycle log. *)
Definition claim_effect (task : string) (row : TaskRow) (event : TaskEventRow) (d : DB) : DB :=
  with_task_events (<[te_id event := event]> (db_task_events d))
    (with_tasks (<[task := row]> (db_tasks d)) d).

Definition with_payload (p : string) (e : TaskEventRow) : TaskEventRow :=
  mkTaskEvent (te_id e) (te_team e) (te_task e) (te_executor e) (te_type e) (te_occurred_at e) p.

Lemma same_but_snapshots_tables d d' :
  same_but_snapshots d d' →
  db_tasks d' = db_tasks d ∧ db_task_events d' = db_task_events d ∧
  db_executors d' = db_executors d ∧ db_teams d' = db_teams d ∧
  db_types d' = db_types d ∧ db_sources d' = db_sources d ∧ db_audit d' = db_audit d ∧
  db_executor_events d' = db_executor_events d ∧ db_control_events d' = db_control_events d ∧
  db_controls d' = db_controls d ∧ db_logs d' = db_logs d ∧ db_envs d' = db_envs d ∧
  db_env_revisions d' = db_env_revisions d ∧ db_secrets d' = db_secrets d ∧
  db_secret_versions d' = db_secret_versions d.
Proof using.
  intros Hs. unfold same_but_snapshots, with_snapshots, with_secret_refs in Hs.
  by injection Hs.
Qed.

(** The default images of the task type and of the source system, if these are the team's. *)
Definition type_image (d : DB) (team tt : string) (i : ImageReference) : Prop :=
  ∃ row, db_types d !! tt = Some row ∧ tt_team row = team ∧ tt_default_image row = Some i.
Definition source_image (d : DB) (team src : string) (i : ImageReference) : Prop :=
  ∃ row, db_sources d !! src = Some row ∧ ss_team row = team ∧ ss_default_image row = Some i.

(** An image in a text: "repository@digest", the digest behind the last at sign. *)
Definition image_text (text : string) (i : ImageReference) : Prop :=
  text = im_repository i +:+ "@" +:+ im_digest i ∧ im_repository i ≠ "" ∧ im_digest i ≠ "" ∧
  "@"%char ∉ chars (im_digest i).

(** Which layer the effective image of a task comes from: the first of the task, the launch
    parameters, the task type, the source system and the team that has one. *)
Inductive image_choice (d : DB) (team src tt : string) :
    option ImageReference → option string → string → claimImage → string → Prop :=
| choose_task i li ls : image_choice d team src tt (Some i) li ls (ImageRef i) "task_override"
| choose_launch l i ls :
    image_text l i → image_choice d team src tt None (Some l) ls (ImageRef i) ls
| choose_type i ls :
    type_image d team tt i →
    image_choice d team src tt None None ls (ImageRef i) "task_type_default"
| choose_source i ls :
    (∀ j, ¬ type_image d team tt j) → source_image d team src i →
    image_choice d team src tt None None ls (ImageRef i) "source_system_default"
| choose_team m c ls :
    (∀ j, ¬ type_image d team tt j) → (∀ j, ¬ source_image d team src j) →
    db_teams d !! team = Some m →
    (c = ImageJSON (tm_default_image m) ∨ ∃ i, c = ImageRef i ∧ image_text (tm_default_image m) i) →
    image_choice d team src tt None None ls c "team_default".

Lemma image_choice_frame d d' team src tt ti li ls c s :
  same_but_snapshots d d' → image_choice d' team src tt ti li ls c s →
  image_choice d team src tt ti li ls c s.
Proof using.
  intros (_ & _ & _ & Etm & Ety & Ess & _)%same_but_snapshots_tables Hc.
  assert (∀ i, type_image d team tt i ↔ type_image d' team tt i) as Et
    by (unfold type_image; by rewrite Ety).
  assert (∀ i, source_image d team src i ↔ source_image d' team src i) as Es
    by (unfold source_image; by rewrite Ess).
  destruct Hc; econstructor; try done; try (by apply Et); try (by apply Es); try congruence.
  all: intros j Hj; try apply Et in Hj; try apply Es in Hj; naive_solver.
Qed.

Lemma type_default_spec team tt d :
  match type_default team tt d with
  | Some i => type_image d team tt i
  | None => ∀ j, ¬ type_image d team tt j
  end.
Proof using.
  unfold type_default, type_image. destruct (db_types d !! tt) as [row|]; [|naive_solver].
  case_bool_decide; [|naive_solver]. destruct (tt_default_image row) eqn:E; naive_solver.
Qed.

Lemma source_default_spec team src d :
  match source_default team src d with
  | Some i => source_image d team src i
  | None => ∀ j, ¬ source_image d team src j
  end.
Proof using.
  unfold source_default, source_image. destruct (db_sources d !! src) as [row|]; [|naive_solver].
  case_bool_decide; [|naive_solver]. destruct (ss_default_image row) eqn:E; naive_solver.
Qed.

Lemma split_image_text text i : split_image text = Some i → image_text text i.
Proof using.
  unfold split_image, cut_last. destruct (cut_last_chars _ _) as [[a b]|] eqn:E; [|done].
  apply cut_last_chars_some in E as [E Hb]. case_bool_decide as Hne; [done|]. intros [= <-].
  unfold image_text. cbn [im_repository im_digest]. rewrite chars_of_chars. split_and!; [|naive_solver..].
  apply chars_inj. rewrite E, !chars_app, !chars_of_chars. done.
Qed.

Lemma resolveClaimImageLocked_choice team src tt ti li ls env st c s st' :
  resolveClaimImageLocked team src tt ti li ls env st = (Ok (c, s), st') →
  image_choice (ts_db st) team src tt ti li ls c s.
Proof using.
  unfold resolveClaimImageLocked. intros Hr.
  pose proof (type_default_spec team tt (ts_db st)). pose proof (source_default_spec team src (ts_db st)).
  tx_inv; tx_states; simplify_eq;
    repeat match goal with
    | Hq : _ = type_default _ _ _ |- _ => rewrite <- Hq in *; clear Hq
    | Hq : _ = source_default _ _ _ |- _ => rewrite <- Hq in *; clear Hq
    | Hq : split_image _ = Some _ |- _ => apply split_image_text in Hq
    end; try by econstructor.
  - destruct (db_teams _ !! _) eqn:?; simplify_eq. eapply choose_team; eauto.
  - destruct (db_teams _ !! _) eqn:?; simplify_eq. eapply choose_team; eauto.
Qed.

(** A claim of a pending task that succeeds: from [d] to [d'] through the frozen launch
    parameters of [base]. *)
Record claim_step (req : ClaimRequest) (executor : string) (x : ExecutorRow) (t : TaskRow)
    (at_ : Z) (d d' : DB) (base : DB) (image : ImageReference) (source payload : string) : Prop :=
mkClaimStep {
  cl_frame : same_but_snapshots d base;
  cl_snapshots : db_snapshots d ⊆ db_snapshots base ∧ db_secret_refs d ⊆ db_secret_refs base;
  cl_valid : snapshots_valid d → snapshots_valid base;
  cl_snapshot : is_Some (db_snapshots base !! cr_task req);
  cl_oldest : earlier_pending (ex_tag x) (ex_scope x) (ex_team x) (tk_ingested_at t)
                (cr_task req) d = false;
  cl_launch : ∃ p c,
    launch_parameters d (tk_team t) (tk_type t) p ∧
    snapshot_added (tk_team t) (cr_task req) p d base ∧
    image_choice d (tk_team t) (tk_source_system t) (tk_type t) (tk_image t) (ly_image p) (ly_source p)
      c source ∧
    image_column c = Some image;
  cl_row_ok : let row := claim_row (cr_command req) executor at_ image source t in
    task_update_allowed t row = true ∧ task_ok row = true ∧ task_executor_ok row d = true;
  cl_event_new : db_task_events d !! ("evt-" +:+ cr_task req) = None;
  cl_payload : jsonb_cast (created_payload (cr_task req) executor) = Some payload;
  cl_team : ex_scope x = ScopeTeam → ex_team x = Some (tk_team t);
  cl_result :
    d' = claim_effect (cr_task req) (claim_row (cr_command req) executor at_ image source t)
           (with_payload payload (created_event (cr_task req) (tk_team t) executor at_)) base;
}.

Lemma persist_claim_ok task command executor at_ image source d d' t :
  db_tasks d !! task = Some t →
  persist_claim task command executor at_ image source d = Ok d' →
  ∃ i, image_column image = Some i ∧
    task_update_allowed t (claim_row command executor at_ i source t) = true ∧
    task_ok (claim_row command executor at_ i source t) = true ∧
    task_executor_ok (claim_row command executor at_ i source t) d = true ∧
    d' = with_tasks (<[task := claim_row command executor at_ i source t]> (db_tasks d)) d.
Proof using.
  unfold persist_claim. intros Ht. destruct (image_column image) as [i|]; [|done].
  intros [[? _]|(t' & ? & ? & ? & ? & ?)]%update_task_ok; [congruence|].
  simplify_eq. exists i. by split_and!.
Qed.

Lemma claim_pending_ok req executor x t env st r st' :
  db_tasks (ts_db st) !! cr_task req = Some t → db_executors (ts_db st) !! executor = Some x →
  claim_pending cfg req executor x t env st = (Ok r, st') →
  ts_durable st' = ts_db st' ∧
  ∃ base image source payload,
    claim_step req executor x t (pg_ts (env_now env)) (ts_db st) (ts_db st')
      base image source payload ∧
    cs_claim r = "claimed" ∧
    cs_task r = scanTaskRow (claim_row (cr_command req) executor (pg_ts (env_now env))
                               image source t).
Proof using.
  intros Ht Hx. unfold claim_pending. intros Hr. tx_inv.
  match goal with H : resolveClaimImageLocked _ _ _ _ _ _ _ _ = (Ok ?a, _) |- _ =>
    destruct a as [c source]; pose proof (resolveClaimImageLocked_choice _ _ _ _ _ _ _ _ _ _ _ H)
  end.
  match goal with H : resolveLaunchParametersLocked _ _ _ _ _ = _ |- _ =>
    pose proof (resolveLaunchParametersLocked_frozen _ _ _ _ _ _ _ H) as (p0 & Hlaunch & Eimage & Esource & Hadded)
  end.
  repeat first [use_ok buildClaimResponseForRow_ok | use_ok resolveClaimImageLocked_frame
               | use_ok @resolveLaunchParametersLocked_frame].
  rewrite Ht in *. simplify_eq. tx_states.
  match goal with H : same_but_snapshots _ _ |- _ =>
    pose proof (same_but_snapshots_tables _ _ H) as (Etk & Eev & Eex & _) end.
  match goal with H : persist_claim _ _ _ _ _ _ _ = _ |- _ =>
    apply (persist_claim_ok _ _ _ _ _ _ _ _ t) in H as (i & Hi & Hup & Hok & Hexec & Hd);
    [|by rewrite Etk] end.
  match goal with H : insert_task_event _ _ = _ |- _ =>
    apply insert_task_event_ok in H as (p & x' & Hp & Hx' & Hnew & _ & Hteam & _ & Hd') end.
  rewrite Hd in Hx', Hnew, Hd'. simpl in Hx', Hnew. rewrite Eex in Hx'. simplify_eq.
  match goal with H : ∃ _, db_tasks _ !! _ = Some _ ∧ _ |- _ =>
    destruct H as (t' & Ht' & Hres & Hcl & _) end.
  rewrite Hd' in Ht'. simpl in Ht'. rewrite lookup_insert_eq in Ht'. simplify_eq.
  split; [done|]. do 4 eexists. split; [|by split; [|rewrite Hres]].
  apply mkClaimStep; eauto.
  - exists p0, c. rewrite Eimage, Esource in *. split_and!; [done..| |done]. by eapply image_choice_frame.
  - split_and!; [done..|]. unfold task_executor_ok in *. by rewrite <- Eex.
  - by rewrite <- Eev.
Qed.

(** A successful claim: either the executor already owns the task under the same command,
    and nothing changes, or the task was pending and the claim takes effect. *)
Lemma ClaimTask_ok req executor identity env db r db' :
  run_tx (ClaimTask cfg req executor identity) env db = (Ok r, db') →
  ∃ x t, db_executors db !! executor = Some x ∧ db_tasks db !! cr_task req = Some t ∧
    xi_executor identity = executor ∧ xi_scope identity = ex_scope x ∧
    xi_team identity = ex_team x ∧ claim_visible x t = true ∧
    ((tk_state t ≠ StatePending ∧ tk_owner_command t = Some (cr_command req) ∧
      tk_executor t = Some executor ∧ db' = db ∧ cs_task r = scanTaskRow t ∧
      cs_claim r = "claimed") ∨
     (tk_state t = StatePending ∧ ∃ base image source payload,
        claim_step req executor x t (pg_ts (env_now env)) db db' base image source payload ∧
        cs_claim r = "claimed" ∧
        cs_task r = scanTaskRow (claim_row (cr_command req) executor (pg_ts (env_now env))
                                   image source t))).
Proof using.
  intros (st & Hr & ->)%run_tx_ok. unfold ClaimTask, lock in Hr.
  tx_inv; to_prop; try use_ok buildClaimResponseForRow_ok; simpl in *; tx_states;
    match goal with H : ¬ (xi_executor _ ≠ _ ∨ _) |- _ =>
      apply Decidable.not_or in H as [? ?]; to_prop end;
    match goal with H : sameTeam _ _ = true |- _ => apply sameTeam_eq in H end.
  - match goal with H : ∃ _, db_tasks _ !! _ = Some _ ∧ _ |- _ =>
      destruct H as (t' & ? & ? & ? & _) end.
    exists e, t. simplify_eq. split_and!; try done; try congruence.
    left. split_and!; done || congruence.
  - exists e, t.
    match goal with H : claim_pending _ _ _ _ _ _ _ = _ |- _ =>
      apply claim_pending_ok in H as [Hdur Hcl]; [rewrite Hdur|congruence..] end.
    tx_states. split_and!; try congruence. right. split; [done|]. simplify_eq. done.
Qed.

(** The row a successful claim leaves. *)
Lemma ClaimTask_claims req executor identity env db r db' :
  run_tx (ClaimTask cfg req executor identity) env db = (Ok r, db') →
  ∃ row, db_tasks db' !! cr_task req = Some row ∧ tk_state row ≠ StatePending ∧
    tk_owner_command row = Some (cr_command req) ∧ tk_executor row = Some executor ∧
    cs_task r = scanTaskRow row.
Proof using.
  intros (x & t & Hx & Ht & _ & _ & _ & _ & Hcase)%ClaimTask_ok.
  destruct Hcase as [(? & ? & ? & -> & ? & _)|(_ & base & i & src & p & Hs & _ & ?)].
  - by exists t.
  - eexists. rewrite (cl_result _ _ _ _ _ _ _ _ _ _ _ Hs). simpl. rewrite lookup_insert_eq.
    by split_and!.
Qed.

(** ** The queue *)

Lemma claim_visible_eligible x t :
  claim_visible x t = true → tk_state t = StatePending →
  eligible (ex_tag x) (ex_scope x) (ex_team x) t = true.
Proof using.
  unfold claim_visible, eligible. intros [Hs Ht]%andb_true_iff Hp. to_prop.
  rewrite !bool_decide_eq_true_2 by congruence. simpl.
  destruct (bool_decide (ex_scope x = ScopeTeam)); [|done]. simpl in Hs.
  apply orb_false_iff in Hs as [_ Hs]. to_prop. apply bool_decide_eq_true_2. congruence.
Qed.

Lemma fifo_antisym (d : DB) k k' t t' :
  tasks_keyed d → db_tasks d !! k = Some t → db_tasks d !! k' = Some t' →
  fifo_le t t' → fifo_le t' t → t = t'.
Proof using.
  intros Hk Ht Ht' [Hlt|[He Hc]] [Hlt'|[He' Hc']]; try lia.
  assert (tk_id t = tk_id t') as Hid by by apply (anti_symm coll_le).
  apply Hk in Ht as Q. apply Hk in Ht' as Q'. simpl in Q, Q'. congruence.
Qed.

(** The least eligible row is the one discovery lists first. *)
Lemma discovered_head d tag scope team n k t :
  tasks_keyed d → db_tasks d !! k = Some t → eligible tag scope team t = true →
  (∀ k' t', db_tasks d !! k' = Some t' → eligible tag scope team t' = true → fifo_le t t') →
  head (discovered tag scope team (S n) d) = Some t.
Proof using.
  intros Hkey Ht He Hleast. unfold discovered.
  set (l := filter _ _).
  assert (t ∈ l) as Hin.
  { apply list_elem_of_filter. split; [by rewrite He|]. apply elem_of_rows. eauto. }
  destruct (order_by fifo_le l) as [|z zs] eqn:E.
  { apply order_by_nil_iff in E. rewrite E in Hin. by apply not_elem_of_nil in Hin. }
  simpl. f_equal.
  destruct (order_by_head_least fifo_le l z) as [Hz Hzl]; [by rewrite E|].
  apply list_elem_of_filter in Hz as [Hze [kz Hz]%elem_of_rows].
  apply (fifo_antisym d kz k); [done..|by apply Hzl|].
  apply (Hleast kz); [done|]. by apply Is_true_true.
Qed.

Lemma claim_step_least req executor x t at_ d d' base image source payload :
  tk_id t = cr_task req →
  claim_step req executor x t at_ d d' base image source payload →
  ∀ k' t', db_tasks d !! k' = Some t' →
           eligible (ex_tag x) (ex_scope x) (ex_team x) t' = true → fifo_le t t'.
Proof using.
  intros Hid Hs k' t' Hk' He. apply cl_oldest in Hs.
  apply (proj1 (earlier_pending_false _ _ _ _ _ _)) with (k := k') (t := t') in Hs; [|done..].
  rewrite <- Hid in Hs. by apply key_not_lt.
Qed.
End claim_facts.
#[export] Hint Resolve ClaimTask_error_keeps RegisterExecutor_error_keeps : flow.

(** ** Properties *)

Section claim_properties.
Context `{Collation, PgTime, JsonCodec, TimeCodec, TokenCodec, ImageCodec}.
Context (cfg : StoreConfig).

(** C28. FIFO: a task leaves the pending state by a claim only if it is the task that discovery
    lists first for the claiming Executor: no eligible pending task of the Executor's tag and
    team has an earlier (ingested_at, task_id), whatever the interleaving that led here. *)
Theorem ClaimTask_fifo req executor identity env db r db' x t n :
  tasks_keyed db →
  run_tx (ClaimTask cfg req executor identity) env db = (Ok r, db') →
  db_executors db !! executor = Some x →
  db_tasks db !! cr_task req = Some t → tk_state t = StatePending →
  head (discovered (ex_tag x) (ex_scope x) (ex_team x) (S n) db) = Some t.
Proof using.
  intros Hkey Hrun Hx Ht Hp.
  apply ClaimTask_ok in Hrun as (x' & t' & Hx' & Ht' & _ & _ & _ & Hv & Hcase).
  simplify_eq. destruct Hcase as [[? _]|[_ (base & i & src & p & Hs & _)]]; [done|].
  apply (discovered_head _ _ _ _ _ (cr_task req)); [done..|by apply claim_visible_eligible|].
  eapply claim_step_least; [by eapply Hkey|done].
Qed.

(** C30. A successful claim of a pending task assigns it and nothing else: the task row keeps
    its identity, team, source, type, tag, payload and queue position and gets the state
    created, the command, the Executor, the claim time and the image of the first of its layers that has
    one, with the name of that layer; every other task, every event but the one created event, and
    every Executor is unchanged. The launch parameters are frozen as they are at that moment: a key
    gets what the most specific definition that mentions it says, its secret in its latest version or else
    its plain value, and keys that none mentions get nothing; snapshots and references that are there
    already stay. *)
Theorem ClaimTask_effect req executor identity env db r db' t :
  run_tx (ClaimTask cfg req executor identity) env db = (Ok r, db') →
  db_tasks db !! cr_task req = Some t → tk_state t = StatePending →
  ∃ p c image source payload,
    launch_parameters db (tk_team t) (tk_type t) p ∧
    snapshot_added (tk_team t) (cr_task req) p db db' ∧
    image_choice db (tk_team t) (tk_source_system t) (tk_type t) (tk_image t) (ly_image p) (ly_source p)
      c source ∧
    image_column c = Some image ∧
    db_tasks db' =
      <[cr_task req :=
          mkTask (tk_id t) (tk_team t) (tk_source_system t) (tk_source_id t) (tk_type t) (tk_tag t)
            (tk_payload t) "created" (Some (cr_command req)) (Some executor) (tk_project t) (tk_image t)
            (Some image) (Some source) (tk_ingested_at t) (Some (pg_ts (env_now env)))]> (db_tasks db) ∧
    db_task_events db !! ("evt-" +:+ cr_task req) = None ∧
    jsonb_cast (created_payload (cr_task req) executor) = Some payload ∧
    db_task_events db' =
      <["evt-" +:+ cr_task req :=
          mkTaskEvent ("evt-" +:+ cr_task req) (tk_team t) (cr_task req) executor "created"
            (pg_ts (env_now env)) payload]> (db_task_events db) ∧
    db_executors db' = db_executors db.
Proof using.
  intros Hrun Ht Hp.
  apply ClaimTask_ok in Hrun as (x & t' & Hx & Ht' & _ & _ & _ & Hv & Hcase).
  simplify_eq. destruct Hcase as [[? _]|[_ (base & i & src & pl & Hs & _)]]; [done|].
  destruct (same_but_snapshots_tables _ _ (cl_frame _ _ _ _ _ _ _ _ _ _ _ Hs))
    as (Etk & Eev & Eex & _).
  destruct (cl_launch _ _ _ _ _ _ _ _ _ _ _ Hs) as (p & c & Hl & Ha & Hc & Hi).
  exists p, c, i, src, pl. rewrite (cl_result _ _ _ _ _ _ _ _ _ _ _ Hs). simpl.
  split_and!; [done..|by rewrite Etk|by eapply cl_event_new|by eapply cl_payload|by rewrite Eev|done].
Qed.

(** Retrying a claim is idempotent and exclusive: once a claim of a pending task has
    succeeded, the same command of the same Executor returns the same task and changes
    nothing, and no other command or Executor can ever claim it. *)
Theorem ClaimTask_retry req executor identity env db r db' req' executor' identity' env' r' db'' :
  run_tx (ClaimTask cfg req executor identity) env db = (Ok r, db') →
  run_tx (ClaimTask cfg req' executor' identity') env' db' = (r', db'') →
  cr_task req' = cr_task req →
  db'' = db' ∧
  match r' with
  | Ok c => cr_command req' = cr_command req ∧ executor' = executor ∧ cs_task c = cs_task r
  | Err _ => True
  end.
Proof using.
  intros Hr1 Hr2 Hid.
  assert (Hok : ∀ env2 c, run_tx (ClaimTask cfg req' executor' identity') env2 db' = (Ok c, db'') →
            db'' = db' ∧ cr_command req' = cr_command req ∧ executor' = executor ∧ cs_task c = cs_task r).
  { clear Hr2. intros env2 c Hr2. apply ClaimTask_ok in Hr2 as (x' & t' & _ & Ht' & _ & _ & _ & _ & Hcase').
    apply ClaimTask_claims in Hr1 as (row & Hrow & Hst & Hcmd & Hex & Hres).
    rewrite Hid in Ht'. simplify_eq.
    destruct Hcase' as [(_ & Hcmd' & Hex' & -> & Hres' & _)|[? _]]; [|done].
    split_and!; congruence. }
  destruct r' as [c|e]; [by eapply Hok|].
  apply run_tx_cases in Hr2 as [->|(env2 & c & Hr2)]; [done|by apply Hok in Hr2 as [-> _]|].
  apply ClaimTask_error_keeps.
Qed.

(** A task the Executor may not see is indistinguishable from a task that does not exist:
    for a task of another team or tag the claim answers exactly as if the row were absent,
    whatever the row holds. *)
Theorem ClaimTask_unrevealing req executor identity env db x t :
  db_executors db !! executor = Some x → db_tasks db !! cr_task req = Some t →
  claim_visible x t = false →
  run_tx (ClaimTask cfg req executor identity) env db
  = ((run_tx (ClaimTask cfg req executor identity) env
        (with_tasks (delete (cr_task req) (db_tasks db)) db)).1, db).
Proof using.
  intros Hx Ht Hv.
  unfold run_tx, ClaimTask, lock, begin_tx, query, exec, stmt, bind, begin_st. simpl.
  destruct (env_fault env 0); [done|]. simpl. destruct (env_fault env 1); [done|]. simpl.
  rewrite Hx. destruct (_ || _); [done|]. simpl.
  destruct (env_fault env 2); [done|]. simpl. destruct (env_fault env 3); [done|]. simpl.
  by rewrite Ht, Hv, lookup_delete_eq.
Qed.
End claim_properties.

Section registration_properties.
Context `{Collation, PgTime, JsonCodec}.

Definition registered (id : string) (req : RegistrationRequest) (now registered : Z)
    (metadata : string) : ExecutorRow :=
  mkExecutor id (rr_scope req) (rr_team req) (rr_type req) id (rr_tag req)
    (rr_max_capacity req) (rr_running_count req) metadata registered (pg_ts now).

Lemma RegisterExecutor_ok id req identity env db row db' :
  run_tx (RegisterExecutor id req identity) env db = (Ok row, db') →
  db' = with_executors (<[id := row]> (db_executors db)) db ∧ executor_ok row = true ∧
  xi_executor identity = id ∧ xi_scope identity = rr_scope req ∧ xi_team identity = rr_team req ∧
  match db_executors db !! id with
  | None => team_ref (rr_team req) db = true ∧ ∃ md,
      row = registered id req (env_db_now env) (pg_ts (env_db_now env)) md
  | Some x => ex_scope x = rr_scope req ∧ ex_team x = rr_team req ∧ ∃ md,
      row = mkExecutor (ex_id x) (rr_scope req) (rr_team req) (rr_type req) id (rr_tag req)
              (rr_max_capacity req) (rr_running_count req) md (ex_registered_at x)
              (pg_ts (env_db_now env))
  end.
Proof using.
  intros (st & Hr & ->)%run_tx_ok. unfold RegisterExecutor, lock in Hr.
  tx_inv; simpl in *; tx_states; to_prop;
    repeat match goal with H : sameTeam _ _ = true |- _ => apply sameTeam_eq in H end;
    match goal with H : ¬ (xi_executor _ ≠ _ ∨ _) |- _ =>
      apply Decidable.not_or in H as [? ?]; to_prop end;
    match goal with H : _ = db_executors _ !! _ |- _ => rewrite <- H; symmetry in H end.
  - match goal with H : update_registration _ _ _ _ = _ |- _ => unfold update_registration in H;
      rename H into Hu end.
    destruct (cast_metadata _) as [md|]; [|done].
    match goal with H : db_executors _ !! _ = _ |- _ => rewrite H in Hu; rename H into Hx end.
    destruct (update_executor _ _ _) eqn:Eu; [|done]. simplify_eq.
    apply (update_executor_ok _ _ _ _ _ Hx) in Eu as (_ & Hok & ->).
    split_and!; try done; try congruence. exists md. congruence.
  - match goal with H : insert_registration _ _ _ _ = _ |- _ => unfold insert_registration in H;
      rename H into Hu end.
    destruct (cast_metadata _) as [md|]; [|done].
    destruct (insert_executor _ _) eqn:Eu; [|done]. simplify_eq.
    apply insert_executor_ok in Eu as (_ & Hok & Href & ->).
    split_and!; try done. by exists md.
Qed.

(** Registration never moves an Executor: refreshing an existing registration keeps its
    scope, its team and its registration time, replaces the observed attributes by the
    request's, and touches no other row. *)
Theorem RegisterExecutor_preserves id req identity env db row db' x :
  run_tx (RegisterExecutor id req identity) env db = (Ok row, db') →
  db_executors db !! id = Some x →
  ex_scope row = ex_scope x ∧ ex_team row = ex_team x ∧
  ex_registered_at row = ex_registered_at x ∧ ex_tag row = rr_tag req ∧
  ex_max_capacity row = rr_max_capacity req ∧ ex_running_count row = rr_running_count req ∧
  0 ≤ ex_max_capacity row < 2 ^ 31 ∧ 0 ≤ ex_running_count row < 2 ^ 31 ∧
  db' = with_executors (<[id := row]> (db_executors db)) db.
Proof using.
  intros (Hd & Hok & _ & _ & _ & Hm)%RegisterExecutor_ok Hx. rewrite Hx in Hm.
  apply executor_ok_bounds in Hok. destruct Hm as (Hs & Ht & md & ->). split_and!; try done; tauto.
Qed.

(** Discovery lists, oldest first, eligible pending tasks of the Executor's tag and team
    only, at most [limit] of them, and omits an eligible task only behind [limit] that are
    not younger. *)
Theorem DiscoverExecutorTasks_complete id tag limit env db l db' x :
  run_tx (DiscoverExecutorTasks id tag limit) env db = (Ok l, db') →
  db_executors db !! id = Some x →
  db' = db ∧ tag = ex_tag x ∧ ∃ ts,
    l = summary <$> ts ∧ (length ts ≤ limit)%nat ∧ StronglySorted fifo_le ts ∧
    (∀ t, t ∈ ts → eligible tag (ex_scope x) (ex_team x) t = true ∧
                   ∃ k, db_tasks db !! k = Some t) ∧
    (∀ k t, db_tasks db !! k = Some t → eligible tag (ex_scope x) (ex_team x) t = true →
            t ∈ ts ∨ (length ts = limit ∧ ∀ t', t' ∈ ts → fifo_le t' t)).
Proof using.
  intros Hr Hx. pose proof Hr as Hd. apply run_tx_never_commits in Hd;
    [|unfold DiscoverExecutorTasks; tx_atomic].
  apply run_tx_ok in Hr as (st & Hr & _). unfold DiscoverExecutorTasks in Hr.
  tx_inv; simpl in *; tx_states; to_prop.
  match goal with H : Some ?e = db_executors _ !! _ |- _ => assert (e = x) as -> by congruence end.
  assert (tag = ex_tag x) as -> by done. split; [done|]. split; [done|].
  eexists. split; [reflexivity|]. unfold discovered.
  destruct (take_order_by fifo_le limit
              (filter (λ t, eligible (ex_tag x) (ex_scope x) (ex_team x) t)
                 (rows (db_tasks db)))) as (Hl & Hs & Hsel & Hall).
  split_and!; [done..| |].
  - intros t [He Hin]%Hsel%list_elem_of_filter. apply elem_of_rows in Hin.
    split; [by apply Is_true_true|done].
  - intros k t Hk He. apply Hall, list_elem_of_filter. split; [by rewrite He|].
    apply elem_of_rows. eauto.
Qed.
End registration_properties.


(** ** The properties on the small registry *)

Section witnesses.
#[local] Existing Instances pg_micros collation_C time_bits json_plain token_fields image_plain.

Definition fx_claim : TxS ClaimResponse :=
  ClaimTask fx_config (mkClaimRequest "t1" "cmd") "ex1" (fx_identity "ex1").

Definition fx_registration : RegistrationRequest :=
  mkRegistration ScopeTeam (Some "team") "docker" "tag" 5 1 "{}".

Lemma fx_keyed : tasks_keyed fx_db.
Proof. unfold tasks_keyed. apply (bool_decide_unpack _). vm_compute. exact I. Qed.

Lemma ClaimTask_fifo_witness :
  head (discovered "tag" ScopeTeam (Some "team") 5 fx_db) = Some (fx_task "t1" 1000).
Proof.
  destruct (run_tx fx_claim (fx_env 5000) fx_db) as [[r|e] db'] eqn:E;
    [|vm_compute in E; discriminate].
  apply (ClaimTask_fifo _ _ _ _ _ _ _ _ (fx_executor "ex1") _ 4 fx_keyed E); reflexivity.
Defined.

(** Three definitions: the team overrides a global value, and a secret of the type a value of the team. *)
Definition fx_definition (id : string) (team : option string) (scope : string) (tt : option string)
    (values : gmap string string) (image : option string) : EnvDefRow :=
  mkEnvDef id team (Some scope) tt id values image 1 false 0 0.
Definition fx_layered_db : DB :=
  with_envs
    (<["g" := fx_definition "g" None "global" None {["A" := "1"; "B" := "1"]} (Some "global@sha")]>
    (<["m" := fx_definition "m" (Some "team") "team" None {["B" := "2"; "C" := "2"]} (Some "own@sha")]>
     {["y" := fx_definition "y" (Some "team") "task_type" (Some "type") ∅ None]}))
  (with_secrets {["s" := mkSecret "s" (Some "team") "y" "C" false (Some 3) 0 0]}
  (with_secret_versions {[("s", 3) := mkSecretVersion (Some "team") "c" "n" "t" "k" 1 0]} fx_db)).

Example claim_freezes :
  (λ d : DB, (sn_values <$> db_snapshots d !! "t1", (λ r, (sr_secret r, sr_version r)) <$> db_secret_refs d !! ("t1", "C"),
     (λ t, (tk_resolved_image t, tk_image_source t)) <$> db_tasks d !! "t1")) (run_tx fx_claim (fx_env 5000) fx_layered_db).2
  = (Some {["A" := "1"; "B" := "2"]}, Some ("s", 3),
     Some (Some (mkImage "own" "sha"), Some "team_launch_parameters")).
Proof. vm_compute. reflexivity. Qed.

Lemma ClaimTask_effect_witness : ∃ r db' p payload,
  run_tx fx_claim (fx_env 5000) fx_layered_db = (Ok r, db') ∧
  launch_parameters fx_layered_db "team" "type" p ∧
  db_snapshots db' !! "t1" = Some (mkSnapshot "team" (ly_values p)) ∧
  db_task_events db' = <["evt-t1" := mkTaskEvent "evt-t1" "team" "t1" "ex1" TypeCreated 5000
                                       payload]> ∅.
Proof.
  destruct (run_tx fx_claim (fx_env 5000) fx_layered_db) as [[r|e] db'] eqn:E;
    [|vm_compute in E; discriminate].
  destruct (ClaimTask_effect _ _ _ _ _ _ _ _ (fx_task "t1" 1000) E eq_refl eq_refl)
    as (p & c & i & s & payload & Hl & [Hs _] & _ & _ & _ & _ & _ & Hev & _).
  exists r, db', p, payload. split; [reflexivity|]. split; [exact Hl|]. split; [exact (Hs "t1")|exact Hev].
Defined.

Lemma ClaimTask_retry_witness :
  let db' := (run_tx fx_claim (fx_env 5000) fx_db).2 in
  (run_tx fx_claim (fx_env 9000) db').2 = db' ∧
  is_ok (run_tx fx_claim (fx_env 9000) db').1 = true.
Proof.
  destruct (run_tx fx_claim (fx_env 5000) fx_db) as [[r|e] db'] eqn:E;
    [|vm_compute in E; discriminate].
  cbv zeta. simpl snd.
  destruct (run_tx fx_claim (fx_env 9000) db') as [r' db''] eqn:E'.
  split; [exact (proj1 (ClaimTask_retry _ _ _ _ _ _ _ _ _ _ _ _ _ _ E E' eq_refl))|].
  vm_compute in E. injection E as <- <-. vm_compute in E'. injection E' as <- <-. reflexivity.
Defined.

Lemma ClaimTask_unrevealing_witness :
  run_tx (ClaimTask fx_config (mkClaimRequest "t1" "cmd") "ex3" (fx_identity "ex3")) (fx_env 5000)
    (with_executors {["ex3" := mkExecutor "ex3" ScopeTeam (Some "team") "docker" "ex3" "other"
                                 2 0 "{}" 0 0]} fx_db)
  = (Err ErrTaskNotFound,
     with_executors {["ex3" := mkExecutor "ex3" ScopeTeam (Some "team") "docker" "ex3" "other"
                                 2 0 "{}" 0 0]} fx_db).
Proof.
  erewrite ClaimTask_unrevealing; [|reflexivity..]. f_equal. 
Defined.

Lemma RegisterExecutor_preserves_witness : ∃ row db',
  run_tx (RegisterExecutor "ex1" fx_registration (fx_identity "ex1")) (fx_env 7000) fx_db
  = (Ok row, db') ∧ ex_max_capacity row = 5 ∧ ex_registered_at row = 0.
Proof.
  destruct (run_tx (RegisterExecutor "ex1" fx_registration (fx_identity "ex1")) (fx_env 7000) fx_db)
    as [[r|e] db'] eqn:E; [|vm_compute in E; discriminate].
  exists r, db'. split; [reflexivity|].
  destruct (RegisterExecutor_preserves _ _ _ _ _ _ _ (fx_executor "ex1") E eq_refl)
    as (_ & _ & Hr & _ & Hc & _).
  split; [exact Hc|exact Hr].
Defined.

Lemma DiscoverExecutorTasks_complete_witness : ∃ l db',
  run_tx (DiscoverExecutorTasks "ex1" "tag" 1) (fx_env 7000) fx_db = (Ok l, db') ∧ db' = fx_db ∧
  su_task <$> l = ["t1"].
Proof.
  destruct (run_tx (DiscoverExecutorTasks "ex1" "tag" 1) (fx_env 7000) fx_db)
    as [[r|e] db'] eqn:E; [|vm_compute in E; discriminate].
  exists r, db'. split; [reflexivity|].
  split; [exact (proj1 (DiscoverExecutorTasks_complete _ _ _ _ _ _ _ (fx_executor "ex1") E eq_refl))|].
  vm_compute in E. injection E as <- _. reflexivity.
Defined.
End witnesses.
