(* ===== verification/Admin.v ===== *)
(** * Administration (store/admin.go)

    System administrators create teams, rename and archive them, and create the source systems
    and task types of a team. Team changes are audited with their details. *)

From stdpp Require Import base gmap strings list sorting.
From S2P Require Import Prelude Platform Tx Schema Store GoStrings Fixtures.
#[local] Open Scope Z_scope.

(** ** Wire types (platform/admin.go) *)

Record CreateTeamRequest : Type := mkCreateTeam { qt_name : string; qt_image : string }.
Record UpdateTeamRequest : Type := mkUpdateTeam {
  qu_name : option string; qu_image : option string }.
Record CreateSourceSystemRequest : Type := mkCreateSource {
  qs_team : string; qs_listener : string; qs_image : option ImageReference }.
Record CreateTaskTypeRequest : Type := mkCreateType {
  qy_team : string; qy_tag : string; qy_image : option ImageReference }.

Section admin.
Context `{PgTime}.

(** ** Error classes *)

Definition classifyTeamError (e : sql_error) : StoreError :=
  match e with
  | SqlState code con =>
      if bool_decide (code = unique_violation ∧ con = "teams_team_name_key") then ErrTeamNameConflict
      else ErrWrap "persist team" e
  | _ => ErrWrap "persist team" e
  end.

Definition classifySourceSystemError (e : sql_error) : StoreError :=
  match e with
  | SqlState code con =>
      if bool_decide (code = unique_violation ∧ con = "source_systems_listener_identity_key")
      then ErrListenerIdentityConflict
      else if bool_decide (code = foreign_key_violation) then ErrTeamNotFound
      else ErrWrap "create source system" e
  | _ => ErrWrap "create source system" e
  end.

Definition classifyTaskTypeError (e : sql_error) : StoreError :=
  match e with
  | SqlState code _ =>
      if bool_decide (code = foreign_key_violation) then ErrTeamNotFound
      else ErrWrap "create task type" e
  | _ => ErrWrap "create task type" e
  end.

(** ** Teams *)

Definition TeamExists (team : string) : TxS bool :=
  query (ErrWrap "check team existence") (λ d, bool_decide (is_Some (db_teams d !! team))).

(** scanTeam: no row is an unknown team. *)
Definition scan_team (team : string) : TxS TeamRow :=
  t <- query (ErrWrap "read team") (λ d, db_teams d !! team) ;;
  match t with Some t => ret t | None => throw ErrTeamNotFound end.

Definition GetTeam (team : string) : TxS TeamRow := scan_team team.

Definition non_empty (s fallback : string) : string := if bool_decide (s = "") then fallback else s.

Definition team_audit_row (id team action : string) (ident : AdminIdentity) (at_ : Z) : AuditRow :=
  mkAudit id (Some team) (non_empty (trim_space (ai_subject ident)) "system-administrator")
    "system_administrator" action "team" team
    (non_empty (trim_space (ai_request ident)) "request-unknown") "succeeded" None at_.

Definition team_detail (team : TeamRow) (old : option TeamRow) : TeamAuditRow :=
  mkTeamAudit (tm_name <$> old) (tm_name team) (tm_default_image <$> old) (tm_default_image team)
    (tm_archived_at team).

Definition appendTeamAudit (team : TeamRow) (old : option TeamRow) (action : string)
    (ident : AdminIdentity) : TxS () :=
  id <- fresh_uuid ;;
  exec (ErrWrap "append team audit")
    (λ at_, insert_audit (team_audit_row id (tm_id team) action ident (pg_ts at_))) ;;;
  exec (ErrWrap "append team audit details") (λ _, insert_team_audit id (team_detail team old)).

Definition insert_new_team (id : string) (req : CreateTeamRequest) (now : Z) (d : DB) :
    result sql_error (DB * TeamRow) :=
  let t := mkTeam id (qt_name req) (qt_image req) (pg_ts now) None in
  match insert_team t d with Ok d' => Ok (d', t) | Err e => Err e end.

Definition CreateTeam (req : CreateTeamRequest) (ident : AdminIdentity) : TxS TeamRow :=
  begin_tx (ErrWrap "begin create team") ;;;
  id <- fresh_uuid ;;
  team <- exec_returning classifyTeamError (insert_new_team id req) ;;
  appendTeamAudit team None "team.create" ident ;;;
  commit (ErrWrap "commit create team") ;;;
  ret team.

(** UPDATE teams ... RETURNING: no row is an unknown team. *)
Definition update_returning (team : string) (f : TeamRow → TeamRow) (d : DB) :
    result sql_error (DB * option TeamRow) :=
  match update_team team f d with Ok d' => Ok (d', db_teams d' !! team) | Err e => Err e end.

Definition rename_team (req : UpdateTeamRequest) (t : TeamRow) : TeamRow :=
  mkTeam (tm_id t) (default (tm_name t) (qu_name req)) (default (tm_default_image t) (qu_image req))
    (tm_ingested_at t) (tm_archived_at t).

Definition UpdateTeam (team : string) (req : UpdateTeamRequest) (ident : AdminIdentity) :
    TxS TeamRow :=
  begin_tx (ErrWrap "begin update team") ;;;
  current <- scan_team team ;;
  updated <- exec_returning classifyTeamError (λ _, update_returning team (rename_team req)) ;;
  match updated with
  | None => throw ErrTeamNotFound
  | Some t =>
      appendTeamAudit t (Some current) "team.update" ident ;;;
      commit (ErrWrap "commit update team") ;;;
      ret t
  end.

Definition archive_row (at_ : Z) (t : TeamRow) : TeamRow :=
  mkTeam (tm_id t) (tm_name t) (tm_default_image t) (tm_ingested_at t) (Some at_).

Definition ArchiveTeam (team : string) (ident : AdminIdentity) : TxS (TeamRow * bool) :=
  begin_tx (ErrWrap "begin archive team") ;;;
  current <- scan_team team ;;
  if bool_decide (is_Some (tm_archived_at current)) then
    commit (ErrWrap "commit archive read") ;;; ret (current, false)
  else
    archived <- exec_returning (ErrWrap "read team")
                  (λ now, update_returning team (archive_row (pg_ts now))) ;;
    match archived with
    | None => throw ErrTeamNotFound
    | Some t =>
        appendTeamAudit t (Some current) "team.archive" ident ;;;
        commit (ErrWrap "commit archive team") ;;;
        ret (t, true)
    end.

(** ** Source systems and task types *)

Definition insert_new_source (id : string) (req : CreateSourceSystemRequest) (now : Z) (d : DB) :
    result sql_error (DB * SourceRow) :=
  let s := mkSource id (qs_team req) (qs_listener req) (qs_image req) (pg_ts now) (pg_ts now) in
  match insert_source s d with Ok d' => Ok (d', s) | Err e => Err e end.

Definition CreateSourceSystem (req : CreateSourceSystemRequest) : TxS SourceRow :=
  begin_tx (ErrWrap "begin create source system") ;;;
  id <- fresh_uuid ;;
  s <- exec_returning classifySourceSystemError (insert_new_source id req) ;;
  commit (ErrWrap "commit create source system") ;;;
  ret s.

Definition insert_new_type (id : string) (req : CreateTaskTypeRequest) (now : Z) (d : DB) :
    result sql_error (DB * TaskTypeRow) :=
  let t := mkTaskType id (qy_team req) (qy_tag req) (qy_image req) (pg_ts now) (pg_ts now) in
  match insert_task_type t d with Ok d' => Ok (d', t) | Err e => Err e end.

Definition CreateTaskType (req : CreateTaskTypeRequest) : TxS TaskTypeRow :=
  begin_tx (ErrWrap "begin create task type") ;;;
  id <- fresh_uuid ;;
  t <- exec_returning classifyTaskTypeError (insert_new_type id req) ;;
  commit (ErrWrap "commit create task type") ;;;
  ret t.

(** ** What a run establishes *)

Lemma appendTeamAudit_never_commits t o a i : never_commits (appendTeamAudit t o a i).
Proof using. unfold appendTeamAudit. tx_atomic. Qed.
Lemma scan_team_never_commits t : never_commits (scan_team t).
Proof using. unfold scan_team. tx_atomic. Qed.

Ltac admin_atomic :=
  pose proof appendTeamAudit_never_commits; pose proof scan_team_never_commits; tx_atomic.

Lemma CreateTeam_error_keeps req ident : error_keeps (CreateTeam req ident).
Proof using. unfold CreateTeam. admin_atomic. Qed.
Lemma UpdateTeam_error_keeps team req ident : error_keeps (UpdateTeam team req ident).
Proof using. unfold UpdateTeam. admin_atomic. Qed.
Lemma ArchiveTeam_error_keeps team ident : error_keeps (ArchiveTeam team ident).
Proof using. unfold ArchiveTeam. admin_atomic. Qed.
Lemma CreateSourceSystem_error_keeps req : error_keeps (CreateSourceSystem req).
Proof using. unfold CreateSourceSystem. tx_atomic. Qed.
Lemma CreateTaskType_error_keeps req : error_keeps (CreateTaskType req).
Proof using. unfold CreateTaskType. tx_atomic. Qed.

Lemma scan_team_ok team env st t st' :
  scan_team team env st = (Ok t, st') →
  db_teams (ts_db st) !! team = Some t ∧ ts_db st' = ts_db st ∧
  ts_durable st' = ts_durable st ∧ ts_uuid st' = ts_uuid st.
Proof using.
  unfold scan_team. intros Hr. tx_inv. by tx_states.
Qed.

(** An audited change: the entry and its details. *)
Definition audited (id : string) (a : AuditRow) (detail : TeamAuditRow) (d : DB) : DB :=
  with_team_audit (<[id := detail]> (db_team_audit d)) (with_audit (<[id := a]> (db_audit d)) d).

Lemma appendTeamAudit_ok team old action ident env st u st' :
  appendTeamAudit team old action ident env st = (Ok u, st') →
  ts_durable st' = ts_durable st ∧ ∃ id, db_audit (ts_db st) !! id = None ∧
    ts_db st' = audited id (team_audit_row id (tm_id team) action ident (pg_ts (env_db_now env)))
                  (team_detail team old) (ts_db st).
Proof using.
  unfold appendTeamAudit. intros Hr. tx_inv. tx_states.
  match goal with H : insert_audit _ _ = _ |- _ => apply insert_audit_ok in H as (Hn & _ & Hd) end.
  match goal with H : insert_team_audit _ _ _ = _ |- _ => unfold insert_team_audit in H; checks_in H;
    rename H into Hi end.
  split; [congruence|]. injection Hi as Hi. rewrite <- Hi, Hd. by eexists.
Qed.

Lemma update_returning_ok team f d d' o t :
  db_teams d !! team = Some t → update_returning team f d = Ok (d', o) →
  o = Some (f t) ∧ d' = with_teams (<[team := f t]> (db_teams d)) d ∧ tm_id (f t) = tm_id t ∧
  tm_ingested_at (f t) = tm_ingested_at t ∧
  (tm_archived_at t = None ∨ tm_archived_at (f t) = tm_archived_at t) ∧
  team_name_free team (tm_name (f t)) d = true.
Proof using.
  unfold update_returning, update_team. intros Ht. rewrite Ht. intros Hu.
  destruct (check _ _ _ _) as [d2|] eqn:Hc; [|done]. checks_in Hc. simplify_eq/=.
  by rewrite lookup_insert_eq.
Qed.

(** A successful update or archival of a team: the change of the row and its audit. *)
Lemma UpdateTeam_ok team req ident env db t' db' :
  run_tx (UpdateTeam team req ident) env db = (Ok t', db') →
  ∃ t id, db_teams db !! team = Some t ∧ t' = rename_team req t ∧ db_audit db !! id = None ∧
    team_name_free team (tm_name t') db = true ∧
    db' = audited id (team_audit_row id (tm_id t') "team.update" ident (pg_ts (env_db_now env)))
            (team_detail t' (Some t)) (with_teams (<[team := t']> (db_teams db)) db).
Proof using.
  intros (st & Hr & ->)%run_tx_ok. unfold UpdateTeam in Hr. tx_inv. simpl in *.
  use_ok scan_team_ok. use_ok appendTeamAudit_ok. tx_states.
  match goal with Ht : db_teams _ !! _ = Some ?t, Hu : update_returning _ _ _ = _ |- _ =>
    apply (update_returning_ok _ _ _ _ _ _ Ht) in Hu as (Ho & Hd & _ & _ & _ & Hfree); exists t end.
  match goal with H : ∃ _, _ |- _ => destruct H as (id & Hid & Hd') end. exists id.
  rewrite Hd in Hid, Hd'. simplify_eq. by split_and!.
Qed.

Lemma ArchiveTeam_ok team ident env db t' changed db' :
  run_tx (ArchiveTeam team ident) env db = (Ok (t', changed), db') →
  ∃ t, db_teams db !! team = Some t ∧
    if changed then
      tm_archived_at t = None ∧ t' = archive_row (pg_ts (env_db_now env)) t ∧
      ∃ id, db_audit db !! id = None ∧
        db' = audited id (team_audit_row id (tm_id t') "team.archive" ident (pg_ts (env_db_now env)))
                (team_detail t' (Some t)) (with_teams (<[team := t']> (db_teams db)) db)
    else is_Some (tm_archived_at t) ∧ t' = t ∧ db' = db.
Proof using.
  intros (st & Hr & ->)%run_tx_ok. unfold ArchiveTeam in Hr. tx_inv; simpl in *; to_prop;
    use_ok scan_team_ok.
  - tx_states. simplify_eq. by eexists.
  - use_ok appendTeamAudit_ok. tx_states.
    match goal with Ht : db_teams _ !! _ = Some ?t, Hu : update_returning _ _ _ = _ |- _ =>
      apply (update_returning_ok _ _ _ _ _ _ Ht) in Hu as (Ho & Hd & _); exists t end.
    match goal with H : ∃ _, _ |- _ => destruct H as (id & Hid & Hd') end.
    rewrite Hd in Hid, Hd'. simplify_eq. split_and!; [done|by apply eq_None_not_Some|done|].
    by exists id.
Qed.

Lemma CreateTeam_ok req ident env db t db' :
  run_tx (CreateTeam req ident) env db = (Ok t, db') →
  db_teams db !! tm_id t = None ∧ team_name_free (tm_id t) (tm_name t) db = true ∧
  tm_name t = qt_name req ∧ tm_archived_at t = None ∧ ∃ id a,
    db_audit db !! id = None ∧ au_id a = id ∧
    db' = audited id a (team_detail t None) (with_teams (<[tm_id t := t]> (db_teams db)) db).
Proof using.
  intros (st & Hr & ->)%run_tx_ok. unfold CreateTeam in Hr. tx_inv. simpl in *.
  use_ok appendTeamAudit_ok. tx_states.
  match goal with H : insert_new_team _ _ _ _ = _ |- _ => unfold insert_new_team in H; rename H into Hi end.
  destruct (insert_team _ _) eqn:Et; [|done]. simplify_eq.
  apply insert_team_ok in Et as (Hnew & Hfree & Hd). simpl in *.
  match goal with H : ∃ _, _ |- _ => destruct H as (id & Hid & Hd') end.
  rewrite Hd in Hid, Hd'. simpl in *. split_and!; try done. exists id. eexists. split_and!; [exact Hid| |exact Hd']. done.
Qed.

Lemma CreateSourceSystem_ok req env db s db' :
  run_tx (CreateSourceSystem req) env db = (Ok s, db') →
  db_sources db !! ss_id s = None ∧ ss_team s = qs_team req ∧ is_Some (db_teams db !! ss_team s) ∧
  (∀ k s', db_sources db !! k = Some s' → ss_listener s' ≠ ss_listener s) ∧
  db' = with_sources (<[ss_id s := s]> (db_sources db)) db.
Proof using.
  intros (st & Hr & ->)%run_tx_ok. unfold CreateSourceSystem in Hr. tx_inv. simpl in *. tx_states.
  match goal with H : insert_new_source _ _ _ _ = _ |- _ => unfold insert_new_source in H end.
  destruct (insert_source _ _) eqn:Et; [|done]. simplify_eq.
  by apply insert_source_ok in Et as (Hnew & Hteam & Huniq & ->).
Qed.

Lemma CreateTaskType_ok req env db t db' :
  run_tx (CreateTaskType req) env db = (Ok t, db') →
  db_types db !! tt_id t = None ∧ tt_team t = qy_team req ∧ is_Some (db_teams db !! tt_team t) ∧
  db' = with_types (<[tt_id t := t]> (db_types db)) db.
Proof using.
  intros (st & Hr & ->)%run_tx_ok. unfold CreateTaskType in Hr. tx_inv. simpl in *. tx_states.
  match goal with H : insert_new_type _ _ _ _ = _ |- _ => unfold insert_new_type in H end.
  destruct (insert_task_type _ _) eqn:Et; [|done]. simplify_eq.
  by apply insert_task_type_ok in Et as (Hnew & Hteam & ->).
Qed.
End admin.

(** ** Properties *)

Section admin_properties.
Context `{PgTime}.

(** Archiving is idempotent and final: a repeated archival returns the team as the first one
    left it, with the original archival time, and writes nothing. *)
Theorem ArchiveTeam_idempotent team ident ident' env env' db t changed db' t' changed' db'' :
  run_tx (ArchiveTeam team ident) env db = (Ok (t, changed), db') →
  run_tx (ArchiveTeam team ident') env' db' = (Ok (t', changed'), db'') →
  t' = t ∧ changed' = false ∧ db'' = db'.
Proof using.
  intros (t0 & Ht0 & Hc)%ArchiveTeam_ok (t1 & Ht1 & Hc')%ArchiveTeam_ok.
  assert (db_teams db' !! team = Some t ∧ is_Some (tm_archived_at t)) as [Ht Ha].
  { destruct changed.
    - destruct Hc as (_ & -> & id & _ & ->). simpl. rewrite lookup_insert_eq. eauto.
    - by destruct Hc as (? & -> & ->). }
  simplify_eq. destruct changed'.
  - destruct Hc' as (Hn & _). rewrite Hn in Ha. by apply is_Some_None in Ha.
  - by destruct Hc' as (_ & -> & ->).
Qed.

(** Updating a team changes its name and default image as requested and nothing else of it,
    keeps team names unique, and records the old and the new values. *)
Theorem UpdateTeam_effect team req ident env db t' db' :
  run_tx (UpdateTeam team req ident) env db = (Ok t', db') →
  (∀ k k' a b, db_teams db !! k = Some a → db_teams db !! k' = Some b → tm_name a = tm_name b → k = k') →
  ∃ t id, db_teams db !! team = Some t ∧
    t' = mkTeam (tm_id t) (default (tm_name t) (qu_name req))
           (default (tm_default_image t) (qu_image req)) (tm_ingested_at t) (tm_archived_at t) ∧
    db_teams db' = <[team := t']> (db_teams db) ∧
    (∀ k k' a b, db_teams db' !! k = Some a → db_teams db' !! k' = Some b → tm_name a = tm_name b →
       k = k') ∧
    db_team_audit db' !! id
    = Some (mkTeamAudit (Some (tm_name t)) (tm_name t') (Some (tm_default_image t))
              (tm_default_image t') (tm_archived_at t)) ∧
    db_tasks db' = db_tasks db.
Proof using.
  intros (t & id & Ht & -> & _ & Hfree & ->)%UpdateTeam_ok Huniq.
  exists t, id. split_and!; try done; simpl; [|by rewrite lookup_insert_eq].
  apply bool_decide_eq_true in Hfree.
  intros k k' a b Ha Hb E.
  apply lookup_insert_Some in Ha as [[<- <-]|[Hk Ha]];
    apply lookup_insert_Some in Hb as [[<- <-]|[Hk' Hb]]; [done| | |by eapply Huniq].
  - destruct (Hfree _ _ Hb); congruence.
  - destruct (Hfree _ _ Ha); congruence.
Qed.

(** A team name is claimed once: creating a team under a name that is taken reports the
    conflict, when the server answers every statement, and leaves the registry as it was. *)
Theorem CreateTeam_conflict req ident env db k t :
  (∀ n, env_fault env n = false) → db_teams db !! k = Some t → tm_name t = qt_name req →
  db_teams db !! env_uuid env 0 = None → nonblank (qt_name req) = true →
  run_tx (CreateTeam req ident) env db = (Err ErrTeamNameConflict, db).
Proof using.
  intros Hnf Hk Hname Hnew Hnb.
  unfold run_tx, CreateTeam, begin_tx, exec_returning, fresh_uuid, stmt, bind, begin_st. simpl.
  rewrite !Hnf. simpl. unfold insert_new_team, insert_team, check. simpl.
  rewrite bool_decide_eq_true_2 by done. rewrite Hnb.
  assert (team_name_free (env_uuid env 0) (qt_name req) db = false) as ->; [|done].
  apply bool_decide_eq_false_2. intros Hall. destruct (Hall _ _ Hk); congruence.
Qed.
End admin_properties.

(** ** The properties on the small registry *)

Section witnesses.
#[local] Existing Instances pg_micros.

Definition fx_admin : AdminIdentity := mkAdminIdentity " root " "req".

Lemma ArchiveTeam_idempotent_witness :
  let db := (run_tx (ArchiveTeam "team" fx_admin) (fx_env 7000) fx_db).2 in
  run_tx (ArchiveTeam "team" fx_admin) (fx_env_named "b" 9000) db
  = (Ok (archive_row 7000 fx_team, false), db).
Proof.
  destruct (run_tx (ArchiveTeam "team" fx_admin) (fx_env 7000) fx_db) as [[[t c]|e] db'] eqn:E;
    [|vm_compute in E; discriminate E].
  cbv zeta. cbn [snd].
  destruct (run_tx (ArchiveTeam "team" fx_admin) (fx_env_named "b" 9000) db')
    as [[[t' c']|e] db''] eqn:E'.
  - destruct (ArchiveTeam_idempotent _ _ _ _ _ _ _ _ _ _ _ _ E E') as (-> & -> & ->).
    vm_compute in E. injection E as <- _ _. reflexivity.
  - vm_compute in E. injection E as _ _ <-. vm_compute in E'. discriminate E'.
Defined.

Lemma UpdateTeam_effect_witness : ∃ t' db',
  run_tx (UpdateTeam "team" (mkUpdateTeam (Some "New") None) fx_admin) (fx_env 7000) fx_db
  = (Ok t', db') ∧ db_tasks db' = db_tasks fx_db ∧ tm_name t' = "New".
Proof.
  destruct (run_tx (UpdateTeam "team" (mkUpdateTeam (Some "New") None) fx_admin) (fx_env 7000) fx_db)
    as [[t'|e] db'] eqn:E; [|vm_compute in E; discriminate E].
  destruct (UpdateTeam_effect _ _ _ _ _ _ _ E) as (t & id & _ & Ht & _ & _ & _ & Hd).
  - intros k k' a b Ha Hb _. change (db_teams fx_db) with ({["team" := fx_team]} : gmap string TeamRow) in Ha, Hb.
    apply lookup_singleton_Some in Ha as [<- _].
    apply lookup_singleton_Some in Hb as [<- _]. reflexivity.
  - exists t', db'. split; [reflexivity|]. split; [exact Hd|]. rewrite Ht. reflexivity.
Defined.

Lemma CreateTeam_conflict_witness :
  run_tx (CreateTeam (mkCreateTeam "Team" "image@digest") fx_admin) (fx_env 7000) fx_db
  = (Err ErrTeamNameConflict, fx_db).
Proof.
  apply (CreateTeam_conflict _ _ _ _ "team" fx_team); [intros n; reflexivity|reflexivity..].
Defined.
End witnesses.
