(* ===== verification/Listener.v ===== *)
(** * Ingestion (store/listener.go)

    A listener hands over the work items of one source system; each becomes a pending task, at
    most one per source identifier. *)

From stdpp Require Import base gmap strings list sorting.
From S2P Require Import Prelude Platform Tx Schema Store Fixtures Claim.
#[local] Open Scope Z_scope.

(** platform.TaskIngestionRequest: the deprecated environment_id is not read by the store. *)
Record TaskIngestionRequest : Type := mkIngestion {
  ir_team : string; ir_source_system : string; ir_source_id : string; ir_type : string;
  ir_payload : string; ir_project : option string; ir_image : option ImageReference }.

(** date_trunc('second', t). *)
Definition trunc_second (t : Z) : Z := 10 ^ 9 * (t / 10 ^ 9).

Section ingestion.
Context `{PgTime, JsonCodec, JsonCompact, TimeCodec}.

(** The source system binding: team, source system and listener identity in one row. *)
Definition binding_exists (ident : ListenerIdentity) (d : DB) : bool :=
  match db_sources d !! li_source_system ident with
  | Some s => bool_decide (ss_team s = li_team ident ∧ ss_listener s = li_identity ident)
  | None => false
  end.

Definition execution_tag (team type : string) (d : DB) : option string :=
  match db_types d !! type with
  | Some t => if bool_decide (tt_team t = team) then Some (tt_tag t) else None
  | None => None
  end.

Definition pending_row (id : string) (ident : ListenerIdentity) (req : TaskIngestionRequest)
    (tag payload : string) (ingested : Z) : TaskRow :=
  mkTask id (li_team ident) (li_source_system ident) (ir_source_id req) (ir_type req) tag payload
    StatePending None None (ir_project req) (ir_image req) None None ingested None.

(** INSERT ... ON CONFLICT DO NOTHING RETURNING. *)
Definition insert_pending (id : string) (ident : ListenerIdentity) (req : TaskIngestionRequest)
    (tag payload : string) (now : Z) (d : DB) : result sql_error (DB * option TaskRow) :=
  match jsonb_cast payload with
  | None => Err (SqlState invalid_text "payload")
  | Some p => insert_task_once (pending_row id ident req tag p (trunc_second (pg_ts now))) d
  end.

Definition reread_task (ident : ListenerIdentity) (req : TaskIngestionRequest) (d : DB) :
    result sql_error TaskRow :=
  match task_by_source (li_team ident) (li_source_system ident) (ir_source_id req) d with
  | Some t => Ok t
  | None => Err SqlScan
  end.

Definition IngestTask (req : TaskIngestionRequest) (ident : ListenerIdentity) :
    TxS (TaskListEntry * bool) :=
  if bool_decide (ir_team req ≠ li_team ident ∨ ir_source_system req ≠ li_source_system ident)
  then throw ErrListenerSourceMismatch else
  match json_remarshal (ir_payload req) with
  | None => throw (ErrText "marshal listener payload")
  | Some payload =>
  begin_tx (ErrWrap "begin ingest task") ;;;
  team <- query (ErrWrap "lock listener team") (λ d, db_teams d !! li_team ident) ;;
  match team with
  | None => throw ErrListenerSourceMismatch
  | Some m =>
  if bool_decide (is_Some (tm_archived_at m)) then throw ErrTeamArchived else
  bound <- query (ErrWrap "verify source binding") (binding_exists ident) ;;
  if negb bound then throw ErrListenerSourceMismatch else
  tag <- query (ErrWrap "resolve task type tag") (execution_tag (li_team ident) (ir_type req)) ;;
  match tag with
  | None => throw ErrListenerTaskTypeUnknown
  | Some tag =>
  id <- fresh_uuid ;;
  inserted <- exec_returning (ErrWrap "insert pending task") (insert_pending id ident req tag payload) ;;
  match inserted with
  | None =>
      t <- query_scan (ErrWrap "re-read canonical task") (reread_task ident req) ;;
      commit (ErrWrap "commit dedupe") ;;;
      ret (scanTaskRow t, false)
  | Some t =>
      commit (ErrWrap "commit ingest") ;;;
      ret (scanTaskRow t, true)
  end
  end
  end
  end.

(** ** What a run establishes *)

Lemma IngestTask_error_keeps req ident : error_keeps (IngestTask req ident).
Proof using. unfold IngestTask. tx_atomic. Qed.

Lemma insert_pending_ok id ident req tag payload now d d' o :
  insert_pending id ident req tag payload now d = Ok (d', o) →
  ∃ p, jsonb_cast payload = Some p ∧
    let t := pending_row id ident req tag p (trunc_second (pg_ts now)) in
    ((∃ t0, task_by_source (li_team ident) (li_source_system ident) (ir_source_id req) d = Some t0 ∧
            o = None ∧ d' = d) ∨
     (task_by_source (li_team ident) (li_source_system ident) (ir_source_id req) d = None ∧
      db_tasks d !! id = None ∧ task_ok t = true ∧ o = Some t ∧
      d' = with_tasks (<[id := t]> (db_tasks d)) d)).
Proof using.
  unfold insert_pending. destruct (jsonb_cast payload) as [p|]; [|done].
  intros Hi. exists p. split; [done|].
  apply insert_task_once_ok in Hi as [Hc|(? & ? & ? & _ & ? & ?)]; [by left|by right].
Qed.

Lemma IngestTask_ok req ident env db r db' :
  run_tx (IngestTask req ident) env db = (Ok r, db') →
  ir_team req = li_team ident ∧ ir_source_system req = li_source_system ident ∧
  binding_exists ident db = true ∧
  (∃ m, db_teams db !! li_team ident = Some m ∧ tm_archived_at m = None) ∧
  ∃ tag, execution_tag (li_team ident) (ir_type req) db = Some tag ∧
  ((∃ t, task_by_source (li_team ident) (li_source_system ident) (ir_source_id req) db = Some t ∧
         r = (scanTaskRow t, false) ∧ db' = db) ∨
   (∃ id p, let t := pending_row id ident req tag p (trunc_second (pg_ts (env_db_now env))) in
      task_by_source (li_team ident) (li_source_system ident) (ir_source_id req) db = None ∧
      db_tasks db !! id = None ∧ task_ok t = true ∧
      (∃ payload, json_remarshal (ir_payload req) = Some payload ∧ jsonb_cast payload = Some p) ∧
      r = (scanTaskRow t, true) ∧
      db' = with_tasks (<[id := t]> (db_tasks db)) db)).
Proof using.
  intros (st & Hr & ->)%run_tx_ok. unfold IngestTask in Hr.
  tx_inv; to_prop; simpl in *; tx_states;
    match goal with H : ¬ (ir_team _ ≠ _ ∨ _) |- _ => apply Decidable.not_or in H as [? ?] end;
    to_prop; split_and!; try done;
    try (match goal with H : Some ?m = db_teams _ !! _ |- _ => exists m; split; [done|] end;
         by apply eq_None_not_Some);
    match goal with H : insert_pending _ _ _ _ _ _ _ = _ |- _ => rename H into Hins end;
    match goal with H : Some ?tag = execution_tag _ _ _ |- _ => exists tag; split; [done|] end;
    apply insert_pending_ok in Hins as (p & Hp & Hcase).
  - right. destruct Hcase as [(w & _ & ? & _)|(Hn & Hnew & Hok & Ho & Hd)]; [done|]. simplify_eq.
    eexists _, p. split_and!; try done; by eexists.
  - left. destruct Hcase as [(w & Hw & _ & Hd)|(_ & _ & _ & ? & _)]; [|done].
    match goal with H : reread_task _ _ _ = _ |- _ => unfold reread_task in H; rename H into Hre end.
    rewrite Hd, Hw in Hre. assert (w = a5) as -> by congruence. exists a5.
    split_and!; done || congruence.
Qed.
End ingestion.

(** ** Properties *)

Section ingestion_properties.
Context `{PgTime, JsonCodec, JsonCompact, TimeCodec}.

(** Ingestion adds one pending task of the listener's own team and source system, tagged by
    its task type and unassigned, and nothing else; it appends no event; and a task that
    already carries the source identifier is returned as it stands. *)
Theorem IngestTask_effect req ident env db entry created db' :
  run_tx (IngestTask req ident) env db = (Ok (entry, created), db') →
  (∃ m, db_teams db !! li_team ident = Some m ∧ tm_archived_at m = None) ∧
  binding_exists ident db = true ∧
  ∃ t, entry = scanTaskRow t ∧ tk_team t = li_team ident ∧
    tk_source_system t = li_source_system ident ∧ tk_source_id t = ir_source_id req ∧
    if created then
      db_tasks db !! tk_id t = None ∧ db' = with_tasks (<[tk_id t := t]> (db_tasks db)) db ∧
      tk_state t = StatePending ∧ claim_fields_null t = true ∧
      execution_tag (li_team ident) (ir_type req) db = Some (tk_tag t) ∧
      tk_ingested_at t = trunc_second (pg_ts (env_db_now env))
    else (∃ k, db_tasks db !! k = Some t) ∧ db' = db.
Proof using.
  intros (_ & _ & Hb & Hm & tag & Htag & Hcase)%IngestTask_ok. split; [done|]. split; [done|].
  destruct Hcase as [(t & Ht & [= -> ->] & ->)|(id & p & Hn & Hnew & Hok & _ & [= -> ->] & ->)].
  - apply task_by_source_ok in Ht as [Hk Hs]. apply bool_decide_eq_true in Hs as (? & ? & ?).
    exists t. by split_and!.
  - eexists. split; [done|]. by split_and!.
Qed.

(** Ingestion is idempotent: handing over a work item again, with whatever payload, returns
    the task the first hand-over created, reports it as not created, and changes nothing. *)
Theorem IngestTask_idempotent req req' ident env env' db entry created db' entry' created' db'' :
  ir_source_id req' = ir_source_id req →
  run_tx (IngestTask req ident) env db = (Ok (entry, created), db') →
  run_tx (IngestTask req' ident) env' db' = (Ok (entry', created'), db'') →
  entry' = entry ∧ created' = false ∧ db'' = db'.
Proof using.
  intros Hid (_ & _ & _ & _ & tag & _ & Hcase)%IngestTask_ok (_ & _ & _ & _ & tag' & _ & Hcase')%IngestTask_ok.
  assert (∃ t, task_by_source (li_team ident) (li_source_system ident) (ir_source_id req) db' = Some t ∧
               entry = scanTaskRow t) as (t & Ht & He).
  { destruct Hcase as [(t & Ht & [= -> _] & ->)|(id & p & Hn & Hnew & _ & _ & [= -> _] & ->)]; [eauto|].
    eexists. split; [|done].
    exact (task_by_source_inserted
             (pending_row id ident req tag p (trunc_second (pg_ts (env_db_now env)))) db Hn). }
  rewrite Hid in Hcase'.
  destruct Hcase' as [(t' & Ht' & [= -> ->] & ->)|(? & ? & Hn & _)]; [|congruence].
  by simplify_eq.
Qed.
End ingestion_properties.

(** ** The properties on the small registry *)

Section witnesses.
#[local] Existing Instances pg_micros json_plain time_bits compact_plain.

Definition fx_listener : ListenerIdentity := mkListenerIdentity "team" "src" "listener" "req".
Definition fx_ingest (payload : string) : TxS (TaskListEntry * bool) :=
  IngestTask (mkIngestion "team" "src" "item" "type" payload None None) fx_listener.

Lemma IngestTask_effect_witness : ∃ entry db',
  run_tx (fx_ingest "{}") (fx_env 3500000000) fx_db = (Ok (entry, true), db') ∧
  en_state entry = StatePending ∧ size (db_tasks db') = 3%nat.
Proof.
  destruct (run_tx (fx_ingest "{}") (fx_env 3500000000) fx_db) as [[[entry created]|e] db'] eqn:E;
    [|vm_compute in E; discriminate].
  destruct (IngestTask_effect _ _ _ _ _ _ _ E) as (_ & _ & t & He & _ & _ & _ & Hc).
  exists entry, db'. destruct created; [|exfalso; vm_compute in E; discriminate].
  destruct Hc as (_ & _ & Hp & _). split; [reflexivity|]. split.
  - rewrite He. exact Hp.
  - vm_compute in E. injection E as _ <-. reflexivity.
Defined.

Lemma IngestTask_idempotent_witness :
  let '(r, db) := run_tx (fx_ingest "{}") (fx_env 3500000000) fx_db in
  (run_tx (fx_ingest "other") (fx_env_named "b" 4500000000) db).2 = db ∧ is_ok r = true.
Proof.
  destruct (run_tx (fx_ingest "{}") (fx_env 3500000000) fx_db) as [[[entry created]|e] db'] eqn:E;
    [|vm_compute in E; discriminate].
  split; [|reflexivity].
  destruct (run_tx (fx_ingest "other") (fx_env_named "b" 4500000000) db')
    as [[[entry' created']|e] db''] eqn:E'.
  - assert (entry' = entry ∧ created' = false ∧ db'' = db') as (_ & _ & Hd); [|exact Hd].
    eapply IngestTask_idempotent; [|exact E|exact E']. reflexivity.
  - vm_compute in E. injection E as _ _ <-. vm_compute in E'. discriminate.
Defined.
End witnesses.
