(* ===== verification/Events.v ===== *)
(** * Lifecycle events (store/events.go)

    An assigned Executor reports the progress of a task; each accepted report is appended to
    the task's log and projected on the task row in the same transaction. Executors also
    report about themselves; capacity observations are mirrored on the Executor row. *)

From stdpp Require Import base gmap strings list sorting.
From S2P Require Import Prelude Platform Tx Schema Store GoStrings ScopeToken Fixtures Claim.
#[local] Open Scope Z_scope.

(** ** Wire types (platform/events.go, platform/listing.go) *)

Record TaskEventAppendRequest : Type := mkTaskEventRequest {
  tr_event : string; tr_team : string; tr_task : string; tr_type : string;
  tr_occurred_at : string; tr_payload : string }.

Record ExecutorEventAppendRequest : Type := mkExecutorEventRequest {
  er_event : string; er_req_team : option string; er_task : option string; er_type : string;
  er_occurred_at : string; er_payload : string }.

Record TaskEvent : Type := mkEvent {
  ev_id : string; ev_team : string; ev_task : string; ev_executor : option string;
  ev_type : string; ev_occurred_at : string; ev_payload : option string }.

Record ExecutorEvent : Type := mkSelfEvent {
  xe_id : string; xe_executor : string; xe_team : option string; xe_task : option string;
  xe_type : string; xe_occurred_at : string; xe_payload : option string }.

Definition allowedTaskEventTypes : list string := [TypeRunning; TypeFinished; TypeFailed].

Section payloads.
Context `{JsonCodec}.

(** jsonEqual: both documents decode, to the same value. *)
Definition jsonEqual (l r : string) : bool :=
  match json_unmarshal l, json_unmarshal r with
  | Some a, Some b => json_eqb a b
  | _, _ => false
  end.

Definition json_blank (c : Ascii.ascii) : bool :=
  let n := Z.of_nat (Ascii.nat_of_ascii c) in (n =? 32) || (n =? 10) || (n =? 9) || (n =? 13).

(** normalizeAppendedPayload. *)
Definition normalizeAppendedPayload (raw : string) : result StoreError string :=
  if bool_decide (raw = "") then Ok "{}"
  else
    let trimmed := of_chars (filter (λ c, json_blank c = false) (chars raw)) in
    if bool_decide (trimmed = "" ∨ trimmed = "null") then Ok "{}"
    else if negb (json_valid raw) then Err (ErrText "payload is not valid JSON")
    else Ok raw.

(** decodePayloadInt: a float64 converts to an int by truncation. *)
Definition decodePayloadInt (payload field : string) : option Z :=
  match json_unmarshal payload with
  | Some (JObj fs) =>
      match obj_lookup field fs with Some (JNum m e) => Some (float_to_int m e) | _ => None end
  | _ => None
  end.
End payloads.

Definition audit_event (id : string) (team : option string) (identity : ExecutorIdentity)
    (action resource_type resource : string) (at_ : Z) : AuditRow :=
  mkAudit id team (xi_executor identity) "executor" action resource_type resource
    (xi_request identity) "accepted" (Some (xi_scope identity)) at_.

Section events.
Context `{Collation, PgTime, JsonCodec, TimeCodec}.

(** ** ListTaskEvents *)

Definition event_le : relation TaskEventRow := row_le te_occurred_at te_id.

Definition scan_event (e : TaskEventRow) : TaskEvent :=
  mkEvent (te_id e) (te_team e) (te_task e) (Some (te_executor e)) (te_type e)
    (formatIngestedAt (te_occurred_at e)) (normalizeJSONPayload (te_payload e)).

Definition task_history (team task : string) (d : DB) : list TaskEventRow :=
  order_by event_le
    (filter (λ e, te_team e = team ∧ te_task e = task) (rows (db_task_events d))).

Definition ListTaskEvents (team task : string) : TxS (list TaskEvent) :=
  exists_ <- query (ErrWrap "check task event ownership") (task_of_team team task) ;;
  if negb exists_ then throw ErrTaskNotFound
  else
    l <- query (ErrWrap "list task events") (task_history team task) ;;
    ret (scan_event <$> l).

(** ** AppendTaskEvent *)

(** SELECT ... WHERE task_id = $1 AND event_id = $2. *)
Definition find_event (task event : string) (d : DB) : option TaskEventRow :=
  match db_task_events d !! event with
  | Some e => if bool_decide (te_task e = task) then Some e else None
  | None => None
  end.

(** SELECT ... WHERE task_id = $1 ORDER BY occurred_at DESC, event_id DESC LIMIT 1. *)
Definition event_ge (a b : TaskEventRow) : Prop := event_le b a.
#[export] Instance event_ge_dec : RelDecision event_ge.
Proof using. intros a b. unfold event_ge, event_le. apply _. Defined.
#[export] Instance event_ge_refl : Reflexive event_ge.
Proof using. intros x. unfold event_ge, event_le. reflexivity. Qed.
#[export] Instance event_ge_trans : Transitive event_ge.
Proof using. intros x y z Hxy Hyz. unfold event_ge, event_le in *. by transitivity y. Qed.
#[export] Instance event_ge_total : Total event_ge.
Proof using. intros x y. unfold event_ge, event_le. destruct (total (row_le te_occurred_at te_id) x y); auto. Qed.

Definition latest_event (task : string) (d : DB) : option TaskEventRow :=
  head (order_by event_ge (filter (λ e, te_task e = task) (rows (db_task_events d)))).

Definition set_state (s : string) (t : TaskRow) : TaskRow :=
  mkTask (tk_id t) (tk_team t) (tk_source_system t) (tk_source_id t) (tk_type t) (tk_tag t)
    (tk_payload t) s (tk_owner_command t) (tk_executor t) (tk_project t) (tk_image t)
    (tk_resolved_image t) (tk_image_source t) (tk_ingested_at t) (tk_claimed_at t).

(** The lifecycle guard. *)
Definition transition_ok (type state : string) : bool :=
  if bool_decide (type = TypeRunning) then bool_decide (state = StateCreated)
  else if bool_decide (type = TypeFinished ∨ type = TypeFailed)
  then bool_decide (state = StateRunning)
  else true.

(** The state an event type projects to. *)
Definition projected (type : string) : string :=
  if bool_decide (type = TypeRunning) then StateRunning
  else if bool_decide (type = TypeFailed) then StateFailed else StateFinished.

(** The strict ordering check: the request's instant, not yet stored, against the latest
    stored one; identifiers are compared bytewise. *)
Definition order_check (occurred : Z) (event type state : string) (latest : option TaskEventRow) :
    result StoreError () :=
  match latest with
  | Some e =>
      if te_occurred_at e <? occurred then Ok ()
      else if occurred =? te_occurred_at e then
        if String.leb event (te_id e) then Err ErrEventConflict else Ok ()
      else Err ErrEventConflict
  | None =>
      if bool_decide (state ≠ StateCreated ∨ type ≠ TypeRunning)
      then Err ErrInvalidTaskTransition else Ok ()
  end.

Definition event_row (req : TaskEventAppendRequest) (team executor : string) (occurred : Z)
    (payload : string) : TaskEventRow :=
  mkTaskEvent (tr_event req) team (tr_task req) executor (tr_type req) (pg_ts occurred) payload.

(** An identical retry returns the stored row. *)
Definition task_event_retry (req : TaskEventAppendRequest) (identity : ExecutorIdentity)
    (team : string) (occurred : Z) (payload : string) (e : TaskEventRow) : TxS TaskEvent :=
  if bool_decide (te_type e ≠ tr_type req) || negb (te_occurred_at e =? occurred) ||
     negb (jsonEqual (te_payload e) payload)
  then throw ErrEventConflict
  else
    commit (ErrWrap "commit task event retry") ;;;
    ret (mkEvent (tr_event req) team (tr_task req) (Some (xi_executor identity)) (te_type e)
           (format_rfc3339 (te_occurred_at e)) (normalizeJSONPayload (te_payload e))).

(** From the lifecycle guard to the commit. *)
Definition task_event_fresh (req : TaskEventAppendRequest) (identity : ExecutorIdentity)
    (t : TaskRow) (occurred : Z) (payload : string) : TxS TaskEvent :=
  if negb (transition_ok (tr_type req) (tk_state t)) then throw ErrInvalidTaskTransition
  else
  latest <- query (ErrWrap "read latest task event") (latest_event (tr_task req)) ;;
  match order_check occurred (tr_event req) (tr_type req) (tk_state t) latest with
  | Err e => throw e
  | Ok _ =>
  exec (ErrWrap "append task event")
    (λ _, insert_task_event (event_row req (tk_team t) (xi_executor identity) occurred payload)) ;;;
  exec (ErrWrap (if bool_decide (tr_type req = TypeRunning) then "project task running state"
                 else "project task terminal state"))
    (λ _, update_task (tr_task req) (set_state (projected (tr_type req)))) ;;;
  id <- fresh_uuid ;;
  exec (ErrWrap "append task event audit")
    (λ at_, insert_audit (audit_event id (Some (tk_team t)) identity
                            ("task.event." +:+ tr_type req) "task_event" (tr_event req)
                            (pg_ts at_))) ;;;
  commit (ErrWrap "commit task event append") ;;;
  ret (mkEvent (tr_event req) (tk_team t) (tr_task req) (Some (xi_executor identity))
         (tr_type req) (format_rfc3339 occurred) (normalizeJSONPayload payload))
  end.

Definition AppendTaskEvent (req : TaskEventAppendRequest) (identity : ExecutorIdentity) :
    TxS TaskEvent :=
  if negb (mem (tr_type req) allowedTaskEventTypes)
  then throw (ErrText "event type is not accepted on the task event surface") else
  match parse_rfc3339 (tr_occurred_at req) with
  | None => throw (ErrText "parse occurred_at")
  | Some occurred =>
  match normalizeAppendedPayload (tr_payload req) with
  | Err e => throw e
  | Ok payload =>
  begin_tx (ErrWrap "begin task event append") ;;;
  ox <- query (ErrWrap "read executor for task event")
          (λ d, db_executors d !! xi_executor identity) ;;
  match ox with
  | None => throw ErrExecutorNotFound
  | Some x =>
  if bool_decide (xi_scope identity ≠ ex_scope x) then throw ErrExecutorNotFound else
  if bool_decide (ex_scope x = ScopeTeam) &&
     bool_decide (ex_team x = None ∨ xi_team identity ≠ ex_team x)
  then throw ErrExecutorNotFound else
  ot <- query (ErrWrap "lock task for task event") (λ d, db_tasks d !! tr_task req) ;;
  match ot with
  | None => throw ErrEventNotFound
  | Some t =>
  if bool_decide (ex_scope x = ScopeTeam) && bool_decide (ex_team x ≠ Some (tk_team t))
  then throw ErrEventNotFound else
  if bool_decide (tr_team req ≠ if bool_decide (ex_scope x = ScopeTeam)
                                then default "" (ex_team x) else tk_team t)
  then throw ErrEventTeamMismatch else
  if bool_decide (tk_executor t ≠ Some (xi_executor identity)) then throw ErrNotAssigned else
  existing <- query (ErrWrap "scan task event retry") (find_event (tr_task req) (tr_event req)) ;;
  match existing with
  | Some e => task_event_retry req identity (tk_team t) occurred payload e
  | None => task_event_fresh req identity t occurred payload
  end
  end
  end
  end
  end.

(** ** AppendExecutorEvent *)

Definition find_self_event (executor event : string) (d : DB) : option ExecutorEventRow :=
  match db_executor_events d !! event with
  | Some e => if bool_decide (ee_executor e = executor) then Some e else None
  | None => None
  end.

(** buildExecutorEventRow. *)
Definition buildExecutorEventRow (e : ExecutorEventRow) : ExecutorEvent :=
  mkSelfEvent (ee_id e) (ee_executor e) (ee_team e) (ee_task e) (ee_type e)
    (formatIngestedAt (ee_occurred_at e)) (normalizeJSONPayload (ee_payload e)).

Definition self_event_retry (req : ExecutorEventAppendRequest) (occurred : Z) (payload : string)
    (e : ExecutorEventRow) : TxS ExecutorEvent :=
  if bool_decide (ee_type e ≠ er_type req) || negb (ee_occurred_at e =? occurred) ||
     negb (jsonEqual (ee_payload e) payload) || negb (sameTeam (ee_team e) (er_req_team req)) ||
     negb (sameTeam (ee_task e) (er_task req))
  then throw ErrEventConflict
  else
    commit (ErrWrap "commit executor event retry") ;;;
    ret (mkSelfEvent (er_event req) (ee_executor e) (ee_team e) (ee_task e) (ee_type e)
           (formatIngestedAt (ee_occurred_at e)) (normalizeJSONPayload (ee_payload e))).

Definition set_max_capacity (v at_ : Z) (x : ExecutorRow) : ExecutorRow :=
  mkExecutor (ex_id x) (ex_scope x) (ex_team x) (ex_type x) (ex_identity x) (ex_tag x) v
    (ex_running_count x) (ex_metadata x) (ex_registered_at x) (pg_ts at_).

Definition set_running_count (v at_ : Z) (x : ExecutorRow) : ExecutorRow :=
  mkExecutor (ex_id x) (ex_scope x) (ex_team x) (ex_type x) (ex_identity x) (ex_tag x)
    (ex_max_capacity x) v (ex_metadata x) (ex_registered_at x) (pg_ts at_).

(** The observation mirror. *)
Definition mirror_observation (type payload executor : string) : TxS () :=
  if bool_decide (type = "capacity_observed") then
    match decodePayloadInt payload "max_capacity" with
    | None => throw (ErrText "decode capacity observation")
    | Some v => exec (ErrWrap "mirror capacity observation")
                  (λ at_, update_executor executor (set_max_capacity v at_))
    end
  else if bool_decide (type = "running_count_observed") then
    match decodePayloadInt payload "running_count" with
    | None => throw (ErrText "decode running-count observation")
    | Some v => exec (ErrWrap "mirror running-count observation")
                  (λ at_, update_executor executor (set_running_count v at_))
    end
  else ret ().

(** The parent task of a task-bound self event and the team its audit entry carries. *)
Definition self_event_team (req : ExecutorEventAppendRequest) (x : ExecutorRow) :
    TxS (option string) :=
  let own := if bool_decide (ex_scope x = ScopeTeam) then ex_team x else None in
  match er_task req with
  | None => ret own
  | Some task =>
      ot <- query (ErrWrap "read parent task for executor event") (λ d, db_tasks d !! task) ;;
      match ot with
      | None => throw ErrEventNotFound
      | Some t =>
          if bool_decide (ex_scope x = ScopeTeam) && bool_decide (tk_team t ≠ default "" (ex_team x))
          then throw ErrEventNotFound
          else ret (if bool_decide (ex_scope x = ScopeSystem) then Some (tk_team t) else own)
      end
  end.

Definition self_event_fresh (req : ExecutorEventAppendRequest) (identity : ExecutorIdentity)
    (x : ExecutorRow) (occurred : Z) (payload : string) : TxS ExecutorEvent :=
  audit_team <- self_event_team req x ;;
  let own := if bool_decide (ex_scope x = ScopeTeam) then ex_team x else None in
  exec (ErrWrap "append executor event")
    (λ _, insert_executor_event (mkExecutorEvent (er_event req) (xi_executor identity) own
                                   (er_task req) (er_type req) (pg_ts occurred) payload)) ;;;
  mirror_observation (er_type req) payload (xi_executor identity) ;;;
  id <- fresh_uuid ;;
  exec (ErrWrap "append executor event audit")
    (λ at_, insert_audit (audit_event id audit_team identity ("executor.event." +:+ er_type req)
                            "executor_event" (er_event req) (pg_ts at_))) ;;;
  commit (ErrWrap "commit executor event append") ;;;
  ret (mkSelfEvent (er_event req) (xi_executor identity) own (er_task req) (er_type req)
         (format_rfc3339 occurred) (normalizeJSONPayload payload)).

(** The envelope team against the Executor's scope. *)
Definition envelope_ok (req : ExecutorEventAppendRequest) (x : ExecutorRow) : bool :=
  if bool_decide (ex_scope x = ScopeTeam) then
    bool_decide (is_Some (ex_team x) ∧ er_req_team req = ex_team x)
  else if bool_decide (ex_scope x = ScopeSystem) then bool_decide (er_req_team req = None)
  else true.

Definition AppendExecutorEvent (req : ExecutorEventAppendRequest) (identity : ExecutorIdentity) :
    TxS ExecutorEvent :=
  if negb (mem (er_type req) ExecutorEventTypes)
  then throw (ErrText "event type is not accepted on the executor event surface") else
  match parse_rfc3339 (er_occurred_at req) with
  | None => throw (ErrText "parse occurred_at")
  | Some occurred =>
  match normalizeAppendedPayload (er_payload req) with
  | Err e => throw e
  | Ok payload =>
  begin_tx (ErrWrap "begin executor event append") ;;;
  ox <- query (ErrWrap "read executor for executor event")
          (λ d, db_executors d !! xi_executor identity) ;;
  match ox with
  | None => throw ErrExecutorNotFound
  | Some x =>
  if bool_decide (xi_scope identity ≠ ex_scope x) then throw ErrExecutorNotFound else
  if negb (envelope_ok req x) then throw ErrEventTeamMismatch else
  existing <- query (ErrWrap "scan executor event retry")
                (find_self_event (xi_executor identity) (er_event req)) ;;
  match existing with
  | Some e => self_event_retry req occurred payload e
  | None => self_event_fresh req identity x occurred payload
  end
  end
  end
  end.

(** ** ListExecutorEvents *)

Definition self_event_le : relation ExecutorEventRow := row_le ee_occurred_at ee_id.

Definition ListExecutorEvents (team executor : string) : TxS (list ExecutorEvent) :=
  ox <- query (ErrWrap "read executor for event list") (λ d, db_executors d !! executor) ;;
  match ox with
  | None => throw ErrExecutorNotFound
  | Some x =>
      if bool_decide (ex_scope x ≠ ScopeTeam ∨ ex_team x ≠ Some team)
      then throw ErrExecutorNotFound
      else
        l <- query (ErrWrap "list executor events")
               (λ d, order_by self_event_le
                       (filter (λ e, ee_executor e = executor) (rows (db_executor_events d)))) ;;
        ret (buildExecutorEventRow <$> l)
  end.
End events.

(** ** What an accepted event establishes *)

Section event_facts.
Context `{Collation, PgTime, JsonCodec, TimeCodec}.

Lemma AppendTaskEvent_error_keeps req identity : error_keeps (AppendTaskEvent req identity).
Proof using. unfold AppendTaskEvent, task_event_retry, task_event_fresh. tx_atomic. Qed.

Lemma mirror_observation_never_commits type payload executor :
  never_commits (mirror_observation type payload executor).
Proof using. unfold mirror_observation. tx_atomic. Qed.

Lemma self_event_team_never_commits req x : never_commits (self_event_team req x).
Proof using. unfold self_event_team. tx_atomic. Qed.

Lemma AppendExecutorEvent_error_keeps req identity : error_keeps (AppendExecutorEvent req identity).
Proof using.
  pose proof mirror_observation_never_commits. pose proof self_event_team_never_commits.
  unfold AppendExecutorEvent, self_event_retry, self_event_fresh. tx_atomic.
Qed.

(** A fresh event of a task: from [d] to [d']. *)
Record event_step (req : TaskEventAppendRequest) (executor : string) (t : TaskRow)
    (occurred : Z) (payload : string) (d d' : DB) (stored : string) (audit : AuditRow) : Prop :=
mkEventStep {
  es_transition : transition_ok (tr_type req) (tk_state t) = true;
  es_order : order_check occurred (tr_event req) (tr_type req) (tk_state t)
               (latest_event (tr_task req) d) = Ok ();
  es_new : db_task_events d !! tr_event req = None;
  es_stored : jsonb_cast payload = Some stored;
  es_audit : db_audit d !! au_id audit = None ∧ au_action audit = "task.event." +:+ tr_type req ∧
             au_resource_id audit = tr_event req ∧ au_team audit = Some (tk_team t) ∧
             au_actor audit = executor;
  es_row_ok : task_ok (set_state (projected (tr_type req)) t) = true;
  es_result :
    d' = with_audit (<[au_id audit := audit]> (db_audit d))
           (with_tasks (<[tr_task req := set_state (projected (tr_type req)) t]> (db_tasks d))
           (with_task_events
              (<[tr_event req := event_row req (tk_team t) executor occurred stored]>
                 (db_task_events d)) d));
}.

Lemma task_event_fresh_ok req identity t occurred payload env st r st' :
  db_tasks (ts_db st) !! tr_task req = Some t →
  task_event_fresh req identity t occurred payload env st = (Ok r, st') →
  ts_durable st' = ts_db st' ∧
  r = mkEvent (tr_event req) (tk_team t) (tr_task req) (Some (xi_executor identity))
        (tr_type req) (format_rfc3339 occurred) (normalizeJSONPayload payload) ∧
  ∃ stored audit,
    event_step req (xi_executor identity) t occurred payload (ts_db st) (ts_db st') stored audit.
Proof using.
  intros Ht Hr. unfold task_event_fresh in Hr. tx_inv; to_prop. tx_states.
  match goal with H : insert_task_event _ _ = _ |- _ =>
    apply insert_task_event_ok in H as (p & x & Hp & Hx & Hnew & Htm & Hsc & Hty & Hd1) end.
  match goal with H : update_task _ _ _ = _ |- _ => rewrite Hd1 in H;
    apply update_task_ok in H as [[Hn _]|(t' & Ht' & Hup & Hok & Hex & Hd2)];
    [simpl in Hn; congruence|] end.
  match goal with H : insert_audit _ _ = _ |- _ => rewrite Hd2 in H;
    apply insert_audit_ok in H as (Hna & _ & Hd3) end.
  simpl in *. assert (t' = t) as -> by congruence.
  split; [done|]. split; [done|]. exists p. eexists. constructor; try done; [| |exact Hd3]; [|done].
  match goal with Ho : order_check _ _ _ _ _ = Ok ?u |- _ => by destruct u end.
Qed.

Lemma find_event_ok task event d e :
  find_event task event d = Some e → db_task_events d !! event = Some e ∧ te_task e = task.
Proof using.
  unfold find_event. destruct (db_task_events d !! event); [|done]. case_bool_decide; [|done].
  by intros [= <-].
Qed.

Lemma team_guards x t identity team :
  bool_decide (ex_scope x = ScopeTeam) &&
  bool_decide (ex_team x = None ∨ xi_team identity ≠ ex_team x) = false →
  bool_decide (ex_scope x = ScopeTeam) && bool_decide (ex_team x ≠ Some (tk_team t)) = false →
  team = (if bool_decide (ex_scope x = ScopeTeam) then default "" (ex_team x) else tk_team t) →
  (ex_scope x = ScopeTeam → ex_team x = Some (tk_team t) ∧ xi_team identity = ex_team x) ∧
  team = tk_team t.
Proof using.
  clear. intros Hg1 Hg2 ->. destruct (bool_decide_reflect (ex_scope x = ScopeTeam)); simpl in *;
    [|done]. to_prop. match goal with H : ¬ (_ ∨ _) |- _ =>
      apply Decidable.not_or in H as [? ?] end. to_prop.
  match goal with H : ex_team x = _ |- _ => by rewrite H in * end.
Qed.

(** A successful append is an identical retry, which changes nothing, or a fresh event. *)
Lemma AppendTaskEvent_ok req identity env db r db' :
  run_tx (AppendTaskEvent req identity) env db = (Ok r, db') →
  ∃ occurred payload x t,
    parse_rfc3339 (tr_occurred_at req) = Some occurred ∧
    normalizeAppendedPayload (tr_payload req) = Ok payload ∧
    mem (tr_type req) allowedTaskEventTypes = true ∧
    db_executors db !! xi_executor identity = Some x ∧ xi_scope identity = ex_scope x ∧
    (ex_scope x = ScopeTeam → ex_team x = Some (tk_team t) ∧ xi_team identity = ex_team x) ∧
    db_tasks db !! tr_task req = Some t ∧ tk_executor t = Some (xi_executor identity) ∧
    tr_team req = tk_team t ∧
    ((∃ e, db_task_events db !! tr_event req = Some e ∧ te_task e = tr_task req ∧
       te_type e = tr_type req ∧ te_occurred_at e = occurred ∧
       jsonEqual (te_payload e) payload = true ∧ db' = db ∧
       r = mkEvent (tr_event req) (tk_team t) (tr_task req) (Some (xi_executor identity))
             (te_type e) (format_rfc3339 (te_occurred_at e)) (normalizeJSONPayload (te_payload e))) ∨
     (r = mkEvent (tr_event req) (tk_team t) (tr_task req) (Some (xi_executor identity))
            (tr_type req) (format_rfc3339 occurred) (normalizeJSONPayload payload) ∧
      ∃ stored audit,
        event_step req (xi_executor identity) t occurred payload db db' stored audit)).
Proof using.
  intros (st & Hr & ->)%run_tx_ok. unfold AppendTaskEvent, task_event_retry in Hr.
  tx_inv; to_prop; simpl in *; tx_states;
    match goal with
    | H1 : _ && bool_decide (_ ∨ _) = false, H2 : _ && bool_decide (_ ≠ _) = false,
      H3 : tr_team req = (if _ then _ else _) |- _ =>
        destruct (team_guards _ _ _ _ H1 H2 H3) as [Hteam Hreq]
    end;
    match goal with Hx : Some ?x = db_executors _ !! _, Ht : Some ?t = db_tasks _ !! _ |- _ =>
      symmetry in Hx, Ht; exists z, a, x, t end; split_and!; try done.
  - left. match goal with H : Some ?e = find_event _ _ _ |- _ =>
      symmetry in H; apply find_event_ok in H as [? ?]; exists e end.
    split_and!; done || by apply Z.eqb_eq.
  - right. match goal with H : task_event_fresh _ _ _ _ _ _ _ = _ |- _ =>
      apply task_event_fresh_ok in H as (Hdur & Hres & Hstep); [|congruence] end.
    rewrite Hdur. split; [done|]. tx_states. done.
Qed.

(** ** Self events *)

Lemma self_event_team_ok req x env st a st' :
  self_event_team req x env st = (Ok a, st') →
  ts_db st' = ts_db st ∧ ts_durable st' = ts_durable st ∧ ts_uuid st' = ts_uuid st.
Proof using. unfold self_event_team. intros Hr. tx_inv; tx_states; done. Qed.

(** The observation an event of this type mirrors on the Executor row. *)
Definition mirrored (type payload : string) (now : Z) (x : ExecutorRow) : option ExecutorRow :=
  if bool_decide (type = "capacity_observed") then
    (λ v, set_max_capacity v now x) <$> decodePayloadInt payload "max_capacity"
  else if bool_decide (type = "running_count_observed") then
    (λ v, set_running_count v now x) <$> decodePayloadInt payload "running_count"
  else Some x.

Lemma mirror_observation_ok type payload executor x env st a st' :
  db_executors (ts_db st) !! executor = Some x →
  mirror_observation type payload executor env st = (Ok a, st') →
  ts_durable st' = ts_durable st ∧ ts_uuid st' = ts_uuid st ∧
  ∃ x', mirrored type payload (env_db_now env) x = Some x' ∧
    (x' ≠ x → executor_ok x' = true) ∧
    ts_db st' = with_executors (<[executor := x']> (db_executors (ts_db st))) (ts_db st).
Proof using.
  intros Hx. unfold mirror_observation, mirrored. intros Hr. tx_inv;
    try match goal with H : update_executor _ _ _ = _ |- _ =>
      apply (update_executor_ok _ _ _ _ _ Hx) in H as (_ & ? & ?) end;
    split_and!; try done; simpl; eexists; (split; [done|]); (split; [done|]); [done..|].
  rewrite insert_id by done. by destruct (ts_db st).
Qed.

(** A fresh self event appends it, mirrors its observation and writes one audit entry. *)
Definition self_event_effect (req : ExecutorEventAppendRequest) (executor : string)
    (own : option string) (occurred : Z) (stored : string) (x' : ExecutorRow) (audit : AuditRow)
    (d : DB) : DB :=
  with_audit (<[au_id audit := audit]> (db_audit d))
    (with_executors (<[executor := x']> (db_executors d))
    (with_executor_events
       (<[er_event req := mkExecutorEvent (er_event req) executor own (er_task req) (er_type req)
                            (pg_ts occurred) stored]> (db_executor_events d)) d)).

Lemma self_event_fresh_ok req identity x occurred payload env st r st' :
  db_executors (ts_db st) !! xi_executor identity = Some x →
  self_event_fresh req identity x occurred payload env st = (Ok r, st') →
  ts_durable st' = ts_db st' ∧
  ∃ own stored x' audit, jsonb_cast payload = Some stored ∧
    mirrored (er_type req) payload (env_db_now env) x = Some x' ∧
    (x' ≠ x → executor_ok x' = true) ∧ db_executor_events (ts_db st) !! er_event req = None ∧
    db_audit (ts_db st) !! au_id audit = None ∧
    own = (if bool_decide (ex_scope x = ScopeTeam) then ex_team x else None) ∧
    ts_db st' = self_event_effect req (xi_executor identity) own occurred stored x' audit (ts_db st).
Proof using.
  intros Hx. unfold self_event_fresh. intros Hr. tx_inv.
  use_ok self_event_team_ok. tx_states.
  match goal with H : insert_executor_event _ _ = _ |- _ =>
    apply insert_executor_event_ok in H as (p & x0 & Hp & Hx0 & Hnew & _ & Hd1) end.
  match goal with H : mirror_observation _ _ _ _ _ = _ |- _ =>
    apply (mirror_observation_ok _ _ _ x) in H as (? & ? & x' & Hm & Hok & Hd2); [|by rewrite Hd1] end.
  match goal with H : insert_audit _ _ = _ |- _ => apply insert_audit_ok in H as (Hna & _ & Hd3) end.
  rewrite Hd1 in Hd2. rewrite Hd2 in Hna, Hd3. simpl in *. split; [done|].
  eexists _, p, x', _. split_and!; [done|done|done|done| |reflexivity|exact Hd3]. done.
Qed.

Lemma AppendExecutorEvent_ok req identity env db r db' :
  run_tx (AppendExecutorEvent req identity) env db = (Ok r, db') →
  ∃ x, db_executors db !! xi_executor identity = Some x ∧ envelope_ok req x = true ∧
  ((∃ e, find_self_event (xi_executor identity) (er_event req) db = Some e ∧ db' = db) ∨
   (db_executor_events db !! er_event req = None ∧
    ∃ occurred payload stored x' audit,
     parse_rfc3339 (er_occurred_at req) = Some occurred ∧
     normalizeAppendedPayload (er_payload req) = Ok payload ∧ jsonb_cast payload = Some stored ∧
     mirrored (er_type req) payload (env_db_now env) x = Some x' ∧
     (x' ≠ x → executor_ok x' = true) ∧ db_audit db !! au_id audit = None ∧
     db' = self_event_effect req (xi_executor identity)
             (if bool_decide (ex_scope x = ScopeTeam) then ex_team x else None)
             occurred stored x' audit db)).
Proof using.
  intros (st & Hr & ->)%run_tx_ok. unfold AppendExecutorEvent, self_event_retry in Hr.
  tx_inv; to_prop; simpl in *; tx_states;
    match goal with Hx : Some ?x = db_executors _ !! _ |- _ => symmetry in Hx; exists x end;
    (split; [done|]); (split; [done|]).
  - left. match goal with H : Some ?e = find_self_event _ _ _ |- _ => exists e; by rewrite H end.
  - right. match goal with H : self_event_fresh _ _ _ _ _ _ _ = _ |- _ =>
      apply self_event_fresh_ok in H as (Hdur & own & p & x' & au & Q); [|congruence] end.
    tx_states. destruct Q as (? & ? & ? & ? & ? & -> & ?). split; [done|].
    by eexists _, _, p, x', au.
Qed.
End event_facts.

(** ** Properties *)

(** The lifecycle of a task: the reports that are accepted and where they lead. *)
Inductive lifecycle : string → string → string → Prop :=
| life_running : lifecycle StateCreated TypeRunning StateRunning
| life_finished : lifecycle StateRunning TypeFinished StateFinished
| life_failed : lifecycle StateRunning TypeFailed StateFailed.

Lemma transition_lifecycle type state :
  mem type allowedTaskEventTypes = true → transition_ok type state = true →
  lifecycle state type (projected type).
Proof.
  unfold mem, allowedTaskEventTypes. rewrite bool_decide_eq_true, !elem_of_cons.
  intros [->|[->|[->|[]%not_elem_of_nil]]]; unfold transition_ok, projected; simpl;
    intros Ht; to_prop; subst; constructor.
Qed.

(** A decoded document is equal to itself. *)
Fixpoint json_eqb_refl (a : json) : json_eqb a a = true.
Proof.
  destruct a as [|b|m e|s|l|l]; simpl.
  - done.
  - by destruct b.
  - by rewrite !Z.eqb_refl.
  - by apply bool_decide_eq_true.
  - induction l as [|x l IH]; [done|]. simpl. by rewrite json_eqb_refl.
  - induction l as [|[n x] l IH]; [done|]. simpl.
    rewrite bool_decide_eq_true_2 by done. by rewrite json_eqb_refl.
Qed.

Section event_properties.
Context `{Collation, PgTime, JsonCodec, TimeCodec}.

Lemma team_guards_pass x t identity :
  (ex_scope x = ScopeTeam → ex_team x = Some (tk_team t) ∧ xi_team identity = ex_team x) →
  bool_decide (ex_scope x = ScopeTeam) &&
  bool_decide (ex_team x = None ∨ xi_team identity ≠ ex_team x) = false ∧
  bool_decide (ex_scope x = ScopeTeam) && bool_decide (ex_team x ≠ Some (tk_team t)) = false ∧
  (if bool_decide (ex_scope x = ScopeTeam) then default "" (ex_team x) else tk_team t) = tk_team t.
Proof using.
  clear. destruct (bool_decide_reflect (ex_scope x = ScopeTeam)) as [Hs|]; simpl; [|done].
  intros Ht. destruct (Ht Hs) as [E ->]. rewrite E. simpl. split_and!; [| |done].
  - apply bool_decide_eq_false_2. intros [?|Hne]; [done|by apply Hne].
  - apply bool_decide_eq_false_2. intros Hne. by apply Hne.
Qed.

Lemma jsonEqual_stored payload stored v :
  jsonb_cast payload = Some stored → json_unmarshal payload = Some v →
  jsonEqual stored payload = true.
Proof using.
  intros Hc Hu. unfold jsonEqual. rewrite (jsonb_cast_value _ _ Hc), Hu. apply json_eqb_refl.
Qed.

(** C32. A fresh lifecycle report is accepted only from the assigned Executor and only as a step
    of the lifecycle; it appends exactly that event, projects exactly that state on exactly
    that task, and keeps every earlier event. *)
Theorem AppendTaskEvent_effect req identity env db r db' :
  run_tx (AppendTaskEvent req identity) env db = (Ok r, db') →
  db_task_events db !! tr_event req = None →
  ∃ t state' occurred stored,
    db_tasks db !! tr_task req = Some t ∧ tk_executor t = Some (xi_executor identity) ∧
    lifecycle (tk_state t) (tr_type req) state' ∧
    parse_rfc3339 (tr_occurred_at req) = Some occurred ∧
    db_tasks db' = <[tr_task req := set_state state' t]> (db_tasks db) ∧
    db_task_events db' =
      <[tr_event req := event_row req (tk_team t) (xi_executor identity) occurred stored]>
        (db_task_events db) ∧
    db_executors db' = db_executors db ∧ db_snapshots db' = db_snapshots db ∧
    ev_occurred_at r = format_rfc3339 occurred.
Proof using.
  intros (occ & pl & x & t & Hocc & _ & Hmem & _ & _ & _ & Ht & Hex & _ & Hcase)%AppendTaskEvent_ok Hn.
  destruct Hcase as [(e & He & _)|(-> & st & au & Hs)]; [congruence|].
  exists t, (projected (tr_type req)), occ, st. rewrite (es_result _ _ _ _ _ _ _ _ _ Hs). simpl.
  split_and!; try done. apply transition_lifecycle; [done|]. by eapply es_transition.
Qed.

(** No report changes a finished or failed task: an append to a terminal task either fails
    or is a retry that leaves the registry as it was. *)
Theorem AppendTaskEvent_terminal req identity env db r db' t :
  run_tx (AppendTaskEvent req identity) env db = (r, db') →
  db_tasks db !! tr_task req = Some t →
  tk_state t = StateFinished ∨ tk_state t = StateFailed →
  db' = db.
Proof using.
  intros Hr Ht Hst. apply run_tx_cases in Hr as [?|(env' & a & Hr)]; [done| |].
  - apply AppendTaskEvent_ok in Hr as (occ & pl & x & t' & _ & _ & Hmem & _ & _ & _ & Ht' & _ & _ & Hcase).
    destruct Hcase as [(e & _ & _ & _ & _ & _ & Hd & _)|(_ & st & au & Hs)]; [done|].
    simplify_eq. apply es_transition, transition_lifecycle in Hs; [|done].
    destruct Hst as [E|E]; rewrite E in Hs; inversion Hs.
  - apply AppendTaskEvent_error_keeps.
Qed.

(** An identical retry of an accepted report never changes the registry; when the server
    answers every statement, it returns the stored event if the reported instant is one the
    database can store, and is refused as a conflict if the instant is finer than that. *)
Theorem AppendTaskEvent_retry req identity env db r db' env' occurred payload v :
  run_tx (AppendTaskEvent req identity) env db = (Ok r, db') →
  db_task_events db !! tr_event req = None →
  parse_rfc3339 (tr_occurred_at req) = Some occurred →
  normalizeAppendedPayload (tr_payload req) = Ok payload → json_unmarshal payload = Some v →
  (∀ n, env_fault env' n = false) →
  ∃ stored, jsonb_cast payload = Some stored ∧
  run_tx (AppendTaskEvent req identity) env' db'
  = (if bool_decide (pg_ts occurred = occurred)
     then Ok (mkEvent (tr_event req) (tr_team req) (tr_task req) (Some (xi_executor identity))
                (tr_type req) (format_rfc3339 occurred) (normalizeJSONPayload stored))
     else Err ErrEventConflict, db').
Proof using.
  intros Hr Hn Hocc Hpl Hv Hnf.
  apply AppendTaskEvent_ok in Hr as
    (occ & pl & x & t & Hocc' & Hpl' & Hmem & Hx & Hsc & Hteam & Ht & Hex & Hreq & Hcase).
  destruct Hcase as [(e & He & _)|(_ & st & au & Hs)]; [congruence|].
  assert (occ = occurred) as -> by congruence. assert (pl = payload) as -> by congruence.
  assert (jsonb_cast payload = Some st) as Hst by by eapply es_stored.
  exists st. split; [done|]. destruct (team_guards_pass _ _ _ Hteam) as (Eg1 & Eg2 & Eg3).
  unfold run_tx, AppendTaskEvent, begin_tx, query, stmt, bind, begin_st.
  rewrite Hmem, Hocc, Hpl. simpl. rewrite !Hnf. simpl.
  rewrite (es_result _ _ _ _ _ _ _ _ _ Hs). simpl. rewrite Hx.
  rewrite bool_decide_eq_false_2 by (intros Hne; by apply Hne). rewrite Eg1.
  simpl. rewrite !Hnf, lookup_insert_eq. simpl. rewrite Eg2, Eg3, Hreq.
  rewrite bool_decide_eq_false_2 by (intros Hne; by apply Hne). rewrite Hex.
  rewrite bool_decide_eq_false_2 by (intros Hne; by apply Hne).
  rewrite !Hnf. unfold find_event. simpl. rewrite lookup_insert_eq. simpl.
  rewrite bool_decide_eq_true_2 by done. unfold task_event_retry. simpl.
  rewrite bool_decide_eq_false_2 by (intros Hne; by apply Hne).
  rewrite (jsonEqual_stored _ _ _ Hst Hv). simpl.
  destruct (bool_decide_reflect (pg_ts occurred = occurred)) as [Hpg|Hpg].
  - rewrite Hpg, Z.eqb_refl. simpl. unfold bind, commit. simpl. rewrite !Hnf. done.
  - rewrite (proj2 (Z.eqb_neq _ _) Hpg). done.
Qed.

(** The history of a task lists each of its stored events exactly once, ordered by
    (occurred_at, event_id), and no event of another task or team. *)
Theorem ListTaskEvents_history team task env db l db' :
  run_tx (ListTaskEvents team task) env db = (Ok l, db') →
  db' = db ∧ task_of_team team task db = true ∧
  ∃ es, l = scan_event <$> es ∧ StronglySorted event_le es ∧
    es ≡ₚ filter (λ e, te_team e = team ∧ te_task e = task) (rows (db_task_events db)).
Proof using.
  intros Hr. pose proof Hr as Hd. apply run_tx_never_commits in Hd;
    [|unfold ListTaskEvents; tx_atomic].
  apply run_tx_ok in Hr as (st & Hr & _). unfold ListTaskEvents in Hr.
  tx_inv; simpl in *; tx_states; to_prop. split; [done|]. split; [done|].
  eexists. split; [reflexivity|]. unfold task_history. split.
  - apply order_by_sorted; apply _.
  - apply order_by_perm.
Qed.

(** A self event never touches the queue: whatever it reports, tasks and their events stay,
    other Executors stay, and the reporting Executor keeps its scope, team, tag and
    registration; a capacity or running count observation is mirrored within the width of its
    column, and anything else leaves the row as it was. *)
Theorem AppendExecutorEvent_observes req identity env db r db' x :
  run_tx (AppendExecutorEvent req identity) env db = (Ok r, db') →
  db_executors db !! xi_executor identity = Some x →
  db_tasks db' = db_tasks db ∧ db_task_events db' = db_task_events db ∧
  ∃ x', db_executors db' = <[xi_executor identity := x']> (db_executors db) ∧
    ex_scope x' = ex_scope x ∧ ex_team x' = ex_team x ∧ ex_tag x' = ex_tag x ∧
    ex_registered_at x' = ex_registered_at x ∧
    (x' ≠ x → (er_type req = "capacity_observed" ∨ er_type req = "running_count_observed") ∧
              0 ≤ ex_max_capacity x' < 2 ^ 31 ∧ 0 ≤ ex_running_count x' < 2 ^ 31).
Proof using.
  intros (x0 & Hx0 & _ & Hcase)%AppendExecutorEvent_ok Hx. assert (x0 = x) as -> by congruence.
  destruct Hcase as [(e & _ & ->)|(_ & occ & pl & p & x' & au & _ & _ & _ & Hm & Hok & _ & ->)].
  - split_and!; [done..|]. exists x. rewrite insert_id by done. by split_and!.
  - split_and!; [done..|]. exists x'. split; [done|].
    unfold mirrored in Hm. repeat case_bool_decide.
    + destruct (decodePayloadInt _ _) as [n|]; simplify_eq/=. split_and!; [done..|].
      intros Hne. split; [by left|]. by apply (executor_ok_bounds _ (Hok Hne)).
    + destruct (decodePayloadInt _ _) as [n|]; simplify_eq/=. split_and!; [done..|].
      intros Hne. split; [by right|]. by apply (executor_ok_bounds _ (Hok Hne)).
    + simplify_eq. by split_and!.
Qed.
End event_properties.

(** ** The properties on the small registry *)

Section witnesses.
#[local] Existing Instances pg_micros collation_C time_bits json_plain token_fields image_plain.

(** The registry after a claim of the first task at 5000 ns. *)
Definition fx_claimed : DB := (run_tx fx_claim (fx_env 5000) fx_db).2.

Definition fx_report (event type : string) (at_ : Z) : TxS TaskEvent :=
  AppendTaskEvent (mkTaskEventRequest event "team" "t1" type (format_bits at_) "")
    (fx_identity "ex1").

Definition fx_running : DB :=
  (run_tx (fx_report "e1" TypeRunning 6000) (fx_env_named "a" 6000) fx_claimed).2.
Definition fx_finished : DB :=
  (run_tx (fx_report "e2" TypeFinished 7000) (fx_env_named "b" 7000) fx_running).2.

Lemma AppendTaskEvent_effect_witness : ∃ r db' t state',
  run_tx (fx_report "e1" TypeRunning 6000) (fx_env_named "a" 6000) fx_claimed = (Ok r, db') ∧
  lifecycle (tk_state t) TypeRunning state' ∧
  db_tasks db' = <["t1" := set_state state' t]> (db_tasks fx_claimed).
Proof.
  destruct (run_tx (fx_report "e1" TypeRunning 6000) (fx_env_named "a" 6000) fx_claimed)
    as [[r|e] db'] eqn:E; [|vm_compute in E; discriminate].
  destruct (AppendTaskEvent_effect _ _ _ _ _ _ E) as (t & s & _ & _ & _ & _ & Hl & _ & Ht & _);
    [vm_compute; reflexivity|].
  exists r, db', t, s. split; [reflexivity|]. split; [exact Hl|exact Ht].
Defined.

Lemma AppendTaskEvent_terminal_witness :
  (run_tx (fx_report "e3" TypeFailed 9000) (fx_env_named "c" 9000) fx_finished).2 = fx_finished.
Proof.
  destruct (run_tx (fx_report "e3" TypeFailed 9000) (fx_env_named "c" 9000) fx_finished)
    as [r db'] eqn:E.
  destruct (db_tasks fx_finished !! "t1") as [t|] eqn:Et; [|vm_compute in Et; discriminate].
  refine (AppendTaskEvent_terminal _ _ _ _ _ _ t E Et _).
  vm_compute in Et. injection Et as <-. left. reflexivity.
Defined.

(** A retry with an instant of whole microseconds is replayed, a finer one is refused. *)
Lemma AppendTaskEvent_retry_witness :
  (run_tx (fx_report "e1" TypeRunning 6000) (fx_env_named "d" 8000) fx_running).2 = fx_running ∧
  let db := (run_tx (fx_report "e1" TypeRunning 6001) (fx_env_named "a" 6000) fx_claimed).2 in
  run_tx (fx_report "e1" TypeRunning 6001) (fx_env_named "d" 8000) db = (Err ErrEventConflict, db).
Proof.
  split.
  - destruct (run_tx (fx_report "e1" TypeRunning 6000) (fx_env_named "a" 6000) fx_claimed)
      as [[r|e] db'] eqn:E; [|vm_compute in E; discriminate].
    destruct (AppendTaskEvent_retry _ _ _ _ _ _ (fx_env_named "d" 8000) 6000 "{}" (JObj []) E)
      as (p & _ & Hr); [vm_compute; reflexivity..|reflexivity|].
    unfold fx_running. rewrite E. cbn [snd]. unfold fx_report. rewrite Hr. reflexivity.
  - destruct (run_tx (fx_report "e1" TypeRunning 6001) (fx_env_named "a" 6000) fx_claimed)
      as [[r|e] db'] eqn:E; [|vm_compute in E; discriminate].
    destruct (AppendTaskEvent_retry _ _ _ _ _ _ (fx_env_named "d" 8000) 6001 "{}" (JObj []) E)
      as (p & _ & Hr); [vm_compute; reflexivity..|reflexivity|].
    cbv zeta. cbn [snd]. unfold fx_report. rewrite Hr. reflexivity.
Defined.

Lemma ListTaskEvents_history_witness : ∃ l db',
  run_tx (ListTaskEvents "team" "t1") (fx_env 9000) fx_finished = (Ok l, db') ∧
  db' = fx_finished ∧ ev_id <$> l = ["evt-t1"; "e1"; "e2"].
Proof.
  destruct (run_tx (ListTaskEvents "team" "t1") (fx_env 9000) fx_finished)
    as [[l|e] db'] eqn:E; [|vm_compute in E; discriminate].
  exists l, db'. split; [reflexivity|].
  split; [exact (proj1 (ListTaskEvents_history _ _ _ _ _ _ E))|].
  vm_compute in E. injection E as <- _. reflexivity.
Defined.

Definition fx_observe : TxS ExecutorEvent :=
  AppendExecutorEvent (mkExecutorEventRequest "c1" (Some "team") None "capacity_observed"
                         (format_bits 6000) capacity_document) (fx_identity "ex1").

Lemma AppendExecutorEvent_observes_witness : ∃ r db',
  run_tx fx_observe (fx_env 6000) fx_db = (Ok r, db') ∧ db_tasks db' = db_tasks fx_db ∧
  ex_max_capacity <$> db_executors db' !! "ex1" = Some 7.
Proof.
  destruct (run_tx fx_observe (fx_env 6000) fx_db) as [[r|e] db'] eqn:E;
    [|vm_compute in E; discriminate].
  exists r, db'. split; [reflexivity|].
  split; [exact (proj1 (AppendExecutorEvent_observes _ _ _ _ _ _ (fx_executor "ex1") E eq_refl))|].
  vm_compute in E. injection E as _ <-. reflexivity.
Defined.

(** The order of acceptance is not the order of the history inside one microsecond: an
    accepted later report of the same microsecond with a smaller identifier is listed before
    the one it followed. *)
Theorem AppendTaskEvent_order_gap :
  let db := (run_tx (fx_report "e1" TypeFinished 6500) (fx_env_named "b" 7000)
               (run_tx (fx_report "e9" TypeRunning 6000) (fx_env_named "a" 6000) fx_claimed).2).2 in
  (tk_state <$> db_tasks db !! "t1") = Some StateFinished ∧
  map te_type (task_history "team" "t1" db) = [TypeCreated; TypeFinished; TypeRunning].
Proof. vm_compute. split; reflexivity. Qed.
End witnesses.
