(* ===== verification/Controls.v ===== *)
(** * Task controls and the audit log (store/controls.go, store/control_events.go)

    An operator asks for a running task to be cancelled or interrupted; the assigned Executor
    acknowledges the request and reports its outcome. Every write leaves an audit entry. *)

From stdpp Require Import base gmap strings list sorting.
From S2P Require Import Prelude Paging Platform Tx Schema Store Fixtures Claim Events.
#[local] Open Scope Z_scope.

(** ** Wire types (platform/control.go) *)

Record CreateTaskControlRequest : Type := mkControlRequest {
  qc_action : string; qc_key : string; qc_reason : option string }.

Record TaskControl : Type := mkTaskControl {
  tl_id : string; tl_team : string; tl_task : string; tl_operator : string; tl_action : string;
  tl_key : string; tl_reason : option string; tl_status : string; tl_audit : string;
  tl_requested_at : Z }.

Record TaskControlEventAppendRequest : Type := mkControlEventRequest {
  qe_event : string; qe_status : string; qe_occurred_at : Z; qe_payload : string }.

Record TaskControlEvent : Type := mkControlReport {
  tv_id : string; tv_control : string; tv_task : string; tv_team : string;
  tv_executor : option string; tv_type : string; tv_status : string; tv_occurred_at : Z;
  tv_payload : string }.

Record AuditEntry : Type := mkAuditEntry {
  ae_id : string; ae_team : string; ae_actor : string; ae_actor_type : string; ae_action : string;
  ae_resource_type : string; ae_resource_id : string; ae_request : string; ae_outcome : string;
  ae_occurred_at : Z }.

Definition TaskControlEventTypeRequested : string := "task.control.requested".

(** validControlTransition. *)
Definition validControlTransition (current next : string) : bool :=
  (bool_decide (current = "pending") && bool_decide (next = "acknowledged")) ||
  (bool_decide (current = "acknowledged") &&
   (bool_decide (next = "completed") || bool_decide (next = "failed"))).

(** scanTaskControl. *)
Definition scanTaskControl (c : ControlRow) : TaskControl :=
  mkTaskControl (ct_id c) (ct_team c) (ct_task c) (ct_operator c) (ct_action c) (ct_key c)
    (ct_reason c) (ct_status c) (ct_audit c) (ct_requested_at c).

(** scanAuditEntry: the team column is scanned into a string. *)
Definition scanAuditEntry (a : AuditRow) : option AuditEntry :=
  match au_team a with
  | None => None
  | Some team =>
      Some (mkAuditEntry (au_id a) team (au_actor a) (au_actor_type a) (au_action a)
              (au_resource_type a) (au_resource_id a) (au_request a) (au_outcome a)
              (au_occurred_at a))
  end.

Section controls.
Context `{Collation, PgTime, JsonCodec, JsonCompact, TimeCodec}.

(** ** CreateTaskControl *)

(** findTaskControl: the request with the same idempotency key. *)
Definition find_control (team task operator action key : string) (d : DB) : option ControlRow :=
  head (filter (λ c, same_control team task operator action key c) (rows (db_controls d))).

Definition findTaskControl (identity : GatewayIdentity) (task : string)
    (req : CreateTaskControlRequest) : TxS (option TaskControl) :=
  c <- query (ErrWrap "read control retry")
         (find_control (gi_team identity) task (gi_operator identity) (qc_action req) (qc_key req)) ;;
  ret (scanTaskControl <$> c).

Definition control_row (id audit : string) (identity : GatewayIdentity) (task : string)
    (req : CreateTaskControlRequest) (at_ : Z) : ControlRow :=
  mkControl id (gi_team identity) task (gi_operator identity) (qc_action req) (qc_key req)
    (qc_reason req) "pending" audit at_.

(** INSERT INTO task_control_requests ... RETURNING requested_at. *)
Definition insert_requested (id audit : string) (identity : GatewayIdentity) (task : string)
    (req : CreateTaskControlRequest) (now : Z) (d : DB) : result sql_error (DB * Z) :=
  match insert_control (control_row id audit identity task req (pg_ts now)) d with
  | Ok d' => Ok (d', pg_ts now)
  | Err e => Err e
  end.

Definition operator_audit (id : string) (identity : GatewayIdentity) (action resource : string)
    (at_ : Z) : AuditRow :=
  mkAudit id (Some (gi_team identity)) (gi_operator identity) "operator" action
    "task_control_request" resource (gi_request identity) "accepted" None at_.

Definition control_payload (action : string) : string :=
  json_marshal (JObj [("action", JStr action); ("source", JStr "operator")]).

Definition CreateTaskControl (identity : GatewayIdentity) (task : string)
    (req : CreateTaskControlRequest) : TxS TaskControl :=
  begin_tx (ErrWrap "begin control transaction") ;;;
  known <- query (ErrWrap "lock control task") (task_of_team (gi_team identity) task) ;;
  if negb known then throw ErrTaskUnknown else
  found <- findTaskControl identity task req ;;
  match found with
  | Some control => commit (ErrWrap "commit control retry") ;;; ret control
  | None =>
      id <- fresh_uuid ;;
      audit <- fresh_uuid ;;
      exec (ErrWrap "append control audit")
        (λ at_, insert_audit (operator_audit audit identity ("task.control." +:+ qc_action req) id
                                (pg_ts at_))) ;;;
      requested <- exec_returning (ErrWrap "append task control")
                     (insert_requested id audit identity task req) ;;
      event <- fresh_uuid ;;
      exec (ErrWrap "append requested control event")
        (λ _, insert_control_event
                (mkControlEvent event id task (gi_team identity) None "pending" requested
                   (control_payload (qc_action req)))) ;;;
      commit (ErrWrap "commit task control") ;;;
      ret (scanTaskControl (control_row id audit identity task req requested))
  end.

(** ** GetTaskControl, ListAssignedTaskControls *)

Definition GetTaskControl (team task id : string) : TxS TaskControl :=
  c <- query (ErrWrap "get task control")
         (λ d, match db_controls d !! id with
               | Some c => if bool_decide (ct_team c = team ∧ ct_task c = task) then Some c else None
               | None => None
               end) ;;
  match c with Some c => ret (scanTaskControl c) | None => throw ErrTaskUnknown end.

Definition control_le : relation ControlRow := row_le ct_requested_at ct_id.

Definition pending_controls (team task : string) (d : DB) : list ControlRow :=
  order_by control_le
    (filter (λ c, ct_team c = team ∧ ct_task c = task ∧ ct_status c = "pending")
       (rows (db_controls d))).

Definition ListAssignedTaskControls (task : string) (identity : ExecutorIdentity) :
    TxS (list TaskControl) :=
  ot <- query (ErrWrap "read control task assignment") (λ d, db_tasks d !! task) ;;
  match ot with
  | None => throw ErrTaskUnknown
  | Some t =>
  ox <- query (ErrWrap "read control executor") (λ d, db_executors d !! xi_executor identity) ;;
  match ox with
  | None => throw ErrExecutorNotFound
  | Some x =>
  if bool_decide (ex_scope x ≠ xi_scope identity) then throw ErrExecutorNotFound else
  if bool_decide (ex_scope x = ScopeTeam) &&
     bool_decide (ex_team x = None ∨ xi_team identity ≠ ex_team x)
  then throw ErrExecutorNotFound else
  if bool_decide (ex_scope x = ScopeTeam) && bool_decide (ex_team x ≠ Some (tk_team t))
  then throw ErrTaskUnknown else
  if bool_decide (tk_executor t ≠ Some (xi_executor identity)) then throw ErrNotAssigned else
  l <- query (ErrWrap "list assigned task controls") (pending_controls (tk_team t) task) ;;
  ret (scanTaskControl <$> l)
  end
  end.

(** ** AppendTaskControlEvent *)

(** normalizeControlPayload and equalControlPayload. *)
Definition normalizeControlPayload (p : string) : string :=
  if bool_decide (p = "") || negb (json_valid p) then "{}" else p.

Definition equalControlPayload (l r : string) : bool :=
  match json_compact (normalizeControlPayload l), json_compact (normalizeControlPayload r) with
  | Some a, Some b => bool_decide (a = b)
  | _, _ => false
  end.

(** The joined row: team of the control, assigned Executor, projected status; an unassigned
    task has no Executor to scan. *)
Definition lock_control (task control : string) (d : DB) :
    result sql_error (option (string * string * string)) :=
  match db_controls d !! control with
  | None => Ok None
  | Some c =>
      if bool_decide (ct_task c = task) then
        match db_tasks d !! task with
        | Some t =>
            if bool_decide (tk_team t = ct_team c) then
              match scan_text (tk_executor t) with
              | Ok executor => Ok (Some (ct_team c, executor, ct_status c))
              | Err e => Err e
              end
            else Ok None
        | None => Ok None
        end
      else Ok None
  end.

Definition scan_control_event (e : ControlEventRow) : TaskControlEvent :=
  mkControlReport (ce_id e) (ce_control e) (ce_task e) (ce_team e) (ce_executor e)
    TaskControlEventTypeRequested (ce_status e) (ce_occurred_at e) (ce_payload e).

(** The events of a control. *)
Definition of_control (team task control : string) (e : ControlEventRow) : bool :=
  bool_decide (ce_team e = team ∧ ce_task e = task ∧ ce_control e = control).

(** readTaskControlEvent. *)
Definition find_control_event (team task control event : string) (d : DB) :
    option ControlEventRow :=
  match db_control_events d !! event with
  | Some e => if of_control team task control e then Some e else None
  | None => None
  end.

Definition control_event_le : relation ControlEventRow := row_le ce_occurred_at ce_id.
Definition control_event_ge : relation ControlEventRow := λ a b, control_event_le b a.
#[export] Instance control_event_ge_dec : RelDecision control_event_ge.
Proof using. intros a b. unfold control_event_ge, control_event_le. apply _. Defined.

Definition last_control_event (team task control : string) (d : DB) : option ControlEventRow :=
  head (order_by control_event_ge
          (filter (λ e, of_control team task control e) (rows (db_control_events d)))).

(** Not before the last stored event, nor at its instant with an identifier that does not
    follow bytewise. *)
Definition control_order_ok (occurred : Z) (event : string) (last : option ControlEventRow) : bool :=
  match last with
  | None => true
  | Some e =>
      negb ((occurred <? ce_occurred_at e) ||
            ((occurred =? ce_occurred_at e) && String.leb event (ce_id e)))
  end.

Definition control_event_row (task control team executor : string)
    (req : TaskControlEventAppendRequest) (payload : string) : ControlEventRow :=
  mkControlEvent (qe_event req) control task team (Some executor) (qe_status req)
    (pg_ts (qe_occurred_at req)) payload.

Definition control_event_fresh (task control team status : string)
    (req : TaskControlEventAppendRequest) (identity : ExecutorIdentity) : TxS TaskControlEvent :=
  if negb (validControlTransition status (qe_status req)) then throw ErrControlEventConflict else
  last <- query (ErrWrap "read last control event") (last_control_event team task control) ;;
  if negb (control_order_ok (qe_occurred_at req) (qe_event req) last)
  then throw ErrControlEventConflict else
  let payload := normalizeControlPayload (qe_payload req) in
  exec (ErrWrap "insert control event")
    (λ _, insert_control_event
            (control_event_row task control team (xi_executor identity) req payload)) ;;;
  exec (ErrWrap "update task control projection")
    (λ _, update_control_status team task control (qe_status req)) ;;;
  id <- fresh_uuid ;;
  exec (ErrWrap "append control event audit")
    (λ at_, insert_audit (audit_event id (Some team) identity
                            ("task.control." +:+ qe_status req) "task_control_request" control
                            (pg_ts at_))) ;;;
  commit (ErrWrap "commit control event") ;;;
  ret (mkControlReport (qe_event req) control task team (Some (xi_executor identity))
         TaskControlEventTypeRequested (qe_status req) (qe_occurred_at req) payload).

Definition AppendTaskControlEvent (task control : string) (req : TaskControlEventAppendRequest)
    (identity : ExecutorIdentity) : TxS TaskControlEvent :=
  begin_tx (ErrWrap "begin control event append") ;;;
  locked <- query_scan (ErrWrap "lock task control for event") (lock_control task control) ;;
  match locked with
  | None => throw ErrTaskUnknown
  | Some (team, executor, status) =>
  if bool_decide (executor ≠ xi_executor identity) then throw ErrTaskUnknown else
  matches <- executorIdentityMatches team identity ;;
  if negb matches then throw ErrTaskUnknown else
  existing <- query (ErrWrap "read control event retry")
                (find_control_event team task control (qe_event req)) ;;
  match existing with
  | Some e =>
      if bool_decide (ce_status e ≠ qe_status req) || negb (ce_occurred_at e =? qe_occurred_at req) ||
         negb (equalControlPayload (ce_payload e) (qe_payload req))
      then throw ErrControlEventConflict
      else commit (ErrWrap "commit control event retry") ;;; ret (scan_control_event e)
  | None => control_event_fresh task control team status req identity
  end
  end.

Definition ListTaskControlEvents (team task control : string) (limit : nat) :
    TxS (list TaskControlEvent) :=
  l <- query (ErrWrap "list task control events")
         (λ d, take limit (order_by control_event_le
                  (filter (λ e, of_control team task control e) (rows (db_control_events d))))) ;;
  ret (scan_control_event <$> l).

(** ** The audit log *)

Definition audit_key (a : AuditRow) : Z * string := (au_occurred_at a, au_id a).

(** An empty filter field selects every row. *)
Definition audit_selected (team resource_type resource_id : string) (a : AuditRow) : bool :=
  bool_decide (au_team a = Some team) &&
  (bool_decide (resource_type = "") || bool_decide (au_resource_type a = resource_type)) &&
  (bool_decide (resource_id = "") || bool_decide (au_resource_id a = resource_id)).

Definition audit_rows (team resource_type resource_id : string) (d : DB) : list AuditRow :=
  filter (λ a, audit_selected team resource_type resource_id a) (rows (db_audit d)).

Definition ListAuditEntries (team resource_type resource_id : string) (limit : nat)
    (after : option (Z * string)) : TxS (list AuditEntry * option (Z * string)) :=
  page <- query_scan (ErrWrap "list audit entries")
            (λ d, let '(l, next) := keyset_page pair_ge audit_key limit after
                                      (audit_rows team resource_type resource_id d) in
                  match mapM scanAuditEntry l with
                  | Some es => Ok (es, next)
                  | None => Err SqlScan
                  end) ;;
  ret page.

Definition GetAuditEntry (team id : string) : TxS AuditEntry :=
  e <- query (ErrWrap "get audit entry")
         (λ d, match db_audit d !! id with
               | Some a => if bool_decide (au_team a = Some team) then scanAuditEntry a else None
               | None => None
               end) ;;
  match e with Some e => ret e | None => throw ErrTaskUnknown end.

(** ListStreamTaskEvents: at most a hundred events after a (time, identifier) pair. *)
Definition stream_events (team task : string) (after : Z * string) (d : DB) : list TaskEventRow :=
  take 100 (order_by event_le
    (filter (λ e, te_team e = team ∧ (task = "" ∨ te_task e = task) ∧
                  key_lt coll_lt (pg_ts after.1) after.2 (te_occurred_at e) (te_id e))
       (rows (db_task_events d)))).

Definition ListStreamTaskEvents (team task : string) (after : Z * string) : TxS (list TaskEvent) :=
  l <- query (ErrWrap "list stream task events") (stream_events team task after) ;;
  ret ((λ e, mkEvent (te_id e) (te_team e) (te_task e) (Some (te_executor e)) (te_type e)
               (format_rfc3339 (te_occurred_at e)) (Some (te_payload e))) <$> l).
End controls.

(** ** What a run establishes *)

Section control_facts.
Context `{Collation, PgTime, JsonCodec, JsonCompact, TimeCodec}.

Lemma CreateTaskControl_error_keeps identity task req :
  error_keeps (CreateTaskControl identity task req).
Proof using. unfold CreateTaskControl, findTaskControl. tx_atomic. Qed.

Lemma AppendTaskControlEvent_error_keeps task control req identity :
  error_keeps (AppendTaskControlEvent task control req identity).
Proof using.
  unfold AppendTaskControlEvent, control_event_fresh. tx_atomic.
Qed.

Lemma find_control_ok team task operator action key d c :
  find_control team task operator action key d = Some c →
  (∃ k, db_controls d !! k = Some c) ∧ same_control team task operator action key c = true.
Proof using.
  unfold find_control. intros Hh.
  destruct (filter _ _) as [|z zs] eqn:E; simplify_eq/=.
  assert (c ∈ c :: zs) as Hin by by left. rewrite <- E in Hin.
  apply list_elem_of_filter in Hin as [Hs Hin]. split; [by apply elem_of_rows|].
  by apply Is_true_true.
Qed.

(** A created control: the request, its first event and an audit entry. *)
Definition control_created (c : ControlRow) (event : ControlEventRow) (audit : AuditRow) (d : DB) :
    DB :=
  with_control_events (<[ce_id event := event]> (db_control_events d))
    (with_controls (<[ct_id c := c]> (db_controls d))
    (with_audit (<[au_id audit := audit]> (db_audit d)) d)).

Lemma CreateTaskControl_ok identity task req env db r db' :
  run_tx (CreateTaskControl identity task req) env db = (Ok r, db') →
  task_of_team (gi_team identity) task db = true ∧
  ((∃ c, find_control (gi_team identity) task (gi_operator identity) (qc_action req) (qc_key req) db
         = Some c ∧ r = scanTaskControl c ∧ db' = db) ∨
   (∃ id aid at_ event audit,
      let c := control_row id aid identity task req at_ in
      db' = control_created c event audit db ∧
      find_control (gi_team identity) task (gi_operator identity) (qc_action req) (qc_key req) db
      = None ∧
      db_controls db !! id = None ∧
      (∀ k c', db_controls db !! k = Some c' →
         same_control (gi_team identity) task (gi_operator identity) (qc_action req) (qc_key req) c'
         = false) ∧
      db_audit db !! aid = None ∧ au_id audit = aid ∧ au_actor audit = gi_operator identity ∧
      au_resource_id audit = id ∧
      db_control_events db !! ce_id event = None ∧ ce_control event = id ∧
      ce_status event = "pending" ∧ pg_ts (ce_occurred_at event) = ce_occurred_at event ∧
      r = scanTaskControl c)).
Proof using.
  intros (st & Hr & ->)%run_tx_ok. unfold CreateTaskControl, findTaskControl in Hr.
  tx_inv; to_prop; simpl in *; tx_states; (split; [done|]).
  - left. destruct (find_control _ _ _ _ _ _) as [c|]; simplify_eq/=. by exists c.
  - right. destruct (find_control _ _ _ _ _ _) as [c|] eqn:Ef; simplify_eq/=.
    match goal with H : insert_audit _ _ = _ |- _ => apply insert_audit_ok in H as (Hna & _ & Hd1) end.
    match goal with H : insert_requested _ _ _ _ _ _ _ = _ |- _ =>
      unfold insert_requested in H; rename H into Hins end.
    destruct (insert_control _ _) as [d2|] eqn:Ei; simplify_eq.
    apply insert_control_ok in Ei as (Hnc & Huniq & Hd2). rewrite Hd1 in Hnc, Huniq, Hd2.
    match goal with H : insert_control_event _ _ = _ |- _ =>
      apply insert_control_event_ok in H as (p & _ & Hne & _ & Hd3) end.
    rewrite Hd2 in Hne, Hd3. simpl in *.
    eexists _, _, _, _, _. split; [exact Hd3|]. split_and!; try done. apply pg_ts_idem.
Qed.

(** The control, the task and the Executor an accepted report is about. *)
Lemma lock_control_ok task control d team executor status :
  lock_control task control d = Ok (Some (team, executor, status)) →
  ∃ c t, db_controls d !! control = Some c ∧ db_tasks d !! task = Some t ∧ ct_task c = task ∧
    ct_team c = team ∧ tk_team t = team ∧ tk_executor t = Some executor ∧ ct_status c = status.
Proof using.
  unfold lock_control. intros Hl. repeat (destr_in Hl; simplify_eq). to_prop.
  unfold scan_text in *. destruct (tk_executor t) eqn:Ex; simplify_eq.
  by exists c, t.
Qed.

(** A fresh report of a control: from [d] to [d']. *)
Record control_step (task control : string) (req : TaskControlEventAppendRequest)
    (executor : string) (c : ControlRow) (d d' : DB) (stored : string) (audit : AuditRow) : Prop :=
mkControlStep {
  cs_result :
    d' = with_audit (<[au_id audit := audit]> (db_audit d))
           (with_controls (<[control := set_control_status (qe_status req) c]> (db_controls d))
           (with_control_events
              (<[qe_event req := control_event_row task control (ct_team c) executor req stored]>
                 (db_control_events d)) d));
  cs_transition : validControlTransition (ct_status c) (qe_status req) = true;
  cs_order : control_order_ok (qe_occurred_at req) (qe_event req)
               (last_control_event (ct_team c) task control d) = true;
  cs_new : db_control_events d !! qe_event req = None;
  cs_stored : jsonb_cast (normalizeControlPayload (qe_payload req)) = Some stored;
  cs_audit : db_audit d !! au_id audit = None ∧ au_actor audit = executor ∧
             au_action audit = "task.control." +:+ qe_status req ∧ au_resource_id audit = control;
}.

Lemma control_event_fresh_ok task control team status req identity c env st r st' :
  db_controls (ts_db st) !! control = Some c → ct_team c = team → ct_task c = task →
  ct_status c = status →
  control_event_fresh task control team status req identity env st = (Ok r, st') →
  ts_durable st' = ts_db st' ∧ tv_status r = qe_status req ∧
  ∃ stored audit,
    control_step task control req (xi_executor identity) c (ts_db st) (ts_db st') stored audit.
Proof using.
  intros Hc <- <- <- Hr. unfold control_event_fresh in Hr. tx_inv; to_prop. tx_states.
  match goal with H : insert_control_event _ _ = _ |- _ =>
    apply insert_control_event_ok in H as (p & Hp & Hne & _ & Hd1) end.
  match goal with H : update_control_status _ _ _ _ _ = _ |- _ => rewrite Hd1 in H;
    eapply update_control_status_ok in H; [|simpl; exact Hc|done..]; rename H into Hd2 end.
  match goal with H : insert_audit _ _ = _ |- _ => rewrite Hd2 in H;
    apply insert_audit_ok in H as (Hna & _ & Hd3) end.
  simpl in *. split; [done|]. split; [done|]. exists p. eexists.
  constructor; [exact Hd3|done..|by split_and!].
Qed.

Lemma AppendTaskControlEvent_ok task control req identity env db r db' :
  run_tx (AppendTaskControlEvent task control req identity) env db = (Ok r, db') →
  ∃ c t, db_controls db !! control = Some c ∧ db_tasks db !! task = Some t ∧ ct_task c = task ∧
    tk_team t = ct_team c ∧ tk_executor t = Some (xi_executor identity) ∧
    identity_matches (ct_team c) identity db = true ∧ tv_status r = qe_status req ∧
    ((∃ e, db_control_events db !! qe_event req = Some e ∧
       of_control (ct_team c) task control e = true ∧ ce_status e = qe_status req ∧ db' = db) ∨
     (∃ stored audit,
        control_step task control req (xi_executor identity) c db db' stored audit)).
Proof using.
  intros (st & Hr & ->)%run_tx_ok. unfold AppendTaskControlEvent in Hr.
  tx_inv; to_prop; simpl in *;
    match goal with H : executorIdentityMatches _ _ _ _ = _ |- _ =>
      apply executorIdentityMatches_ok in H as (Him & ? & ? & ?) end;
    tx_states;
    match goal with H : lock_control _ _ _ = _ |- _ =>
      apply lock_control_ok in H as (k & t & Hc & Ht & Htask & Hteam & Htt & Hex & Hst) end;
    exists k, t; simplify_eq; split_and!; try done; try congruence; try by apply Him.
  - left. match goal with H : Some ?e = find_control_event _ _ _ _ _ |- _ =>
      exists e; unfold find_control_event in H; rename H into Hf end.
    destruct (db_control_events _ !! _); [|done].
    destruct (of_control _ _ _ _) eqn:Eo; [|done]. by simplify_eq.
  - match goal with H : control_event_fresh _ _ _ _ _ _ _ _ = _ |- _ =>
      eapply control_event_fresh_ok in H as (? & ? & _); [|by tx_states..] end. done.
  - right. match goal with H : control_event_fresh _ _ _ _ _ _ _ _ = _ |- _ =>
      eapply control_event_fresh_ok in H as (-> & _ & Q); [|by tx_states..] end. by tx_states.
Qed.
End control_facts.

(** ** Properties *)

(** The life of a control request. *)
Inductive control_life : string → string → Prop :=
| control_acknowledged : control_life "pending" "acknowledged"
| control_completed : control_life "acknowledged" "completed"
| control_failed : control_life "acknowledged" "failed".

Lemma valid_transition_life a b : validControlTransition a b = true → control_life a b.
Proof.
  unfold validControlTransition. intros Ht.
  apply orb_true_iff in Ht as [[? ?]%andb_true_iff|[? [?|?]%orb_true_iff]%andb_true_iff];
    to_prop; subst; constructor.
Qed.

(** The pages of the audit log, following the cursors, [fuel] pages at most. *)
Definition audit_walk `{Collation} (fuel : nat) (team rt rid : string) (limit : nat)
    (env : TxEnv) (db : DB) : option (list AuditEntry) :=
  page_walk fuel (λ after, match (run_tx (ListAuditEntries team rt rid limit after) env db).1 with
                           | Ok page => Some page
                           | Err _ => None
                           end) None.

Section control_properties.
Context `{Collation, PgTime, JsonCodec, JsonCompact, TimeCodec}.

Lemma same_control_self id aid identity task req at_ :
  same_control (gi_team identity) task (gi_operator identity) (qc_action req) (qc_key req)
    (control_row id aid identity task req at_) = true.
Proof using. by apply bool_decide_eq_true. Qed.

(** The request just created is the one its key finds. *)
Lemma find_created c event audit db team task operator action key :
  db_controls db !! ct_id c = None →
  (∀ k c', db_controls db !! k = Some c' → same_control team task operator action key c' = false) →
  same_control team task operator action key c = true →
  find_control team task operator action key (control_created c event audit db) = Some c.
Proof using.
  intros Hnew Huniq Hself.
  destruct (find_control team task operator action key (control_created c event audit db))
    as [c'|] eqn:E.
  - apply find_control_ok in E as [[k Hk] Hs]. simpl in Hk.
    apply lookup_insert_Some in Hk as [[_ ->]|[_ Hk]]; [done|].
    apply Huniq in Hk. congruence.
  - exfalso. unfold find_control in E.
    assert (c ∈ filter (λ c, same_control team task operator action key c)
                  (rows (db_controls (control_created c event audit db)))) as Hin.
    { apply list_elem_of_filter. split; [by rewrite Hself|]. apply elem_of_rows.
      exists (ct_id c). simpl. apply lookup_insert_eq. }
    destruct (filter _ _); [by apply not_elem_of_nil in Hin|done].
Qed.

(** Creating a control is idempotent: repeating the request with the same idempotency key
    returns the control the first request created, and creates nothing. *)
Theorem CreateTaskControl_idempotent identity task req env db r db' env' r' db'' :
  run_tx (CreateTaskControl identity task req) env db = (Ok r, db') →
  run_tx (CreateTaskControl identity task req) env' db' = (Ok r', db'') →
  r' = r ∧ db'' = db'.
Proof using.
  intros (_ & Hcase)%CreateTaskControl_ok (_ & Hcase')%CreateTaskControl_ok.
  assert (find_control (gi_team identity) task (gi_operator identity) (qc_action req) (qc_key req)
            db' = Some (mkControl (tl_id r) (tl_team r) (tl_task r) (tl_operator r) (tl_action r)
                          (tl_key r) (tl_reason r) (tl_status r) (tl_audit r) (tl_requested_at r)))
    as Hf.
  { destruct Hcase as [([] & Hc & -> & ->)|(id & aid & at_ & ev & au & -> & _ & Hnew & Huniq & Q)];
      [done|]. destruct Q as (_ & _ & _ & _ & _ & _ & _ & _ & ->).
    apply find_created; [done|done|apply same_control_self]. }
  destruct Hcase' as [(c & Hc & -> & ->)|(? & ? & ? & ? & ? & _ & Hn & _)]; [|congruence].
  rewrite Hf in Hc. simplify_eq. split; [|done]. by destruct r.
Qed.

(** Reports move a control only along its life, only by the Executor the task is assigned
    to, and only that control: every other control, every task and every earlier report stay. *)
Theorem AppendTaskControlEvent_effect task control req identity env db r db' :
  run_tx (AppendTaskControlEvent task control req identity) env db = (Ok r, db') →
  db_control_events db !! qe_event req = None →
  ∃ c t stored, db_controls db !! control = Some c ∧ db_tasks db !! task = Some t ∧
    tk_executor t = Some (xi_executor identity) ∧ control_life (ct_status c) (qe_status req) ∧
    db_controls db' = <[control := set_control_status (qe_status req) c]> (db_controls db) ∧
    db_control_events db' =
      <[qe_event req := control_event_row task control (ct_team c) (xi_executor identity) req stored]>
        (db_control_events db) ∧
    db_tasks db' = db_tasks db ∧ db_task_events db' = db_task_events db.
Proof using.
  intros (c & t & Hc & Ht & _ & _ & Hex & _ & _ & Hcase)%AppendTaskControlEvent_ok Hn.
  destruct Hcase as [(e & He & _)|(p & au & Hs)]; [congruence|].
  exists c, t, p. rewrite (cs_result _ _ _ _ _ _ _ _ _ Hs). simpl. split_and!; try done.
  eapply valid_transition_life, cs_transition, Hs.
Qed.

(** A control of a task that no Executor has claimed cannot be reported on, and the report
    is answered with the failure to read the missing assignment, not as an unknown task. *)
Theorem AppendTaskControlEvent_unassigned task control req identity env db c t :
  (∀ n, env_fault env n = false) →
  db_controls db !! control = Some c → ct_task c = task →
  db_tasks db !! task = Some t → tk_team t = ct_team c → tk_executor t = None →
  run_tx (AppendTaskControlEvent task control req identity) env db
  = (Err (ErrWrap "lock task control for event" SqlScan), db).
Proof using.
  intros Hnf Hc Htask Ht Hteam Hex.
  unfold run_tx, AppendTaskControlEvent, begin_tx, query_scan, query, stmt, bind, begin_st. simpl.
  rewrite !Hnf. simpl. unfold lock_control. rewrite Hc, Ht.
  rewrite !bool_decide_eq_true_2 by done. by rewrite Hex.
Qed.

Lemma mapM_scan l :
  (∀ a, a ∈ l → is_Some (au_team a)) → ∃ es, mapM scanAuditEntry l = Some es ∧ length es = length l ∧
    ae_id <$> es = au_id <$> l.
Proof using.
  clear. induction l as [|a l IH]; intros Hall; [by exists []|].
  destruct IH as (es & Hes & Hlen & Hid); [intros a' Ha'; apply Hall; by right|].
  destruct (Hall a) as [team Ht]; [by left|].
  destruct (scanAuditEntry a) as [e|] eqn:Ee; [|unfold scanAuditEntry in Ee; by rewrite Ht in Ee].
  exists (e :: es). simpl. rewrite Ee. simpl. rewrite Hes. simpl.
  unfold scanAuditEntry in Ee. rewrite Ht in Ee. simplify_eq/=. by rewrite Hlen, Hid.
Qed.

Lemma ListAuditEntries_run team rt rid limit after env db :
  (∀ n, env_fault env n = false) →
  let '(l, next) := keyset_page pair_ge audit_key limit after (audit_rows team rt rid db) in
  (run_tx (ListAuditEntries team rt rid limit after) env db).1
  = match mapM scanAuditEntry l with
    | Some es => Ok (es, next)
    | None => Err (ErrWrap "list audit entries" SqlScan)
    end.
Proof using.
  intros Hnf. unfold run_tx, ListAuditEntries, query_scan, stmt, bind, begin_st. simpl.
  rewrite Hnf. destruct (keyset_page _ _ _ _ _) as [l next]. by destruct (mapM scanAuditEntry l).
Qed.

Lemma audit_row_team team rt rid db a : a ∈ audit_rows team rt rid db → is_Some (au_team a).
Proof using.
  intros [Hs _]%list_elem_of_filter. unfold audit_selected in Hs.
  apply Is_true_true, andb_true_iff in Hs as [[Hs _]%andb_true_iff _]. to_prop. eauto.
Qed.

(** Following the cursors of the audit log visits every selected entry exactly once, newest
    first, whatever the page size. *)
Theorem ListAuditEntries_pages team rt rid limit env db fuel :
  (∀ n, env_fault env n = false) → map_Forall (λ k a, au_id a = k) (db_audit db) →
  limit ≠ 0%nat → (length (audit_rows team rt rid db) < fuel)%nat →
  ∃ es, audit_walk fuel team rt rid limit env db = Some es ∧
        ae_id <$> es = au_id <$> order_by (by_key pair_ge audit_key) (audit_rows team rt rid db).
Proof using.
  intros Hnf Hkey Hl Hf.
  destruct (page_walk_all pair_ge audit_key id (λ a e, scanAuditEntry a = Some e)
              (λ after, match (run_tx (ListAuditEntries team rt rid limit after) env db).1 with
                        | Ok page => Some page | Err _ => None end)
              fuel limit (audit_rows team rt rid db)) as (es & Hes & HP);
    [done|apply rows_distinct; [by right|done]|done| |].
  - intros c _. rewrite option_fmap_id.
    pose proof (ListAuditEntries_run team rt rid limit c env db Hnf) as Hrun.
    destruct (keyset_page _ _ _ _ _) as [l next] eqn:Ep. rewrite Hrun.
    destruct (mapM_scan l) as (es & Hm & _).
    { intros a Ha. eapply audit_row_team, (keyset_page_rows pair_ge audit_key); done. }
    rewrite Hm, option_fmap_id. exists es. split; [done|]. by apply mapM_Some.
  - exists es. split; [done|]. symmetry. clear Hes Hf. revert HP. generalize (order_by (by_key pair_ge audit_key)
      (audit_rows team rt rid db)). induction 1 as [|a e l es Ha _ IH]; [done|].
    rewrite !fmap_cons, IH. f_equal. unfold scanAuditEntry in Ha.
    destruct (au_team a); by simplify_eq.
Qed.
End control_properties.

(** ** The properties on the small registry *)

Section witnesses.
#[local] Existing Instances pg_micros collation_C time_bits json_plain token_fields image_plain
  compact_plain.

Definition fx_operator : GatewayIdentity := mkGatewayIdentity "team" "op" "req".
Definition fx_cancel (task : string) : TxS TaskControl :=
  CreateTaskControl fx_operator task (mkControlRequest "cancel" "key" None).

(** The running task with a pending control "x0". *)
Definition fx_controlled : DB := (run_tx (fx_cancel "t1") (fx_env_named "x" 7000) fx_running).2.

Definition fx_acknowledge (task : string) : TxS TaskControlEvent :=
  AppendTaskControlEvent task "x0" (mkControlEventRequest "ce1" "acknowledged" 8000 "")
    (fx_identity "ex1").

Lemma CreateTaskControl_idempotent_witness :
  ∃ r db', run_tx (fx_cancel "t1") (fx_env_named "x" 7000) fx_running = (Ok r, db') ∧
           run_tx (fx_cancel "t1") (fx_env_named "y" 7500) db' = (Ok r, db').
Proof.
  destruct (run_tx (fx_cancel "t1") (fx_env_named "x" 7000) fx_running) as [[r|e] db'] eqn:E;
    [|vm_compute in E; discriminate].
  destruct (run_tx (fx_cancel "t1") (fx_env_named "y" 7500) db') as [[r'|e] db''] eqn:E'.
  - destruct (CreateTaskControl_idempotent _ _ _ _ _ _ _ _ _ _ E E') as [-> ->].
    exists r, db'. split; [reflexivity|exact E'].
  - vm_compute in E. injection E as <- <-. vm_compute in E'. discriminate.
Defined.

Lemma AppendTaskControlEvent_effect_witness : ∃ r db' c,
  run_tx (fx_acknowledge "t1") (fx_env_named "z" 8000) fx_controlled = (Ok r, db') ∧
  control_life (ct_status c) "acknowledged" ∧ db_tasks db' = db_tasks fx_controlled.
Proof.
  destruct (run_tx (fx_acknowledge "t1") (fx_env_named "z" 8000) fx_controlled)
    as [[r|e] db'] eqn:E; [|vm_compute in E; discriminate].
  destruct (AppendTaskControlEvent_effect _ _ _ _ _ _ _ _ E) as (c & t & p & _ & _ & _ & Hl & _ & _ & Ht & _);
    [vm_compute; reflexivity|].
  exists r, db', c. split; [reflexivity|]. split; [exact Hl|exact Ht].
Defined.

Lemma AppendTaskControlEvent_unassigned_witness :
  (run_tx (fx_acknowledge "t2") (fx_env_named "z" 8000)
     (run_tx (fx_cancel "t2") (fx_env_named "x" 7000) fx_db).2).1
  = Err (ErrWrap "lock task control for event" SqlScan).
Proof.
  destruct (db_controls (run_tx (fx_cancel "t2") (fx_env_named "x" 7000) fx_db).2 !! "x0")
    as [c|] eqn:Ec; [|vm_compute in Ec; discriminate].
  unfold fx_acknowledge. rewrite (AppendTaskControlEvent_unassigned _ _ _ _ _ _ c (fx_task "t2" 2000));
    [reflexivity|reflexivity|exact Ec|vm_compute in Ec; injection Ec as <-; reflexivity
    |vm_compute; reflexivity|vm_compute in Ec; injection Ec as <-; reflexivity|reflexivity].
Defined.

Lemma fx_audit_keyed : map_Forall (λ k a, au_id a = k) (db_audit fx_controlled).
Proof. apply (bool_decide_unpack _). vm_compute. exact I. Qed.

Lemma ListAuditEntries_pages_witness : ∃ es,
  audit_walk 5 "team" "" "" 1 (fx_env 9000) fx_controlled = Some es ∧
  ae_action <$> es = ["task.control.cancel"; "task.event.running"].
Proof.
  destruct (ListAuditEntries_pages "team" "" "" 1 (fx_env 9000) fx_controlled 5
              (λ n, eq_refl) fx_audit_keyed) as (es & He & _); [lia|vm_compute; lia|].
  exists es. split; [exact He|]. vm_compute in He. injection He as <-. reflexivity.
Defined.
End witnesses.
