(* ===== verification/TaskLogs.v ===== *)
(** * Task logs (store/task_logs.go)

    The assigned Executor streams the output of a running task as chunks; the Registry numbers
    them. *)

From stdpp Require Import base gmap strings list sorting.
From S2P Require Import Prelude Platform Tx Schema Store Fixtures Claim Events.
#[local] Open Scope Z_scope.

(** ** Wire types (platform/task_logs.go) *)

Record TaskLogAppendRequest : Type := mkLogRequest {
  lq_chunk : string; lq_stream : string; lq_content : string; lq_occurred_at : Z }.

(** TaskLogChunk has the columns of its row. *)
Definition TaskLogChunk : Type := LogChunkRow.

Section logs.
Context `{PgTime}.

(** readTaskLogChunk. *)
Definition readTaskLogChunk (task chunk : string) (d : DB) : option LogChunkRow :=
  match db_logs d !! chunk with
  | Some c => if bool_decide (lc_task c = task) then Some c else None
  | None => None
  end.

(** SELECT COALESCE(MAX(log_offset), 0) + 1. *)
Definition task_chunks (task : string) (d : DB) : list LogChunkRow :=
  filter (λ c, lc_task c = task) (rows (db_logs d)).

Definition next_offset (task : string) (d : DB) : Z :=
  foldr (λ c m, Z.max (lc_offset c) m) 0 (task_chunks task d) + 1.

(** The locked task: team, assigned Executor and state; a task without one does not scan. *)
Definition lock_log_task (task : string) (d : DB) :
    result sql_error (option (string * string * string)) :=
  match db_tasks d !! task with
  | None => Ok None
  | Some t =>
      match scan_text (tk_executor t) with
      | Ok executor => Ok (Some (tk_team t, executor, tk_state t))
      | Err e => Err e
      end
  end.

Definition log_row (task team executor : string) (req : TaskLogAppendRequest) (offset at_ : Z) :
    LogChunkRow :=
  mkLogChunk (lq_chunk req) task team executor offset (lq_stream req) (lq_content req) at_.

Definition AppendTaskLog (task : string) (req : TaskLogAppendRequest)
    (identity : ExecutorIdentity) : TxS TaskLogChunk :=
  begin_tx (ErrWrap "begin task log append") ;;;
  locked <- query_scan (ErrWrap "lock task for log append") (lock_log_task task) ;;
  match locked with
  | None => throw ErrTaskUnknown
  | Some (team, executor, state) =>
  if bool_decide (executor ≠ xi_executor identity) then throw ErrTaskUnknown else
  matches <- executorIdentityMatches team identity ;;
  if negb matches then throw ErrTaskUnknown else
  if bool_decide (state ≠ StateCreated ∧ state ≠ StateRunning) then throw ErrTaskUnknown else
  existing <- query (ErrWrap "read task log retry") (readTaskLogChunk task (lq_chunk req)) ;;
  match existing with
  | Some c =>
      if bool_decide (lc_stream c ≠ lq_stream req ∨ lc_content c ≠ lq_content req) ||
         negb (lc_occurred_at c =? lq_occurred_at req)
      then throw ErrTaskLogConflict
      else commit (ErrWrap "commit task log retry") ;;; ret c
  | None =>
      offset <- query (ErrWrap "allocate task log offset") (next_offset task) ;;
      exec (ErrWrap "insert task log chunk")
        (λ _, insert_log_chunk (log_row task team (xi_executor identity) req offset
                                  (pg_ts (lq_occurred_at req)))) ;;;
      commit (ErrWrap "commit task log chunk") ;;;
      ret (log_row task team (xi_executor identity) req offset (lq_occurred_at req))
  end
  end.

Definition offset_le (a b : LogChunkRow) : Prop := lc_offset a ≤ lc_offset b.
#[export] Instance offset_le_dec : RelDecision offset_le.
Proof using. intros a b. unfold offset_le. apply _. Defined.
#[export] Instance offset_le_trans : Transitive offset_le.
Proof using. intros a b c. unfold offset_le. lia. Qed.
#[export] Instance offset_le_total : Total offset_le.
Proof using. intros a b. unfold offset_le. lia. Qed.

Definition ListTaskLogs (team task : string) (after : Z) (limit : nat) :
    TxS (list TaskLogChunk) :=
  known <- query (ErrWrap "verify task log owner") (task_of_team team task) ;;
  if negb known then throw ErrTaskUnknown else
  l <- query (ErrWrap "list task logs")
         (λ d, take limit (order_by offset_le
                  (filter (λ c, lc_team c = team ∧ lc_task c = task ∧ after < lc_offset c)
                     (rows (db_logs d))))) ;;
  ret l.

(** ** Numbering *)

Lemma insert_log_chunk_ok c d d' :
  insert_log_chunk c d = Ok d' →
  db_logs d !! lc_id c = None ∧ 1 ≤ lc_offset c ∧
  (∀ k r, db_logs d !! k = Some r → lc_task r = lc_task c → lc_offset r ≠ lc_offset c) ∧
  d' = with_logs (<[lc_id c := c]> (db_logs d)) d.
Proof using.
  unfold insert_log_chunk. intros Hi. checks_in Hi. simplify_eq.
  match goal with H : (1 <=? _) = true |- _ => apply Z.leb_le in H end.
  split_and!; try done. intros k r Hk Ht Ho. by match goal with H : map_Forall _ _ |- _ =>
    apply (H k r Hk) end.
Qed.

(** The chunks of a task carry the offsets 1 to n, each once. *)
Definition numbered (task : string) (d : DB) (n : Z) : Prop :=
  0 ≤ n ∧ (∀ o, 1 ≤ o ≤ n ↔ ∃ k c, db_logs d !! k = Some c ∧ lc_task c = task ∧ lc_offset c = o) ∧
  (∀ k k' c c', db_logs d !! k = Some c → db_logs d !! k' = Some c' → lc_task c = task →
     lc_task c' = task → lc_offset c = lc_offset c' → k = k').

Lemma elem_of_chunks task d c :
  c ∈ task_chunks task d ↔ ∃ k, db_logs d !! k = Some c ∧ lc_task c = task.
Proof using.
  unfold task_chunks. rewrite list_elem_of_filter, elem_of_rows. split.
  - intros (Ht & k & Hk). by exists k.
  - intros (k & Hk & Ht). split; [done|by exists k].
Qed.

Lemma foldr_max_spec (l : list LogChunkRow) :
  let m := foldr (λ c m, Z.max (lc_offset c) m) 0 l in
  0 ≤ m ∧ (∀ c, c ∈ l → lc_offset c ≤ m) ∧ (m = 0 ∨ ∃ c, c ∈ l ∧ lc_offset c = m).
Proof using.
  induction l as [|c l (Hpos & Hle & Hin)]; simpl.
  - split_and!; [lia| |by left]. intros c Hc. by apply not_elem_of_nil in Hc.
  - split_and!; [lia| |].
    + intros c' [->|Hc']%elem_of_cons; [lia|]. specialize (Hle _ Hc'). lia.
    + destruct (Z.max_spec (lc_offset c) (foldr (λ c m, Z.max (lc_offset c) m) 0 l)) as [[? ->]|[? ->]].
      * destruct Hin as [->|(c' & Hc' & Ho)]; [by left|]. right. exists c'. split; [by right|done].
      * right. exists c. split; [by left|done].
Qed.

Lemma numbered_next task d n : numbered task d n → next_offset task d = n + 1.
Proof using.
  intros (Hn & Hall & _). unfold next_offset.
  destruct (foldr_max_spec (task_chunks task d)) as (Hpos & Hle & Hin).
  set (m := foldr _ 0 _) in *. f_equal. apply Z.le_antisymm.
  - destruct Hin as [->|(c & (k & Hk & Ht)%elem_of_chunks & Ho)]; [done|].
    assert (1 ≤ m ≤ n) by (apply Hall; eauto). lia.
  - destruct (decide (n = 0)) as [->|Hne]; [done|].
    destruct (proj1 (Hall n)) as (k & c & Hk & Ht & Ho); [lia|].
    assert (c ∈ task_chunks task d) as Hc by (apply elem_of_chunks; eauto).
    specialize (Hle _ Hc). lia.
Qed.
End logs.

Section log_facts.
Context `{PgTime}.

Lemma AppendTaskLog_error_keeps task req identity : error_keeps (AppendTaskLog task req identity).
Proof using. unfold AppendTaskLog. tx_atomic. Qed.

Lemma lock_log_task_ok task d team executor state :
  lock_log_task task d = Ok (Some (team, executor, state)) →
  ∃ t, db_tasks d !! task = Some t ∧ tk_executor t = Some executor ∧ tk_team t = team ∧
       tk_state t = state.
Proof using.
  unfold lock_log_task, scan_text. intros Hl. repeat (destr_in Hl; simplify_eq). by exists t.
Qed.

Lemma readTaskLogChunk_ok task chunk d c :
  readTaskLogChunk task chunk d = Some c → db_logs d !! chunk = Some c ∧ lc_task c = task.
Proof using.
  unfold readTaskLogChunk. destruct (db_logs d !! chunk); [|done]. case_bool_decide; [|done].
  by intros [= ->].
Qed.

Lemma live_state s : ¬ (s ≠ StateCreated ∧ s ≠ StateRunning) → s = StateCreated ∨ s = StateRunning.
Proof using.
  intros Hn. destruct (decide (s = StateCreated)); [by left|right].
  destruct (decide (s = StateRunning)); [done|by destruct Hn].
Qed.

Lemma AppendTaskLog_ok task req identity env db r db' :
  run_tx (AppendTaskLog task req identity) env db = (Ok r, db') →
  ∃ t, db_tasks db !! task = Some t ∧ tk_executor t = Some (xi_executor identity) ∧
    identity_matches (tk_team t) identity db = true ∧
    (tk_state t = StateCreated ∨ tk_state t = StateRunning) ∧
    ((db_logs db !! lq_chunk req = Some r ∧ lc_task r = task ∧ lc_stream r = lq_stream req ∧
      lc_content r = lq_content req ∧ lc_occurred_at r = lq_occurred_at req ∧ db' = db) ∨
     (let row at_ := log_row task (tk_team t) (xi_executor identity) req (next_offset task db) at_ in
      db_logs db !! lq_chunk req = None ∧ r = row (lq_occurred_at req) ∧
      db' = with_logs (<[lq_chunk req := row (pg_ts (lq_occurred_at req))]> (db_logs db)) db)).
Proof using.
  intros (st & Hr & ->)%run_tx_ok. unfold AppendTaskLog in Hr.
  tx_inv; to_prop; simpl in *;
    match goal with H : executorIdentityMatches _ _ _ _ = _ |- _ =>
      apply executorIdentityMatches_ok in H as (Him & ? & ? & ?) end;
    tx_states;
    match goal with H : lock_log_task _ _ = _ |- _ =>
      apply lock_log_task_ok in H as (t & Ht & Hex & <- & <-) end;
    match goal with H : ¬ (_ ∧ _) |- _ => apply live_state in H end;
    exists t; split_and!; try done; try (by apply Him); try congruence.
  - left. match goal with H : Some _ = readTaskLogChunk _ _ _ |- _ =>
      symmetry in H; apply readTaskLogChunk_ok in H as [? ?] end.
    match goal with H : ¬ (_ ∨ _) |- _ => apply Decidable.not_or in H as [? ?] end. to_prop.
    split_and!; done || by apply Z.eqb_eq.
  - right. match goal with H : insert_log_chunk _ _ = _ |- _ =>
      apply insert_log_chunk_ok in H as (Hnew & _ & _ & Hd) end.
    simpl in *. subst. by tx_states.
Qed.
End log_facts.

Section numbering.

Lemma StronglySorted_fmap_offset l :
  StronglySorted offset_le l → StronglySorted Z.le (lc_offset <$> l).
Proof.
  induction 1 as [|c l _ IH Hall]; [constructor|]. simpl. constructor; [done|].
  apply Forall_fmap. exact Hall.
Qed.

Lemma seqZ_sorted m n : StronglySorted Z.le (seqZ m n).
Proof.
  destruct (decide (n ≤ 0)) as [Hn|Hn]; [rewrite seqZ_nil by done; constructor|].
  rewrite <- (Z2Nat.id n) by lia. generalize (Z.to_nat n) as k. intros k.
  revert m. induction k as [|k IH]; intros m; [constructor|].
  rewrite seqZ_cons by lia. replace (Z.pred (Z.of_nat (S k))) with (Z.of_nat k) by lia.
  constructor; [apply IH|]. apply Forall_forall. intros z Hz%elem_of_seqZ. lia.
Qed.

Lemma numbered_extend task team executor req db n at_ :
  db_logs db !! lq_chunk req = None → numbered task db n →
  numbered task (with_logs (<[lq_chunk req := log_row task team executor req (n + 1) at_]>
                              (db_logs db)) db) (n + 1).
Proof.
  intros Hnew (Hn & Hall & Hinj). split_and!; [lia| |]; simpl.
  - intros o. split.
    + intros Ho. destruct (decide (o = n + 1)) as [->|Hne].
      * exists (lq_chunk req). eexists. split; [apply lookup_insert_eq|done].
      * destruct (proj1 (Hall o)) as (k & c & Hk & Ht & Hc); [lia|].
        exists k, c. rewrite lookup_insert_ne by congruence. done.
    + intros (k & c & Hk & Ht & Hc). apply lookup_insert_Some in Hk as [[_ <-]|[_ Hk]].
      * simpl in Hc. lia.
      * assert (1 ≤ o ≤ n) by (apply Hall; eauto). lia.
  - assert (Hfresh : ∀ k c, db_logs db !! k = Some c → lc_task c = task → lc_offset c ≠ n + 1).
    { intros k c Hk Ht E. assert (1 ≤ n + 1 ≤ n) by (apply Hall; eauto). lia. }
    intros k k' c c' Hk Hk' Ht Ht' E.
    apply lookup_insert_Some in Hk as [[<- <-]|[_ Hk]];
      apply lookup_insert_Some in Hk' as [[<- <-]|[_ Hk']]; simpl in *; [done| | |by eapply Hinj].
    + by destruct (Hfresh _ _ Hk' Ht').
    + by destruct (Hfresh _ _ Hk Ht).
Qed.

Lemma numbered_other task task' team executor req db n offset at_ :
  task' ≠ task → db_logs db !! lq_chunk req = None → numbered task' db n →
  numbered task' (with_logs (<[lq_chunk req := log_row task team executor req offset at_]>
                               (db_logs db)) db) n.
Proof.
  intros Hne Hnew (Hn & Hall & Hinj). split_and!; [done| |]; simpl.
  - intros o. rewrite Hall. split; intros (k & c & Hk & Ht & Ho); exists k, c.
    + rewrite lookup_insert_ne by congruence. done.
    + apply lookup_insert_Some in Hk as [[_ <-]|[_ Hk]]; [done|]. done.
  - intros k k' c c' Hk Hk' Ht Ht' E.
    apply lookup_insert_Some in Hk as [[_ <-]|[_ Hk]]; [done|].
    apply lookup_insert_Some in Hk' as [[_ <-]|[_ Hk']]; [done|]. by eapply Hinj.
Qed.

(** The offsets behind a position, sorted, are an interval. *)
Lemma offsets_behind team task after db n :
  numbered task db n → (∀ k c, db_logs db !! k = Some c → lc_task c = task → lc_team c = team) →
  0 ≤ after →
  lc_offset <$> order_by offset_le
    (filter (λ c, lc_team c = team ∧ lc_task c = task ∧ after < lc_offset c) (rows (db_logs db)))
  = seqZ (after + 1) (n - after).
Proof.
  intros (Hn & Hall & Hinj) Hteam Ha. apply (StronglySorted_unique Z.le).
  - apply StronglySorted_fmap_offset. apply order_by_sorted; apply _.
  - apply seqZ_sorted.
  - apply NoDup_Permutation.
    + rewrite order_by_perm. apply NoDup_rows_fmap. intros k k' c c' Hk Hk' (_ & ? & _) (_ & ? & _).
      by apply (Hinj k k' c c').
    + apply NoDup_seqZ.
    + intros o. rewrite list_elem_of_fmap, elem_of_seqZ. split.
      * intros (c & -> & Hc). apply elem_of_order_by, list_elem_of_filter in Hc as [(_ & Ht & Ho) Hc].
        apply elem_of_rows in Hc as [k Hk].
        assert (1 ≤ lc_offset c ≤ n) by (apply Hall; eauto). lia.
      * intros Ho. destruct (proj1 (Hall o)) as (k & c & Hk & Ht & Hc); [lia|].
        exists c. split; [done|]. apply elem_of_order_by, list_elem_of_filter.
        split; [|by apply elem_of_rows; eauto]. split_and!; [by eapply Hteam|done|lia].
Qed.
End numbering.

(** ** Properties *)

Section log_properties.
Context `{PgTime}.

(** The chunks of every task stay numbered from one without gaps or repetitions: a stored
    chunk takes the next offset of its task and disturbs no other numbering. *)
Theorem AppendTaskLog_numbered task req identity env db r db' task' n :
  run_tx (AppendTaskLog task req identity) env db = (Ok r, db') →
  numbered task' db n →
  (numbered task' db' n ∧ (db' = db ∨ task' ≠ task)) ∨
  (task' = task ∧ numbered task db' (n + 1) ∧ lc_offset r = n + 1).
Proof using.
  intros (t & _ & _ & _ & _ & Hcase)%AppendTaskLog_ok Hn.
  destruct Hcase as [(_ & _ & _ & _ & _ & ->)|(Hnew & -> & ->)]; [left; eauto|].
  destruct (decide (task' = task)) as [->|Hne].
  - right. split; [done|]. simpl. rewrite (numbered_next _ _ _ Hn).
    split; [|done]. by apply numbered_extend.
  - left. split; [|by right]. by apply numbered_other.
Qed.

(** Reading the log from an offset yields the chunks that follow it, without gaps, up to the
    limit. *)
Theorem ListTaskLogs_follows team task after limit env db l db' n :
  run_tx (ListTaskLogs team task after limit) env db = (Ok l, db') →
  numbered task db n → (∀ k c, db_logs db !! k = Some c → lc_task c = task → lc_team c = team) →
  0 ≤ after →
  db' = db ∧ lc_offset <$> l = take limit (seqZ (after + 1) (n - after)).
Proof using.
  intros Hr Hn Hteam Ha. pose proof Hr as Hd. apply run_tx_never_commits in Hd;
    [|unfold ListTaskLogs; tx_atomic].
  apply run_tx_ok in Hr as (st & Hr & _). unfold ListTaskLogs in Hr.
  tx_inv; simpl in *; tx_states. split; [done|]. rewrite fmap_take. f_equal.
  by apply offsets_behind.
Qed.
End log_properties.

(** ** The properties on the small registry *)

Section witnesses.
#[local] Existing Instances pg_micros collation_C time_bits json_plain token_fields image_plain.

Definition fx_log (chunk : string) : TxS TaskLogChunk :=
  AppendTaskLog "t1" (mkLogRequest chunk "work" "output" 6000) (fx_identity "ex1").

Definition fx_logged : DB :=
  (run_tx (fx_log "c2") (fx_env 7000) (run_tx (fx_log "c1") (fx_env 7000) fx_running).2).2.

Lemma numbered_empty task d : db_logs d = ∅ → numbered task d 0.
Proof.
  intros He. split_and!; [done| |]; rewrite He.
  - intros o. split; [lia|]. intros (k & c & Hk & _). by rewrite lookup_empty in Hk.
  - intros k k' c c' Hk. by rewrite lookup_empty in Hk.
Qed.

Lemma AppendTaskLog_numbered_witness : ∃ r db',
  run_tx (fx_log "c1") (fx_env 7000) fx_running = (Ok r, db') ∧
  numbered "t1" db' 1 ∧ lc_offset r = 1.
Proof.
  destruct (run_tx (fx_log "c1") (fx_env 7000) fx_running) as [[r|e] db'] eqn:E;
    [|vm_compute in E; discriminate].
  exists r, db'. split; [reflexivity|].
  destruct (AppendTaskLog_numbered _ _ _ _ _ _ _ "t1" 0 E) as [[_ [Hd|Hne]]|(_ & Hn & Ho)].
  - apply numbered_empty. vm_compute. reflexivity.
  - exfalso. rewrite Hd in E. apply (f_equal (λ p, size (db_logs p.2))) in E.
    vm_compute in E. discriminate E.
  - destruct (Hne eq_refl).
  - split; [exact Hn|exact Ho].
Defined.

(** Two chunks and a reader that has seen the first. *)
Lemma fx_logged_numbered : numbered "t1" fx_logged 2.
Proof.
  assert (db_logs fx_logged = <["c1" := log_row "t1" "team" "ex1" (mkLogRequest "c1" "work" "output" 6000) 1 6000]>
            (<["c2" := log_row "t1" "team" "ex1" (mkLogRequest "c2" "work" "output" 6000) 2 6000]> ∅))
    as Hl by (vm_compute; reflexivity).
  unfold numbered. rewrite !Hl. clear Hl. split_and!; [lia| |].
  - intros o. split.
    + intros Ho. assert (o = 1 ∨ o = 2) as [-> | ->] by lia.
      * exists "c1". eexists. split; [apply lookup_insert_eq|done].
      * exists "c2". eexists. rewrite lookup_insert_ne by done. split; [apply lookup_insert_eq|done].
    + intros (k & c & Hk & _ & Ho).
      apply lookup_insert_Some in Hk as [[_ <-]|[_ Hk]]; [simpl in Ho; lia|].
      apply lookup_insert_Some in Hk as [[_ <-]|[_ Hk]]; [simpl in Ho; lia|].
      by rewrite lookup_empty in Hk.
  - intros k k' c c' Hk Hk' _ _ E.
    apply lookup_insert_Some in Hk as [[<- <-]|[_ Hk]];
      apply lookup_insert_Some in Hk' as [[<- <-]|[_ Hk']]; try done.
    + apply lookup_insert_Some in Hk' as [[<- <-]|[_ Hk']]; [done|by rewrite lookup_empty in Hk'].
    + apply lookup_insert_Some in Hk as [[<- <-]|[_ Hk]]; [done|by rewrite lookup_empty in Hk].
    + apply lookup_insert_Some in Hk as [[<- <-]|[_ Hk]]; [|by rewrite lookup_empty in Hk].
      apply lookup_insert_Some in Hk' as [[<- <-]|[_ Hk']]; [done|by rewrite lookup_empty in Hk'].
Qed.

Lemma ListTaskLogs_follows_witness : ∃ l db',
  run_tx (ListTaskLogs "team" "t1" 1 10) (fx_env 8000) fx_logged = (Ok l, db') ∧
  lc_offset <$> l = [2].
Proof.
  destruct (run_tx (ListTaskLogs "team" "t1" 1 10) (fx_env 8000) fx_logged) as [[l|e] db'] eqn:E;
    [|vm_compute in E; discriminate].
  exists l, db'. split; [reflexivity|].
  destruct (ListTaskLogs_follows _ _ _ _ _ _ _ _ 2 E fx_logged_numbered) as [_ Hl].
  - intros k c Hk _.
    assert (map_Forall (λ _ c, lc_team c = "team") (db_logs fx_logged)) as Hall
      by (apply (bool_decide_unpack _); vm_compute; exact I).
    exact (Hall k c Hk).
  - lia.
  - rewrite Hl. reflexivity.
Defined.
End witnesses.
