(* ===== verification/Listing.v ===== *)
(** * Lists of task types and tasks (store/listing.go)

    The pages of the administrator and operator lists: rows selected by optional filters, in a
    fixed order, from a cursor on, one row more than the page holds. *)

From stdpp Require Import base gmap strings list sorting.
From S2P Require Import Prelude Paging Platform Tx Schema Store ScopeToken Fixtures Claim.
#[local] Open Scope Z_scope.

(** ** Filters, cursors and projections (platform/listing.go) *)

Record AdminTagFilter : Type := mkTagFilter { gf_team : string; gf_tag : string }.
Record AdminTaskFilter : Type := mkTaskFilter {
  kf_team : string; kf_state : string; kf_tag : string; kf_type : string }.
Record AdminTagEntry : Type := mkTagEntry { ge_team : string; ge_type : string; ge_tag : string }.

(** Eleven fields of the canonical row. *)
Record AdminTaskEntry : Type := mkAdminTask {
  at_task : string; at_team : string; at_type : string; at_source_system : string;
  at_source_id : string; at_tag : string; at_state : string; at_owner_command : option string;
  at_executor : option string; at_ingested_at : string; at_claimed_at : option string }.

Definition ToAdminTaskEntry (e : TaskListEntry) : AdminTaskEntry :=
  mkAdminTask (en_task e) (en_team e) (en_type e) (en_source_system e) (en_source_id e) (en_tag e)
    (en_state e) (en_owner_command e) (en_executor e) (en_ingested_at e) (en_claimed_at e).

(** TaskTypeAfter: team, tag and task type of the last row; TaskAfter: nanoseconds and task. *)
Definition TaskTypeAfter : Type := string * string * string.
Definition TaskAfter : Type := Z * string.

(** time.Time.UnixNano: the count of nanoseconds in an int64. *)
Definition unix_nano (t : Z) : Z := wrap64 t.

(** An equality clause is added for a filter that is not empty. *)
Definition matches (wanted column : string) : bool :=
  bool_decide (wanted = "") || bool_decide (column = wanted).

(** ** Order of the task type list *)

Section order.
Context `{Collation}.

(** team_id ASC, execution_tag ASC, task_type_id ASC. *)
Definition triple_le : relation TaskTypeAfter := λ a b,
  coll_lt a.1.1 b.1.1 ∨
  (a.1.1 = b.1.1 ∧ (coll_lt a.1.2 b.1.2 ∨ (a.1.2 = b.1.2 ∧ coll_le a.2 b.2))).

#[export] Instance triple_le_dec : RelDecision triple_le.
Proof using. intros a b. unfold triple_le. apply _. Defined.

#[export] Instance coll_lt_trans : Transitive coll_lt.
Proof using.
  intros a b c [Hab Hne] [Hbc Hne']. split; [by transitivity b|].
  intros ->. apply Hne. by apply (anti_symm coll_le).
Qed.

#[export] Instance triple_le_trans : Transitive triple_le.
Proof using.
  intros [[a b] c] [[a' b'] c'] [[a'' b''] c'']; unfold triple_le; simpl.
  intros [Ha|[-> [Hb|[-> Hc]]]] [Ha'|[Ea [Hb'|[Eb Hc']]]]; subst; auto;
    try (left; by apply (transitivity (R := coll_lt) Ha));
    right; split; try done; auto.
  - left. by apply (transitivity (R := coll_lt) Hb).
  - right. split; [done|]. by transitivity c'.
Qed.

Lemma coll_lt_total a b : coll_lt a b ∨ a = b ∨ coll_lt b a.
Proof using.
  destruct (decide (a = b)) as [?|Hne]; [by right; left|].
  destruct (total coll_le a b); [by left|right; right]. split; [done|congruence].
Qed.

#[export] Instance triple_le_total : Total triple_le.
Proof using.
  intros [[a b] c] [[a' b'] c']. unfold triple_le. simpl.
  destruct (coll_lt_total a a') as [?|[-> |?]]; [tauto| |tauto].
  destruct (coll_lt_total b b') as [?|[-> |?]]; [tauto| |tauto].
  destruct (total coll_le c c'); tauto.
Qed.

Lemma triple_le_antisym a b : triple_le a b → triple_le b a → a = b.
Proof using.
  destruct a as [[a b'] c], b as [[x y] z]. unfold triple_le. simpl.
  pose proof coll_lt_not_le as Hn. intros [Hx|[-> Hy]] [Hx'|[Ex Hy']].
  - destruct (Hn _ _ Hx). apply Hx'.
  - subst. by apply coll_lt_irrefl in Hx.
  - by apply coll_lt_irrefl in Hx'.
  - destruct Hy as [Hy|[-> Hz]], Hy' as [Hy'|[? Hz']].
    + destruct (Hn _ _ Hy). apply Hy'.
    + subst. by apply coll_lt_irrefl in Hy.
    + by apply coll_lt_irrefl in Hy'.
    + f_equal. by apply (anti_symm coll_le).
Qed.

End order.

(** ** The lists *)

Section lists.
Context `{Collation, PgTime, JsonCodec, TimeCodec}.

Definition tag_key (t : TaskTypeRow) : TaskTypeAfter := (tt_team t, tt_tag t, tt_id t).
Definition tag_entry (t : TaskTypeRow) : AdminTagEntry := mkTagEntry (tt_team t) (tt_id t) (tt_tag t).

Definition type_selected (f : AdminTagFilter) (t : TaskTypeRow) : bool :=
  matches (gf_team f) (tt_team t) && matches (gf_tag f) (tt_tag t).

Definition type_rows (f : AdminTagFilter) (d : DB) : list TaskTypeRow :=
  filter (λ t, type_selected f t) (rows (db_types d)).

Definition ListTaskTypes (f : AdminTagFilter) (limit : Z) (after : option TaskTypeAfter) :
    TxS (list AdminTagEntry * option TaskTypeAfter) :=
  if limit <? 1 then throw (ErrText "ListTaskTypes: limit must be >= 1")
  else
    page <- query (ErrWrap "list task types")
              (λ d, keyset_page triple_le tag_key (Z.to_nat limit) after (type_rows f d)) ;;
    ret (tag_entry <$> page.1, page.2).

(** ingested_at DESC, task_id DESC. *)
Definition task_key (t : TaskRow) : Z * string := (tk_ingested_at t, tk_id t).

Definition task_selected (f : AdminTaskFilter) (t : TaskRow) : bool :=
  matches (kf_team f) (tk_team t) && matches (kf_state f) (tk_state t) &&
  matches (kf_tag f) (tk_tag t) && matches (kf_type f) (tk_type t).

Definition task_rows (f : AdminTaskFilter) (d : DB) : list TaskRow :=
  filter (λ t, task_selected f t) (rows (db_tasks d)).

(** The cursor of the next page carries the UnixNano of the last row. *)
Definition after_of (key : Z * string) : TaskAfter := (unix_nano key.1, key.2).

Definition ListTasks (f : AdminTaskFilter) (limit : Z) (after : option TaskAfter) :
    TxS (list TaskListEntry * option TaskAfter) :=
  if limit <? 1 then throw (ErrText "ListTasks: limit must be >= 1")
  else
    page <- query (ErrWrap "list tasks")
              (λ d, keyset_page pair_ge task_key (Z.to_nat limit) after (task_rows f d)) ;;
    ret (scanTaskRow <$> page.1, after_of <$> page.2).

(** One task of a team; unknown tasks and those of other teams are the same to the caller. *)
Definition GetTask (team task : string) : TxS TaskListEntry :=
  row <- query (ErrWrap "get task")
           (λ d, match db_tasks d !! task with
                 | Some t => if bool_decide (tk_team t = team) then Some (scanTaskRow t) else None
                 | None => None
                 end) ;;
  match row with Some e => ret e | None => throw ErrTaskUnknown end.
End lists.

(** ** Following the cursors *)

(** What a client receives: the page, or nothing when the list is refused. *)
Definition fetched {A} (r : result StoreError A * DB) : option A :=
  match r.1 with Ok a => Some a | Err _ => None end.

Lemma Forall2_render {A B} (f : A → B) l bs : Forall2 (λ x b, b = f x) l bs → bs = f <$> l.
Proof. induction 1 as [|x b l bs -> _ IH]; [done|]. by rewrite IH. Qed.

Section pages.
Context `{Collation, PgTime, JsonCodec, TimeCodec}.

(** Task types stored under their identifier have distinct keys. *)
Lemma type_rows_distinct f d :
  map_Forall (λ k t, tt_id t = k) (db_types d) → distinct_keys triple_le tag_key (type_rows f d).
Proof using.
  intros Hid. split.
  - apply (NoDup_fmap_1 tt_id), NoDup_rows_fmap.
    intros k k' x y Hk Hk' _ _ E. by rewrite <- (Hid _ _ Hk), E, (Hid _ _ Hk').
  - intros x y [_ (k & Hk)%elem_of_rows]%list_elem_of_filter
      [_ (k' & Hk')%elem_of_rows]%list_elem_of_filter Hxy Hyx.
    assert (tag_key x = tag_key y) as [= _ _ E] by by apply triple_le_antisym.
    rewrite <- (Hid _ _ Hk) in Hk. rewrite <- (Hid _ _ Hk'), <- E in Hk'. congruence.
Qed.
Lemma ListTaskTypes_run f limit after env db :
  (∀ n, env_fault env n = false) → 1 ≤ limit →
  fetched (run_tx (ListTaskTypes f limit after) env db)
  = Some (prod_map (fmap tag_entry) id
            (keyset_page triple_le tag_key (Z.to_nat limit) after (type_rows f db))).
Proof using.
  intros Hnf Hl. unfold fetched, run_tx, ListTaskTypes, query, stmt, bind, begin_st.
  rewrite (proj2 (Z.ltb_ge _ _) Hl), Hnf. by destruct (keyset_page _ _ _ _ _).
Qed.

Lemma ListTasks_run f limit after env db :
  (∀ n, env_fault env n = false) → 1 ≤ limit →
  fetched (run_tx (ListTasks f limit after) env db)
  = Some (prod_map (fmap scanTaskRow) (fmap after_of)
            (keyset_page pair_ge task_key (Z.to_nat limit) after (task_rows f db))).
Proof using.
  intros Hnf Hl. unfold fetched, run_tx, ListTasks, query, stmt, bind, begin_st.
  rewrite (proj2 (Z.ltb_ge _ _) Hl), Hnf. by destruct (keyset_page _ _ _ _ _).
Qed.

(** The instants of the tasks fit the cursor. *)
Definition instants_fit (db : DB) : Prop :=
  map_Forall (λ _ t, in_int64 (tk_ingested_at t)) (db_tasks db).

Lemma after_of_row f db c :
  instants_fit db → (∀ k, c = Some k → ∃ t, t ∈ task_rows f db ∧ task_key t = k) →
  after_of <$> c = c.
Proof using.
  intros Hfit Hc. destruct c as [k|]; [|done]. destruct (Hc k eq_refl) as (t & Ht & <-).
  apply list_elem_of_filter in Ht as [_ (i & Hi)%elem_of_rows].
  simpl. unfold after_of, unix_nano. simpl. by rewrite wrap64_id by by eapply Hfit.
Qed.

(** The pages of the task list. Following the cursors from the first page lists every task
    the filter selects exactly once, newest first, whatever the page size. *)
Theorem ListTasks_pages f limit env db fuel :
  (∀ n, env_fault env n = false) → 1 ≤ limit → tasks_keyed db → instants_fit db →
  (length (task_rows f db) < fuel)%nat →
  page_walk fuel (λ c, fetched (run_tx (ListTasks f limit c) env db)) None
  = Some (scanTaskRow <$> order_by (by_key pair_ge task_key) (task_rows f db)).
Proof using.
  intros Hnf Hl Hkey Hfit Hf.
  destruct (page_walk_all pair_ge task_key after_of (λ x b, b = scanTaskRow x)
              (λ c, fetched (run_tx (ListTasks f limit c) env db)) fuel (Z.to_nat limit)
              (task_rows f db)) as (bs & -> & Hbs); [lia| |done| |].
  - apply rows_distinct; [by right|done].
  - intros c Hc. rewrite ListTasks_run, (after_of_row f db) by done.
    destruct (keyset_page _ _ _ _ _) as [l next]. eexists. split; [done|].
    apply Forall2_fmap_r, Forall_Forall2_diag, Forall_forall. done.
  - by rewrite (Forall2_render _ _ _ Hbs).
Qed.

(** The pages of the task type list. Following the cursors lists every selected task type
    exactly once, by team, tag and identifier. *)
Theorem ListTaskTypes_pages f limit env db fuel :
  (∀ n, env_fault env n = false) → 1 ≤ limit → map_Forall (λ k t, tt_id t = k) (db_types db) →
  (length (type_rows f db) < fuel)%nat →
  page_walk fuel (λ c, fetched (run_tx (ListTaskTypes f limit c) env db)) None
  = Some (tag_entry <$> order_by (by_key triple_le tag_key) (type_rows f db)).
Proof using.
  intros Hnf Hl Hkey Hf.
  destruct (page_walk_all triple_le tag_key id (λ x b, b = tag_entry x)
              (λ c, fetched (run_tx (ListTaskTypes f limit c) env db)) fuel (Z.to_nat limit)
              (type_rows f db)) as (bs & -> & Hbs); [lia| |done| |].
  - by apply type_rows_distinct.
  - intros c _. rewrite option_fmap_id, ListTaskTypes_run by done.
    destruct (keyset_page _ _ _ _ _) as [l next]. eexists. simpl. rewrite option_fmap_id.
    split; [done|]. apply Forall2_fmap_r, Forall_Forall2_diag, Forall_forall. done.
  - by rewrite (Forall2_render _ _ _ Hbs).
Qed.

(** A limit below one is refused before any statement. *)
Lemma ListTasks_limit f limit after env db :
  limit < 1 → run_tx (ListTasks f limit after) env db
              = (Err (ErrText "ListTasks: limit must be >= 1"), db).
Proof using. intros Hl. unfold run_tx, ListTasks. by rewrite (proj2 (Z.ltb_lt _ _) Hl). Qed.

(** Whatever the cursor, a page holds tasks that the filter selects, at most as many as asked. *)
Lemma ListTasks_selected f limit after env db page next db' :
  run_tx (ListTasks f limit after) env db = (Ok (page, next), db') →
  db' = db ∧ Z.of_nat (length page) ≤ limit ∧
  ∀ e, e ∈ page → ∃ t, t ∈ task_rows f db ∧ e = scanTaskRow t.
Proof using.
  unfold ListTasks. intros Hr. destruct (limit <? 1) eqn:El; [done|]. apply Z.ltb_ge in El.
  apply run_tx_ok in Hr as (st & Hr & ->). tx_inv. tx_states.
  simpl ts_db in *. destruct (keyset_page _ _ _ _ _) as [l nx] eqn:Ep.
  simplify_eq/=. rewrite length_fmap. split_and!; [done| |].
  - apply keyset_page_length in Ep; lia.
  - intros e (t & -> & Ht)%list_elem_of_fmap. exists t. split; [|done].
    by eapply (keyset_page_rows pair_ge task_key).
Qed.
End pages.

(** ** The properties on the small registry *)

Section witnesses.
#[local] Existing Instances pg_micros collation_C time_bits json_plain.

(** Two pages of one task each: the newer task comes first. *)
Lemma ListTasks_pages_witness :
  (λ l : list TaskListEntry, en_task <$> l) <$> page_walk 3
    (λ c, fetched (run_tx (ListTasks (mkTaskFilter "team" "" "" "") 1 c) (fx_env 9000) fx_db)) None
  = Some ["t2"; "t1"].
Proof.
  rewrite (ListTasks_pages (mkTaskFilter "team" "" "" "") 1 (fx_env 9000) fx_db 3); [reflexivity|done|lia|..].
  - exact fx_keyed.
  - assert (map_Forall (λ _ t, - 2 ^ 63 ≤ tk_ingested_at t ∧ tk_ingested_at t < 2 ^ 63) (db_tasks fx_db)) as Hf
      by (apply (bool_decide_unpack _); vm_compute; exact I).
    exact Hf.
  - vm_compute. lia.
Defined.

Lemma ListTaskTypes_pages_witness :
  page_walk 2
    (λ c, fetched (run_tx (ListTaskTypes (mkTagFilter "" "tag") 1 c) (fx_env 9000) fx_db)) None
  = Some [mkTagEntry "team" "type" "tag"].
Proof.
  rewrite (ListTaskTypes_pages (mkTagFilter "" "tag") 1 (fx_env 9000) fx_db 2); [reflexivity|done|lia|..].
  - apply (bool_decide_unpack _). vm_compute. exact I.
  - vm_compute. lia.
Defined.
End witnesses.
