(* ===== verification/ListHttp.v ===== *)
(** * The paginated HTTP lists (httpapi/list_gateway.go, httpapi/list_admin.go, httpapi/audit.go)

    The handlers check the query and the cursor before they touch the store, and answer with a
    page and the cursor of the next one. Following the cursors is how a client reads a list. *)

From stdpp Require Import base gmap strings list pretty.
From Stdlib Require Import Ascii.
From S2P Require Import Prelude Paging Platform Tx Schema Store GoStrings ScopeToken Fixtures.
From S2P Require Import Keyrings Cursor Claim Events Controls Listing.
#[local] Open Scope Z_scope.

(** ** Requests and responses *)

(** The length of r.URL.RawQuery and r.URL.Query(). *)
Record list_query : Type := mkQuery { lq_raw : nat; lq_values : gmap string (list string) }.

(** The headers the Gateway forwards. *)
Record gateway_headers : Type := mkGatewayHeaders {
  gh_role : string; gh_team : string; gh_operator : string; gh_request : string }.

(** An error with its status and code, or a page: items, Count and NextCursor. *)
Inductive list_response (A : Type) : Type :=
| Rejected (status : Z) (code : string)
| Page (items : list A) (count : nat) (next : option string).
Arguments Rejected {_} _ _.
Arguments Page {_} _ _ _.

Definition withdrawInvalidPagination {A} : list_response A := Rejected 400 "invalid_pagination".
Definition withdrawPaginationInternalError {A} : list_response A := Rejected 500 "internal_error".

Definition maxListRawQueryLength : nat := 2048.

(** url.Values.Get. *)
Definition query_get (values : gmap string (list string)) (key : string) : string :=
  default "" (values !! key ≫= head).

Definition query_all (values : gmap string (list string)) (key : string) : list string :=
  default [] (values !! key).

(** collectionQuery: only the allowed parameters, each given once. *)
Definition collectionQuery (allowed : list string) (q : list_query) :
    option (gmap string (list string)) :=
  if (maxListRawQueryLength <? lq_raw q)%nat then None
  else if bool_decide (map_Forall (λ k l, k ∈ allowed ∧ length l = 1%nat) (lq_values q))
  then Some (lq_values q) else None.

(** cursorParam: absent, one value, or malformed. *)
Definition cursorParam (values : gmap string (list string)) : option (option string) :=
  match query_all values "cursor" with
  | [] => Some None
  | _ :: _ :: _ => None
  | [token] =>
      if bool_decide (token = "") then None
      else if (MaxTokenLength <? String.length token)%nat then None
      else Some (Some token)
  end.

(** ** Validation (httpapi/admin.go) *)

Definition alnum (c : ascii) : bool := in_range 97 122 c || in_range 65 90 c || in_range 48 57 c.

(** identifierPattern: a letter or digit, then bytes of an identifier. *)
Definition identifierPattern (s : string) : bool :=
  match chars s with [] => false | c :: l => alnum c && forallb id_char l end.

Definition validListingIdentifier (s : string) : bool :=
  if bool_decide (s = "") then true
  else if (128 <? String.length s)%nat then false
  else identifierPattern s.

(** validTag: the pattern admits one-byte characters only, so its characters are its bytes. *)
Definition validTag (s : string) : bool := (String.length s <=? 256)%nat && identifierPattern s.
Definition validListingTag (s : string) : bool := bool_decide (s = "") || validTag s.

Definition validTaskState (s : string) : bool :=
  bool_decide (s = "") ||
  bool_decide (s ∈ ["pending"; "created"; "running"; "finished"; "failed"]).

(** trustedGatewayMiddleware: the caller, or the refusal. *)
Definition trustedGatewayMiddleware (require_request_id : bool) (h : gateway_headers) :
    result (Z * string) (string * string) :=
  let role := trim_space (gh_role h) in
  if bool_decide (role ≠ "" ∧ role ≠ "gateway") then Err (403, "not_authorized")
  else
    let team := trim_space (gh_team h) in
    let operator := trim_space (gh_operator h) in
    let request := trim_space (gh_request h) in
    if bool_decide (team = "") || negb (validListingIdentifier team) ||
       bool_decide (operator = "") || negb (validListingIdentifier operator)
    then Err (400, "invalid_request")
    else if require_request_id &&
            (bool_decide (request = "") || negb (validListingIdentifier request))
    then Err (400, "invalid_request")
    else Ok (team, operator).

(** ** The part the handlers share: decode the cursor, list, encode the next cursor *)

Section pipeline.
Context `{CursorCodec}.

Definition decode_request (token : string) (i : EncodeIssue) : DecodeRequest :=
  mkDecodeRequest token (is_endpoint i) (is_identity i) (is_ordering i) (is_filters i).

Definition list_page {A B K} (keyring : option CursorKeyring) (issue : option K → EncodeIssue)
    (render : A → B) (fetched_page : option (list A * option K)) : list_response B :=
  match fetched_page with
  | None => withdrawPaginationInternalError
  | Some (entries, None) => Page (render <$> entries) (length entries) None
  | Some (entries, Some k) =>
      match Encode keyring (issue (Some k)) with
      | Ok token => Page (render <$> entries) (length entries) (Some token)
      | Err _ => withdrawPaginationInternalError
      end
  end.

Definition cursor_list {A B K} (keyring : option CursorKeyring) (issue : option K → EncodeIssue)
    (position : envelope → option K) (render : A → B)
    (fetch : option K → option (list A * option K)) (token : option string) : list_response B :=
  match token with
  | None => list_page keyring issue render (fetch None)
  | Some tok =>
      match Decode keyring (decode_request tok (issue None)) with
      | Err _ => withdrawInvalidPagination
      | Ok e => list_page keyring issue render (fetch (position e))
      end
  end.
End pipeline.

(** ** The handlers *)

Section handlers.
Context `{CursorCodec, Collation, PgTime, JsonCodec, TimeCodec}.
Context (keyring : option CursorKeyring).

Definition task_issue (endpoint : string) (ident : Identity) (filters : gmap string string)
    (k : option TaskAfter) : EncodeIssue :=
  mkIssue endpoint ident OrderingTasksDesc filters None k None None None None.

Definition gateway_filters (team state tag : string) : gmap string string :=
  <["team_id" := team]> (<["state" := state]> {["tag" := tag]}).

(** GET /v1/tasks behind requireTrustedGateway. *)
Definition gateway_listTasks (h : gateway_headers) (q : list_query) (env : TxEnv) (db : DB) :
    list_response TaskListEntry :=
  match trustedGatewayMiddleware false h with
  | Err (status, code) => Rejected status code
  | Ok (team, operator) =>
  let ident := mkIdentity "gateway" team operator in
  match collectionQuery ["state"; "tag"; "cursor"; "limit"] q with
  | None => withdrawInvalidPagination
  | Some values =>
  match ParseLimit (query_all values "limit") with
  | Err _ => withdrawInvalidPagination
  | Ok limit =>
  let state := trim_space (query_get values "state") in
  let tag := trim_space (query_get values "tag") in
  if negb (validListingTag tag) || negb (validTaskState state) then withdrawInvalidPagination
  else
  match cursorParam values with
  | None => withdrawInvalidPagination
  | Some token =>
      cursor_list keyring
        (task_issue EndpointGatewayTasks ident (gateway_filters team state tag)) nv_task id
        (λ after, fetched (run_tx (ListTasks (mkTaskFilter team state tag "") (lv_value limit) after)
                             env db))
        token
  end
  end
  end
  end.

(** GET /v1/tasks/{task_id} behind requireTrustedGateway. *)
Definition gateway_readTask (h : gateway_headers) (task : string) (env : TxEnv) (db : DB) :
    result (Z * string) TaskListEntry :=
  match trustedGatewayMiddleware false h with
  | Err e => Err e
  | Ok (team, _) =>
      let task := trim_space task in
      if negb (validListingIdentifier task) then Err (404, "task_not_found")
      else match (run_tx (GetTask team task) env db).1 with
           | Ok entry => Ok entry
           | Err ErrTaskUnknown => Err (404, "task_not_found")
           | Err _ => Err (500, "internal_error")
           end
  end.

Definition admin_identity : Identity := mkIdentity "admin" "" "".

Definition admin_task_filters (f : AdminTaskFilter) : gmap string string :=
  <["team_id" := kf_team f]> (<["state" := kf_state f]>
    (<["tag" := kf_tag f]> {["task_type_id" := kf_type f]})).

(** GET /admin/tasks behind the administrator headers. *)
Definition admin_listTasks (q : list_query) (env : TxEnv) (db : DB) : list_response AdminTaskEntry :=
  match collectionQuery ["team_id"; "state"; "tag"; "task_type_id"; "cursor"; "limit"] q with
  | None => withdrawInvalidPagination
  | Some values =>
  match ParseLimit (query_all values "limit") with
  | Err _ => withdrawInvalidPagination
  | Ok limit =>
  let f := mkTaskFilter (trim_space (query_get values "team_id"))
             (trim_space (query_get values "state")) (trim_space (query_get values "tag"))
             (trim_space (query_get values "task_type_id")) in
  if negb (validListingIdentifier (kf_team f)) || negb (validListingTag (kf_tag f)) ||
     negb (validListingIdentifier (kf_type f)) || negb (validTaskState (kf_state f))
  then withdrawInvalidPagination
  else
  match cursorParam values with
  | None => withdrawInvalidPagination
  | Some token =>
      cursor_list keyring (task_issue EndpointAdminTasks admin_identity (admin_task_filters f))
        nv_task ToAdminTaskEntry
        (λ after, fetched (run_tx (ListTasks f (lv_value limit) after) env db)) token
  end
  end
  end.

Definition tag_issue (f : AdminTagFilter) (k : option TaskTypeAfter) : EncodeIssue :=
  mkIssue EndpointAdminTags admin_identity OrderingAdminTags
    (<["team_id" := gf_team f]> {["tag" := gf_tag f]}) k None None None None None.

(** GET /admin/tags. *)
Definition admin_listTags (q : list_query) (env : TxEnv) (db : DB) : list_response AdminTagEntry :=
  match collectionQuery ["team_id"; "tag"; "cursor"; "limit"] q with
  | None => withdrawInvalidPagination
  | Some values =>
  match ParseLimit (query_all values "limit") with
  | Err _ => withdrawInvalidPagination
  | Ok limit =>
  let f := mkTagFilter (trim_space (query_get values "team_id"))
             (trim_space (query_get values "tag")) in
  if negb (validListingIdentifier (gf_team f)) || negb (validListingTag (gf_tag f))
  then withdrawInvalidPagination
  else
  match cursorParam values with
  | None => withdrawInvalidPagination
  | Some token =>
      cursor_list keyring (tag_issue f) nv_tag id
        (λ after, fetched (run_tx (ListTaskTypes f (lv_value limit) after) env db)) token
  end
  end
  end.

Definition audit_issue (ident : Identity) (team rt rid : string) (k : option (Z * string)) :
    EncodeIssue :=
  mkIssue EndpointGatewayAudit ident OrderingAuditDesc
    (<["team_id" := team]> (<["resource_type" := rt]> {["resource_id" := rid]}))
    None None ((λ k : Z * string, (unix_nano k.1, k.2)) <$> k) None None None.

(** GET /v1/audit behind requireTrustedGatewayRequestID. *)
Definition audit_list (h : gateway_headers) (q : list_query) (env : TxEnv) (db : DB) :
    list_response AuditEntry :=
  match trustedGatewayMiddleware true h with
  | Err (status, code) => Rejected status code
  | Ok (team, operator) =>
  match collectionQuery ["resource_type"; "resource_id"; "cursor"; "limit"] q with
  | None => Rejected 400 "invalid_request"
  | Some values =>
  let rt := trim_space (query_get values "resource_type") in
  let rid := trim_space (query_get values "resource_id") in
  if (bool_decide (rt ≠ "") && ((64 <? String.length rt)%nat || negb (validListingIdentifier rt))) ||
     (bool_decide (rid ≠ "") && negb (validListingIdentifier rid))
  then Rejected 400 "invalid_request"
  else
  match ParseLimit (query_all values "limit") with
  | Err _ => withdrawInvalidPagination
  | Ok limit =>
  match cursorParam values with
  | None => withdrawInvalidPagination
  | Some token =>
      cursor_list keyring (audit_issue (mkIdentity "gateway" team operator) team rt rid) nv_audit id
        (λ after, fetched (run_tx (ListAuditEntries team rt rid (Z.to_nat (lv_value limit)) after)
                             env db)) token
  end
  end
  end
  end.
End handlers.

(** ** Clients *)

(** A client that asks with a query and then adds the cursor it was given; [raw] is the length of
    the query text with a cursor. *)
Definition client_query (q : list_query) (raw : string → nat) (token : option string) : list_query :=
  match token with
  | None => q
  | Some t => mkQuery (raw t) (<["cursor" := [t]]> (lq_values q))
  end.

Definition received {A} (r : list_response A) : option (list A * option string) :=
  match r with Page items _ next => Some (items, next) | Rejected _ _ => None end.

Section client_facts.
Context `{CursorCodec}.

(** The tokens of the positions of a list. *)
Definition token_of {K} (keyring : option CursorKeyring) (issue : option K → EncodeIssue) (k : K) :
    string :=
  match Encode keyring (issue (Some k)) with Ok t => t | Err _ => "" end.

(** A list whose issues differ in the position only, which it reads back. *)
Record list_issue {K} (issue : option K → EncodeIssue) (position : envelope → option K) : Prop :=
mkListIssue {
  li_position k : position (envelope_of (issue k)) = k;
  li_endpoint k : is_endpoint (issue k) = is_endpoint (issue None);
  li_identity_of k : is_identity (issue k) = is_identity (issue None);
  li_ordering k : is_ordering (issue k) = is_ordering (issue None);
  li_filters k : is_filters (issue k) = is_filters (issue None);
}.

(** What comes back for the token of a position: the list from that position on, or, when the
    identifier of the key has a dot, a refusal. *)
Lemma cursor_list_token {A B K} kr issue position (render : A → B) fetch (k : K) :
  list_issue issue position → cursor_ring_ok kr →
  envelope_fits json_text (envelope_of (issue (Some k))) →
  is_ok (Encode (Some kr) (issue (Some k))) = true →
  cursor_list (Some kr) issue position render fetch (Some (token_of (Some kr) issue k))
  = if bool_decide (dot ∈ chars (ck_primary kr)) then withdrawInvalidPagination
    else list_page (Some kr) issue render (fetch (Some k)).
Proof using.
  intros Hi Hok Hfit His. unfold token_of, cursor_list.
  destruct (Encode (Some kr) (issue (Some k))) as [t|] eqn:He; [|done].
  destruct (cr_primary_key _ Hok) as [key Hkey]. apply (cr_ids _ Hok) in Hkey.
  apply valid_key_id_spec in Hkey as (Hne & Hid & _). unfold decode_request.
  rewrite (Decode_issued _ _ _ _ _ _ _ _ He Hid Hne eq_refl Hfit).
  case_bool_decide; [done|].
  destruct (check_binding _ _) as [e|] eqn:Hc.
  - apply check_binding_ok in Hc as (-> & _). by rewrite (li_position _ _ Hi).
  - exfalso. assert (check_binding (mkDecodeRequest t (is_endpoint (issue None))
      (is_identity (issue None)) (is_ordering (issue None)) (is_filters (issue None)))
      (envelope_of (issue (Some k))) = Ok (envelope_of (issue (Some k)))) as Hb; [|congruence].
    apply check_binding_ok. simpl. rewrite canonicalFilters_id.
    rewrite (li_endpoint _ _ Hi (Some k)), (li_identity_of _ _ Hi (Some k)),
      (li_ordering _ _ Hi (Some k)), (li_filters _ _ Hi (Some k)). by split_and!.
Qed.

(** Reading a list through the handlers, page by page. *)
Lemma cursor_list_pages {A B K X} (R : relation K) `{!RelDecision R, !Transitive R, !Total R}
    (key : X → K) (rows : list X) limit fuel kr issue position (render : A → B) fetch
    (row : X → A) :
  list_issue issue position → cursor_ring_ok kr → dot ∉ chars (ck_primary kr) →
  limit ≠ 0%nat → distinct_keys R key rows → (length rows < fuel)%nat →
  (∀ x, x ∈ rows → envelope_fits json_text (envelope_of (issue (Some (key x)))) ∧
                   is_ok (Encode (Some kr) (issue (Some (key x)))) = true) →
  (∀ c, (∀ k, c = Some k → ∃ x, x ∈ rows ∧ key x = k) →
     fetch c = Some (prod_map (fmap row) id (keyset_page R key limit c rows))) →
  page_walk fuel (λ t, received (cursor_list (Some kr) issue position render fetch t)) None
  = Some ((render ∘ row) <$> order_by (by_key R key) rows).
Proof using.
  intros Hi Hok Hdot Hl Hd Hf Hrows Hfetch.
  destruct (page_walk_all R key (token_of (Some kr) issue) (λ x b, b = render (row x))
              (λ t, received (cursor_list (Some kr) issue position render fetch t))
              fuel limit rows) as (bs & -> & Hbs); [done..| |].
  - intros c Hc.
    assert (cursor_list (Some kr) issue position render fetch (token_of (Some kr) issue <$> c)
            = list_page (Some kr) issue render (fetch c)) as ->.
    { destruct c as [k|]; [|done]. destruct (Hc k eq_refl) as (x & Hx & <-).
      destruct (Hrows x Hx) as [Hfit He].
      cbn [fmap option_fmap option_map].
      rewrite cursor_list_token by done. by rewrite bool_decide_eq_false_2. }
    rewrite (Hfetch c Hc). destruct (keyset_page R key limit c rows) as [l next] eqn:Ep. simpl.
    exists ((render ∘ row) <$> l). split.
    + destruct next as [k|]; simpl; [|by rewrite <- list_fmap_compose].
      apply keyset_page_next in Ep as (x & Hx & <-). destruct (Hrows x Hx) as [_ He].
      unfold token_of. destruct (Encode _ _); [|done]. simpl. by rewrite <- list_fmap_compose.
    + apply Forall2_fmap_r, Forall_Forall2_diag, Forall_forall. done.
  - f_equal. rewrite (Forall2_render (render ∘ row) _ _ Hbs). done.
Qed.

(** With a dot in the identifier of the active key the first page is all a client gets. *)
Lemma cursor_list_dotted {A B K X} (R : relation K) `{!RelDecision R, !Transitive R, !Total R}
    (key : X → K) (rows : list X) limit fuel kr issue position (render : A → B) fetch
    (row : X → A) :
  list_issue issue position → cursor_ring_ok kr → dot ∈ chars (ck_primary kr) →
  limit ≠ 0%nat → (length rows < fuel)%nat →
  (∀ x, x ∈ rows → envelope_fits json_text (envelope_of (issue (Some (key x)))) ∧
                   is_ok (Encode (Some kr) (issue (Some (key x)))) = true) →
  fetch None = Some (prod_map (fmap row) id (keyset_page R key limit None rows)) →
  page_walk fuel (λ t, received (cursor_list (Some kr) issue position render fetch t)) None
  = if (limit <? length rows)%nat then None
    else Some ((render ∘ row) <$> order_by (by_key R key) rows).
Proof using.
  intros Hi Hok Hdot Hl Hf Hrows Hfetch. destruct fuel as [|fuel]; [lia|].
  cbn [page_walk cursor_list]. rewrite Hfetch.
  destruct (keyset_page R key limit None rows) as [l next] eqn:Ep.
  pose proof Ep as Ep'. rewrite keyset_page_first, page_of_spec in Ep' by done.
  rewrite (Permutation_length (order_by_perm (by_key R key) rows)) in Ep'.
  destruct (limit <? length rows)%nat eqn:El.
  - destruct next as [k|].
    2:{ exfalso. injection Ep' as _ Ep'. apply fmap_None, last_None, (f_equal length) in Ep'.
        apply Nat.ltb_lt in El.
        rewrite length_take, (Permutation_length (order_by_perm (by_key R key) rows)) in Ep'.
        simpl in Ep'. lia. }
    apply keyset_page_next in Ep as (x & Hx & <-). destruct (Hrows x Hx) as [Hfit He]. simpl.
    destruct (Encode (Some kr) (issue (Some (key x)))) as [t|] eqn:Et; [|done]. simpl.
    assert (t = token_of (Some kr) issue (key x)) as -> by (unfold token_of; by rewrite Et).
    destruct fuel as [|fuel]; [apply Nat.ltb_lt in El; lia|]. cbn [page_walk].
    rewrite cursor_list_token by (done || by rewrite Et). by rewrite bool_decide_eq_true_2.
  - injection Ep' as <- <-. simpl. by rewrite <- list_fmap_compose.
Qed.
End client_facts.

(** ** The list of tasks of a team *)

Section gateway_properties.
Context `{CursorCodec, Collation, PgTime, JsonCodec, TimeCodec}.

Lemma cursorParam_insert values t :
  cursorParam (<["cursor" := [t]]> values)
  = if bool_decide (t = "") || (MaxTokenLength <? String.length t)%nat then None else Some (Some t).
Proof using.
  unfold cursorParam, query_all. rewrite lookup_insert_eq. simpl.
  case_bool_decide; [done|]. by destruct (MaxTokenLength <? _)%nat.
Qed.

Lemma collectionQuery_insert allowed q values raw t :
  collectionQuery allowed q = Some values → "cursor" ∈ allowed → (raw t ≤ maxListRawQueryLength)%nat →
  collectionQuery allowed (client_query q raw (Some t)) = Some (<["cursor" := [t]]> values).
Proof using.
  unfold collectionQuery. intros Hq Hin Hraw. simpl.
  destruct (maxListRawQueryLength <? lq_raw q)%nat; [done|].
  rewrite (proj2 (Nat.ltb_ge _ _) Hraw). case_bool_decide as Hall; [|done]. simplify_eq.
  rewrite bool_decide_eq_true_2; [done|]. by apply map_Forall_insert_2.
Qed.

Lemma task_issue_list endpoint ident filters : list_issue (task_issue endpoint ident filters) nv_task.
Proof using. by constructor. Qed.

(** The handler answers with the list of its caller from the token on. *)
Lemma gateway_listTasks_token kr h q values team operator limit raw token env db :
  trustedGatewayMiddleware false h = Ok (team, operator) →
  collectionQuery ["state"; "tag"; "cursor"; "limit"] q = Some values →
  values !! "cursor" = None → ParseLimit (query_all values "limit") = Ok limit →
  validListingTag (trim_space (query_get values "tag")) = true →
  validTaskState (trim_space (query_get values "state")) = true →
  (∀ t, (raw t ≤ maxListRawQueryLength)%nat) →
  let state := trim_space (query_get values "state") in
  let tag := trim_space (query_get values "tag") in
  gateway_listTasks (Some kr) h (client_query q raw token) env db
  = cursor_list (Some kr)
      (task_issue EndpointGatewayTasks (mkIdentity "gateway" team operator)
         (gateway_filters team state tag)) nv_task id
      (λ after, fetched (run_tx (ListTasks (mkTaskFilter team state tag "") (lv_value limit) after)
                           env db)) token.
Proof using.
  intros Hh Hq Hc Hl Htag Hstate Hraw state tag. unfold gateway_listTasks. rewrite Hh.
  destruct token as [t|].
  - rewrite (collectionQuery_insert _ _ _ raw t Hq) by (set_solver || done).
    assert (query_all (<["cursor":=[t]]> values) "limit" = query_all values "limit") as ->
      by (unfold query_all; by rewrite lookup_insert_ne).
    assert (query_get (<["cursor":=[t]]> values) "tag" = query_get values "tag") as ->
      by (unfold query_get; by rewrite lookup_insert_ne).
    assert (query_get (<["cursor":=[t]]> values) "state" = query_get values "state") as ->
      by (unfold query_get; by rewrite lookup_insert_ne).
    rewrite Hl, Htag, Hstate. simpl negb. cbn [orb]. rewrite cursorParam_insert.
    destruct (bool_decide (t = "")) eqn:Et; simpl.
    + apply bool_decide_eq_true in Et as ->. done.
    + destruct (MaxTokenLength <? String.length t)%nat eqn:El; [|done].
      unfold cursor_list, Decode, decode_request. cbn [dr_token]. by rewrite Et, El.
  - simpl client_query. rewrite Hq, Hl, Htag, Hstate. simpl negb. cbn [orb].
    unfold cursorParam, query_all. by rewrite Hc.
Qed.

(** C37. The task list of a team, end to end. A client that follows the cursors of GET /v1/tasks
    from the first page receives every task of its team that its filters select exactly once,
    newest first, whatever the page size; with a dot in the identifier of the active key, which
    start-up accepts, the request for the second page is refused. *)
Theorem gateway_listTasks_pages kr h q values team operator limit raw env db fuel :
  trustedGatewayMiddleware false h = Ok (team, operator) →
  collectionQuery ["state"; "tag"; "cursor"; "limit"] q = Some values →
  values !! "cursor" = None → ParseLimit (query_all values "limit") = Ok limit →
  validListingTag (trim_space (query_get values "tag")) = true →
  validTaskState (trim_space (query_get values "state")) = true →
  (∀ t, (raw t ≤ maxListRawQueryLength)%nat) →
  cursor_ring_ok kr → (∀ n, env_fault env n = false) → tasks_keyed db → instants_fit db →
  let f := mkTaskFilter team (trim_space (query_get values "state"))
             (trim_space (query_get values "tag")) "" in
  let issue k := task_issue EndpointGatewayTasks (mkIdentity "gateway" team operator)
                   (gateway_filters team (kf_state f) (kf_tag f)) (Some k) in
  (∀ t, t ∈ task_rows f db → envelope_fits json_text (envelope_of (issue (task_key t))) ∧
                             is_ok (Encode (Some kr) (issue (task_key t))) = true) →
  (length (task_rows f db) < fuel)%nat →
  page_walk fuel (λ t, received (gateway_listTasks (Some kr) h (client_query q raw t) env db)) None
  = if bool_decide (dot ∈ chars (ck_primary kr)) &&
       (Z.to_nat (lv_value limit) <? length (task_rows f db))%nat
    then None
    else Some (scanTaskRow <$> order_by (by_key pair_ge task_key) (task_rows f db)).
Proof using.
  intros Hh Hq Hc Hl Htag Hstate Hraw Hok Hnf Hkey Hfit f issue Hrows Hf.
  rewrite (page_walk_ext _ _ _ None (λ t, f_equal received
    (gateway_listTasks_token kr h q values team operator limit raw t env db Hh Hq Hc Hl Htag Hstate Hraw))).
  assert (1 ≤ lv_value limit) as Hlim.
  { apply ParseLimit_value in Hl. lia. }
  assert (Hfetch : ∀ c, (∀ k, c = Some k → ∃ x, x ∈ task_rows f db ∧ task_key x = k) →
    fetched (run_tx (ListTasks f (lv_value limit) c) env db)
    = Some (prod_map (fmap scanTaskRow) id
              (keyset_page pair_ge task_key (Z.to_nat (lv_value limit)) c (task_rows f db)))).
  { intros c _. rewrite ListTasks_run by done. f_equal.
    destruct (keyset_page _ _ _ _ _) as [l next] eqn:Ep.
    assert (after_of <$> next = next) as Hn; [|by rewrite <- Hn at 2].
    apply (after_of_row f db); [done|]. intros k ->. by eapply keyset_page_next. }
  case_bool_decide as Hdot; simpl.
  - erewrite (cursor_list_dotted pair_ge task_key (task_rows f db));
      first [done|lia|apply task_issue_list|by apply Hfetch].
  - erewrite (cursor_list_pages pair_ge task_key (task_rows f db) (Z.to_nat (lv_value limit)));
      first [done|lia|apply task_issue_list|apply rows_distinct; [by right|done]].
Qed.

(** A page comes from one fetch. *)
Lemma cursor_list_fetch {A B K} keyring issue position (render : A → B)
    (fetch : option K → option (list A * option K)) token items count next :
  cursor_list keyring issue position render fetch token = Page items count next →
  ∃ after entries nx, fetch after = Some (entries, nx) ∧ items = render <$> entries ∧
                      count = length entries.
Proof using.
  assert (∀ after, list_page keyring issue render (fetch after) = Page items count next →
            ∃ after entries nx, fetch after = Some (entries, nx) ∧ items = render <$> entries ∧
                                count = length entries) as Hpage.
  { intros after. unfold list_page. destruct (fetch after) as [[entries [k|]]|] eqn:Hf; try done.
    - destruct (Encode _ _); [|done]. intros [= <- <- _]. by eexists _, _, _.
    - intros [= <- <- _]. by eexists _, _, _. }
  unfold cursor_list. destruct token as [tok|]; [|by apply Hpage].
  destruct (Decode _ _); [by apply Hpage|done].
Qed.

(** The team of a request is never empty, so it restricts the list. *)
Lemma middleware_team b h team operator :
  trustedGatewayMiddleware b h = Ok (team, operator) → team ≠ "".
Proof using.
  unfold trustedGatewayMiddleware. case_bool_decide; [done|].
  destruct (bool_decide (trim_space (gh_team h) = "")) eqn:Et; [done|]. to_prop.
  destruct (_ || _ || _ || _); [done|]. destruct (_ && _); [done|]. by intros [= <- _].
Qed.

Lemma task_selected_team f t : task_selected f t = true → kf_team f ≠ "" → tk_team t = kf_team f.
Proof using.
  unfold task_selected, matches. intros Hs Hne. to_prop.
  match goal with H : bool_decide (kf_team f = "") || _ = true |- _ =>
    apply orb_true_iff in H as [?|?] end; by to_prop.
Qed.

(** No cross-team reads. Whatever the headers, the query, the cursor and the keys, a page of
    GET /v1/tasks holds only tasks of the team the Gateway forwarded, at most two hundred. *)
Theorem gateway_listTasks_team keyring h q env db items count next :
  gateway_listTasks keyring h q env db = Page items count next →
  ∃ team operator, trustedGatewayMiddleware false h = Ok (team, operator) ∧
    count = length items ∧ Z.of_nat count ≤ MaxLimit ∧
    ∀ e, e ∈ items → en_team e = team ∧
      ∃ k t, db_tasks db !! k = Some t ∧ tk_team t = team ∧ e = scanTaskRow t.
Proof using.
  unfold gateway_listTasks. intros Hp.
  destruct (trustedGatewayMiddleware false h) as [[team operator]|[status code]] eqn:Hh; [|done].
  destruct (collectionQuery _ q) as [values|]; [|done].
  destruct (ParseLimit _) as [limit|] eqn:Hl; [|done]. apply ParseLimit_value in Hl as Hlim.
  destruct (negb _ || _); [done|]. destruct (cursorParam values) as [token|]; [|done].
  apply cursor_list_fetch in Hp as (after & entries & nx & Hf & -> & ->).
  exists team, operator. split; [done|]. rewrite length_fmap. split; [done|].
  unfold fetched in Hf. destruct (run_tx (ListTasks _ _ _) env db) as [[p|] db'] eqn:Hr; [|done].
  simplify_eq/=.
  apply ListTasks_selected in Hr as (_ & Hlen & Hsel). split; [lia|].
  rewrite list_fmap_id. intros e He. destruct (Hsel e He) as (t & Ht & ->).
  apply list_elem_of_filter in Ht as [Ht [k Hk]%elem_of_rows].
  apply Is_true_true, task_selected_team in Ht; [|exact (middleware_team _ _ _ _ Hh)]. simpl in Ht.
  split; [done|]. by exists k, t.
Qed.

(** A point read answers with the task of the team; a task of another team is answered as one that
    does not exist, and an outage as neither. *)
Theorem gateway_readTask_spec h task env db team operator :
  trustedGatewayMiddleware false h = Ok (team, operator) →
  validListingIdentifier (trim_space task) = true →
  gateway_readTask h task env db =
  if env_fault env 0 then Err (500, "internal_error")
  else match db_tasks db !! trim_space task with
       | Some t => if bool_decide (tk_team t = team) then Ok (scanTaskRow t)
                   else Err (404, "task_not_found")
       | None => Err (404, "task_not_found")
       end.
Proof using.
  intros Hh Hv. unfold gateway_readTask, run_tx, GetTask, query, stmt, bind, begin_st. rewrite Hh, Hv.
  simpl. destruct (env_fault env 0); [done|]. simpl.
  destruct (db_tasks db !! trim_space task) as [t|]; [|done]. by case_bool_decide.
Qed.
End gateway_properties.

(** ** The task list of the small registry *)

Section witnesses.
#[local] Existing Instances pg_micros collation_C time_bits json_plain token_short cursor_fields.

Definition fx_headers : gateway_headers := mkGatewayHeaders "" " team" "op" "req".
Definition fx_query : list_query := mkQuery 7 {["limit" := ["1"]]}.
Definition fx_task_filter : AdminTaskFilter := mkTaskFilter "team" "" "" "".

Lemma fx_instants_fit : instants_fit fx_db.
Proof.
  assert (map_Forall (λ _ t, - 2 ^ 63 ≤ tk_ingested_at t ∧ tk_ingested_at t < 2 ^ 63) (db_tasks fx_db)) as Hf
    by (apply (bool_decide_unpack _); vm_compute; exact I).
  exact Hf.
Qed.

Lemma task_issue_fits endpoint ident filters n id :
  in_int64 n → envelope_fits json_text (envelope_of (task_issue endpoint ident filters (Some (n, id)))).
Proof.
  intros Hn. do 4 (split; [exact I|]). split; [intros k v _; split; exact I|].
  split; [intros a b c _; split; [exact I|split; exact I]|].
  intros m s [E|[E|[E|[E|E]]]]; cbn in E; [|discriminate E..].
  injection E as <- _. split; [exact Hn|exact I].
Qed.

(** Two pages under the key "k1"; under "k.1" the second one is refused. *)
Lemma gateway_listTasks_pages_witness :
  (λ l : list TaskListEntry, en_task <$> l) <$> page_walk 3
    (λ t, received (gateway_listTasks (Some (fx_ring "k1")) fx_headers
                      (client_query fx_query (λ _, 100%nat) t) (fx_env 9000) fx_db)) None
  = Some ["t2"; "t1"] ∧
  page_walk 3
    (λ t, received (gateway_listTasks (Some (fx_ring "k.1")) fx_headers
                      (client_query fx_query (λ _, 100%nat) t) (fx_env 9000) fx_db)) None
  = None.
Proof.
  assert (cursor_ring_ok (fx_ring "k1")) as Hk1 by (apply (fx_ring_ok "k1"); vm_compute; reflexivity).
  assert (cursor_ring_ok (fx_ring "k.1")) as Hk2 by (apply (fx_ring_ok "k.1"); vm_compute; reflexivity).
  assert (∀ t : string, (100 ≤ maxListRawQueryLength)%nat) as Hraw
    by (intros _; apply Nat.leb_le; reflexivity).
  assert (length (task_rows fx_task_filter fx_db) < 3)%nat as Hlen by (apply Nat.ltb_lt; vm_compute; reflexivity).
  assert (∀ ring : CursorKeyring,
    forallb (λ t, is_ok (Encode (Some ring)
      (task_issue EndpointGatewayTasks (mkIdentity "gateway" "team" "op")
         (gateway_filters "team" "" "") (Some (task_key t))))) (task_rows fx_task_filter fx_db) = true →
    ∀ t, t ∈ task_rows fx_task_filter fx_db →
      envelope_fits json_text (envelope_of
        (task_issue EndpointGatewayTasks (mkIdentity "gateway" "team" "op")
           (gateway_filters "team" "" "") (Some (task_key t)))) ∧
      is_ok (Encode (Some ring)
        (task_issue EndpointGatewayTasks (mkIdentity "gateway" "team" "op")
           (gateway_filters "team" "" "") (Some (task_key t)))) = true) as Hrows.
  { intros ring Hall t Ht. split.
    - apply task_issue_fits. apply list_elem_of_filter in Ht as [_ [k Hk]%elem_of_rows].
      exact (fx_instants_fit _ _ Hk).
    - eapply forallb_forall in Hall; [exact Hall|]. by apply list_elem_of_In. }
  assert (trustedGatewayMiddleware false fx_headers = Ok ("team", "op")) as Hh by (vm_compute; reflexivity).
  assert (collectionQuery ["state"; "tag"; "cursor"; "limit"] fx_query = Some {["limit" := ["1"]]}) as Hq
    by (vm_compute; reflexivity).
  assert (({["limit" := ["1"]]} : gmap string (list string)) !! "cursor" = None) as Hc by (vm_compute; reflexivity).
  assert (ParseLimit (query_all {["limit" := ["1"]]} "limit") = Ok (mkLimit "1" 1)) as Hl
    by (vm_compute; reflexivity).
  assert (validListingTag (trim_space (query_get {["limit" := ["1"]]} "tag")) = true) as Htag
    by (vm_compute; reflexivity).
  assert (validTaskState (trim_space (query_get {["limit" := ["1"]]} "state")) = true) as Hstate
    by (vm_compute; reflexivity).
  pose proof (λ ring Hok Hr, gateway_listTasks_pages ring fx_headers fx_query {["limit" := ["1"]]}
    "team" "op" (mkLimit "1" 1) (λ _, 100%nat) (fx_env 9000) fx_db 3 Hh Hq Hc Hl Htag Hstate Hraw Hok
    (λ n, eq_refl) fx_keyed fx_instants_fit (Hrows ring Hr) Hlen) as Hpages.
  split.
  - rewrite (Hpages (fx_ring "k1") Hk1); vm_compute; reflexivity.
  - rewrite (Hpages (fx_ring "k.1") Hk2); vm_compute; reflexivity.
Defined.

Lemma gateway_listTasks_team_witness :
  ∃ items next, gateway_listTasks (Some (fx_ring "k1")) fx_headers fx_query (fx_env 9000) fx_db
                = Page items 1 next ∧ ∀ e, e ∈ items → en_team e = "team".
Proof.
  destruct (gateway_listTasks (Some (fx_ring "k1")) fx_headers fx_query (fx_env 9000) fx_db)
    as [status code|items count next] eqn:E; [vm_compute in E; discriminate E|].
  exists items, next. split.
  - vm_compute in E. injection E as <- <- <-. reflexivity.
  - apply gateway_listTasks_team in E as (team & operator & Hh & _ & _ & Hall).
    vm_compute in Hh. injection Hh as <- _. intros e He. apply (Hall e He).
Defined.
End witnesses.
