(* ===== verification/Lifecycle.v ===== *)
(** * The State Registry as a transition system

    Every state changing operation of the stores is a step; a database is reachable when steps
    lead to it from the empty one. The invariant of the reachable databases says what the log
    and the projection of a task have to do with each other. *)

From stdpp Require Import base gmap strings list sorting.
From S2P Require Import Prelude Platform Tx Schema Store LaunchTables ScopeToken Fixtures.
From S2P Require Import LaunchParams Secrets OpenEnv Claim Listener Admin Events Controls TaskLogs.
#[local] Open Scope Z_scope.

(** ** Operations *)

Inductive op : Type :=
| OpCreateTeam (req : CreateTeamRequest) (ident : AdminIdentity)
| OpUpdateTeam (team : string) (req : UpdateTeamRequest) (ident : AdminIdentity)
| OpArchiveTeam (team : string) (ident : AdminIdentity)
| OpCreateSourceSystem (req : CreateSourceSystemRequest)
| OpCreateTaskType (req : CreateTaskTypeRequest)
| OpIngestTask (req : TaskIngestionRequest) (ident : ListenerIdentity)
| OpRegisterExecutor (id : string) (req : RegistrationRequest) (ident : ExecutorIdentity)
| OpClaimTask (req : ClaimRequest) (executor : string) (ident : ExecutorIdentity)
| OpAppendTaskEvent (req : TaskEventAppendRequest) (ident : ExecutorIdentity)
| OpAppendExecutorEvent (req : ExecutorEventAppendRequest) (ident : ExecutorIdentity)
| OpCreateTaskControl (ident : GatewayIdentity) (task : string) (req : CreateTaskControlRequest)
| OpAppendTaskControlEvent (task control : string) (req : TaskControlEventAppendRequest)
    (ident : ExecutorIdentity)
| OpAppendTaskLog (task : string) (req : TaskLogAppendRequest) (ident : ExecutorIdentity)
| OpCreateLaunchParameters (ident : GatewayIdentity) (req : LaunchParameterWrite)
| OpReplaceLaunchParameters (ident : GatewayIdentity) (env : string) (req : LaunchParameterWrite)
| OpDeleteLaunchParameters (ident : GatewayIdentity) (env : string)
| OpCreateSecret (ident : GatewayIdentity) (env : string) (req : SecretCreateRequest)
| OpReplaceSecret (ident : GatewayIdentity) (env secret value : string)
| OpRevokeSecret (ident : GatewayIdentity) (env secret : string)
| OpOpenEnvironment (req : OpenEnvironmentRequest).

(** The error an operation reports, if any, and the database it leaves. *)
Definition outcome {A} (m : TxS A) (env : TxEnv) (db : DB) : option StoreError * DB :=
  match run_tx m env db with (Ok _, d) => (None, d) | (Err e, d) => (Some e, d) end.

Section registry.
Context `{Collation, PgTime, JsonCodec, JsonCompact, TimeCodec, TokenCodec, ImageCodec, Aead}.
Context (cfg : StoreConfig).

Definition perform (o : op) (env : TxEnv) (db : DB) : option StoreError * DB :=
  match o with
  | OpCreateTeam req i => outcome (CreateTeam req i) env db
  | OpUpdateTeam t req i => outcome (UpdateTeam t req i) env db
  | OpArchiveTeam t i => outcome (ArchiveTeam t i) env db
  | OpCreateSourceSystem req => outcome (CreateSourceSystem req) env db
  | OpCreateTaskType req => outcome (CreateTaskType req) env db
  | OpIngestTask req i => outcome (IngestTask req i) env db
  | OpRegisterExecutor id req i => outcome (RegisterExecutor id req i) env db
  | OpClaimTask req x i => outcome (ClaimTask cfg req x i) env db
  | OpAppendTaskEvent req i => outcome (AppendTaskEvent req i) env db
  | OpAppendExecutorEvent req i => outcome (AppendExecutorEvent req i) env db
  | OpCreateTaskControl i t req => outcome (CreateTaskControl i t req) env db
  | OpAppendTaskControlEvent t c req i => outcome (AppendTaskControlEvent t c req i) env db
  | OpAppendTaskLog t req i => outcome (AppendTaskLog t req i) env db
  | OpCreateLaunchParameters i req => outcome (CreateLaunchParameters i req) env db
  | OpReplaceLaunchParameters i e req => outcome (ReplaceLaunchParameters i e req) env db
  | OpDeleteLaunchParameters i e => outcome (DeleteLaunchParameters i e) env db
  | OpCreateSecret i e req => outcome (CreateSecret cfg i e req) env db
  | OpReplaceSecret i e s v => outcome (ReplaceSecret cfg i e s v) env db
  | OpRevokeSecret i e s => outcome (RevokeSecret i e s) env db
  | OpOpenEnvironment req => outcome (OpenEnvironment cfg req) env db
  end.

Inductive step (db : DB) : DB → Prop :=
| step_perform o env : step db (perform o env db).2.

Inductive reachable : DB → Prop :=
| reach_empty : reachable empty_db
| reach_step db db' : reachable db → step db db' → reachable db'.

Lemma outcome_ok {A} (m : TxS A) env db db' :
  outcome m env db = (None, db') → ∃ a, run_tx m env db = (Ok a, db').
Proof using. unfold outcome. destruct (run_tx m env db) as [[a|e] d]; [|done]. intros [= ->]. eauto. Qed.

Lemma outcome_error {A} (m : TxS A) env db e db' :
  error_keeps m → outcome m env db = (Some e, db') →
  db' = db ∨ ∃ env', unacknowledged env env' ∧ outcome m env' db = (None, db').
Proof using.
  intros Hk. unfold outcome. destruct (run_tx m env db) as [[a|e'] d] eqn:E; [done|].
  intros [= _ <-]. apply run_tx_error in E as [?|(env' & a & Hu & Hr)]; [by left|right|done].
  exists env'. by rewrite Hr.
Qed.

(** The one operation that can report an error after its commit. *)
Definition reads_after_commit (o : op) : bool :=
  match o with OpReplaceLaunchParameters _ _ _ => true | _ => false end.

Lemma perform_error o env db e db' :
  reads_after_commit o = false → perform o env db = (Some e, db') →
  db' = db ∨ ∃ env', unacknowledged env env' ∧ perform o env' db = (None, db').
Proof using.
  destruct o; simpl; intros Ho; try done; apply outcome_error;
    auto using CreateTeam_error_keeps, UpdateTeam_error_keeps, ArchiveTeam_error_keeps,
      CreateSourceSystem_error_keeps, CreateTaskType_error_keeps, IngestTask_error_keeps,
      RegisterExecutor_error_keeps, ClaimTask_error_keeps, AppendTaskEvent_error_keeps,
      AppendExecutorEvent_error_keeps, CreateTaskControl_error_keeps,
      AppendTaskControlEvent_error_keeps, AppendTaskLog_error_keeps,
      CreateLaunchParameters_error_keeps, DeleteLaunchParameters_error_keeps,
      CreateSecret_error_keeps, ReplaceSecret_error_keeps, RevokeSecret_error_keeps,
      OpenEnvironment_error_keeps.
Qed.

(** Whatever it reports, an operation leaves the registry alone or does what a success does. *)
Lemma perform_cases o env db :
  reads_after_commit o = false →
  (perform o env db).2 = db ∨ ∃ env', perform o env' db = (None, (perform o env db).2).
Proof using.
  intros Ho. destruct (perform o env db) as [[e|] db'] eqn:E; simpl; [|right; eauto].
  apply perform_error in E as [?|(env' & _ & ?)]; [by left|right; eauto|done].
Qed.

Lemma outcome_run {A} (m : TxS A) env db : ∃ r, run_tx m env db = (r, (outcome m env db).2).
Proof using. unfold outcome. destruct (run_tx m env db) as [[a|e] d]; simpl; eauto. Qed.

(** The operations on launch parameters and secrets, whatever they return, are steps of the
    configuration; opening an environment only adds an audit entry. *)
Definition is_config (o : op) : bool :=
  match o with
  | OpCreateLaunchParameters _ _ | OpReplaceLaunchParameters _ _ _ | OpDeleteLaunchParameters _ _
  | OpCreateSecret _ _ _ | OpReplaceSecret _ _ _ _ | OpRevokeSecret _ _ _
  | OpOpenEnvironment _ => true
  | _ => false
  end.

Lemma perform_config o env db : is_config o = true → secret_step cfg db (perform o env db).2.
Proof using.
  intros Ho. destruct o; try done; simpl;
    match goal with |- context [outcome ?m env db] => destruct (outcome_run m env db) as [r Hr] end.
  - apply CreateLaunchParameters_step in Hr. by apply config_step_secret.
  - apply ReplaceLaunchParameters_step in Hr. by apply config_step_secret.
  - apply DeleteLaunchParameters_step in Hr. by apply config_step_secret.
  - by apply CreateSecret_step in Hr.
  - by apply ReplaceSecret_step in Hr.
  - by apply (RevokeSecret_step cfg) in Hr.
  - apply OpenEnvironment_step in Hr. by apply config_step_secret.
Qed.

(** ** What a step does to the tasks and their log *)

Inductive task_step (db db' : DB) : Prop :=
| step_other :
    db_tasks db' = db_tasks db → db_task_events db' = db_task_events db → task_step db db'
| step_ingest t :
    db_tasks db !! tk_id t = None → task_ok t = true → tk_state t = StatePending →
    task_by_source (tk_team t) (tk_source_system t) (tk_source_id t) db = None →
    db_tasks db' = <[tk_id t := t]> (db_tasks db) → db_task_events db' = db_task_events db →
    task_step db db'
| step_claim t command executor at_ image source payload :
    db_tasks db !! tk_id t = Some t → tk_state t = StatePending →
    task_ok (claim_row command executor (pg_ts at_) image source t) = true →
    db_task_events db !! ("evt-" +:+ tk_id t) = None →
    db_tasks db' = <[tk_id t := claim_row command executor (pg_ts at_) image source t]> (db_tasks db) →
    db_task_events db' =
      <["evt-" +:+ tk_id t :=
          with_payload payload (created_event (tk_id t) (tk_team t) executor (pg_ts at_))]>
        (db_task_events db) →
    task_step db db'
| step_report t req executor occurred payload state' :
    tr_task req = tk_id t → db_tasks db !! tk_id t = Some t → tk_executor t = Some executor →
    lifecycle (tk_state t) (tr_type req) state' → task_ok (set_state state' t) = true →
    order_check occurred (tr_event req) (tr_type req) (tk_state t) (latest_event (tk_id t) db) = Ok () →
    db_task_events db !! tr_event req = None →
    db_tasks db' = <[tk_id t := set_state state' t]> (db_tasks db) →
    db_task_events db' =
      <[tr_event req := event_row req (tk_team t) executor occurred payload]> (db_task_events db) →
    task_step db db'.

Lemma ingest_task_step req ident env db a db' :
  run_tx (IngestTask req ident) env db = (Ok a, db') → task_step db db'.
Proof using.
  intros (_ & _ & _ & _ & tag & _ & Hc)%IngestTask_ok.
  destruct Hc as [(t & _ & _ & ->)|(id & p & Hn & Hnew & Hok & _ & _ & ->)]; [by apply step_other|].
  by apply (step_ingest _ _ (pending_row id ident req tag p (trunc_second (pg_ts (env_db_now env))))).
Qed.

Lemma claim_task_step req x ident env db a db' :
  tasks_keyed db → run_tx (ClaimTask cfg req x ident) env db = (Ok a, db') → task_step db db'.
Proof using.
  intros Hkey (e & t & He & Ht & _ & _ & _ & _ & Hc)%ClaimTask_ok.
  destruct Hc as [(_ & _ & _ & -> & _)|(Hp & base & i & src & p & Hs & _)]; [by apply step_other|].
  assert (tk_id t = cr_task req) as Hid by by apply Hkey in Ht.
  destruct (same_but_snapshots_tables _ _ (cl_frame _ _ _ _ _ _ _ _ _ _ _ Hs)) as (Etk & Eev & _).
  destruct (cl_row_ok _ _ _ _ _ _ _ _ _ _ _ Hs) as (_ & Hok & _).
  pose proof (cl_event_new _ _ _ _ _ _ _ _ _ _ _ Hs) as Hnew.
  pose proof (cl_result _ _ _ _ _ _ _ _ _ _ _ Hs) as ->. rewrite <- Hid in *.
  eapply (step_claim _ _ t); simpl; [done..| |].
  - by rewrite Etk.
  - by rewrite Eev.
Qed.

Lemma report_task_step req ident env db a db' :
  tasks_keyed db → run_tx (AppendTaskEvent req ident) env db = (Ok a, db') → task_step db db'.
Proof using.
  intros Hkey (occ & pl & x & t & _ & _ & Hm & _ & _ & _ & Ht & Hex & _ & Hc)%AppendTaskEvent_ok.
  destruct Hc as [(e & _ & _ & _ & _ & _ & -> & _)|(_ & st & au & Hs)]; [by apply step_other|].
  assert (tk_id t = tr_task req) as Hid by by apply Hkey in Ht.
  pose proof (es_result _ _ _ _ _ _ _ _ _ Hs) as ->.
  eapply (step_report _ _ t req); rewrite ?Hid; try done.
  - apply transition_lifecycle; [done|]. by eapply es_transition.
  - by eapply es_row_ok.
  - by eapply es_order.
  - by eapply es_new.
Qed.

Lemma perform_task_step o env db : tasks_keyed db → task_step db (perform o env db).2.
Proof using.
  intros Hkey. destruct (is_config o) eqn:Hcfg.
  { destruct (perform_config o env db Hcfg) as (Hf & _). by apply step_other; apply Hf. }
  destruct (perform_cases o env db) as [->|[env' E]]; [by destruct o|by apply step_other|].
  revert E. generalize (perform o env db).2. intros db' E.
  destruct o; try discriminate Hcfg; simpl in E; apply outcome_ok in E as [a E].
  - apply CreateTeam_ok in E as (_ & _ & _ & _ & id & au & _ & _ & ->). by apply step_other.
  - apply UpdateTeam_ok in E as (t & id & _ & _ & _ & _ & ->). by apply step_other.
  - destruct a as [t []]; apply ArchiveTeam_ok in E as (t0 & _ & Hc);
      [destruct Hc as (_ & _ & id & _ & ->)|destruct Hc as (_ & _ & ->)]; by apply step_other.
  - apply CreateSourceSystem_ok in E as (_ & _ & _ & _ & ->). by apply step_other.
  - apply CreateTaskType_ok in E as (_ & _ & _ & ->). by apply step_other.
  - by eapply ingest_task_step.
  - apply RegisterExecutor_ok in E as (-> & _). by apply step_other.
  - by eapply claim_task_step.
  - by eapply report_task_step.
  - apply AppendExecutorEvent_ok in E as (x & _ & _ & [(e & _ & ->)|(_ & o & p & s & x' & au & Q)]);
      [by apply step_other|]. destruct Q as (_ & _ & _ & _ & _ & _ & ->). by apply step_other.
  - apply CreateTaskControl_ok in E as (_ & [(c & _ & _ & ->)|(id & aid & at_ & ev & au & -> & _)]);
      by apply step_other.
  - apply AppendTaskControlEvent_ok in E as (c & t & _ & _ & _ & _ & _ & _ & _ & Hc).
    destruct Hc as [(e & _ & _ & _ & ->)|(st & au & Hs)]; [by apply step_other|].
    rewrite (cs_result _ _ _ _ _ _ _ _ _ Hs). by apply step_other.
  - apply AppendTaskLog_ok in E as (t & _ & _ & _ & _ & [(_ & _ & _ & _ & _ & ->)|(_ & _ & ->)]);
      by apply step_other.
Qed.

(** ** The invariant of the tasks and their log *)

(** The event types a task in this state has gone through. *)
Definition history (state : string) : list string :=
  if bool_decide (state = StatePending) then []
  else if bool_decide (state = StateCreated) then [TypeCreated]
  else if bool_decide (state = StateRunning) then [TypeCreated; TypeRunning]
  else if bool_decide (state = StateFinished) then [TypeCreated; TypeRunning; TypeFinished]
  else [TypeCreated; TypeRunning; TypeFailed].

Definition type_rank (type : string) : nat :=
  if bool_decide (type = TypeCreated) then 0 else if bool_decide (type = TypeRunning) then 1 else 2.

Record task_inv (db : DB) : Prop := mkTaskInv {
  ti_keyed : tasks_keyed db;
  ti_ok : ∀ k t, db_tasks db !! k = Some t → task_ok t = true;
  ti_events : ∀ i e, db_task_events db !! i = Some e →
    te_id e = i ∧ pg_ts (te_occurred_at e) = te_occurred_at e ∧
    ∃ t, db_tasks db !! te_task e = Some t ∧ te_team e = tk_team t ∧
         tk_executor t = Some (te_executor e) ∧ te_type e ∈ history (tk_state t);
  ti_history : ∀ k t type, db_tasks db !! k = Some t → type ∈ history (tk_state t) →
    ∃ i e, db_task_events db !! i = Some e ∧ te_task e = k ∧ te_type e = type;
  ti_once : ∀ i i' e e', db_task_events db !! i = Some e → db_task_events db !! i' = Some e' →
    te_task e = te_task e' → te_type e = te_type e' → i = i';
  ti_order : ∀ i i' e e', db_task_events db !! i = Some e → db_task_events db !! i' = Some e' →
    te_task e = te_task e' → (type_rank (te_type e) ≤ type_rank (te_type e'))%nat →
    te_occurred_at e ≤ te_occurred_at e';
  ti_source : ∀ k k' t t', db_tasks db !! k = Some t → db_tasks db !! k' = Some t' →
    tk_team t = tk_team t' → tk_source_system t = tk_source_system t' →
    tk_source_id t = tk_source_id t' → k = k';
}.

Lemma empty_inv : task_inv empty_db.
Proof using. by constructor; intros; simplify_map_eq. Qed.

Lemma inv_other db db' :
  db_tasks db' = db_tasks db → db_task_events db' = db_task_events db → task_inv db → task_inv db'.
Proof using.
  intros Et Ee []. constructor; unfold tasks_keyed in *; rewrite ?Et, ?Ee; try done.
Qed.

Lemma inv_ingest db db' t :
  db_tasks db !! tk_id t = None → task_ok t = true → tk_state t = StatePending →
  task_by_source (tk_team t) (tk_source_system t) (tk_source_id t) db = None →
  db_tasks db' = <[tk_id t := t]> (db_tasks db) → db_task_events db' = db_task_events db →
  task_inv db → task_inv db'.
Proof using.
  intros Hnew Hok Hp Hsrc Et Ee Hi.
  assert (Hdiff : ∀ k t', db_tasks db !! k = Some t' → tk_team t' = tk_team t →
            tk_source_system t' = tk_source_system t → tk_source_id t' = tk_source_id t → False).
  { intros k t' Hk E1 E2 E3. apply (task_by_source_none _ _ _ _ _ _ Hsrc) in Hk.
    apply bool_decide_eq_false in Hk. by apply Hk. }
  constructor; unfold tasks_keyed; rewrite ?Et, ?Ee.
  - apply map_Forall_insert_2; [done|apply Hi].
  - intros k t' [[_ <-]|[_ Hk]]%lookup_insert_Some; [done|]. by eapply ti_ok.
  - intros i e Hk. apply (ti_events _ Hi) in Hk as (? & ? & t' & Ht' & Q).
    split_and!; [done..|]. exists t'. rewrite lookup_insert_ne; [done|congruence].
  - intros k t' type [[_ <-]|[_ Hk]]%lookup_insert_Some; [rewrite Hp; by intros ?%not_elem_of_nil|].
    by eapply ti_history.
  - by apply ti_once.
  - by apply ti_order.
  - intros k k' a b Ha Hb E1 E2 E3.
    apply lookup_insert_Some in Ha as [[<- <-]|[_ Ha]];
      apply lookup_insert_Some in Hb as [[<- <-]|[_ Hb]]; [done| | |by eapply ti_source].
    + by destruct (Hdiff _ _ Hb).
    + by destruct (Hdiff _ _ Ha).
Qed.

(** Appending the next event of a task and projecting it keeps the invariant. *)
Lemma inv_append db db' t t' e0 :
  db_tasks db !! tk_id t = Some t → tk_id t' = tk_id t → tk_team t' = tk_team t →
  tk_source_system t' = tk_source_system t → tk_source_id t' = tk_source_id t → task_ok t' = true →
  history (tk_state t') = history (tk_state t) ++ [te_type e0] →
  te_type e0 ∉ history (tk_state t) →
  (∀ type, type ∈ history (tk_state t) → (type_rank type < type_rank (te_type e0))%nat) →
  (history (tk_state t) ≠ [] → tk_executor t' = tk_executor t) →
  tk_executor t' = Some (te_executor e0) → te_team e0 = tk_team t → te_task e0 = tk_id t →
  pg_ts (te_occurred_at e0) = te_occurred_at e0 → db_task_events db !! te_id e0 = None →
  (∀ i e, db_task_events db !! i = Some e → te_task e = tk_id t →
     te_occurred_at e ≤ te_occurred_at e0) →
  db_tasks db' = <[tk_id t := t']> (db_tasks db) →
  db_task_events db' = <[te_id e0 := e0]> (db_task_events db) →
  task_inv db → task_inv db'.
Proof using.
  intros Ht Eid Eteam Es1 Es2 Hok Hhist Hfresh Hrank Hkeep Hex Hteam Htask Hpg Hnew Hle Et Ee Hi.
  assert (Hold : ∀ i e, db_task_events db !! i = Some e → te_task e = tk_id t →
            te_type e ∈ history (tk_state t) ∧ tk_executor t = Some (te_executor e) ∧
            te_team e = tk_team t).
  { intros i e He E. apply (ti_events _ Hi) in He as (_ & _ & t0 & Ht0 & Q). rewrite E, Ht in Ht0.
    simplify_eq. tauto. }
  constructor; unfold tasks_keyed; rewrite ?Et, ?Ee.
  - apply map_Forall_insert_2; [done|apply Hi].
  - intros k a [[_ <-]|[_ Hk]]%lookup_insert_Some; [done|]. by eapply ti_ok.
  - intros i e He. apply lookup_insert_Some in He as [[<- <-]|[_ He]].
    + split_and!; [done..|]. exists t'. rewrite Htask, lookup_insert_eq, Hhist.
      split_and!; [done|congruence|done|]. apply elem_of_app. right. by left.
    + pose proof He as He'. apply (ti_events _ Hi) in He' as (? & ? & t0 & Ht0 & ? & ? & ?).
      split_and!; [done..|]. destruct (decide (te_task e = tk_id t)) as [E|E].
      * destruct (Hold _ _ He E) as (Hin & Hx & ?). exists t'.
        rewrite E, lookup_insert_eq, Hhist, Eteam. split_and!; [done|done| |apply elem_of_app; by left].
        rewrite Hkeep; [done|]. intros Hn. rewrite Hn in Hin. by apply not_elem_of_nil in Hin.
      * exists t0. by rewrite lookup_insert_ne.
  - intros k a type [[<- <-]|[Hne Hk]]%lookup_insert_Some Hin.
    + rewrite Hhist in Hin. apply elem_of_app in Hin as [Hin| ->%list_elem_of_singleton].
      * destruct (ti_history _ Hi _ _ _ Ht Hin) as (i & e & He & E1 & E2). exists i, e.
        rewrite lookup_insert_ne by congruence. done.
      * exists (te_id e0), e0. by rewrite lookup_insert_eq.
    + destruct (ti_history _ Hi _ _ _ Hk Hin) as (i & e & He & E1 & E2). exists i, e.
      rewrite lookup_insert_ne by congruence. done.
  - intros i i' e e' He He' E1 E2.
    apply lookup_insert_Some in He as [[<- <-]|[_ He]];
      apply lookup_insert_Some in He' as [[<- <-]|[_ He']]; [done| | |by eapply ti_once].
    + destruct Hfresh. rewrite E2. apply (Hold _ _ He'). congruence.
    + destruct Hfresh. rewrite <- E2. apply (Hold _ _ He). congruence.
  - intros i i' e e' He He' E1 Hr.
    apply lookup_insert_Some in He as [[<- <-]|[_ He]];
      apply lookup_insert_Some in He' as [[<- <-]|[_ He']]; [done| | |by eapply ti_order].
    + assert (type_rank (te_type e') < type_rank (te_type e0))%nat; [|lia].
      apply Hrank, (Hold _ _ He'). congruence.
    + eapply Hle; [done|congruence].
  - intros k k' a b Ha Hb F1 F2 F3.
    apply lookup_insert_Some in Ha as [[<- <-]|[_ Ha]];
      apply lookup_insert_Some in Hb as [[<- <-]|[_ Hb]]; [done| | |by eapply ti_source].
    + apply (ti_source _ Hi _ _ _ _ Ht Hb); congruence.
    + apply (ti_source _ Hi _ _ _ _ Ha Ht); congruence.
Qed.

(** The strict ordering check bounds every stored event of the task. *)
Lemma order_check_bounds occurred event type state task db i e :
  order_check occurred event type state (latest_event task db) = Ok () →
  db_task_events db !! i = Some e → te_task e = task → te_occurred_at e ≤ occurred.
Proof using.
  unfold latest_event. intros Ho He Ht.
  assert (e ∈ filter (λ e, te_task e = task) (rows (db_task_events db))) as Hin.
  { apply list_elem_of_filter. split; [done|]. apply elem_of_rows. eauto. }
  destruct (head (order_by event_ge _)) as [l|] eqn:Eh.
  - apply order_by_head_least in Eh as [_ Hle]; [|apply _..].
    specialize (Hle _ Hin). unfold event_ge, event_le, row_le, key_le in Hle.
    unfold order_check in Ho. repeat (destr_in Ho; try done);
      repeat match goal with
      | H : (_ <? _) = true |- _ => apply Z.ltb_lt in H
      | H : (_ =? _) = true |- _ => apply Z.eqb_eq in H
      end; lia.
  - destruct (order_by _ _) eqn:Eo; [|done]. apply order_by_nil_iff in Eo. rewrite Eo in Hin.
    by apply not_elem_of_nil in Hin.
Qed.

Lemma lifecycle_history state type state' :
  lifecycle state type state' →
  history state' = history state ++ [type] ∧ type ∉ history state ∧
  (∀ ty, ty ∈ history state → (type_rank ty < type_rank type)%nat) ∧ history state ≠ [].
Proof using.
  assert (∀ l n, bool_decide (Forall (λ ty, (type_rank ty < n)%nat) l) = true →
            ∀ ty, ty ∈ l → (type_rank ty < n)%nat) as Hall.
  { intros l n Hl%bool_decide_eq_true ty Hin. by apply (proj1 (Forall_forall _ _) Hl). }
  intros []; (split; [done|]); (split; [by apply (bool_decide_unpack _)|]); (split; [by apply Hall|done]).
Qed.

Lemma inv_step db db' : task_step db db' → task_inv db → task_inv db'.
Proof using.
  intros [Et Ee|t Hnew Hok Hp Hsrc Et Ee
         |t command executor at_ image source payload Ht Hp Hok Hnew Et Ee
         |t req executor occurred payload state' Hid Ht Hex Hl Hok Ho Hnew Et Ee] Hi.
  - by eapply inv_other.
  - by eapply inv_ingest.
  - eapply (inv_append db db' t (claim_row command executor (pg_ts at_) image source t)
              (with_payload payload (created_event (tk_id t) (tk_team t) executor (pg_ts at_))));
      try done; rewrite ?Hp; try done.
    + by intros ?%not_elem_of_nil.
    + by intros ? ?%not_elem_of_nil.
    + apply pg_ts_idem.
    + intros i e He E. apply (ti_events _ Hi) in He as (_ & _ & t0 & Ht0 & _ & _ & Hin).
      assert (t0 = t) as -> by congruence. rewrite Hp in Hin. by apply not_elem_of_nil in Hin.
  - destruct (lifecycle_history _ _ _ Hl) as (Hh & Hf & Hr & _).
    eapply (inv_append db db' t (set_state state' t)
              (event_row req (tk_team t) executor occurred payload)); try done.
    + apply pg_ts_idem.
    + intros i e He E. destruct (ti_events _ Hi _ _ He) as (_ & <- & _). apply pg_ts_mono.
      by eapply order_check_bounds.
Qed.

(** Every reachable database satisfies the invariant. *)
Lemma reachable_inv db : reachable db → task_inv db.
Proof using.
  induction 1 as [|db db' _ IH [o env]]; [apply empty_inv|].
  eapply inv_step; [|done]. apply perform_task_step, IH.
Qed.
End registry.

(** ** Properties *)

Section registry_properties.
Context `{Collation, PgTime, JsonCodec, JsonCompact, TimeCodec, TokenCodec, ImageCodec, Aead}.
Context (cfg : StoreConfig).

(** C34. Atomicity: an operation that reports an error, at whatever statement it failed, leaves the
    registry as it was; unless only the acknowledgement of its commit was lost, and then it leaves
    exactly what the same operation leaves when that acknowledgement arrives. *)
Theorem perform_atomic o env db e db' :
  reads_after_commit o = false → perform cfg o env db = (Some e, db') →
  db' = db ∨ ∃ env', unacknowledged env env' ∧ perform cfg o env' db = (None, db').
Proof using. apply perform_error. Qed.

(** C3. In every reachable registry the log of a task is the projection of its state: its
    history lists exactly the events of the lifecycle up to that state, each once. *)
Theorem reachable_log db k t :
  reachable cfg db → db_tasks db !! k = Some t →
  map te_type (task_history (tk_team t) k db) ≡ₚ history (tk_state t).
Proof using.
  intros Hi%reachable_inv Ht.
  assert (Hrow : ∀ e, e ∈ task_history (tk_team t) k db ↔
            ∃ i, db_task_events db !! i = Some e ∧ te_task e = k).
  { intros e. unfold task_history. rewrite elem_of_order_by, list_elem_of_filter, elem_of_rows.
    split; [naive_solver|]. intros (i & He & Hk). split; [|eauto]. split; [|done].
    apply (ti_events _ Hi) in He as (_ & _ & t' & Ht' & -> & _). congruence. }
  apply NoDup_Permutation.
  - unfold task_history. rewrite order_by_perm. apply NoDup_rows_fmap.
    intros i i' e e' He He' (_ & E) (_ & E'). apply (ti_once _ Hi _ _ _ _ He He'). congruence.
  - unfold history. repeat case_bool_decide; by apply (bool_decide_unpack _).
  - intros type. rewrite list_elem_of_fmap. split.
    + intros (e & -> & (i & He & Hk)%Hrow).
      apply (ti_events _ Hi) in He as (_ & _ & t' & Ht' & _ & _ & Hin). congruence.
    + intros Hin. destruct (ti_history _ Hi _ _ _ Ht Hin) as (i & e & He & Hk & <-).
      exists e. split; [done|]. apply Hrow. eauto.
Qed.

(** In every reachable registry a task is unassigned exactly while it is pending; once
    claimed it carries the command, the Executor, the image and the claim time, and all its
    events are that Executor's. *)
Theorem reachable_assignment db k t :
  reachable cfg db → db_tasks db !! k = Some t →
  tk_id t = k ∧ tk_state t ∈ TaskStates ∧
  (tk_state t = StatePending → claim_fields_null t = true ∧
     ∀ i e, db_task_events db !! i = Some e → te_task e ≠ k) ∧
  (tk_state t ≠ StatePending → claim_fields_set t = true ∧
     ∀ i e, db_task_events db !! i = Some e → te_task e = k → tk_executor t = Some (te_executor e)).
Proof using.
  intros Hi%reachable_inv Ht. pose proof (ti_ok _ Hi _ _ Ht) as Hok. unfold task_ok in Hok.
  apply andb_true_iff in Hok as [[[_ Hs]%andb_true_iff _]%andb_true_iff Hc].
  split_and!; [by eapply ti_keyed|by apply bool_decide_eq_true in Hs| |].
  - intros E. rewrite bool_decide_eq_true_2 in Hc by done. split; [done|].
    intros i e He Hk. apply (ti_events _ Hi) in He as (_ & _ & t' & Ht' & _ & _ & Hin).
    assert (t' = t) as -> by congruence. rewrite E in Hin. by apply not_elem_of_nil in Hin.
  - intros E. rewrite bool_decide_eq_false_2 in Hc by done. split; [done|].
    intros i e He Hk. apply (ti_events _ Hi) in He as (_ & _ & t' & Ht' & _ & Hx & _). congruence.
Qed.

(** In every reachable registry the events of a task are stored in lifecycle order: no event
    carries an instant before the one of an earlier stage. *)
Theorem reachable_order db i i' e e' :
  reachable cfg db → db_task_events db !! i = Some e → db_task_events db !! i' = Some e' →
  te_task e = te_task e' → (type_rank (te_type e) ≤ type_rank (te_type e'))%nat →
  te_occurred_at e ≤ te_occurred_at e'.
Proof using. intros Hi%reachable_inv. by eapply ti_order. Qed.
End registry_properties.

(** ** The properties on a registry built by its operations *)

Section witnesses.
#[local] Existing Instances pg_micros collation_C time_bits json_plain compact_plain token_fields
  image_plain toy_aead.

Definition fx_env_id (first : string) (clock : Z) : TxEnv :=
  mkTxEnv clock clock (λ n, match n with O => first | S _ => first +:+ "-audit" end) (λ _, false)
    (Some "0123456789ab") false (λ _, None).

(** A team with its source system and task type, a registered Executor, and a task that is
    ingested, claimed and reported running. *)
Definition fx_ops : list (op * TxEnv) :=
  [ (OpCreateTeam (mkCreateTeam "Team" "repo@sha") fx_admin, fx_env_id "team" 1000);
    (OpCreateSourceSystem (mkCreateSource "team" "listener" None), fx_env_id "src" 1000);
    (OpCreateTaskType (mkCreateType "team" "tag" (Some (mkImage "type" "sha"))),
     fx_env_id "type" 1000);
    (OpRegisterExecutor "ex1" fx_registration (fx_identity "ex1"), fx_env_id "r" 2000);
    (OpIngestTask (mkIngestion "team" "src" "item" "type" "{}" None None) fx_listener,
     fx_env_id "t1" 3000);
    (OpClaimTask (mkClaimRequest "t1" "cmd") "ex1" (fx_identity "ex1"), fx_env_id "c" 5000);
    (OpAppendTaskEvent (mkTaskEventRequest "e1" "team" "t1" TypeRunning (format_bits 6000) "")
       (fx_identity "ex1"), fx_env_id "a" 6000) ].

Definition performs (db : DB) (l : list (op * TxEnv)) : DB :=
  fold_left (λ d oe, (perform fx_config oe.1 oe.2 d).2) l db.

Lemma performs_reachable l db : reachable fx_config db → reachable fx_config (performs db l).
Proof using.
  revert db. induction l as [|[o env] l IH]; [done|]. intros db Hr. apply IH.
  by eapply reach_step, step_perform.
Qed.

Definition fx_reached : DB := performs empty_db fx_ops.

Lemma fx_reachable : reachable fx_config fx_reached.
Proof using. apply performs_reachable. constructor. Qed.

Definition fx_claim_op : op := OpClaimTask (mkClaimRequest "t1" "cmd") "ex1" (fx_identity "ex1").

(** A claim whose [n]-th statement is not answered. *)
Definition fx_failing (n : nat) (lost : bool) : TxEnv :=
  mkTxEnv 5000 5000 (λ _, "id") (λ k, bool_decide (k = n)) None lost (λ _, None).
Definition fx_claim_failing (n : nat) (lost : bool) : option StoreError * DB :=
  perform fx_config fx_claim_op (fx_failing n lost) fx_db.

(** When its fifth statement fails, nothing has happened; when the acknowledgement of its commit is
    lost, the task is claimed, as it is when the acknowledgement arrives. *)
Lemma perform_atomic_witness :
  (is_Some (fx_claim_failing 5 false).1 ∧ (fx_claim_failing 5 false).2 = fx_db) ∧
  (is_Some (fx_claim_failing 14 true).1 ∧
   tk_state <$> db_tasks (fx_claim_failing 14 true).2 !! "t1" = Some StateCreated ∧
   ∃ env', perform fx_config fx_claim_op env' fx_db = (None, (fx_claim_failing 14 true).2)).
Proof.
  split.
  - destruct (fx_claim_failing 5 false) as [[e|] db'] eqn:E; [|vm_compute in E; discriminate E].
    split; [eexists; reflexivity|].
    destruct (perform_atomic fx_config fx_claim_op _ fx_db e db' eq_refl E) as [Hd|(env' & [Hl _] & _)];
      [exact Hd|discriminate Hl].
  - assert (Hst : tk_state <$> db_tasks (fx_claim_failing 14 true).2 !! "t1" = Some StateCreated)
      by (vm_compute; reflexivity).
    destruct (fx_claim_failing 14 true) as [[e|] db'] eqn:E; [|vm_compute in E; discriminate E].
    split; [eexists; reflexivity|]. split; [exact Hst|].
    destruct (perform_atomic fx_config fx_claim_op _ fx_db e db' eq_refl E) as [Hd|(env' & _ & Hr)].
    + simpl in Hst. rewrite Hd in Hst. vm_compute in Hst. discriminate Hst.
    + exists env'. exact Hr.
Defined.

Lemma reachable_log_witness :
  map te_type (task_history "team" "t1" fx_reached) ≡ₚ [TypeCreated; TypeRunning].
Proof.
  destruct (db_tasks fx_reached !! "t1") as [t|] eqn:E; [|vm_compute in E; discriminate E].
  pose proof (reachable_log fx_config fx_reached "t1" t fx_reachable E) as Hp.
  vm_compute in E. injection E as <-. exact Hp.
Defined.

Lemma reachable_assignment_witness : ∃ t,
  db_tasks fx_reached !! "t1" = Some t ∧ claim_fields_set t = true.
Proof.
  destruct (db_tasks fx_reached !! "t1") as [t|] eqn:E; [|vm_compute in E; discriminate E].
  exists t. split; [reflexivity|].
  apply (reachable_assignment fx_config fx_reached "t1" t fx_reachable E).
  vm_compute in E. injection E as <-. discriminate.
Defined.

Lemma reachable_order_witness : ∃ e e',
  db_task_events fx_reached !! "evt-t1" = Some e ∧ db_task_events fx_reached !! "e1" = Some e' ∧
  te_occurred_at e ≤ te_occurred_at e'.
Proof.
  destruct (db_task_events fx_reached !! "evt-t1") as [e|] eqn:E; [|vm_compute in E; discriminate E].
  destruct (db_task_events fx_reached !! "e1") as [e'|] eqn:E'; [|vm_compute in E'; discriminate E'].
  exists e, e'. split; [reflexivity|]. split; [reflexivity|].
  apply (reachable_order fx_config fx_reached _ _ _ _ fx_reachable E E');
    vm_compute in E, E'; injection E as <-; injection E' as <-; vm_compute; [reflexivity|].
  repeat constructor.
Defined.
End witnesses.
