(* ===== verification/Queue.v ===== *)
(** * The registry implements a task queue

    The abstract specification of the State Registry: a queue of jobs that Executors, each
    serving one tag and perhaps one team, take in order of arrival and then carry through the
    stages of the lifecycle. Every operation of the stores is one move of this queue that the
    operation is allowed, or none. *)

From stdpp Require Import base gmap strings list sorting.
From S2P Require Import Prelude Platform Tx Schema Store LaunchTables ScopeToken Fixtures.
From S2P Require Import LaunchParams Secrets OpenEnv Claim Listener Admin Events Controls TaskLogs.
From S2P Require Import Lifecycle.
#[local] Open Scope Z_scope.

(** ** The specification *)

Inductive stage : Type := Created | Running | Finished | Failed.
Inductive phase : Type := Waiting | Held (executor command : string) (s : stage).

Record job : Type := mkJob {
  jb_team : string; jb_source : string * string; jb_tag : string; jb_arrival : Z;
  jb_phase : phase }.

Record worker : Type := mkWorker { wk_scope : string; wk_team : option string; wk_tag : string }.

Record queue : Type := mkQueue { q_jobs : gmap string job; q_workers : gmap string worker }.

Definition in_phase (p : phase) (j : job) : job :=
  mkJob (jb_team j) (jb_source j) (jb_tag j) (jb_arrival j) p.

(** The jobs a worker may take. *)
Definition serves (w : worker) (j : job) : Prop :=
  wk_tag w = jb_tag j ∧ (wk_scope w = ScopeTeam → jb_team j = default "" (wk_team w)).

(** The stage a report leads to. *)
Inductive advance : stage → string → stage → Prop :=
| adv_running : advance Created TypeRunning Running
| adv_finished : advance Running TypeFinished Finished
| adv_failed : advance Running TypeFailed Failed.

Section queue_spec.
Context `{Collation}.

(** The moves an operation may make. *)
Inductive queue_move : op → queue → queue → Prop :=
| move_none o q : queue_move o q q
| move_register id req i q :
    (∀ w, q_workers q !! id = Some w → wk_scope w = rr_scope req ∧ wk_team w = rr_team req) →
    queue_move (OpRegisterExecutor id req i) q
      (mkQueue (q_jobs q) (<[id := mkWorker (rr_scope req) (rr_team req) (rr_tag req)]> (q_workers q)))
| move_offer req i q k j :
    q_jobs q !! k = None → jb_phase j = Waiting →
    jb_team j = li_team i → jb_source j = (li_source_system i, ir_source_id req) →
    (∀ k' j', q_jobs q !! k' = Some j' → jb_team j' = jb_team j → jb_source j' ≠ jb_source j) →
    queue_move (OpIngestTask req i) q (mkQueue (<[k := j]> (q_jobs q)) (q_workers q))
| move_take req x i q j w :
    q_jobs q !! cr_task req = Some j → jb_phase j = Waiting →
    q_workers q !! x = Some w → serves w j →
    (∀ k j', q_jobs q !! k = Some j' → jb_phase j' = Waiting → serves w j' →
       key_le (jb_arrival j) (cr_task req) (jb_arrival j') k) →
    queue_move (OpClaimTask req x i) q
      (mkQueue (<[cr_task req := in_phase (Held x (cr_command req) Created) j]> (q_jobs q))
         (q_workers q))
| move_report req i q j command s s' :
    q_jobs q !! tr_task req = Some j → jb_phase j = Held (xi_executor i) command s →
    advance s (tr_type req) s' → tr_team req = jb_team j →
    queue_move (OpAppendTaskEvent req i) q
      (mkQueue (<[tr_task req := in_phase (Held (xi_executor i) command s') j]> (q_jobs q))
         (q_workers q)).
End queue_spec.

(** ** The abstraction *)

Definition stage_of (state : string) : stage :=
  if bool_decide (state = StateRunning) then Running
  else if bool_decide (state = StateFinished) then Finished
  else if bool_decide (state = StateFailed) then Failed else Created.

Definition phase_of (t : TaskRow) : phase :=
  if bool_decide (tk_state t = StatePending) then Waiting
  else Held (default "" (tk_executor t)) (default "" (tk_owner_command t)) (stage_of (tk_state t)).

Definition job_of (t : TaskRow) : job :=
  mkJob (tk_team t) (tk_source_system t, tk_source_id t) (tk_tag t) (tk_ingested_at t) (phase_of t).

Definition worker_of (x : ExecutorRow) : worker := mkWorker (ex_scope x) (ex_team x) (ex_tag x).

Definition queue_of (d : DB) : queue := mkQueue (job_of <$> db_tasks d) (worker_of <$> db_executors d).

Lemma queue_of_same d d' :
  db_tasks d' = db_tasks d → db_executors d' = db_executors d → queue_of d' = queue_of d.
Proof. unfold queue_of. by intros -> ->. Qed.

Lemma queue_of_job d k t :
  mkQueue (<[k := job_of t]> (q_jobs (queue_of d))) (q_workers (queue_of d))
  = mkQueue (job_of <$> <[k := t]> (db_tasks d)) (worker_of <$> db_executors d).
Proof. by rewrite fmap_insert. Qed.

Lemma queue_of_lookup d k j :
  q_jobs (queue_of d) !! k = Some j → ∃ t, db_tasks d !! k = Some t ∧ j = job_of t.
Proof. simpl. rewrite lookup_fmap, fmap_Some. naive_solver. Qed.

Lemma phase_waiting t : phase_of t = Waiting ↔ tk_state t = StatePending.
Proof. unfold phase_of. case_bool_decide; naive_solver. Qed.

Lemma serves_eligible x t :
  phase_of t = Waiting → serves (worker_of x) (job_of t) →
  eligible (ex_tag x) (ex_scope x) (ex_team x) t = true.
Proof.
  intros Hp%phase_waiting [Htag Hteam]. unfold eligible. simpl in *.
  rewrite !bool_decide_eq_true_2 by done. simpl. case_bool_decide; [|done].
  by apply bool_decide_eq_true_2, Hteam.
Qed.

Lemma eligible_serves x t :
  eligible (ex_tag x) (ex_scope x) (ex_team x) t = true → serves (worker_of x) (job_of t).
Proof.
  unfold eligible. intros [[_ Ht]%andb_true_iff Hs]%andb_true_iff. to_prop.
  split; [done|]. intros E. simpl in E. rewrite bool_decide_eq_true_2 in Hs by done. by to_prop.
Qed.

Lemma phase_of_set_state state t type state' executor :
  lifecycle state type state' → tk_state t = state → tk_executor t = Some executor →
  phase_of t = Held executor (default "" (tk_owner_command t)) (stage_of state) ∧
  phase_of (set_state state' t) = Held executor (default "" (tk_owner_command t)) (stage_of state') ∧
  advance (stage_of state) type (stage_of state').
Proof. intros [] Hs Hx; unfold phase_of; simpl; rewrite Hs, Hx; repeat constructor. Qed.

(** ** The operations are moves *)

Section refinement.
Context `{Collation, PgTime, JsonCodec, JsonCompact, TimeCodec, TokenCodec, ImageCodec, Aead}.
Context (cfg : StoreConfig).

Lemma ingest_moves req ident env db r db' :
  run_tx (IngestTask req ident) env db = (Ok r, db') →
  queue_move (OpIngestTask req ident) (queue_of db) (queue_of db').
Proof using.
  intros (_ & _ & _ & _ & tag & _ & [(t & _ & _ & ->)|(id & p & Hn & Hnew & _ & _ & _ & ->)])%IngestTask_ok;
    [constructor|].
  set (t := pending_row _ _ _ _ _ _). unfold queue_of at 2. simpl. rewrite <- queue_of_job.
  apply move_offer; [simpl; by rewrite lookup_fmap, Hnew|done..|].
  intros k' j' (t' & Ht' & ->)%queue_of_lookup Hteam Hsrc. simpl in *. simplify_eq.
  apply (task_by_source_none _ _ _ _ _ _ Hn) in Ht'. apply bool_decide_eq_false in Ht'.
  by apply Ht'.
Qed.

Lemma claim_moves req x ident env db r db' :
  tasks_keyed db → run_tx (ClaimTask cfg req x ident) env db = (Ok r, db') →
  queue_move (OpClaimTask req x ident) (queue_of db) (queue_of db').
Proof using.
  intros Hkey (e & t & He & Ht & _ & _ & _ & Hv & Hc)%ClaimTask_ok.
  destruct Hc as [(_ & _ & _ & -> & _)|(Hp & base & i & src & p & Hs & _)]; [constructor|].
  assert (tk_id t = cr_task req) as Hid by by apply Hkey in Ht.
  destruct (same_but_snapshots_tables _ _ (cl_frame _ _ _ _ _ _ _ _ _ _ _ Hs)) as (Etk & _ & Eex & _).
  pose proof (claim_step_least _ _ _ _ _ _ _ _ _ _ _ Hid Hs) as Hleast.
  rewrite (cl_result _ _ _ _ _ _ _ _ _ _ _ Hs). unfold claim_effect, queue_of at 2. simpl.
  rewrite Etk, Eex, <- queue_of_job.
  apply (move_take _ _ _ _ (job_of t) (worker_of e)); simpl.
  - by rewrite lookup_fmap, Ht.
  - by apply phase_waiting.
  - by rewrite lookup_fmap, He.
  - apply eligible_serves. by apply claim_visible_eligible.
  - intros k j' (t' & Ht' & ->)%queue_of_lookup Hp' Hs'.
    assert (tk_id t' = k) as <- by by apply Hkey in Ht'.
    rewrite <- Hid. apply (Hleast _ _ Ht'). by apply serves_eligible.
Qed.

Lemma report_moves req ident env db r db' :
  run_tx (AppendTaskEvent req ident) env db = (Ok r, db') →
  queue_move (OpAppendTaskEvent req ident) (queue_of db) (queue_of db').
Proof using.
  intros (occ & pl & x & t & _ & _ & Hm & _ & _ & _ & Ht & Hex & Hteam & Hc)%AppendTaskEvent_ok.
  destruct Hc as [(e & _ & _ & _ & _ & _ & -> & _)|(_ & st & au & Hs)]; [constructor|].
  pose proof (es_transition _ _ _ _ _ _ _ _ _ Hs) as Hl%transition_lifecycle; [|done].
  destruct (phase_of_set_state _ t _ _ _ Hl eq_refl Hex) as (Hp & Hp' & Ha).
  rewrite (es_result _ _ _ _ _ _ _ _ _ Hs). unfold queue_of at 2. simpl. rewrite <- queue_of_job.
  assert (job_of (set_state (projected (tr_type req)) t) =
          in_phase (phase_of (set_state (projected (tr_type req)) t)) (job_of t)) as -> by done.
  rewrite Hp'. by eapply move_report; [simpl; rewrite lookup_fmap, Ht|..].
Qed.

Lemma register_moves id req ident env db r db' :
  run_tx (RegisterExecutor id req ident) env db = (Ok r, db') →
  queue_move (OpRegisterExecutor id req ident) (queue_of db) (queue_of db').
Proof using.
  intros (-> & _ & _ & _ & _ & Hrow)%RegisterExecutor_ok.
  assert (worker_of r = mkWorker (rr_scope req) (rr_team req) (rr_tag req)) as Hw.
  { destruct (db_executors db !! id) as [x|].
    - by destruct Hrow as (_ & _ & md & ->).
    - by destruct Hrow as (_ & md & ->). }
  unfold queue_of at 2. simpl. rewrite fmap_insert, Hw. apply move_register.
  intros w. simpl. rewrite lookup_fmap, fmap_Some. intros (x & Hx & ->).
  rewrite Hx in Hrow. by destruct Hrow as (? & ? & _).
Qed.

Lemma mirrored_worker type payload now x x' :
  mirrored type payload now x = Some x' → worker_of x' = worker_of x.
Proof using. unfold mirrored. intros Hm. repeat (destr_in Hm); simplify_option_eq; done. Qed.

Lemma observe_keeps req ident env db r db' :
  run_tx (AppendExecutorEvent req ident) env db = (Ok r, db') → queue_of db' = queue_of db.
Proof using.
  intros (x & Hx & _ & [(e & _ & ->)|(_ & o & p & s & x' & au & _ & _ & _ & Hm & _ & _ & ->)])
    %AppendExecutorEvent_ok; [done|].
  unfold queue_of. simpl. f_equal. rewrite fmap_insert, (mirrored_worker _ _ _ _ _ Hm).
  apply insert_id. by rewrite lookup_fmap, Hx.
Qed.

Lemma perform_moves o env db :
  tasks_keyed db → queue_move o (queue_of db) (queue_of (perform cfg o env db).2).
Proof using.
  intros Hkey. destruct (is_config o) eqn:Hcfg.
  { destruct (perform_config cfg o env db Hcfg) as (Hf & _).
    rewrite (queue_of_same _ _ (cf_tasks _ _ Hf) (cf_executors _ _ Hf)). constructor. }
  destruct (perform_cases cfg o env db) as [->|[env' E]]; [by destruct o|constructor|].
  revert E. generalize (perform cfg o env db).2. intros db' E.
  assert (queue_of db' = queue_of db → queue_move o (queue_of db) (queue_of db')) as Hsame
    by (intros ->; constructor).
  destruct o; try discriminate Hcfg; simpl in E; apply outcome_ok in E as [a E].
  - apply Hsame. apply CreateTeam_ok in E as (_ & _ & _ & _ & id & au & _ & _ & ->). done.
  - apply Hsame. apply UpdateTeam_ok in E as (t & id & _ & _ & _ & _ & ->). done.
  - apply Hsame. destruct a as [t []]; apply ArchiveTeam_ok in E as (t0 & _ & Hc);
      [destruct Hc as (_ & _ & id & _ & ->)|destruct Hc as (_ & _ & ->)]; done.
  - apply Hsame. by apply CreateSourceSystem_ok in E as (_ & _ & _ & _ & ->).
  - apply Hsame. by apply CreateTaskType_ok in E as (_ & _ & _ & ->).
  - by eapply ingest_moves.
  - by eapply register_moves.
  - by eapply claim_moves.
  - by eapply report_moves.
  - apply Hsame. by eapply observe_keeps.
  - apply Hsame.
    by apply CreateTaskControl_ok in E as (_ & [(c & _ & _ & ->)|(id & aid & at_ & ev & au & -> & _)]).
  - apply Hsame. apply AppendTaskControlEvent_ok in E as (c & t & _ & _ & _ & _ & _ & _ & _ & Hc).
    destruct Hc as [(e & _ & _ & _ & ->)|(st & au & Hs)]; [done|].
    by rewrite (cs_result _ _ _ _ _ _ _ _ _ Hs).
  - apply Hsame.
    by apply AppendTaskLog_ok in E as (t & _ & _ & _ & _ & [(_ & _ & _ & _ & _ & ->)|(_ & _ & ->)]).
Qed.
End refinement.

(** ** What the moves preserve *)

Definition stage_rank (s : stage) : nat :=
  match s with Created => 0 | Running => 1 | Finished | Failed => 2 end.

(** Stages only advance, and the last two are final. *)
Definition stage_le (s s' : stage) : Prop := s = s' ∨ (stage_rank s < stage_rank s')%nat.

#[export] Instance stage_le_refl : Reflexive stage_le.
Proof. by left. Qed.

#[export] Instance stage_le_trans : Transitive stage_le.
Proof. intros s1 s2 s3 [-> | ?] [-> | ?]; [by left|by right|by right|right; lia]. Qed.

Lemma advance_le s type s' : advance s type s' → stage_le s s'.
Proof. intros []; right; simpl; lia. Qed.

(** The terminal states are final. *)
Lemma stage_final state state' :
  state = StateFinished ∨ state = StateFailed → state' ∈ TaskStates → state' ≠ StatePending →
  stage_le (stage_of state) (stage_of state') → state' = state.
Proof.
  intros Hfin Hm Hp. unfold TaskStates in Hm.
  repeat (apply elem_of_cons in Hm as [Hm|Hm]); [..|by apply not_elem_of_nil in Hm]; subst state';
    destruct Hfin as [-> | ->]; try done; intros [Hle|Hle]; vm_compute in Hle; try discriminate Hle; lia.
Qed.

(** A held job keeps its holder and command; its identity never changes. *)
Definition job_after (j j' : job) : Prop :=
  jb_team j' = jb_team j ∧ jb_source j' = jb_source j ∧ jb_tag j' = jb_tag j ∧
  jb_arrival j' = jb_arrival j ∧
  match jb_phase j with
  | Waiting => True
  | Held x c s => ∃ s', jb_phase j' = Held x c s' ∧ stage_le s s'
  end.

#[export] Instance job_after_refl : Reflexive job_after.
Proof. intros j. split_and!; [done..|]. by destruct (jb_phase j); eauto using stage_le_refl. Qed.

#[export] Instance job_after_trans : Transitive job_after.
Proof.
  intros j1 j2 j3 (E1 & E2 & E3 & E4 & H12) (F1 & F2 & F3 & F4 & H23).
  split_and!; [congruence..|]. destruct (jb_phase j1) as [|x c s]; [done|].
  destruct H12 as (s' & Hp & Hle). rewrite Hp in H23. destruct H23 as (s'' & -> & ?).
  exists s''. split; [done|]. by etrans.
Qed.

Lemma queue_move_job `{Collation} o q q' k j :
  queue_move o q q' → q_jobs q !! k = Some j → ∃ j', q_jobs q' !! k = Some j' ∧ job_after j j'.
Proof.
  intros Hm Hj. destruct Hm as [|? ? ? ? Hw|? ? ? k' j0 Hn|? ? ? ? j0 w Hj0 Hp|? ? ? j0 c s s' Hj0 Hp Ha];
    [by exists j|by exists j|..]; simpl.
  - exists j. by rewrite lookup_insert_ne by congruence.
  - destruct (decide (cr_task req = k)) as [<-|Hne].
    + rewrite lookup_insert_eq. simplify_eq. eexists. split; [done|]. split_and!; [done..|]. by rewrite Hp.
    + exists j. by rewrite lookup_insert_ne.
  - destruct (decide (tr_task req = k)) as [<-|Hne].
    + rewrite lookup_insert_eq. simplify_eq. eexists. split; [done|]. split_and!; [done..|]. rewrite Hp.
      eexists. split; [done|]. by eapply advance_le.
    + exists j. by rewrite lookup_insert_ne.
Qed.

Section lifetimes.
Context `{Collation, PgTime, JsonCodec, JsonCompact, TimeCodec, TokenCodec, ImageCodec, Aead}.
Context (cfg : StoreConfig).

Lemma reachable_rtc db db' : reachable cfg db → rtc (step cfg) db db' → reachable cfg db'.
Proof using. intros Hr. induction 1; [done|]. eauto using reach_step. Qed.

Lemma job_over_time db db' k t :
  reachable cfg db → rtc (step cfg) db db' → db_tasks db !! k = Some t →
  ∃ t', db_tasks db' !! k = Some t' ∧ job_after (job_of t) (job_of t').
Proof using.
  intros Hr Hs. revert t Hr. induction Hs as [db|db db1 db' [o env] Hs IH]; intros t Hr Ht; [by exists t|].
  pose proof (perform_moves cfg o env db (ti_keyed _ (reachable_inv _ _ Hr))) as Hm.
  destruct (queue_move_job _ _ _ k (job_of t) Hm) as (j & Hj & Hle); [simpl; by rewrite lookup_fmap, Ht|].
  apply queue_of_lookup in Hj as (t1 & Ht1 & ->).
  destruct (IH t1) as (t' & Ht' & Hle'); [by eapply reach_step, step_perform|done|].
  exists t'. split; [done|]. by etrans.
Qed.

(** Once claimed, the executor and the command of a task are fixed. *)
Lemma holder_over_time db db' k t x c :
  reachable cfg db → rtc (step cfg) db db' → db_tasks db !! k = Some t →
  tk_state t ≠ StatePending → tk_executor t = Some x → tk_owner_command t = Some c →
  ∃ t', db_tasks db' !! k = Some t' ∧ tk_state t' ≠ StatePending ∧ tk_executor t' = Some x ∧
        tk_owner_command t' = Some c ∧ stage_le (stage_of (tk_state t)) (stage_of (tk_state t')).
Proof using.
  intros Hr Hs Ht Hp Hx Hc. destruct (job_over_time _ _ _ _ Hr Hs Ht) as (t' & Ht' & Hj).
  destruct Hj as (_ & _ & _ & _ & Hph). simpl in Hph. unfold phase_of in Hph at 1.
  rewrite bool_decide_eq_false_2, Hx, Hc in Hph by done. destruct Hph as (s' & Hp' & Hle).
  pose proof (ti_ok _ (reachable_inv _ _ (reachable_rtc _ _ Hr Hs)) _ _ Ht') as Hok.
  unfold phase_of in Hp'. case_bool_decide as Hs'; [done|]. simplify_eq/=.
  unfold task_ok in Hok. rewrite (bool_decide_eq_false_2 (tk_state t' = _)) in Hok by done.
  apply andb_true_iff in Hok as [_ Hok]. apply bool_decide_eq_true in Hok.
  destruct Hok as ([c' Hc'] & [x' Hx'] & _). rewrite Hc', Hx' in *. by exists t'.
Qed.
End lifetimes.

(** ** Properties *)

Section queue_properties.
Context `{Collation, PgTime, JsonCodec, JsonCompact, TimeCodec, TokenCodec, ImageCodec, Aead}.
Context (cfg : StoreConfig).

(** C1. Refinement: from every reachable database every operation, successful or failed, is a
    move of the abstract task queue that this operation is allowed to make, or no move: only an
    ingestion adds a job, only a claim by a registered worker that serves the job takes it, and
    only the first one in order of arrival, and only a report of the holder advances it. *)
Theorem perform_refines o env db :
  reachable cfg db → queue_move o (queue_of db) (queue_of (perform cfg o env db).2).
Proof using. intros Hr. apply perform_moves, (ti_keyed _ (reachable_inv _ _ Hr)). Qed.

(** C2. At most one Executor ever executes a task: once a claim has succeeded, whatever
    operations follow in whatever order, only the same Executor with the same command can claim
    the task successfully, and that later claim changes nothing. *)
Theorem ClaimTask_exclusive req x ident env db db1 db2 req' x' ident' env' db3 :
  reachable cfg db →
  perform cfg (OpClaimTask req x ident) env db = (None, db1) →
  rtc (step cfg) db1 db2 →
  perform cfg (OpClaimTask req' x' ident') env' db2 = (None, db3) →
  cr_task req' = cr_task req →
  x' = x ∧ cr_command req' = cr_command req ∧ db3 = db2.
Proof using.
  intros Hr E1 Hs E2 Htask.
  assert (reachable cfg db1) as Hr1.
  { eapply reach_step; [done|]. rewrite <- (f_equal snd E1 : _ = db1). constructor. }
  apply outcome_ok in E1 as [a1 E1]. apply outcome_ok in E2 as [a2 E2].
  apply ClaimTask_claims in E1 as (t & Ht & Hp & Hc & Hx & _).
  destruct (holder_over_time _ _ _ _ _ _ _ Hr1 Hs Ht Hp Hx Hc) as (t2 & Ht2 & Hp2 & Hx2 & Hc2 & _).
  apply ClaimTask_ok in E2 as (e & t' & _ & Ht' & _ & _ & _ & _ & Hcase). rewrite Htask in Ht'.
  simplify_eq. destruct Hcase as [(_ & F1 & F2 & -> & _)|[F _]]; [|done].
  rewrite Hc2 in F1. rewrite Hx2 in F2. by simplify_eq.
Qed.

(** C29. A task is never lost and never goes back: over every later sequence of operations it
    keeps its identity, team, source, tag and queue position, its Executor and command once it
    has them, its state only advances, and the finished and failed states are final. *)
Theorem task_over_time db db' k t :
  reachable cfg db → rtc (step cfg) db db' → db_tasks db !! k = Some t →
  ∃ t', db_tasks db' !! k = Some t' ∧ tk_id t' = tk_id t ∧ tk_team t' = tk_team t ∧
    tk_source_system t' = tk_source_system t ∧ tk_source_id t' = tk_source_id t ∧
    tk_tag t' = tk_tag t ∧ tk_ingested_at t' = tk_ingested_at t ∧
    (tk_state t ≠ StatePending →
       tk_state t' ≠ StatePending ∧ tk_executor t' = tk_executor t ∧
       tk_owner_command t' = tk_owner_command t ∧
       stage_le (stage_of (tk_state t)) (stage_of (tk_state t'))) ∧
    (tk_state t = StateFinished ∨ tk_state t = StateFailed → tk_state t' = tk_state t).
Proof using.
  intros Hr Hs Ht. destruct (job_over_time _ _ _ _ _ Hr Hs Ht) as (t' & Ht' & Hj).
  destruct Hj as (E1 & E2 & E3 & E4 & _). simpl in *. injection E2 as E2 E2'. exists t'.
  pose proof (reachable_inv _ _ Hr) as Hi.
  pose proof (reachable_inv _ _ (reachable_rtc _ _ _ Hr Hs)) as Hi'.
  assert (tk_state t ≠ StatePending → tk_state t' ≠ StatePending ∧ tk_executor t' = tk_executor t ∧
    tk_owner_command t' = tk_owner_command t ∧
    stage_le (stage_of (tk_state t)) (stage_of (tk_state t'))) as Hheld.
  { intros Hp. pose proof (ti_ok _ Hi _ _ Ht) as Hok.
    unfold task_ok in Hok. rewrite (bool_decide_eq_false_2 (tk_state t = _)) in Hok by done.
    apply andb_true_iff in Hok as [_ Hok]. apply bool_decide_eq_true in Hok.
    destruct Hok as ([c Hc] & [x Hx] & _).
    destruct (holder_over_time _ _ _ _ _ _ _ Hr Hs Ht Hp Hx Hc) as (t2 & Ht2 & ? & ? & ? & ?).
    simplify_eq. split_and!; congruence. }
  split_and!; try done.
  - apply (ti_keyed _ Hi') in Ht'. apply (ti_keyed _ Hi) in Ht. simpl in *. congruence.
  - intros Hfin. destruct Hheld as (Hp' & _ & _ & Hle); [destruct Hfin as [-> | ->]; done|].
    pose proof (ti_ok _ Hi' _ _ Ht') as Hok. unfold task_ok in Hok.
    apply andb_true_iff in Hok as [[[_ Hm]%andb_true_iff _]%andb_true_iff _].
    apply bool_decide_eq_true in Hm. by apply stage_final.
Qed.
End queue_properties.

(** ** The properties on the registry built by its operations *)

Section witnesses.
#[local] Existing Instances pg_micros collation_C time_bits json_plain compact_plain token_fields
  image_plain toy_aead.

Definition fx_pending : DB := performs empty_db (take 5 fx_ops).

Lemma fx_pending_reachable : reachable fx_config fx_pending.
Proof using. apply performs_reachable. constructor. Qed.

(** The claim is the move that takes the job. *)
Lemma perform_refines_witness :
  queue_move fx_claim_op (queue_of fx_pending)
    (queue_of (perform fx_config fx_claim_op (fx_env_id "c" 5000) fx_pending).2) ∧
  jb_phase <$> q_jobs (queue_of (perform fx_config fx_claim_op (fx_env_id "c" 5000) fx_pending).2)
                 !! "t1" = Some (Held "ex1" "cmd" Created).
Proof.
  split; [exact (perform_refines fx_config fx_claim_op _ _ fx_pending_reachable)|].
  vm_compute. reflexivity.
Defined.

Lemma ClaimTask_exclusive_witness : ∃ db1 db2,
  perform fx_config fx_claim_op (fx_env_id "c" 5000) fx_pending = (None, db1) ∧
  rtc (step fx_config) db1 db2 ∧
  (perform fx_config fx_claim_op (fx_env_id "d" 9000) db2) = (None, db2).
Proof.
  destruct (perform fx_config fx_claim_op (fx_env_id "c" 5000) fx_pending) as [[e|] db1] eqn:E1;
    [vm_compute in E1; discriminate E1|].
  set (report := OpAppendTaskEvent
                   (mkTaskEventRequest "e1" "team" "t1" TypeRunning (format_bits 6000) "")
                   (fx_identity "ex1")).
  exists db1, (perform fx_config report (fx_env_id "a" 6000) db1).2.
  assert (rtc (step fx_config) db1 (perform fx_config report (fx_env_id "a" 6000) db1).2) as Hs
    by (apply rtc_once; constructor).
  split; [reflexivity|]. split; [exact Hs|].
  destruct (perform fx_config fx_claim_op (fx_env_id "d" 9000) _) as [[e|] db3] eqn:E2.
  - exfalso. vm_compute in E1. injection E1 as <-. vm_compute in E2. discriminate E2.
  - destruct (ClaimTask_exclusive fx_config _ _ _ _ _ _ _ _ _ _ _ _ fx_pending_reachable E1 Hs E2 eq_refl)
      as (_ & _ & ->). reflexivity.
Defined.

Lemma task_over_time_witness : ∃ db' t',
  rtc (step fx_config) fx_reached db' ∧ db_tasks db' !! "t1" = Some t' ∧
  tk_executor t' = Some "ex1" ∧ tk_owner_command t' = Some "cmd".
Proof.
  set (fail := OpAppendTaskEvent
                 (mkTaskEventRequest "e2" "team" "t1" TypeFailed (format_bits 8000) "")
                 (fx_identity "ex1")).
  assert (rtc (step fx_config) fx_reached (perform fx_config fail (fx_env_id "b" 8000) fx_reached).2)
    as Hs by (apply rtc_once; constructor).
  destruct (db_tasks fx_reached !! "t1") as [t|] eqn:E; [|vm_compute in E; discriminate E].
  destruct (task_over_time fx_config _ _ _ _ fx_reachable Hs E)
    as (t' & Ht' & _ & _ & _ & _ & _ & _ & Hheld & _).
  eexists _, t'. split; [exact Hs|]. split; [exact Ht'|].
  vm_compute in E. injection E as <-. destruct Hheld as (_ & -> & -> & _); [discriminate|].
  split; reflexivity.
Defined.
End witnesses.
