(* ===== verification/Durable.v ===== *)
(** * What the registry never forgets

    Events, audit entries, control reports, log chunks, frozen launch parameters, revisions of
    definitions and versions of secrets are append only: no operation removes or changes a row
    of these tables. *)

From stdpp Require Import base gmap strings list sorting.
From S2P Require Import Prelude Platform Tx Schema Store LaunchTables ScopeToken Fixtures.
From S2P Require Import LaunchParams Secrets OpenEnv Claim Listener Admin Events Controls TaskLogs.
From S2P Require Import Lifecycle.
#[local] Open Scope Z_scope.

(** ** The append-only tables *)

Record appended (d d' : DB) : Prop := mkAppended {
  ap_task_events : db_task_events d ⊆ db_task_events d';
  ap_executor_events : db_executor_events d ⊆ db_executor_events d';
  ap_audit : db_audit d ⊆ db_audit d';
  ap_control_events : db_control_events d ⊆ db_control_events d';
  ap_logs : db_logs d ⊆ db_logs d';
  ap_snapshots : db_snapshots d ⊆ db_snapshots d';
  ap_secret_refs : db_secret_refs d ⊆ db_secret_refs d';
  ap_revisions : db_env_revisions d ⊆ db_env_revisions d';
  ap_versions : db_secret_versions d ⊆ db_secret_versions d';
}.

#[export] Instance appended_refl : Reflexive appended.
Proof. by intros d. Qed.

#[export] Instance appended_trans : Transitive appended.
Proof. intros d1 d2 d3 [] []. constructor; by etrans. Qed.

Create HintDb durable.
#[export] Hint Resolve insert_subseteq : durable.

(** A step of one table: the others are the same, and the row is new. *)
Ltac durable := constructor; simpl; first [done | by apply insert_subseteq].

Section durable.
Context `{Collation, PgTime, JsonCodec, JsonCompact, TimeCodec, TokenCodec, ImageCodec, Aead}.
Context (cfg : StoreConfig).

Lemma claim_appends req x ident env db r db' :
  run_tx (ClaimTask cfg req x ident) env db = (Ok r, db') → appended db db'.
Proof using.
  intros (e & t & He & Ht & _ & _ & _ & _ & Hc)%ClaimTask_ok.
  destruct Hc as [(_ & _ & _ & -> & _)|(_ & base & i & src & p & Hs & _)]; [done|].
  destruct (same_but_snapshots_tables _ _ (cl_frame _ _ _ _ _ _ _ _ _ _ _ Hs))
    as (_ & Eev & _ & _ & _ & _ & Eau & Exe & Ece & _ & Elog & _ & Erev & _ & Ever).
  destruct (cl_snapshots _ _ _ _ _ _ _ _ _ _ _ Hs) as [Hsn Href].
  rewrite (cl_result _ _ _ _ _ _ _ _ _ _ _ Hs).
  constructor; simpl; rewrite ?Eev, ?Eau, ?Exe, ?Ece, ?Elog, ?Erev, ?Ever; try done.
  apply insert_subseteq. apply (cl_event_new _ _ _ _ _ _ _ _ _ _ _ Hs).
Qed.

Lemma perform_appends o env db : appended db (perform cfg o env db).2.
Proof using.
  destruct (is_config o) eqn:Hcfg.
  { destruct (perform_config cfg o env db Hcfg) as (Hf & _).
    destruct (cf_controls _ _ Hf) as [_ Ec], (cf_snapshots _ _ Hf) as [Es Er].
    constructor; rewrite ?Ec, ?Es, ?Er, ?(cf_task_events _ _ Hf), ?(cf_executor_events _ _ Hf),
      ?(cf_logs _ _ Hf); try done; apply Hf. }
  destruct (perform_cases cfg o env db) as [->|[env' E]]; [by destruct o|done|].
  revert E. generalize (perform cfg o env db).2. intros db' E.
  destruct o; try discriminate Hcfg; simpl in E; apply outcome_ok in E as [a E].
  - apply CreateTeam_ok in E as (_ & _ & _ & _ & id & au & Hn & _ & ->). durable.
  - apply UpdateTeam_ok in E as (t & id & _ & _ & Hn & _ & ->). durable.
  - destruct a as [t []]; apply ArchiveTeam_ok in E as (t0 & _ & Hc);
      [destruct Hc as (_ & _ & id & Hn & ->)|destruct Hc as (_ & _ & ->)]; durable.
  - apply CreateSourceSystem_ok in E as (_ & _ & _ & _ & ->). durable.
  - apply CreateTaskType_ok in E as (_ & _ & _ & ->). durable.
  - apply IngestTask_ok in E
      as (_ & _ & _ & _ & tag & _ & [(t & _ & _ & ->)|(id & p & _ & _ & _ & _ & _ & ->)]); durable.
  - apply RegisterExecutor_ok in E as (-> & _). durable.
  - by eapply claim_appends.
  - apply AppendTaskEvent_ok in E as (occ & pl & x & t & _ & _ & _ & _ & _ & _ & _ & _ & _ & Hc).
    destruct Hc as [(e & _ & _ & _ & _ & _ & -> & _)|(_ & st & au & Hs)]; [done|].
    pose proof (es_new _ _ _ _ _ _ _ _ _ Hs). destruct (es_audit _ _ _ _ _ _ _ _ _ Hs).
    rewrite (es_result _ _ _ _ _ _ _ _ _ Hs). durable.
  - apply AppendExecutorEvent_ok in E
      as (x & _ & _ & [(e & _ & ->)|(Hn & o & p & s & x' & au & _ & _ & _ & _ & _ & Hau & ->)]); durable.
  - apply CreateTaskControl_ok in E
      as (_ & [(c & _ & _ & ->)|(id & aid & at_ & ev & au & -> & _ & _ & _ & Hn & Hid & _ & _ & Hce & _)]);
      [done|]. subst aid. durable.
  - apply AppendTaskControlEvent_ok in E as (c & t & _ & _ & _ & _ & _ & _ & _ & Hc).
    destruct Hc as [(e & _ & _ & _ & ->)|(st & au & Hs)]; [done|].
    pose proof (cs_new _ _ _ _ _ _ _ _ _ Hs). destruct (cs_audit _ _ _ _ _ _ _ _ _ Hs).
    rewrite (cs_result _ _ _ _ _ _ _ _ _ Hs). durable.
  - apply AppendTaskLog_ok in E as (t & _ & _ & _ & _ & [(_ & _ & _ & _ & _ & ->)|(Hn & _ & ->)]); durable.
Qed.
End durable.

(** ** Properties *)

Section durable_properties.
Context `{Collation, PgTime, JsonCodec, JsonCompact, TimeCodec, TokenCodec, ImageCodec, Aead}.
Context (cfg : StoreConfig).

(** C33. The history is append only: over every sequence of operations every task event, self
    event, audit entry, control report, log chunk, frozen launch parameter, revision of a
    definition and version of a secret stays exactly as it was stored. *)
Theorem history_append_only db db' : rtc (step cfg) db db' → appended db db'.
Proof using. induction 1 as [|db db1 db' [o env] _ IH]; [done|]. etrans; [apply perform_appends|done]. Qed.
End durable_properties.

Section witnesses.
#[local] Existing Instances pg_micros collation_C time_bits json_plain compact_plain token_fields
  image_plain toy_aead.

Lemma history_append_only_witness :
  let db' := (perform fx_config (OpAppendTaskEvent
                (mkTaskEventRequest "e2" "team" "t1" TypeFailed (format_bits 8000) "")
                (fx_identity "ex1")) (fx_env_id "b" 8000) fx_reached).2 in
  is_Some (db_task_events db' !! "e2") ∧ db_task_events fx_reached ⊆ db_task_events db'.
Proof.
  cbv zeta. split; [eexists; vm_compute; reflexivity|].
  apply (ap_task_events _ _ (history_append_only fx_config _ _ (rtc_once _ _ (step_perform _ _ _ _)))).
Defined.
End witnesses.
