(* ===== verification/Config.v ===== *)
(** * Launch parameters and secrets of the reachable registries

    The histories of definitions and secrets hold in every reachable database, and so an
    authorised Executor always gets the values that were frozen for its task. *)

From stdpp Require Import base gmap strings list sorting.
From S2P Require Import Prelude Platform Tx Schema Store Launch LaunchTables GoStrings ScopeToken.
From S2P Require Import Fixtures LaunchParams Secrets OpenEnv Claim Listener Admin Events Controls.
From S2P Require Import TaskLogs Lifecycle.
#[local] Open Scope Z_scope.

Section config.
Context `{Collation, PgTime, JsonCodec, JsonCompact, TimeCodec, TokenCodec, ImageCodec, Aead}.
Context (cfg : StoreConfig).

(** The four tables of the configuration. *)
Definition same_config (d d' : DB) : Prop :=
  db_envs d' = db_envs d ∧ db_env_revisions d' = db_env_revisions d ∧
  db_secrets d' = db_secrets d ∧ db_secret_versions d' = db_secret_versions d.

(** The operations of the queue leave the configuration alone. *)
Lemma perform_same_config o env db :
  is_config o = false → same_config db (perform cfg o env db).2.
Proof using.
  intros Hcfg. destruct (perform_cases cfg o env db) as [->|[env' E]]; [by destruct o|done|].
  revert E. generalize (perform cfg o env db).2. intros db' E.
  destruct o; try discriminate Hcfg; simpl in E; apply outcome_ok in E as [a E].
  - by apply CreateTeam_ok in E as (_ & _ & _ & _ & id & au & _ & _ & ->).
  - by apply UpdateTeam_ok in E as (t & id & _ & _ & _ & _ & ->).
  - by destruct a as [t []]; apply ArchiveTeam_ok in E as (t0 & _ & Hc);
      [destruct Hc as (_ & _ & id & _ & ->)|destruct Hc as (_ & _ & ->)].
  - by apply CreateSourceSystem_ok in E as (_ & _ & _ & _ & ->).
  - by apply CreateTaskType_ok in E as (_ & _ & _ & ->).
  - by apply IngestTask_ok in E
      as (_ & _ & _ & _ & tag & _ & [(t & _ & _ & ->)|(id & p & _ & _ & _ & _ & _ & ->)]).
  - by apply RegisterExecutor_ok in E as (-> & _).
  - apply ClaimTask_ok in E as (e & t & He & Ht & _ & _ & _ & _ & Hc).
    destruct Hc as [(_ & _ & _ & -> & _)|(_ & base & i & src & p & Hs & _)]; [done|].
    destruct (same_but_snapshots_tables _ _ (cl_frame _ _ _ _ _ _ _ _ _ _ _ Hs))
      as (_ & _ & _ & _ & _ & _ & _ & _ & _ & _ & _ & Ee & Er & Es & Ev).
    by rewrite (cl_result _ _ _ _ _ _ _ _ _ _ _ Hs).
  - apply AppendTaskEvent_ok in E as (occ & pl & x & t & _ & _ & _ & _ & _ & _ & _ & _ & _ & Hc).
    destruct Hc as [(e & _ & _ & _ & _ & _ & -> & _)|(_ & st & au & Hs)]; [done|].
    by rewrite (es_result _ _ _ _ _ _ _ _ _ Hs).
  - by apply AppendExecutorEvent_ok in E
      as (x & _ & _ & [(e & _ & ->)|(_ & o & p & s & x' & au & _ & _ & _ & _ & _ & _ & ->)]).
  - by apply CreateTaskControl_ok in E as (_ & [(c & _ & _ & ->)|(id & aid & at_ & ev & au & -> & _)]).
  - apply AppendTaskControlEvent_ok in E as (c & t & _ & _ & _ & _ & _ & _ & _ & Hc).
    destruct Hc as [(e & _ & _ & _ & ->)|(st & au & Hs)]; [done|].
    by rewrite (cs_result _ _ _ _ _ _ _ _ _ Hs).
  - by apply AppendTaskLog_ok in E as (t & _ & _ & _ & _ & [(_ & _ & _ & _ & _ & ->)|(_ & _ & ->)]).
Qed.

Record config_inv (d : DB) : Prop := mkConfigInv {
  ci_envs : env_history d;
  ci_secrets : secret_history (sc_aes_key cfg) d;
}.

Lemma config_inv_same d d' : same_config d d' → config_inv d → config_inv d'.
Proof using All.
  intros (Ee & Er & Es & Ev) [He Hs]. split.
  - apply (write_history d); [by apply dw_none|done].
  - apply (secret_history_write _ d); [by apply sw_none|done].
Qed.

Lemma config_inv_step d d' : step cfg d d' → config_inv d → config_inv d'.
Proof using.
  intros [o env] Hi. destruct (is_config o) eqn:Hc.
  - destruct (perform_config cfg o env d Hc) as (_ & Hd & Hs). destruct Hi. split.
    + by eapply write_history.
    + by eapply secret_history_write.
  - eapply config_inv_same; [by apply perform_same_config|done].
Qed.

Lemma reachable_config d : reachable cfg d → config_inv d.
Proof using.
  induction 1 as [|d d' _ IH Hs]; [|by eapply config_inv_step].
  split; [apply empty_env_history|apply empty_secret_history].
Qed.

(** ** The snapshots of the reachable registries *)

(** A step that keeps the snapshots and the tasks' teams, and forgets no version. *)
Lemma snapshots_valid_keep d d' :
  db_snapshots d' = db_snapshots d → db_secret_refs d' = db_secret_refs d →
  db_secret_versions d ⊆ db_secret_versions d' →
  (∀ k team, task_of_team team k d = true → task_of_team team k d' = true) →
  snapshots_valid d → snapshots_valid d'.
Proof using.
  intros Es Er Hv Ht [Hs Hr]. constructor; rewrite ?Es, ?Er.
  - intros k s Hk. by apply Ht, Hs.
  - intros k key r Hk. destruct (Hr _ _ _ Hk) as [[v Hvs] ?]. split; [|done].
    exists v. by eapply lookup_weaken.
Qed.

Lemma task_of_team_update d d' k t t' :
  db_tasks d !! k = Some t → tk_team t' = tk_team t → db_tasks d' = <[k := t']> (db_tasks d) →
  ∀ k' team, task_of_team team k' d = true → task_of_team team k' d' = true.
Proof using.
  intros Ht Eteam Ed k' team (x & Hx & Hteam)%task_of_team_spec. apply task_of_team_spec. rewrite Ed.
  destruct (decide (k = k')) as [<-|Hne].
  - exists t'. rewrite lookup_insert_eq. split; [done|congruence].
  - exists x. by rewrite lookup_insert_ne.
Qed.

Lemma task_of_team_new d d' k t' :
  db_tasks d !! k = None → db_tasks d' = <[k := t']> (db_tasks d) →
  ∀ k' team, task_of_team team k' d = true → task_of_team team k' d' = true.
Proof using.
  intros Ht Ed k' team (x & Hx & Hteam)%task_of_team_spec. apply task_of_team_spec. rewrite Ed.
  exists x. by rewrite lookup_insert_ne by congruence.
Qed.

Lemma claim_snapshots_valid req x ident env db r db' :
  run_tx (ClaimTask cfg req x ident) env db = (Ok r, db') → snapshots_valid db → snapshots_valid db'.
Proof using.
  intros (e & t & He & Ht & _ & _ & _ & _ & Hc)%ClaimTask_ok Hv.
  destruct Hc as [(_ & _ & _ & -> & _)|(_ & base & i & src & p & Hs & _)]; [done|].
  destruct (same_but_snapshots_tables _ _ (cl_frame _ _ _ _ _ _ _ _ _ _ _ Hs)) as (Etk & _).
  rewrite (cl_result _ _ _ _ _ _ _ _ _ _ _ Hs).
  apply (snapshots_valid_keep base); [done..| |by apply (cl_valid _ _ _ _ _ _ _ _ _ _ _ Hs)].
  eapply (task_of_team_update base _ (cr_task req) t); [by rewrite Etk| |reflexivity]; done.
Qed.

Lemma snapshots_valid_step d d' : step cfg d d' → snapshots_valid d → snapshots_valid d'.
Proof using.
  intros [o env] Hv. destruct (is_config o) eqn:Hcfg.
  { destruct (perform_config cfg o env d Hcfg) as (Hf & _).
    destruct (cf_snapshots _ _ Hf) as [Es Er].
    apply (snapshots_valid_keep d); try done; [apply Hf|]. intros k team.
    unfold task_of_team. by rewrite (cf_tasks _ _ Hf). }
  destruct (perform_cases cfg o env d) as [->|[env' E]]; [by destruct o|done|].
  revert E. generalize (perform cfg o env d).2. intros db' E.
  destruct o; try discriminate Hcfg; simpl in E; apply outcome_ok in E as [a E];
    try (by eapply claim_snapshots_valid).
  - apply CreateTeam_ok in E as (_ & _ & _ & _ & id & au & _ & _ & ->).
    by apply (snapshots_valid_keep d).
  - apply UpdateTeam_ok in E as (t & id & _ & _ & _ & _ & ->). by apply (snapshots_valid_keep d).
  - destruct a as [t []]; apply ArchiveTeam_ok in E as (t0 & _ & Hc);
      [destruct Hc as (_ & _ & id & _ & ->)|destruct Hc as (_ & _ & ->)];
      by apply (snapshots_valid_keep d).
  - apply CreateSourceSystem_ok in E as (_ & _ & _ & _ & ->). by apply (snapshots_valid_keep d).
  - apply CreateTaskType_ok in E as (_ & _ & _ & ->). by apply (snapshots_valid_keep d).
  - apply IngestTask_ok in E
      as (_ & _ & _ & _ & tag & _ & [(t & _ & _ & ->)|(id & p & _ & Hn & _ & _ & _ & ->)]); [done|].
    apply (snapshots_valid_keep d); try done. by eapply task_of_team_new.
  - apply RegisterExecutor_ok in E as (-> & _). by apply (snapshots_valid_keep d).
  - apply AppendTaskEvent_ok in E as (occ & pl & x & t & _ & _ & _ & _ & _ & _ & Ht & _ & _ & Hc).
    destruct Hc as [(e & _ & _ & _ & _ & _ & -> & _)|(_ & st & au & Hs)]; [done|].
    rewrite (es_result _ _ _ _ _ _ _ _ _ Hs). apply (snapshots_valid_keep d); try done.
    eapply (task_of_team_update d _ (tr_task req) t); [done| |reflexivity]; done.
  - apply AppendExecutorEvent_ok in E
      as (x & _ & _ & [(e & _ & ->)|(_ & o & p & s & x' & au & _ & _ & _ & _ & _ & _ & ->)]);
      by apply (snapshots_valid_keep d).
  - apply CreateTaskControl_ok in E as (_ & [(c & _ & _ & ->)|(id & aid & at_ & ev & au & -> & _)]);
      by apply (snapshots_valid_keep d).
  - apply AppendTaskControlEvent_ok in E as (c & t & _ & _ & _ & _ & _ & _ & _ & Hc).
    destruct Hc as [(e & _ & _ & _ & ->)|(st & au & Hs)]; [done|].
    rewrite (cs_result _ _ _ _ _ _ _ _ _ Hs). by apply (snapshots_valid_keep d).
  - apply AppendTaskLog_ok in E as (t & _ & _ & _ & _ & [(_ & _ & _ & _ & _ & ->)|(_ & _ & ->)]);
      by apply (snapshots_valid_keep d).
Qed.

Lemma reachable_snapshots d : reachable cfg d → snapshots_valid d.
Proof using.
  induction 1 as [|d d' _ IH Hs]; [|by eapply snapshots_valid_step].
  constructor; intros; simplify_map_eq.
Qed.
End config.

(** ** Opening the environment of a task of a reachable registry *)

Section availability.
Context `{Collation, PgTime, JsonCodec, JsonCompact, TimeCodec, TokenCodec, ImageCodec, Aead}.
Context (cfg : StoreConfig).

Lemma verify_key_length keyring aes clock token c :
  verifyScopeToken keyring aes clock token = Some c → aes_key_ok aes = true.
Proof using.
  unfold verifyScopeToken, aes_key_ok. destruct keyring as [k|]; [|done].
  destruct (String.length aes =? 32)%nat; [by rewrite orb_true_r|done].
Qed.

(** Every row of a task's snapshot decrypts, to the value its version seals. *)
Lemma reachable_decrypts db team task r :
  reachable cfg db → aes_key_ok (sc_aes_key cfg) = true → r ∈ open_rows team task db →
  ∃ value, decryptSecret cfg (ow_secret r) (ow_version r) (ow_row r) = Some value ∧
           seals (sc_aes_key cfg) (ow_secret r) (ow_version r) (ow_row r) value.
Proof using.
  intros Hr Hk (ref & _ & _ & -> & -> & Hv)%open_rows_spec.
  apply (sh_known _ _ (ci_secrets _ _ (reachable_config _ _ Hr))) in Hv as [_ [value Hs]].
  exists value. split; [|done]. destruct Hs as (tm & Ht & Ho). unfold decryptSecret.
  by rewrite Hk, Ht.
Qed.

(** The rows of a task are its references, each with its version. *)
Lemma reachable_open_rows db task t s :
  reachable cfg db → db_snapshots db !! task = Some s → sn_team s = tk_team t →
  ∀ key, key ∈ ow_key <$> open_rows (tk_team t) task db ↔ is_Some (db_secret_refs db !! (task, key)).
Proof using.
  intros Hr Hs Hteam key. rewrite list_elem_of_fmap. split.
  - intros (r & -> & (ref & Href & _)%open_rows_spec). eauto.
  - intros [ref Href]. destruct (snv_refs _ (reachable_snapshots _ _ Hr) _ _ _ Href) as ([v Hv] & s' & Hs' & Ht').
    exists (mkOpenRow key (sr_secret ref) (sr_version ref) v). split; [done|].
    apply open_rows_spec. exists ref. simpl. split_and!; try done. congruence.
Qed.

(** C14. Availability: in every reachable registry, when nothing fails, an authorised Executor
    gets the environment of its task: for every key the value sealed in the version of the
    secret that was frozen for the task, or else the frozen plain value. *)
Theorem OpenEnvironment_available req env db t s c :
  reachable cfg db → authorised cfg req (env_now env) db t s c →
  (∀ n, env_fault env n = false) → db_audit db !! env_uuid env 0 = None →
  is_Some (db_teams db !! tk_team t) →
  audit_ok (open_audit (env_uuid env 0) (tk_team t) req (pg_ts (env_db_now env))) = true →
  ∃ r db', run_tx (OpenEnvironment cfg req) env db = (Ok r, db') ∧
    (∀ key ref, db_secret_refs db !! (or_task req, key) = Some ref →
       ∃ row value, db_secret_versions db !! (sr_secret ref, sr_version ref) = Some row ∧
         seals (sc_aes_key cfg) (sr_secret ref) (sr_version ref) row value ∧
         oe_values r !! key = Some value) ∧
    (∀ key, db_secret_refs db !! (or_task req, key) = None → oe_values r !! key = sn_values s !! key).
Proof using.
  intros Hr Ha Hnf Huuid Hteam Haudit.
  pose proof (verify_key_length _ _ _ _ _ (oa_token _ _ _ _ _ _ _ Ha)) as Hkey.
  destruct (oa_snapshot _ _ _ _ _ _ _ Ha) as [Hsn Hst].
  destruct (decrypt_rows_total cfg (open_rows (tk_team t) (or_task req) db) (sn_values s)) as [out Hout].
  { intros r Hin. destruct (reachable_decrypts _ _ _ _ Hr Hkey Hin) as (v & -> & _). eauto. }
  destruct (OpenEnvironment_runs cfg req env db t s c out Ha Hnf Huuid Hteam Haudit)
    as (db' & Hrun); [by rewrite Hout|].
  eexists _, db'. split; [exact Hrun|]. simpl.
  destruct (decrypt_rows_values cfg _ _ out (f_equal snd Hout) (open_rows_keys _ _ _)) as [Hrows Hrest].
  pose proof (reachable_open_rows _ _ _ _ Hr Hsn Hst) as Hkeys. split.
  - intros key ref Href. pose proof (proj2 (Hkeys key) (mk_is_Some _ _ Href)) as Hin.
    apply list_elem_of_fmap in Hin as (r & -> & Hin). destruct (Hrows _ Hin) as (p & Hp & Hlk).
    destruct (reachable_decrypts _ _ _ _ Hr Hkey Hin) as (v & Hv & Hs).
    apply open_rows_spec in Hin as (ref' & Href' & _ & Es & En & Hver).
    assert (ref' = ref) as -> by congruence. rewrite Es, En in *. exists (ow_row r), v.
    split_and!; [done|done|congruence].
  - intros key Hnone. apply Hrest. intros [ref Hin]%Hkeys. congruence.
Qed.
End availability.

(** ** Properties *)

Section config_properties.
Context `{Collation, PgTime, JsonCodec, JsonCompact, TimeCodec, TokenCodec, ImageCodec, Aead}.
Context (cfg : StoreConfig).

(** C35. In every reachable registry the history of the definitions is complete: a definition has
    exactly the revisions from 1 to its current one, the last of which records its current
    state, and a scope has at most one active definition. *)
Theorem reachable_definitions db id e :
  reachable cfg db → db_envs db !! id = Some e →
  (∀ n, is_Some (db_env_revisions db !! (id, n)) ↔ 1 ≤ n ≤ ed_revision e) ∧
  (∃ r, db_env_revisions db !! (id, ed_revision e) = Some r ∧ records r e) ∧
  (∀ id' e', db_envs db !! id' = Some e' → active_conflict e e' = true → id' = id).
Proof using.
  intros [He _]%reachable_config Hid. split_and!.
  - intros n. by apply (eh_revisions _ He).
  - by apply (eh_current _ He).
  - intros id' e' Hid' Hc. symmetry. by eapply (eh_active _ He).
Qed.

(** C36. In every reachable registry a secret has exactly the versions from 1 to its latest one,
    each of the team of the secret, and each opens under the key of the store when it is bound
    to that team, secret and version. *)
Theorem reachable_secrets db id s :
  reachable cfg db → db_secrets db !! id = Some s →
  ∃ v, se_latest_version s = Some v ∧
    ∀ n, is_Some (db_secret_versions db !! (id, n)) ↔ 1 ≤ n ≤ v ∧
      ∃ row value, db_secret_versions db !! (id, n) = Some row ∧ sv_team row = se_team s ∧
                   seals (sc_aes_key cfg) id n row value.
Proof using.
  intros [_ Hs]%reachable_config Hid. destruct (sh_owned _ _ Hs _ _ Hid) as (_ & v & Hv & _ & Hn).
  exists v. split; [done|]. intros n. split.
  - intros [row Hrow]. split; [by apply Hn|]. pose proof (sh_known _ _ Hs _ _ _ Hrow) as [(s' & Hs' & ?) [value ?]].
    exists row, value. split_and!; [done|congruence|done].
  - intros (_ & row & _ & Hrow & _). eauto.
Qed.
End config_properties.

(** ** The properties on a registry with a definition and a secret *)

Section witnesses.
#[local] Existing Instances pg_micros collation_C time_bits json_plain compact_plain token_fields
  image_plain toy_aead.

(** A definition of the team with a plain value and a secret of two versions, then the task. *)
Definition fx_config_ops : list (op * TxEnv) :=
  take 4 fx_ops ++
  [ (OpCreateLaunchParameters fx_operator
       (mkWrite LaunchScopeTeam None "params" {["A" := "plain"]} None), fx_env_id "env" 2100);
    (OpCreateSecret fx_operator "env" (mkSecretCreate "KEY" "old"), fx_env_id "sec" 2200);
    (OpReplaceSecret fx_operator "env" "sec" "new", fx_env_id "rot" 2300) ] ++
  drop 4 fx_ops.

Definition fx_configured : DB := performs empty_db fx_config_ops.

Lemma fx_configured_reachable : reachable fx_config fx_configured.
Proof using. apply performs_reachable. constructor. Qed.

Lemma reachable_definitions_witness : ∃ e,
  db_envs fx_configured !! "env" = Some e ∧ ed_revision e = 3 ∧
  is_Some (db_env_revisions fx_configured !! ("env", 2)).
Proof.
  destruct (db_envs fx_configured !! "env") as [e|] eqn:E; [|vm_compute in E; discriminate E].
  exists e. split; [reflexivity|].
  assert (ed_revision e = 3) as Hr by (vm_compute in E; injection E as <-; reflexivity).
  split; [exact Hr|].
  apply (reachable_definitions fx_config fx_configured "env" e fx_configured_reachable E). lia.
Defined.

Lemma reachable_secrets_witness : ∃ row value,
  db_secret_versions fx_configured !! ("sec", 1) = Some row ∧
  seals (sc_aes_key fx_config) "sec" 1 row value.
Proof.
  destruct (db_secrets fx_configured !! "sec") as [s|] eqn:E; [|vm_compute in E; discriminate E].
  destruct (reachable_secrets fx_config fx_configured "sec" s fx_configured_reachable E)
    as (v & Hv & Hn).
  destruct (proj1 (Hn 1)) as (_ & row & value & Hrow & _ & Hs).
  - eexists. vm_compute. reflexivity.
  - exists row, value. split; [exact Hrow|exact Hs].
Defined.

(** The token of the claim of the task. *)
Definition fx_token : string :=
  match (run_tx (ClaimTask fx_config (mkClaimRequest "t1" "cmd") "ex1" (fx_identity "ex1"))
           (fx_env_id "retry" 6500) fx_configured).1 with
  | Ok r => default "" (cs_scope_token r)
  | Err _ => ""
  end.

Definition fx_open : OpenEnvironmentRequest := mkOpen "t1" fx_token (fx_identity "ex1") "req".

Lemma OpenEnvironment_available_witness : ∃ r db',
  run_tx (OpenEnvironment fx_config fx_open) (fx_env_id "open" 7000) fx_configured = (Ok r, db') ∧
  oe_values r !! "A" = Some "plain" ∧ oe_values r !! "KEY" = Some "new".
Proof.
  destruct (db_tasks fx_configured !! "t1") as [t|] eqn:Et; [|vm_compute in Et; discriminate Et].
  destruct (db_snapshots fx_configured !! "t1") as [s|] eqn:Es; [|vm_compute in Es; discriminate Es].
  destruct (verifyScopeToken (sc_keyring fx_config) (sc_aes_key fx_config) 7000 fx_token) as [c|] eqn:Ec;
    [|vm_compute in Ec; discriminate Ec].
  destruct (OpenEnvironment_available fx_config fx_open (fx_env_id "open" 7000) fx_configured t s c)
    as (r & db' & Hrun & Hsecret & Hplain).
  - apply fx_configured_reachable.
  - vm_compute in Et, Es, Ec. injection Et as <-. injection Es as <-. injection Ec as <-.
    constructor; vm_compute; auto.
  - reflexivity.
  - vm_compute. reflexivity.
  - eexists. vm_compute in Et. injection Et as <-. vm_compute. reflexivity.
  - vm_compute in Et. injection Et as <-. vm_compute. reflexivity.
  - exists r, db'. split; [exact Hrun|]. split.
    + rewrite Hplain by (vm_compute; reflexivity). vm_compute in Es. injection Es as <-. reflexivity.
    + assert (r = match (run_tx (OpenEnvironment fx_config fx_open) (fx_env_id "open" 7000)
                           fx_configured).1 with Ok x => x | Err _ => r end) as ->
        by (rewrite Hrun; reflexivity).
      vm_compute. reflexivity.
Defined.

Lemma OpenEnvironment_authorised_witness : ∃ r t,
  is_ok (run_tx (OpenEnvironment fx_config fx_open) (fx_env_id "open" 7000) fx_configured).1 = true ∧
  db_tasks fx_configured !! "t1" = Some t ∧ tk_executor t = Some "ex1" ∧ oe_executor r = "ex1".
Proof.
  destruct (run_tx (OpenEnvironment fx_config fx_open) (fx_env_id "open" 7000) fx_configured)
    as [[r|e] db'] eqn:E; [|vm_compute in E; discriminate E].
  destruct (OpenEnvironment_authorised fx_config fx_open _ _ _ _ E)
    as (t & s & c & k & au & Ha & _ & _ & _ & _ & Hx & _).
  exists r, t. split; [reflexivity|]. split; [exact (oa_task _ _ _ _ _ _ _ Ha)|].
  split; [exact (oa_assigned _ _ _ _ _ _ _ Ha)|exact Hx].
Defined.
End witnesses.
