(* ===== verification/Conc.v ===== *)
(** * Goroutines over shared state

    A goroutine is a program of atomic steps: sections under a mutex, which update the shared
    state, and calls to the outside, which are answered by anything. Goroutines interleave in any
    order. A rely-guarantee logic with exclusive tokens proves what holds in every reachable
    state: a thread is verified once, against any interference that its tokens permit. *)

From stdpp Require Import base gmap sets fin_sets relations.
From S2P Require Import Prelude.

(** ** Programs *)

Section programs.
Context {Σ T C : Type} {R : C → Type}.

Inductive prog (A : Type) : Type :=
| Ret (a : A)
| Atomic {B : Type} (f : Σ → Σ * B) (k : B → prog A)
| Call (c : C) (k : R c → prog A)
| Spawn (t : T) (k : prog A)
| Goto (t : T).
#[global] Arguments Ret {_} _.
#[global] Arguments Atomic {_ _} _ _.
#[global] Arguments Call {_} _ _.
#[global] Arguments Spawn {_} _ _.
#[global] Arguments Goto {_} _.

(** Sequencing; a jump does not come back. *)
Fixpoint prog_bind {A B} (k : A → prog B) (p : prog A) : prog B :=
  match p with
  | Ret a => k a
  | Atomic f k' => Atomic f (λ b, prog_bind k (k' b))
  | Call c k' => Call c (λ r, prog_bind k (k' r))
  | Spawn t p' => Spawn t (prog_bind k p')
  | Goto t => Goto t
  end.

#[export] Instance prog_mret : MRet prog := @Ret.
#[export] Instance prog_mbind : MBind prog := @prog_bind.

Definition atomic {B} (f : Σ → Σ * B) : prog B := Atomic f Ret.
Definition update (f : Σ → Σ) : prog () := Atomic (λ σ, (f σ, ())) Ret.
Definition read {B} (f : Σ → B) : prog B := Atomic (λ σ, (σ, f σ)) Ret.
Definition call (c : C) : prog (R c) := Call c Ret.
Definition spawn (t : T) : prog () := Spawn t (Ret ()).
End programs.
#[global] Arguments prog _ _ {_} _ _.

(** ** Interleaving *)

Section interleaving.
Context {Σ T C : Type} {R : C → Type}.
Context (record : ∀ c, R c → Σ → Σ) (sane : ∀ c, R c → Prop) (body : T → prog Σ T R ()).

Record world : Type := mkWorld { w_state : Σ; w_threads : gmap nat (prog Σ T R ()) }.

(** What a call is answered. *)
Definition oracle : Type := ∀ c, R c.

(** One step of thread [i], running [p]; [j] names a thread it starts. *)
Definition thread_step (i j : nat) (answer : oracle) (p : prog Σ T R ()) (w : world) : world :=
  match p with
  | Ret _ => mkWorld (w_state w) (delete i (w_threads w))
  | Atomic f k => mkWorld (f (w_state w)).1 (<[i := k (f (w_state w)).2]> (w_threads w))
  | Call c k => mkWorld (record c (answer c) (w_state w)) (<[i := k (answer c)]> (w_threads w))
  | Spawn t k => mkWorld (w_state w) (<[j := body t]> (<[i := k]> (w_threads w)))
  | Goto t => mkWorld (w_state w) (<[i := body t]> (w_threads w))
  end.

(** A call is answered within its documented behaviour [sane]. *)
Definition answered_sanely (answer : oracle) (p : prog Σ T R ()) : Prop :=
  match p with Call c _ => sane c (answer c) | _ => True end.

Inductive world_step (w : world) : world → Prop :=
| step_thread i j answer p :
    w_threads w !! i = Some p → w_threads w !! j = None → answered_sanely answer p →
    world_step w (thread_step i j answer p w).

(** A schedule: which thread moves and what it is answered. *)
Fixpoint run_schedule (l : list (nat * oracle)) (w : world) : world :=
  match l with
  | [] => w
  | (i, answer) :: l' =>
      match w_threads w !! i with
      | Some p => run_schedule l' (thread_step i (fresh (dom (w_threads w))) answer p w)
      | None => run_schedule l' w
      end
  end.

Lemma run_schedule_steps l w :
  (∀ i answer, (i, answer) ∈ l → ∀ c, sane c (answer c)) → rtc world_step w (run_schedule l w).
Proof using.
  revert w. induction l as [|[i r] l IH]; intros w Hs; [done|]. simpl.
  assert (Hl : ∀ w, rtc world_step w (run_schedule l w)).
  { intros w'. apply IH. intros j a Hj. apply (Hs j). by right. }
  destruct (w_threads w !! i) as [p|] eqn:Hi; [|apply Hl].
  eapply rtc_l; [|apply Hl]. constructor; [done|apply not_elem_of_dom, is_fresh|].
  destruct p; try done. apply (Hs i). by left.
Qed.
End interleaving.
#[global] Arguments mkWorld {_ _ _ _} _ _.
#[global] Arguments world _ _ {_} _.
#[global] Arguments w_state {_ _ _ _} _.
#[global] Arguments w_threads {_ _ _ _} _.
#[global] Arguments oracle {_} _.

(** ** The logic *)

(** What threads may assume and must guarantee. [inv] holds in every state and [evolves] relates
    successive states. A token is held by one thread at most: its holder knows [own], nobody else
    makes a change outside [keep], and while a token is [due] some thread must hold it. *)
Class Protocol (Σ Tok : Type) `{Countable Tok} := {
  inv : Σ → Prop;
  evolves : relation Σ;
  own : Tok → Σ → Prop;
  keep : Tok → relation Σ;
  due : Tok → Σ → Prop;
  evolves_preorder : PreOrder evolves;
  keep_preorder r : PreOrder (keep r);
  own_keep r σ σ' : own r σ → evolves σ σ' → keep r σ σ' → own r σ';
}.
#[export] Existing Instances evolves_preorder keep_preorder.

Section logic.
Context {Σ T C Tok : Type} {R : C → Type} `{Protocol Σ Tok}.
Context (record : ∀ c, R c → Σ → Σ) (sane : ∀ c, R c → Prop) (body : T → prog Σ T R ()).
Context (pre : T → gset Tok → Σ → Prop).
#[local] Notation prog := (prog Σ T R).

Definition owned (O : gset Tok) (σ : Σ) : Prop := ∀ r, r ∈ O → own r σ.

(** The interference a holder of [O] has to expect. *)
Definition rely (O : gset Tok) (σ σ' : Σ) : Prop := evolves σ σ' ∧ ∀ r, r ∈ O → keep r σ σ'.

#[export] Instance rely_preorder O : PreOrder (rely O).
Proof using.
  split.
  - intros σ. split; [reflexivity|]. intros; reflexivity.
  - intros σ1 σ2 σ3 [E1 K1] [E2 K2]. split; [by etrans|]. intros r Hr.
    transitivity σ2; auto.
Qed.

(** A step from [σ] to [σ'] that turns the tokens [O] into [O']. *)
Definition guar (O O' : gset Tok) (σ σ' : Σ) : Prop :=
  inv σ' ∧ owned O' σ' ∧ evolves σ σ' ∧
  (∀ r, r ∉ O → own r σ → keep r σ σ' ∧ r ∉ O') ∧
  (∀ r, due r σ' → r ∈ O' ∨ r ∉ O ∧ due r σ).

(** [wp O p Q σ]: run from [σ] with the tokens [O] under interference, [p] keeps the protocol and
    ends with [Q]. *)
Fixpoint wp {A} (O : gset Tok) (p : prog A) (Q : A → gset Tok → Σ → Prop) (σ : Σ) : Prop :=
  match p with
  | Ret a => ∀ σ1, rely O σ σ1 → inv σ1 → owned O σ1 → Q a O σ1
  | Atomic f k => ∀ σ1, rely O σ σ1 → inv σ1 → owned O σ1 →
      ∃ O', guar O O' σ1 (f σ1).1 ∧ wp O' (k (f σ1).2) Q (f σ1).1
  | Call c k => ∀ r σ1, sane c r → rely O σ σ1 → inv σ1 → owned O σ1 →
      ∃ O', guar O O' σ1 (record c r σ1) ∧ wp O' (k r) Q (record c r σ1)
  | Spawn t k => ∀ σ1, rely O σ σ1 → inv σ1 → owned O σ1 →
      ∃ O1 O2, O = O1 ∪ O2 ∧ O1 ## O2 ∧ pre t O2 σ1 ∧ wp O1 k Q σ1
  | Goto t => ∀ σ1, rely O σ σ1 → inv σ1 → owned O σ1 → pre t O σ1
  end.

Lemma wp_rely {A} O (p : prog A) Q σ σ' : rely O σ σ' → wp O p Q σ → wp O p Q σ'.
Proof using.
  intros Hr Hp. destruct p; simpl in *; intros; eapply Hp; try done; by etrans.
Qed.

Lemma wp_later {A} O (p : prog A) Q σ :
  (∀ σ1, rely O σ σ1 → inv σ1 → owned O σ1 → wp O p Q σ1) → wp O p Q σ.
Proof using.
  intros Hp. destruct p; simpl in *; intros; eapply Hp; try done; reflexivity.
Qed.

Lemma wp_bind {A B} (k : A → prog B) O (p : prog A) Q σ :
  wp O p (λ a O σ, wp O (k a) Q σ) σ → wp O (p ≫= k) Q σ.
Proof using.
  unfold mbind, prog_mbind. revert O σ.
  induction p as [a|B' f k' IH|c k' IH|t p IH|t]; intros O σ Hp; cbn [prog_bind].
  - apply wp_later. apply Hp.
  - intros σ1 Hr Hi Ho. destruct (Hp σ1 Hr Hi Ho) as (O' & Hg & Hk). eauto.
  - intros r σ1 Hs Hr Hi Ho. destruct (Hp r σ1 Hs Hr Hi Ho) as (O' & Hg & Hk). eauto.
  - intros σ1 Hr Hi Ho. destruct (Hp σ1 Hr Hi Ho) as (O1 & O2 & HO & Hd & Ht & Hk).
    exists O1, O2. eauto.
  - exact Hp.
Qed.

Lemma wp_mono {A} O (p : prog A) (Q Q' : A → gset Tok → Σ → Prop) σ :
  (∀ a O σ, Q a O σ → Q' a O σ) → wp O p Q σ → wp O p Q' σ.
Proof using.
  intros HQ. revert O σ.
  induction p as [a|B' f k' IH|c k' IH|t p IH|t]; intros O σ Hp; simpl in *; eauto.
  - intros σ1 Hr Hi Ho. destruct (Hp σ1 Hr Hi Ho) as (O' & Hg & Hk). eauto.
  - intros r σ1 Hs Hr Hi Ho. destruct (Hp r σ1 Hs Hr Hi Ho) as (O' & Hg & Hk). eauto.
  - intros σ1 Hr Hi Ho. destruct (Hp σ1 Hr Hi Ho) as (O1 & O2 & HO & Hd & Ht & Hk).
    exists O1, O2. eauto.
Qed.

(** What a program leaves has evolved from where it started. *)
Lemma wp_evolves {A} O (p : prog A) (Q : A → gset Tok → Σ → Prop) σ0 σ :
  evolves σ0 σ → wp O p Q σ → wp O p (λ a O σ, Q a O σ ∧ evolves σ0 σ) σ.
Proof using.
  revert O σ.
  induction p as [a|B' f k' IH|c k' IH|t p IH|t]; intros O σ He Hp; simpl in *.
  - intros σ1 Hr Hi Ho. split; [by apply Hp|]. etrans; [done|]. apply Hr.
  - intros σ1 Hr Hi Ho. destruct (Hp σ1 Hr Hi Ho) as (O' & Hg & Hk). exists O'. split; [done|].
    apply IH; [|done]. do 2 (etrans; [eassumption || apply Hr|]). apply Hg.
  - intros r σ1 Hs Hr Hi Ho. destruct (Hp r σ1 Hs Hr Hi Ho) as (O' & Hg & Hk). exists O'.
    split; [done|]. apply IH; [|done]. do 2 (etrans; [eassumption || apply Hr|]). apply Hg.
  - intros σ1 Hr Hi Ho. destruct (Hp σ1 Hr Hi Ho) as (O1 & O2 & HO & Hd & Ht & Hk).
    exists O1, O2. split_and!; try done. apply IH; [|done]. etrans; [done|]. apply Hr.
  - done.
Qed.

(** A step without effect. *)
Lemma guar_refl O σ : inv σ → owned O σ → guar O O σ σ.
Proof using.
  intros Hi Ho. split_and!; [done|done|reflexivity| |].
  - intros r Hr _. split; [reflexivity|done].
  - intros r Hd. destruct (decide (r ∈ O)); auto.
Qed.

(** A step that changes nothing a thread could rely on. *)
Definition calm (O : gset Tok) (σ σ' : Σ) : Prop := guar O O σ σ' ∧ rely O σ σ'.

(** Programs that only make steps everybody may make. *)
Fixpoint silent {A} (p : prog A) : Prop :=
  match p with
  | Ret _ => True
  | Atomic f k => (∀ O σ, inv σ → owned O σ → calm O σ (f σ).1) ∧ ∀ b, silent (k b)
  | Call c k => (∀ O σ r, inv σ → owned O σ → calm O σ (record c r σ)) ∧ ∀ r, silent (k r)
  | Spawn _ _ | Goto _ => False
  end.

Lemma silent_bind {A B} (k : A → prog B) (p : prog A) :
  silent p → (∀ a, silent (k a)) → silent (p ≫= k).
Proof using.
  unfold mbind, prog_mbind. intros Hp Hk.
  induction p as [a|B' f k' IH|c k' IH|t p IH|t]; simpl in *; [apply Hk|..]; try done.
  - destruct Hp as [Hf Hp]. split; [done|]. auto.
  - destruct Hp as [Hf Hp]. split; [done|]. auto.
Qed.

Lemma wp_silent {A} O (p : prog A) Q σ :
  silent p →
  (∀ a σ1, rely O σ σ1 → inv σ1 → owned O σ1 → Q a O σ1) → wp O p Q σ.
Proof using.
  revert σ. induction p as [a|B' f k' IH|c k' IH|t p IH|t]; intros σ Hp HQ; simpl in *;
    try done; [by apply HQ| |].
  - destruct Hp as [Hf Hp]. intros σ1 Hr Hi Ho. destruct (Hf O σ1 Hi Ho) as [Hg Hr'].
    exists O. split; [done|]. apply IH; [apply Hp|]. intros a σ2 Hr2 Hi2 Ho2.
    apply HQ; [|done..]. do 2 (etrans; [done|]). done.
  - destruct Hp as [Hf Hp]. intros r σ1 _ Hr Hi Ho. destruct (Hf O σ1 r Hi Ho) as [Hg Hr'].
    exists O. split; [done|]. apply IH; [apply Hp|]. intros a σ2 Hr2 Hi2 Ho2.
    apply HQ; [|done..]. do 2 (etrans; [done|]). done.
Qed.

(** A thread may end when nothing it holds is due. *)
Definition finished (_ : ()) (O : gset Tok) (σ : Σ) : Prop := ∀ r, r ∈ O → ¬ due r σ.

(** Every thread body does what its precondition says. *)
Definition verified : Prop := ∀ t O σ, inv σ → owned O σ → pre t O σ → wp O (body t) finished σ.

Record world_ok (w : world Σ T R) (Os : nat → gset Tok) : Prop := mkWorldOk {
  wo_inv : inv (w_state w);
  wo_wp i p : w_threads w !! i = Some p → wp (Os i) p finished (w_state w);
  wo_owned i p : w_threads w !! i = Some p → owned (Os i) (w_state w);
  wo_disjoint i j r : is_Some (w_threads w !! i) → is_Some (w_threads w !! j) →
    r ∈ Os i → r ∈ Os j → i = j;
  wo_due r : due r (w_state w) → ∃ i, is_Some (w_threads w !! i) ∧ r ∈ Os i;
}.

(** What the other threads see of a step of thread [i]. *)
Lemma others_rely w Os i j O' σ' :
  world_ok w Os → is_Some (w_threads w !! i) → is_Some (w_threads w !! j) → i ≠ j →
  guar (Os i) O' (w_state w) σ' →
  rely (Os j) (w_state w) σ' ∧ ∀ r, r ∈ Os j → r ∉ O'.
Proof using.
  intros Hok Hi Hj Hne (_ & _ & Hev & Hk & _).
  assert (Hr : ∀ r, r ∈ Os j → keep r (w_state w) σ' ∧ r ∉ O').
  { intros r Hr. apply Hk.
    - intros Hri. apply Hne. by apply (wo_disjoint _ _ Hok i j r).
    - destruct Hj as [p Hp]. by apply (wo_owned _ _ Hok j p). }
  split; [split; [done|]|]; intros r Hin; by apply Hr.
Qed.

Lemma world_ok_advance w Os i p σ' p' O' :
  world_ok w Os → w_threads w !! i = Some p →
  guar (Os i) O' (w_state w) σ' → wp O' p' finished σ' →
  ∃ Os', world_ok (mkWorld σ' (<[i := p']> (w_threads w))) Os'.
Proof using.
  intros Hok Hp Hg Hw. pose proof Hg as (Hi & Ho & Hev & Hk & Hd).
  exists (λ j, if decide (j = i) then O' else Os j). split; simpl; [done|..].
  - intros j q. rewrite lookup_insert_Some. intros [[-> ->]|[Hne Hq]];
      destruct (decide _); try congruence.
    eapply wp_rely; [|by apply (wo_wp _ _ Hok)].
    eapply (others_rely w Os i j O'); eauto.
  - intros j q. rewrite lookup_insert_Some. intros [[-> ->]|[Hne Hq]];
      destruct (decide _); try congruence; [done|].
    intros r Hr. apply own_keep with (w_state w); [by apply (wo_owned _ _ Hok j q)|done|].
    eapply (others_rely w Os i j O'); eauto.
  - assert (Hoth : ∀ j r, is_Some (<[i:=p']> (w_threads w) !! j) → i ≠ j → r ∈ Os j → r ∉ O').
    { intros j r [q Hq] Hne Hr. rewrite lookup_insert_ne in Hq by done.
      eapply (others_rely w Os i j O'); eauto. }
    intros j k r Hj Hk' Hrj Hrk.
    destruct (decide (j = i)) as [->|Hji], (decide (k = i)) as [->|Hki]; try done.
    + by destruct (Hoth k r).
    + by destruct (Hoth j r).
    + rewrite lookup_insert_ne in Hj, Hk' by done. by apply (wo_disjoint _ _ Hok j k r).
  - intros r Hr. apply Hd in Hr as [Hr|[Hni Hr]].
    + exists i. rewrite lookup_insert_eq, decide_True by done. eauto.
    + apply (wo_due _ _ Hok) in Hr as (j & Hj & Hrj). exists j.
      destruct (decide (j = i)) as [->|]; [done|]. by rewrite lookup_insert_ne.
Qed.

Lemma world_ok_end w Os i :
  world_ok w Os → finished () (Os i) (w_state w) →
  world_ok (mkWorld (w_state w) (delete i (w_threads w))) Os.
Proof using.
  intros Hok Hf. split; simpl.
  - apply Hok.
  - intros j q [_ Hq]%lookup_delete_Some. by apply (wo_wp _ _ Hok).
  - intros j q [_ Hq]%lookup_delete_Some. by apply (wo_owned _ _ Hok j q).
  - intros j k r [? [_ Hj]%lookup_delete_Some] [? [_ Hk]%lookup_delete_Some].
    apply (wo_disjoint _ _ Hok); eauto.
  - intros r Hr. pose proof Hr as Hr'. apply (wo_due _ _ Hok) in Hr as (j & Hj & Hrj).
    exists j. destruct (decide (j = i)) as [->|]; [by destruct (Hf r)|].
    by rewrite lookup_delete_ne.
Qed.

Lemma world_ok_spawn w Os i j p k t O1 O2 :
  verified → world_ok w Os → w_threads w !! i = Some p → w_threads w !! j = None →
  Os i = O1 ∪ O2 → O1 ## O2 → pre t O2 (w_state w) → wp O1 k finished (w_state w) →
  ∃ Os', world_ok (mkWorld (w_state w) (<[j := body t]> (<[i := k]> (w_threads w)))) Os'.
Proof using.
  intros Hv Hok Hi Hj HO Hd Hpre Hk.
  assert (Hij : i ≠ j) by congruence.
  pose proof (wo_owned _ _ Hok i p Hi) as Howi.
  set (Os' := λ n, if decide (n = j) then O2 else if decide (n = i) then O1 else Os n).
  assert (Hsub : ∀ n r, is_Some (<[j:=body t]> (<[i:=k]> (w_threads w)) !! n) → r ∈ Os' n →
            if decide (n = j) then r ∈ O2 ∧ r ∈ Os i else
              is_Some (w_threads w !! n) ∧ r ∈ Os n ∧ (n = i → r ∈ O1)).
  { intros n r Hn Hr. unfold Os' in Hr. destruct (decide (n = j)); [set_solver|].
    rewrite lookup_insert_ne in Hn by done.
    destruct (decide (n = i)) as [->|]; [rewrite HO; split_and!; [by eexists|set_solver..]|].
    by rewrite lookup_insert_ne in Hn. }
  exists Os'. split; simpl.
  - apply Hok.
  - intros n q Hq. unfold Os'. destruct (decide (n = j)) as [->|].
    + rewrite lookup_insert_eq in Hq. simplify_eq. apply Hv; [apply Hok| |done].
      intros r Hr. apply Howi. set_solver.
    + rewrite lookup_insert_ne in Hq by done. destruct (decide (n = i)) as [->|].
      * rewrite lookup_insert_eq in Hq. by simplify_eq.
      * rewrite lookup_insert_ne in Hq by done. by apply (wo_wp _ _ Hok).
  - intros n q Hq r Hr. specialize (Hsub n r (ex_intro _ q Hq) Hr). destruct (decide (n = j)).
    + apply Howi, Hsub.
    + destruct Hsub as ([? Hn] & Hr' & _). by apply (wo_owned _ _ Hok n _ Hn).
  - intros a b r Ha Hb Hra Hrb. apply (Hsub a r Ha) in Hra. apply (Hsub b r Hb) in Hrb.
    destruct (decide (a = j)) as [->|], (decide (b = j)) as [->|]; try done.
    + destruct Hra as [H2 Hri], Hrb as (Hbs & Hrb & Hb1).
      assert (i = b) as <- by (apply (wo_disjoint _ _ Hok i b r); eauto).
      specialize (Hb1 eq_refl). set_solver.
    + destruct Hrb as [H2 Hri], Hra as (Has & Hra & Ha1).
      assert (i = a) as <- by (apply (wo_disjoint _ _ Hok i a r); eauto).
      specialize (Ha1 eq_refl). set_solver.
    + destruct Hra as (? & ? & _), Hrb as (? & ? & _). by apply (wo_disjoint _ _ Hok a b r).
  - intros r Hr. apply (wo_due _ _ Hok) in Hr as (n & Hn & Hrn).
    assert (Hnj : n ≠ j) by (intros ->; rewrite Hj in Hn; by destruct Hn).
    destruct (decide (n = i)) as [->|].
    + rewrite HO in Hrn. apply elem_of_union in Hrn as [Hr1|Hr2].
      * exists i. rewrite lookup_insert_ne, lookup_insert_eq by done. unfold Os'.
        rewrite decide_False, decide_True by done. eauto.
      * exists j. rewrite lookup_insert_eq. unfold Os'. rewrite decide_True by done. eauto.
    + exists n. rewrite !lookup_insert_ne by done. unfold Os'. by rewrite !decide_False.
Qed.

Lemma world_ok_step w w' Os :
  verified → world_ok w Os → world_step record sane body w w' → ∃ Os', world_ok w' Os'.
Proof using.
  intros Hv Hok [i j answer p Hi Hj Hans].
  pose proof (wo_wp _ _ Hok i p Hi) as Hp. pose proof (wo_owned _ _ Hok i p Hi) as Ho.
  pose proof (wo_inv _ _ Hok) as Hinv.
  assert (Hrefl : rely (Os i) (w_state w) (w_state w)) by reflexivity.
  destruct p as [[]|B f k|c k|t k|t]; simpl in *.
  - exists Os. apply world_ok_end; [done|]. by apply Hp.
  - destruct (Hp _ Hrefl Hinv Ho) as (O' & Hg & Hk). by eapply world_ok_advance.
  - destruct (Hp (answer c) _ Hans Hrefl Hinv Ho) as (O' & Hg & Hk). by eapply world_ok_advance.
  - destruct (Hp _ Hrefl Hinv Ho) as (O1 & O2 & HO & Hd & Hpre & Hk).
    by eapply world_ok_spawn.
  - eapply world_ok_advance; [done..|by apply guar_refl|]. apply Hv; [done..|]. by apply Hp.
Qed.

Lemma world_ok_steps w w' Os :
  verified → world_ok w Os → rtc (world_step record sane body) w w' → ∃ Os', world_ok w' Os'.
Proof using.
  intros Hv Hok Hs. revert Os Hok.
  induction Hs as [|w w1 w' Hs _ IH]; intros Os Hok; [eauto|].
  destruct (world_ok_step w w1 Os Hv Hok Hs) as [Os1 Hok1]. by apply (IH Os1).
Qed.

(** Adequacy: from a world whose threads are verified every reachable state satisfies the
    invariant, and a token that is due is held by a live thread. *)
Lemma adequacy w w' Os :
  verified → world_ok w Os → rtc (world_step record sane body) w w' →
  inv (w_state w') ∧ ∀ r, due r (w_state w') → ∃ i, is_Some (w_threads w' !! i).
Proof using.
  intros Hv Hok Hs. destruct (world_ok_steps w w' Os Hv Hok Hs) as [Os' Hok'].
  split; [apply Hok'|]. intros r Hr. apply (wo_due _ _ Hok') in Hr as (i & Hi & _). eauto.
Qed.
End logic.
