(* ===== verification/OpenHands.v ===== *)
(** * What the Docker Executor reads from OpenHands and hands to Docker

    Pure functions of executor/docker_openhands/internal/executor: the status and the published
    text of an OpenHands frame (executor.go, openhands_logs.go), the prompt and the conversation
    of a task (v0002.go, executor.go) and the environment of a container. *)

From stdpp Require Import base gmap strings list sorting sets.
From Stdlib Require Import Ascii.
From S2P Require Import Prelude Platform GoStrings Keyrings.
#[local] Open Scope Z_scope.

(** ** The language *)

(** The order in which a range statement visits the keys of a map, which Go leaves open. *)
Class MapRange := {
  range : list string → list string;
  range_perm l : range l ≡ₚ l;
}.

Definition assoc {A} (k : string) (l : list (string * A)) : option A :=
  snd <$> List.find (λ kv, bool_decide (kv.1 = k)) l.

Definition lower_char (c : ascii) : ascii :=
  if in_range 65 90 c then ascii_of_nat (nat_of_ascii c + 32) else c.

(** strings.ToLower on ASCII letters. *)
Definition to_lower (s : string) : string := of_chars (lower_char <$> chars s).

Fixpoint contains_chars (sub l : list ascii) : bool :=
  match trim_prefix_chars sub l, l with
  | Some _, _ => true
  | None, [] => false
  | None, _ :: l' => contains_chars sub l'
  end.

(** strings.Contains. *)
Definition contains (s sub : string) : bool := contains_chars (chars sub) (chars s).

(** The first of some texts that is not empty. *)
Definition first_nonempty (l : list string) : string :=
  default "" (head (filter (λ s, s ≠ "") l)).

(** [m[key].(string)], lowered and trimmed. *)
Definition text_member (l : list (string * json)) (k : string) : string :=
  match assoc k l with Some (JStr s) => to_lower (trim_space s) | _ => "" end.

(** ** The status of a frame (executor.go) *)

Section traversals.
Context `{MapRange}.

(** What a function gives on the members of a map, in the order of the visit. *)
Definition in_range_order {A} (l : list (string * A)) : list A :=
  omap (λ k, assoc k l) (range l.*1).

Fixpoint taskStatusFromValue (v : json) : string :=
  match v with
  | JObj l =>
      let nested := List.map (λ kv, match kv with (k, x) => (k, taskStatusFromValue x) end) l in
      first_nonempty
        ([text_member l "execution_status"] ++ in_range_order nested ++
         (text_member l <$> ["status"; "kind"; "type"]))
  | JArr l => first_nonempty (List.map taskStatusFromValue l)
  | _ => ""
  end.

Definition isTerminalTaskStatus (s : string) : bool :=
  bool_decide (s ∈ ["finished"; "failed"; "error"; "stuck"; "paused"]).

(** ** The published text of a frame (openhands_logs.go) *)

Record publishedLog : Type := mkLog { pl_stream : string; pl_content : string }.

#[export] Instance publishedLog_eq_dec : EqDecision publishedLog.
Proof using. solve_decision. Defined.

(** firstString: the first key that holds a string, also an empty one. *)
Fixpoint firstString (l : list (string * json)) (keys : list string) : string :=
  match keys with
  | [] => ""
  | k :: keys' =>
      match assoc k l with Some (JStr s) => trim_space s | _ => firstString l keys' end
  end.

(** appendTextContent: the calls of appendLog it makes. *)
Fixpoint appendTextContent (stream : string) (v : json) : list publishedLog :=
  match v with
  | JStr s => [mkLog stream s]
  | JArr l => concat (List.map (appendTextContent stream) l)
  | JObj l =>
      let members :=
        List.map (λ kv, match kv with (k, x) => (k, appendTextContent stream x) end) l in
      match assoc "text" l with Some (JStr s) => [mkLog stream s] | _ => [] end ++
      concat (List.map (λ k, default [] (assoc k members))
        ["content"; "command"; "output"; "stdout"; "stderr"; "message"; "summary"])
  | _ => []
  end.

Definition published_keys : list string :=
  ["content"; "message"; "reasoning"; "reasoning_content"; "thought"; "action"; "observation";
   "output"; "stdout"; "stderr"].

Definition text_of (l : list (string * json)) (stream k : string) : list publishedLog :=
  default [] (appendTextContent stream <$> assoc k l).

(** collectPublishedLogs: the calls of appendLog it makes. *)
Fixpoint collectPublishedLogs (contextKind : string) (v : json) : list publishedLog :=
  match v with
  | JArr l => concat (List.map (collectPublishedLogs contextKind) l)
  | JObj l =>
      let kind := to_lower (firstString l ["kind"; "type"; "event_type"]) in
      let role := to_lower (firstString l ["role"; "source"]) in
      let workContext :=
        contains kind "observation" || contains kind "tool" || contains kind "action" ||
        contains kind "command" || contains kind "terminal" ||
        contains contextKind "observation" || contains contextKind "tool" ||
        contains contextKind "action" in
      let nested :=
        List.map (λ kv, match kv with (k, x) =>
          (k, if bool_decide (k ∈ published_keys) then [] else collectPublishedLogs kind x) end) l in
      (if bool_decide (role = "assistant" ∨ role = "agent")
       then text_of l "reasoning" "content" ++ text_of l "reasoning" "message" else []) ++
      concat (List.map (text_of l "reasoning") ["reasoning"; "reasoning_content"; "thought"]) ++
      (if workContext
       then concat (List.map (text_of l "work")
              ["content"; "action"; "observation"; "output"; "stdout"; "stderr"; "message"])
       else []) ++
      concat (in_range_order nested)
  | _ => []
  end.

Definition fingerprint (p : publishedLog) : string :=
  pl_stream p +:+ String zero (pl_content p).

(** appendLog: trimmed text, not empty and not seen before. *)
Definition appendLog (acc : gset string * list publishedLog) (p : publishedLog) :
    gset string * list publishedLog :=
  let content := trim_space (pl_content p) in
  let q := mkLog (pl_stream p) content in
  if bool_decide (content = "") then acc
  else if bool_decide (fingerprint q ∈ acc.1) then acc
  else ({[fingerprint q]} ∪ acc.1, acc.2 ++ [q]).

Definition publishedLogsFromOpenHands (v : json) : list publishedLog :=
  (foldl appendLog (∅, []) (collectPublishedLogs "" v)).2.
End traversals.

(** ** Prompts, conversations and images *)

(** promptFromV0002Payload. *)
Definition promptFromV0002Payload `{JsonCodec} (payload : string) : string :=
  if bool_decide (payload = "") then ""
  else
    let members := match json_unmarshal payload with Some (JObj l) => l | _ => [] end in
    let found := first_nonempty
      ((λ k, match assoc k members with Some (JStr s) => s | _ => "" end) <$>
       ["prompt"; "instructions"; "input"; "message"]) in
    if bool_decide (found = "") then payload else found.

Record LLM : Type := mkLLM {
  llm_model : string; llm_key : string; llm_usage : string; llm_url : string }.

(** openhands.ConversationConfig: the workspace, the message with its run flag, and the inline
    agent or the profile. *)
Record ConversationConfig : Type := mkConversation {
  cc_workspace : string; cc_prompt : string; cc_run : bool;
  cc_agent : option (list string * LLM); cc_profile : string }.

Record V0002ImageReference : Type := mkImageRef {
  ir_repository : string; ir_tag : string; ir_digest : string }.

(** The reference handed to Docker. *)
Definition image_ref (i : V0002ImageReference) : string :=
  if bool_decide (ir_tag i ≠ "") then ir_repository i +:+ ":" +:+ ir_tag i
  else if bool_decide (ir_digest i ≠ "") then ir_repository i +:+ "@" +:+ ir_digest i
  else ir_repository i.

Definition shortID (id : string) : string :=
  if (8 <=? String.length id)%nat then String.substring 0 8 id else id.

(** strings.TrimRight with one slash. *)
Fixpoint drop_slashes (l : list ascii) : list ascii :=
  match l with
  | c :: l' => if bool_decide (c = "/"%char) then drop_slashes l' else l
  | [] => []
  end.
Definition trim_right_slash (s : string) : string :=
  of_chars (reverse (drop_slashes (reverse (chars s)))).

Definition OpenHandsWSURL (containerURL conversation : string) : string :=
  let base := trim_right_slash containerURL in
  let base :=
    if has_prefix "https://" base then "wss://" +:+ trim_prefix "https://" base
    else if has_prefix "http://" base then "ws://" +:+ trim_prefix "http://" base
    else base in
  base +:+ "/sockets/events/" +:+ conversation.

(** ** The environment of a container *)

Definition envToDockerEnv (values : gmap string string) : list string :=
  omap (λ k, (λ v, k +:+ "=" +:+ v) <$> values !! k)
       (merge_sort String.le (map_to_list values).*1).

Definition session_key : string := "SESSION_API_KEY".

Definition dockerEnvWithSessionAPIKey (values : gmap string string) (key : string) : list string :=
  envToDockerEnv
    (if bool_decide (key = "") then delete session_key values else <[session_key := key]> values).

(** ** Properties *)

Lemma envToDockerEnv_elem values e :
  e ∈ envToDockerEnv values ↔ ∃ k v, values !! k = Some v ∧ e = k +:+ "=" +:+ v.
Proof.
  unfold envToDockerEnv. rewrite list_elem_of_omap. split.
  - intros (k & _ & Hk). destruct (values !! k) as [v|] eqn:Hv; simplify_eq/=. eauto.
  - intros (k & v & Hv & ->). exists k. rewrite Hv. split; [|done].
    rewrite merge_sort_Permutation, list_elem_of_fmap. exists (k, v). split; [done|].
    by apply elem_of_map_to_list.
Qed.

(** The variables of a container: those of the task, except that SESSION_API_KEY is exactly the
    configured key, and absent without one. *)
Theorem dockerEnvWithSessionAPIKey_spec values key e :
  e ∈ dockerEnvWithSessionAPIKey values key ↔
  (key ≠ "" ∧ e = session_key +:+ "=" +:+ key) ∨
  (∃ k v, k ≠ session_key ∧ values !! k = Some v ∧ e = k +:+ "=" +:+ v).
Proof.
  unfold dockerEnvWithSessionAPIKey. rewrite envToDockerEnv_elem. case_bool_decide as Hk.
  - setoid_rewrite lookup_delete_Some. naive_solver.
  - setoid_rewrite lookup_insert_Some. naive_solver.
Qed.

Section published.
Context `{MapRange}.

(** What appendLog keeps of the entries so far. *)
Definition collected (calls : list publishedLog) (acc : gset string * list publishedLog) : Prop :=
  NoDup (fingerprint <$> acc.2) ∧ (∀ p, p ∈ acc.2 → fingerprint p ∈ acc.1) ∧
  (∀ p, p ∈ acc.2 → pl_content p ≠ "" ∧
     ∃ q, q ∈ calls ∧ pl_stream q = pl_stream p ∧ trim_space (pl_content q) = pl_content p) ∧
  (∀ q, q ∈ calls → trim_space (pl_content q) ≠ "" →
     fingerprint (mkLog (pl_stream q) (trim_space (pl_content q))) ∈ acc.1) ∧
  (∀ f, f ∈ acc.1 → f ∈ fingerprint <$> acc.2).

Lemma collected_snoc calls acc p :
  collected calls acc → collected (calls ++ [p]) (appendLog acc p).
Proof using.
  intros (Hn & Hs & Hc & Hq & Hf). unfold appendLog.
  assert (Hc' : ∀ r, r ∈ acc.2 → pl_content r ≠ "" ∧ ∃ q, q ∈ calls ++ [p] ∧
     pl_stream q = pl_stream r ∧ trim_space (pl_content q) = pl_content r).
  { intros r Hr. destruct (Hc r Hr) as (Hne & q & Hin & Hq2). split; [done|].
    exists q. split; [|done]. apply elem_of_app. by left. }
  case_bool_decide as He; [|case_bool_decide as Hin]; split_and!; simpl; try done.
  - intros q [Hq1|Hq1%list_elem_of_singleton]%elem_of_app; [by apply Hq|by subst].
  - intros q [Hq1|Hq1%list_elem_of_singleton]%elem_of_app; [by apply Hq|by subst].
  - rewrite fmap_app. apply NoDup_app. split_and!; [done| |apply NoDup_singleton].
    intros f Hf1 Hf2%list_elem_of_singleton. subst. apply Hin.
    apply list_elem_of_fmap in Hf1 as (r & -> & Hr). by apply Hs.
  - intros r [Hr|Hr%list_elem_of_singleton]%elem_of_app; [apply Hs in Hr|subst]; set_solver.
  - intros r [Hr|Hr%list_elem_of_singleton]%elem_of_app; [by apply Hc'|subst; simpl].
    split; [done|]. exists p. split; [|done]. apply elem_of_app. right. by left.
  - intros q [Hq1|Hq1%list_elem_of_singleton]%elem_of_app Hne; [|subst; set_solver].
    apply elem_of_union. right. by apply Hq.
  - intros f [Hf1%elem_of_singleton|Hf1]%elem_of_union; rewrite fmap_app, elem_of_app;
      [right; subst; by left|left; by apply Hf].
Qed.

Lemma collected_all calls : collected calls (foldl appendLog (∅, []) calls).
Proof using.
  induction calls as [|p calls IH] using rev_ind.
  - split_and!; simpl; [constructor|intros ? Hp; by apply elem_of_nil in Hp..|].
    intros ? Hf. by apply elem_of_empty in Hf.
  - rewrite foldl_app. by apply collected_snoc.
Qed.

(** The chunks of one frame: every text the frame publishes is trimmed and, if anything is left,
    has one chunk with its fingerprint, and there are no other chunks. *)
Theorem publishedLogs_once v :
  NoDup (publishedLogsFromOpenHands v) ∧
  (∀ p, p ∈ publishedLogsFromOpenHands v → pl_content p ≠ "" ∧
     ∃ q, q ∈ collectPublishedLogs "" v ∧ pl_stream q = pl_stream p ∧
          trim_space (pl_content q) = pl_content p) ∧
  (∀ q, q ∈ collectPublishedLogs "" v → trim_space (pl_content q) ≠ "" →
     ∃ p, p ∈ publishedLogsFromOpenHands v ∧
          fingerprint p = fingerprint (mkLog (pl_stream q) (trim_space (pl_content q)))) ∧
  NoDup (fingerprint <$> publishedLogsFromOpenHands v).
Proof using.
  unfold publishedLogsFromOpenHands. destruct (collected_all (collectPublishedLogs "" v))
    as (Hn & _ & Hc & Hq & Hf). split_and!; [by eapply NoDup_fmap_1|done| |done].
  intros q Hin Hne. apply Hq, Hf, list_elem_of_fmap in Hne as (p & He & Hp); [|done]. eauto.
Qed.
End published.

(** A frame whose members carry different statuses: which of them counts depends on the order in
    which Go visits the map. *)
Example frame_status_ambiguous :
  ∃ v r r', @taskStatusFromValue r v = "finished" ∧ @taskStatusFromValue r' v = "running".
Proof.
  exists (JObj [("agent", JObj [("execution_status", JStr "finished")]);
                ("tool", JObj [("execution_status", JStr "running")])]).
  exists {| range l := l; range_perm l := reflexivity _ |}.
  exists {| range l := reverse l; range_perm l := reverse_Permutation l |}.
  split; reflexivity.
Qed.
