(* ===== verification/Docker.v ===== *)
(** * The Docker Executor (executor/docker_openhands/internal/executor)

    executor.go, v0002.go, task_controls.go and the publication of openhands_logs.go as
    goroutines. The shared state is the Executor and the task slots, which goroutines share by
    reference, so they live on a heap. A section under a mutex is one atomic step; what leaves
    the process (State Registry, Docker, OpenHands, clocks, timers, contexts) is a call. The
    record [x_trace] keeps every call and its answer; the code does not read it. *)

From stdpp Require Import base gmap strings list sorting.
From S2P Require Import Prelude Platform Keyrings OpenHands Conc.
#[local] Open Scope Z_scope.

(** ** Configuration *)

(** The settings that the task machine reads and the cleanup identity; [cf_host] is the published
    host of Docker; durations in nanoseconds. *)
Record Config : Type := mkConfig {
  cf_executor : string; cf_cleanup : string; cf_host : string; cf_scope : string; cf_team : string; cf_tag : string;
  cf_registry_url : string; cf_socket : string;
  cf_max : Z; cf_port_start : Z; cf_port_end : Z;
  cf_api_key : string; cf_pull_policy : string;
  cf_startup_timeout : Z; cf_drain_timeout : Z; cf_dial_timeout : Z;
  cf_finished_delay : Z; cf_failed_delay : Z;
  cf_workspace : string; cf_usage : string; cf_profile : string; cf_initial_run : bool }.

(** net/url: the scheme and the host name of a URL that parses. *)
Class UrlParse := { url_parse : string → option (string * string) }.

(** Config.Validate: the first check that fails. *)
Definition Validate `{UrlParse} (c : Config) : option string :=
  if bool_decide (GoStrings.trim_space (cf_socket c) = "") then Some "DOCKER_SOCKET_PATH"
  else if cf_max c <? 1 then Some "EXECUTOR_MAX_CONTAINERS"
  else if cf_port_end c <=? cf_port_start c then Some "OPENHANDS_HOST_PORT_END"
  else if (cf_port_end c - cf_port_start c + 1) <? cf_max c then Some "host port range size"
  else if bool_decide (cf_registry_url c = "") then Some "EXECUTOR_STATE_REGISTRY_URL"
  else if bool_decide (cf_scope c ≠ "team" ∧ cf_scope c ≠ "system") then Some "EXECUTOR_SCOPE"
  else if bool_decide (cf_scope c = "team" ∧ cf_team c = "") then Some "EXECUTOR_TEAM_ID"
  else if bool_decide (cf_scope c = "system" ∧ cf_team c ≠ "") then Some "EXECUTOR_TEAM_ID"
  else if bool_decide (cf_tag c = "") then Some "EXECUTOR_AUTHORIZED_TAG"
  else
    match url_parse (cf_registry_url c) with
    | Some (scheme, host) =>
        if bool_decide ((scheme ≠ "http" ∧ scheme ≠ "https") ∨ host = "")
        then Some "EXECUTOR_STATE_REGISTRY_URL"
        else if cf_dial_timeout c <=? 0 then Some "OPENHANDS_WS_DIAL_TIMEOUT_SECONDS"
        else if cf_startup_timeout c <=? 0 then Some "OPENHANDS_STARTUP_TIMEOUT_SECONDS"
        else if cf_drain_timeout c <=? 0 then Some "OPENHANDS_DRAIN_TIMEOUT_SECONDS"
        else if bool_decide (cf_workspace c = "") then Some "OPENHANDS_WORKSPACE"
        else if cf_finished_delay c <? 0 then Some "EXECUTOR_FINISHED_CLEANUP_DELAY"
        else if cf_failed_delay c <? 0 then Some "EXECUTOR_FAILED_CLEANUP_DELAY"
        else None
    | None => Some "EXECUTOR_STATE_REGISTRY_URL"
    end.

(** ** Wire types (platform/types.go) *)

Record V0002TaskSummary : Type := mkSummary {
  ts_id : string; ts_team : string; ts_tag : string; ts_state : string; ts_ingested : Z }.

Record V0002TaskListEntry : Type := mkTaskEntry {
  te_id : string; te_team : string; te_source_system : string; te_source_id : string;
  te_type : string; te_tag : string; te_payload : string; te_state : string;
  te_command : option string; te_executor : option string; te_project : option string;
  te_environment : option string; te_image : option V0002ImageReference;
  te_resolved : option V0002ImageReference; te_image_source : option string;
  te_ingested : string; te_claimed : option string }.

Record V0002ClaimResponse : Type := mkClaim {
  cl_claim : string; cl_task : V0002TaskListEntry; cl_image : option V0002ImageReference;
  cl_image_source : option string; cl_claimed_at : option string;
  cl_environment : option string; cl_launch : bool; cl_token : option string }.

(** A payload is the map the code marshals; an instant is in nanoseconds. *)
Record V0002TaskEventEnvelope : Type := mkTaskEvent {
  ev_id : string; ev_team : string; ev_task : string; ev_executor : string; ev_type : string;
  ev_at : Z; ev_payload : gmap string string }.

Record V0002ExecutorEventEnvelope : Type := mkExecutorEvent {
  xe_id : string; xe_team : option string; xe_executor : string; xe_type : string;
  xe_at : Z; xe_running : option Z }.

Record V0002TaskControl : Type := mkTaskControl {
  xc_id : string; xc_task : string; xc_action : string; xc_status : string }.

(** Docker: what a container is started with, and its reference. *)
Record ContainerSpec : Type := mkSpec {
  cs_name : string; cs_image : string; cs_env : list string; cs_labels : gmap string string;
  cs_port : Z }.
Record ContainerRef : Type := mkRef { rf_id : string; rf_name : string }.
Record EventMessage : Type := mkMessage { em_action : string; em_id : string; em_name : string }.

Definition LabelTaskID : string := "flowai.task_id".

(** An error: the status and code when it is an HTTPError, and its text. *)
Record xerror : Type := mkError { er_http : option (Z * string); er_text : string }.

Definition IsNotFound (e : xerror) : bool :=
  match er_http e with Some (status, _) => status =? 404 | None => false end.
Definition isCode (e : xerror) (code : string) : bool :=
  match er_http e with Some (status, c) => (status =? 409) && bool_decide (c = code) | None => false end.
Definition IsTaskAlreadyClaimed (e : xerror) : bool := isCode e "task_already_claimed".
Definition IsOlderTaskMustBeClaimedFirst (e : xerror) : bool :=
  isCode e "older_task_must_be_claimed_first".

(** ** Calls and their answers *)

(** What a read of the event stream gives: a decoded frame or one that does not decode, a normal
    closure, or an error, which the end of the context is too. *)
Inductive frame : Type :=
| FrameData (v : option json)
| FrameClosed
| FrameError (text : string).

Inductive docker_event : Type :=
| WatchEnded
| WatchEvent (m : EventMessage).

Inductive xcall : Type :=
| XUuid | XNow
| XPollTick
| XDiscoverTasks (tag : string) (limit : Z)
| XClaimTask (task command : string)
| XWaitClaim (until : Z)
| XAppendTaskEvent (e : V0002TaskEventEnvelope)
| XAppendExecutorEvent (e : V0002ExecutorEventEnvelope)
| XRegisterExecutor (running : Z)
| XListLeftover (cleanup : string)
| XOpenEnvironment (task token : string)
| XPullImage (image policy : string)
| XStartContainer (spec : ContainerSpec)
| XStopContainer (id : string) (timeout : Z)
| XForceKill (id : string)
| XDockerEvent (id : string)
| XHealthCheck (url : string) (timeout : Z)
| XStartConversation (url : string) (c : ConversationConfig)
| XDial (url : string)
| XRetryDial
| XReadMessage (url : string)
| XAppendTaskLog (task id stream content : string) (at_ : Z)
| XControlTick
| XListAssignedControls (task : string)
| XAppendTaskControlEvent (task control id status message : string) (at_ : Z)
| XPauseConversation (url conversation : string)
| XWaitDelay (until : Z)
| XDrainExpired.

(** The answers: [None] is success where only an error can come back; [false] means that the
    context ended first; XDrainExpired answers whether the deadline of the drain has passed. *)
Definition xres (c : xcall) : Type :=
  match c with
  | XUuid => string
  | XNow => Z
  | XPollTick | XWaitClaim _ | XRetryDial | XControlTick | XDrainExpired => bool
  | XDiscoverTasks _ _ => result xerror (list V0002TaskSummary)
  | XClaimTask _ _ => result xerror V0002ClaimResponse
  | XOpenEnvironment _ _ => result xerror (gmap string string)
  | XStartContainer _ => result xerror ContainerRef
  | XListLeftover _ => result xerror (list ContainerRef)
  | XDockerEvent _ => docker_event
  | XStartConversation _ _ => result xerror string
  | XReadMessage _ => frame
  | XListAssignedControls _ => result xerror (list V0002TaskControl)
  | XWaitDelay _ => ()
  | _ => option xerror
  end.

Record answered : Type := mkAnswered { an_call : xcall; an_answer : xres an_call }.

(** The documented behaviour of the outside: a claim is answered with the task it was made for
    (buildClaimResponseForRow of the State Registry). *)
Definition sane (c : xcall) : xres c → Prop :=
  match c with
  | XClaimTask task _ => λ r, match r with Ok cl => te_id (cl_task cl) = task | Err _ => True end
  | _ => λ _, True
  end.

(** ** State *)

Inductive State : Type :=
| StateStarting | StateRegistering | StateReady | StateBusy | StateStopping | StateStopped
| StateFailed.

#[export] Instance state_eq_dec : EqDecision State.
Proof. solve_decision. Defined.

(** taskLifecycleNone is the absence of an entry. *)
Inductive taskLifecycle : Type := LifecycleRunning | LifecycleTerminal.

#[export] Instance taskLifecycle_eq_dec : EqDecision taskLifecycle.
Proof. solve_decision. Defined.

Record v0002TaskRef : Type := mkTaskRef {
  tr_task : V0002TaskListEntry; tr_command : string; tr_image : string; tr_source : string;
  tr_key : string; tr_url : string; tr_model : string }.

(** A taskSlot object. A once and a channel that is only closed are flags. *)
Record taskSlot : Type := mkSlot {
  sl_ref : v0002TaskRef; sl_container : string; sl_name : string; sl_port : Z; sl_started : Z;
  sl_conversation : string; sl_url : string;
  sl_terminal : bool; sl_cause : string; sl_cleaned : bool;
  sl_accepted : string; sl_accepted_at : Z;
  sl_cancelled : bool; sl_done : bool; sl_exited : bool }.

Definition slotTaskID (s : taskSlot) : string := te_id (tr_task (sl_ref s)).

Record Exec : Type := mkExec {
  x_slots : gmap string nat; x_heap : gmap nat taskSlot;
  x_next_port : Z; x_last_running : Z;
  x_accepted : gmap string taskLifecycle; x_reservations : Z;
  x_commands : gmap string string; x_published : gset string;
  x_state : State; x_openhands_ok : bool; x_trace : list answered }.

(** ** Updates *)

Definition put_slots v (σ : Exec) : Exec :=
  mkExec v (x_heap σ) (x_next_port σ) (x_last_running σ) (x_accepted σ) (x_reservations σ)
    (x_commands σ) (x_published σ) (x_state σ) (x_openhands_ok σ) (x_trace σ).
Definition put_heap v (σ : Exec) : Exec :=
  mkExec (x_slots σ) v (x_next_port σ) (x_last_running σ) (x_accepted σ) (x_reservations σ)
    (x_commands σ) (x_published σ) (x_state σ) (x_openhands_ok σ) (x_trace σ).
Definition put_next_port v (σ : Exec) : Exec :=
  mkExec (x_slots σ) (x_heap σ) v (x_last_running σ) (x_accepted σ) (x_reservations σ) (x_commands
    σ) (x_published σ) (x_state σ) (x_openhands_ok σ) (x_trace σ).
Definition put_last_running v (σ : Exec) : Exec :=
  mkExec (x_slots σ) (x_heap σ) (x_next_port σ) v (x_accepted σ) (x_reservations σ) (x_commands σ)
    (x_published σ) (x_state σ) (x_openhands_ok σ) (x_trace σ).
Definition put_accepted v (σ : Exec) : Exec :=
  mkExec (x_slots σ) (x_heap σ) (x_next_port σ) (x_last_running σ) v (x_reservations σ)
    (x_commands σ) (x_published σ) (x_state σ) (x_openhands_ok σ) (x_trace σ).
Definition put_reservations v (σ : Exec) : Exec :=
  mkExec (x_slots σ) (x_heap σ) (x_next_port σ) (x_last_running σ) (x_accepted σ) v (x_commands σ)
    (x_published σ) (x_state σ) (x_openhands_ok σ) (x_trace σ).
Definition put_commands v (σ : Exec) : Exec :=
  mkExec (x_slots σ) (x_heap σ) (x_next_port σ) (x_last_running σ) (x_accepted σ) (x_reservations
    σ) v (x_published σ) (x_state σ) (x_openhands_ok σ) (x_trace σ).
Definition put_published v (σ : Exec) : Exec :=
  mkExec (x_slots σ) (x_heap σ) (x_next_port σ) (x_last_running σ) (x_accepted σ) (x_reservations
    σ) (x_commands σ) v (x_state σ) (x_openhands_ok σ) (x_trace σ).
Definition put_state v (σ : Exec) : Exec :=
  mkExec (x_slots σ) (x_heap σ) (x_next_port σ) (x_last_running σ) (x_accepted σ) (x_reservations
    σ) (x_commands σ) (x_published σ) v (x_openhands_ok σ) (x_trace σ).
Definition put_openhands_ok v (σ : Exec) : Exec :=
  mkExec (x_slots σ) (x_heap σ) (x_next_port σ) (x_last_running σ) (x_accepted σ) (x_reservations
    σ) (x_commands σ) (x_published σ) (x_state σ) v (x_trace σ).
Definition put_trace v (σ : Exec) : Exec :=
  mkExec (x_slots σ) (x_heap σ) (x_next_port σ) (x_last_running σ) (x_accepted σ) (x_reservations
    σ) (x_commands σ) (x_published σ) (x_state σ) (x_openhands_ok σ) v.

Definition as_terminal (s : taskSlot) : taskSlot :=
  mkSlot (sl_ref s) (sl_container s) (sl_name s) (sl_port s) (sl_started s) (sl_conversation s)
    (sl_url s) true (sl_cause s) (sl_cleaned s) (sl_accepted s) (sl_accepted_at s) (sl_cancelled
    s) (sl_done s) (sl_exited s).
Definition with_cause (cause : string) (s : taskSlot) : taskSlot :=
  mkSlot (sl_ref s) (sl_container s) (sl_name s) (sl_port s) (sl_started s) (sl_conversation s)
    (sl_url s) (sl_terminal s) cause (sl_cleaned s) (sl_accepted s) (sl_accepted_at s)
    (sl_cancelled s) (sl_done s) (sl_exited s).
Definition as_cleaned (s : taskSlot) : taskSlot :=
  mkSlot (sl_ref s) (sl_container s) (sl_name s) (sl_port s) (sl_started s) (sl_conversation s)
    (sl_url s) (sl_terminal s) (sl_cause s) true (sl_accepted s) (sl_accepted_at s) (sl_cancelled
    s) (sl_done s) (sl_exited s).
Definition with_accepted (event : string) (at_ : Z) (s : taskSlot) : taskSlot :=
  mkSlot (sl_ref s) (sl_container s) (sl_name s) (sl_port s) (sl_started s) (sl_conversation s)
    (sl_url s) (sl_terminal s) (sl_cause s) (sl_cleaned s) event at_ (sl_cancelled s) (sl_done s)
    (sl_exited s).
Definition as_cancelled (s : taskSlot) : taskSlot :=
  mkSlot (sl_ref s) (sl_container s) (sl_name s) (sl_port s) (sl_started s) (sl_conversation s)
    (sl_url s) (sl_terminal s) (sl_cause s) (sl_cleaned s) (sl_accepted s) (sl_accepted_at s) true
    (sl_done s) (sl_exited s).
Definition as_done (s : taskSlot) : taskSlot :=
  mkSlot (sl_ref s) (sl_container s) (sl_name s) (sl_port s) (sl_started s) (sl_conversation s)
    (sl_url s) (sl_terminal s) (sl_cause s) (sl_cleaned s) (sl_accepted s) (sl_accepted_at s)
    (sl_cancelled s) true (sl_exited s).
Definition as_exited (s : taskSlot) : taskSlot :=
  mkSlot (sl_ref s) (sl_container s) (sl_name s) (sl_port s) (sl_started s) (sl_conversation s)
    (sl_url s) (sl_terminal s) (sl_cause s) (sl_cleaned s) (sl_accepted s) (sl_accepted_at s)
    (sl_cancelled s) (sl_done s) true.
Definition with_conversation (id url : string) (s : taskSlot) : taskSlot :=
  mkSlot (sl_ref s) (sl_container s) (sl_name s) (sl_port s) (sl_started s) id url (sl_terminal s)
    (sl_cause s) (sl_cleaned s) (sl_accepted s) (sl_accepted_at s) (sl_cancelled s) (sl_done s)
    (sl_exited s).

(** ** Goroutines *)

(** Run, pollLoop, the joining loop of drain, runTaskV0002, the loop of streamOpenHandsEvents,
    watchContainerExitV0002 and watchTaskControls. *)
Inductive thread : Type :=
| TRun | TPoll | TJoin (l : list nat)
| TTask (o : nat) | TStream (o : nat) (conversation : string)
| TWatch (o : nat) | TControls (o : nat) (conversation : string).

Definition go : Type → Type := prog Exec thread xres.

Definition record_call (c : xcall) (r : xres c) (σ : Exec) : Exec :=
  put_trace (mkAnswered c r :: x_trace σ) σ.

Definition slot_at (σ : Exec) (o : nat) : option taskSlot := x_heap σ !! o.

(** The slot of an installed task. *)
Definition slot_of (σ : Exec) (task : string) : option taskSlot := x_slots σ !! task ≫= slot_at σ.

Section executor.
Context {JC : JsonCodec} {TC : TimeCodec} {MR : MapRange}.
Context (cfg : Config).

Definition xcall_ (c : xcall) : go (xres c) := call c.

(** Read or change a field of a slot. *)
Definition slot_field {A} (o : nat) (f : taskSlot → A) (d : A) : go A :=
  read (λ σ, match slot_at σ o with Some s => f s | None => d end).
Definition alter_slot (o : nat) (f : taskSlot → taskSlot) : go () :=
  update (λ σ, put_heap (alter f o (x_heap σ)) σ).

Definition setState (s : State) : go () := update (put_state s).
Definition slotCount : go Z := read (λ σ, Z.of_nat (size (x_slots σ))).
Definition getSlot (task : string) : go (option nat) := read (λ σ, x_slots σ !! task).
Definition lifecycle_of (task : string) : go (option taskLifecycle) :=
  read (λ σ, x_accepted σ !! task).
Definition markAccepted (task : string) (stage : taskLifecycle) : go () :=
  update (λ σ, put_accepted (<[task := stage]> (x_accepted σ)) σ).

Definition v2002FreeSlots : go Z :=
  read (λ σ, cf_max cfg - Z.of_nat (size (x_slots σ)) - x_reservations σ).

(** commandIDFor: the identifier that is drawn here is dropped when one is cached. *)
Definition commandIDFor (task : string) : go string :=
  uuid ← xcall_ XUuid;
  atomic (λ σ,
    match x_commands σ !! task with
    | Some v => if bool_decide (v ≠ "") then (σ, v)
                else (put_commands (<[task := "cmd-" +:+ uuid]> (x_commands σ)) σ, "cmd-" +:+ uuid)
    | None => (put_commands (<[task := "cmd-" +:+ uuid]> (x_commands σ)) σ, "cmd-" +:+ uuid)
    end).

(** markAcceptedV0002: whether the task was not accepted before. *)
Definition markAcceptedV0002 (task : string) : go bool :=
  atomic (λ σ,
    match x_accepted σ !! task with
    | Some _ => (σ, false)
    | None => (put_accepted (<[task := LifecycleRunning]> (x_accepted σ)) σ, true)
    end).

Definition terminalizeAcceptedV0002 (task : string) : go () :=
  update (λ σ, put_commands (delete task (x_commands σ))
                 (put_accepted (delete task (x_accepted σ)) σ)).

Definition reserveLocalSlot : go () := update (λ σ, put_reservations (x_reservations σ + 1) σ).
Definition releaseLocalSlotReservation : go () :=
  update (λ σ, if 0 <? x_reservations σ then put_reservations (x_reservations σ - 1) σ else σ).

(** allocatePort: the first port from nextPort on that no slot has. *)
Definition port_used (σ : Exec) (p : Z) : bool :=
  bool_decide (map_Exists (λ _ o, sl_port <$> slot_at σ o = Some p) (x_slots σ)).
Definition free_port (σ : Exec) : option Z :=
  List.find (λ p, negb (port_used σ p)) (seqZ (x_next_port σ) (cf_port_end cfg - x_next_port σ + 1)).
Definition allocatePort : go (option Z) :=
  atomic (λ σ, match free_port σ with
               | Some p => (put_next_port (p + 1) σ, Some p)
               | None => (σ, None)
               end).
Definition releasePort (port : Z) : go () :=
  update (λ σ, if port <? x_next_port σ then put_next_port port σ else σ).

(** claimTerminal: true exactly once in the life of a slot. *)
Definition claimTerminal (o : nat) : go bool :=
  atomic (λ σ,
    match slot_at σ o with
    | Some s => if sl_terminal s then (σ, false)
                else (put_heap (<[o := as_terminal s]> (x_heap σ)) σ, true)
    | None => (σ, false)
    end).

(** *** Reports *)

Definition appendV0002TaskEventForTeam (task team type : string) (payload : gmap string string) :
    go (option xerror) :=
  uuid ← xcall_ XUuid;
  now ← xcall_ XNow;
  xcall_ (XAppendTaskEvent
    (mkTaskEvent ("evt-" +:+ uuid) team task (cf_executor cfg) type now payload)).

Definition v0002TaskTeamID (task : string) : go string :=
  read (λ σ, match slot_of σ task with
             | Some s => te_team (tr_task (sl_ref s))
             | None => if bool_decide (cf_scope cfg = "team") then cf_team cfg else ""
             end).

Definition appendV0002TaskEvent (task type : string) (payload : gmap string string) :
    go (option xerror) :=
  team ← v0002TaskTeamID task;
  appendV0002TaskEventForTeam task team type payload.

(** The quiet variants log an error and go on. *)
Definition appendV0002TaskEventQuietForTeam (task team type : string)
    (payload : gmap string string) : go () :=
  _ ← appendV0002TaskEventForTeam task team type payload; mret ().
Definition appendV0002TaskEventQuiet (task type : string) (payload : gmap string string) : go () :=
  _ ← appendV0002TaskEvent task type payload; mret ().

Definition own_team : option string :=
  if bool_decide (cf_scope cfg = "team") then Some (cf_team cfg) else None.

Definition appendV0002ExecutorEvent (type : string) (running : option Z) : go () :=
  uuid ← xcall_ XUuid;
  now ← xcall_ XNow;
  _ ← xcall_ (XAppendExecutorEvent
    (mkExecutorEvent ("evt-" +:+ uuid) own_team (cf_executor cfg) type now running));
  mret ().

Definition refreshRegistrationV0002 (running : Z) : go () :=
  _ ← xcall_ (XRegisterExecutor running); mret ().

(** observeSlotCount: the new count is reported once; [Some true] when it left zero. *)
Definition observeSlotCount : go () :=
  current ← slotCount;
  changed ← atomic (λ σ,
    if current =? x_last_running σ then (σ, None)
    else (put_last_running current σ, Some ((x_last_running σ =? 0) && (0 <? current))));
  match changed with
  | None => mret ()
  | Some becomingBusy =>
      _ ← refreshRegistrationV0002 current;
      if becomingBusy : bool then
        _ ← setState StateBusy;
        appendV0002ExecutorEvent "busy" (Some current)
      else mret ()
  end.

(** *** Taking a task (startTaskV0002) *)

Definition phase_payload (phase : string) : gmap string string := {["phase" := phase]}.

(** The wait for the millisecond after claimed_at; [false] when the context ended first. *)
Definition wait_claimed (claim : V0002ClaimResponse) : go bool :=
  match cl_claimed_at claim ≫= parse_rfc3339 with
  | None => mret true
  | Some at_ =>
      let target := at_ / 1000000 * 1000000 + 1000000 in
      now ← xcall_ XNow;
      if now <? target then xcall_ (XWaitClaim target) else mret true
  end.

(** v2002OpenEnvironment. *)
Definition v2002OpenEnvironment (task token : string) : go (result xerror (gmap string string)) :=
  r ← xcall_ (XOpenEnvironment task token);
  mret match r with
       | Err e => Err (if IsNotFound e then mkError None "environment is unknown or unavailable"
                       else e)
       | Ok values => Ok values
       end.

(** The image of a claim: the response's own, else that of its task. *)
Definition has_repository (i : option V0002ImageReference) : bool :=
  match i with Some i => bool_decide (ir_repository i ≠ "") | None => false end.
Definition claim_image (claim : V0002ClaimResponse) : option V0002ImageReference :=
  let image := if has_repository (cl_image claim) then cl_image claim
               else te_resolved (cl_task claim) in
  if has_repository image then image else None.

Definition container_spec (task command : string) (claim : V0002ClaimResponse)
    (image : V0002ImageReference) (values : gmap string string) (port : Z) : ContainerSpec :=
  mkSpec ("oh-" +:+ shortID task) (image_ref image)
    (dockerEnvWithSessionAPIKey values (cf_api_key cfg))
    (list_to_map [("flowai.executor_id", cf_executor cfg); ("flowai.cleanup_id", cf_cleanup cfg);
       ("flowai.runtime", "openhands"); (LabelTaskID, task); ("flowai.team_id", te_team (cl_task claim));
       ("flowai.executor_scope", cf_scope cfg); ("flowai.command_id", command);
       ("flowai.resolved_image_source", default "" (cl_image_source claim))])
    port.

Definition new_slot (command : string) (claim : V0002ClaimResponse) (image : V0002ImageReference)
    (values : gmap string string) (port started : Z) (ref : ContainerRef) : taskSlot :=
  mkSlot (mkTaskRef (cl_task claim) command (image_ref image) (default "" (cl_image_source claim))
            (default "" (values !! "OPENAI_API_KEY")) (default "" (values !! "OPENAI_BASE_URL"))
            (default "" (values !! "OPENAI_MODEL")))
    (rf_id ref) (rf_name ref) port started "" "" false "" false "" 0 false false false.

(** addSlot, with the allocation of the object. *)
Definition addSlot (task : string) (s : taskSlot) : go nat :=
  atomic (λ σ,
    let o := fresh (dom (x_heap σ)) in
    (put_slots (<[task := o]> (x_slots σ)) (put_heap (<[o := s]> (x_heap σ)) σ), o)).

(** The result of the steps after the reservation: whether a slot was installed, and the error. *)
Definition outcome : Type := bool * option string.
Definition failed (e : string) : outcome := (false, Some e).

(** A failure before there is a slot: give the task up, report it, return the error. *)
Definition fail_claimed (task team phase error : string) : go outcome :=
  _ ← terminalizeAcceptedV0002 task;
  _ ← appendV0002TaskEventQuietForTeam task team "failed" (phase_payload phase);
  mret (failed error).

Definition start_container (task command : string) (claim : V0002ClaimResponse)
    (image : V0002ImageReference) (values : gmap string string) (port : Z) : go outcome :=
  let team := te_team (cl_task claim) in
  pulled ← xcall_ (XPullImage (image_ref image) (cf_pull_policy cfg));
  match pulled with
  | Some e => _ ← releasePort port; fail_claimed task team "image_pull" (er_text e)
  | None =>
      r ← xcall_ (XStartContainer (container_spec task command claim image values port));
      match r with
      | Err e => _ ← releasePort port; fail_claimed task team "container_create" (er_text e)
      | Ok ref =>
          started ← xcall_ XNow;
          o ← addSlot task (new_slot command claim image values port started ref);
          _ ← releaseLocalSlotReservation;
          _ ← spawn (TWatch o);
          _ ← spawn (TTask o);
          mret (true, None)
      end
  end.

Definition start_with_values (task command : string) (claim : V0002ClaimResponse)
    (values : gmap string string) : go outcome :=
  match claim_image claim with
  | None => _ ← terminalizeAcceptedV0002 task; mret (failed "missing resolved_image")
  | Some image =>
      allocated ← allocatePort;
      match allocated with
      | None => _ ← terminalizeAcceptedV0002 task; mret (failed "no free host port in range")
      | Some port => start_container task command claim image values port
      end
  end.

(** From the reservation to the container. *)
Definition run_claimed (task command : string) (claim : V0002ClaimResponse) : go outcome :=
  let team := te_team (cl_task claim) in
  waited ← wait_claimed claim;
  if negb waited then _ ← terminalizeAcceptedV0002 task; mret (failed "context canceled")
  else
    reported ← appendV0002TaskEventForTeam task team "running" (phase_payload "running");
    match reported with
    | Some e => _ ← terminalizeAcceptedV0002 task; mret (failed (er_text e))
    | None =>
        if cl_launch claim then
          match cl_token claim with
          | None | Some "" => mret (failed "launch parameters require scope_token")
          | Some token =>
              opened ← v2002OpenEnvironment task token;
              match opened with
              | Err e => fail_claimed task team "environment_open" (er_text e)
              | Ok values => start_with_values task command claim values
              end
          end
        else start_with_values task command claim ∅
    end.

(** The reservation is given back when no slot was installed; addSlot has done it otherwise. *)
Definition with_reservation (task command : string) (claim : V0002ClaimResponse) :
    go (option string) :=
  _ ← reserveLocalSlot;
  _ ← observeSlotCount;
  out ← run_claimed task command claim;
  _ ← (if out.1 : bool then mret () else releaseLocalSlotReservation);
  mret out.2.

Definition startTaskV0002 (summary : V0002TaskSummary) : go (option string) :=
  let task := ts_id summary in
  command ← commandIDFor task;
  r ← xcall_ (XClaimTask task command);
  match r with
  | Err e =>
      mret (if IsOlderTaskMustBeClaimedFirst e || IsTaskAlreadyClaimed e || IsNotFound e
            then None else Some (er_text e))
  | Ok claim =>
      if bool_decide (cl_claim claim ≠ "claimed") then mret (Some "unexpected envelope")
      else
        new ← markAcceptedV0002 task;
        if negb new then mret (Some "task already accepted")
        else with_reservation task command claim
  end.

(** The order of the queue, re-established locally. *)
Definition summary_le : relation V0002TaskSummary := λ a b,
  ts_ingested a < ts_ingested b ∨ ts_ingested a = ts_ingested b ∧ String.le (ts_id a) (ts_id b).
#[export] Instance summary_le_dec : RelDecision summary_le.
Proof using. intros a b. unfold summary_le. apply _. Defined.

Fixpoint start_all (items : list V0002TaskSummary) : go () :=
  match items with
  | [] => mret ()
  | summary :: items' =>
      free ← v2002FreeSlots;
      if free <=? 0 then mret ()
      else
        stage ← lifecycle_of (ts_id summary);
        match stage with
        | Some _ => start_all items'
        | None =>
            slot ← getSlot (ts_id summary);
            match slot with
            | Some _ => start_all items'
            | None =>
                err ← startTaskV0002 summary;
                match err with Some _ => mret () | None => start_all items' end
            end
        end
  end.

Definition tickV0002 : go () :=
  free ← v2002FreeSlots;
  if free =? 0 then mret ()
  else
    r ← xcall_ (XDiscoverTasks (cf_tag cfg) 100);
    match r with
    | Err _ => mret ()
    | Ok items => start_all (merge_sort summary_le items)
    end.

(** *** The end of a slot *)

Definition slot_task (o : nat) : go string := slot_field o slotTaskID "".

(** slot.cleanup: once, stop the container, or kill it when it does not stop. *)
Definition cleanup (o : nat) : go () :=
  first ← atomic (λ σ,
    match slot_at σ o with
    | Some s => if sl_cleaned s then (σ, None)
                else (put_heap (<[o := as_cleaned s]> (x_heap σ)) σ, Some (sl_container s))
    | None => (σ, None)
    end);
  match first with
  | None => mret ()
  | Some container =>
      stopped ← xcall_ (XStopContainer container 2);
      match stopped with
      | None => mret ()
      | Some _ => _ ← xcall_ (XForceKill container); mret ()
      end
  end.

(** applyTerminalCleanupDelay and cleanupContainer: the retention of the recorded terminal event,
    then the removal. *)
Definition cleanup_delay (event : string) : Z :=
  if bool_decide (event = "finished") then cf_finished_delay cfg
  else if bool_decide (event = "failed") then cf_failed_delay cfg else 0.

Definition cleanupContainer (o : nat) : go () :=
  accepted ← slot_field o (λ s, (sl_accepted s, sl_accepted_at s)) ("", 0);
  if cleanup_delay accepted.1 <=? 0 then cleanup o
  else
    let until := accepted.2 + cleanup_delay accepted.1 in
    now ← xcall_ XNow;
    _ ← (if now <? until then xcall_ (XWaitDelay until) else mret ());
    cleanup o.

Definition removeSlot (task : string) : go () :=
  present ← atomic (λ σ, (put_slots (delete task (x_slots σ)) σ, x_slots σ !! task));
  match present with
  | None => mret ()
  | Some _ => observeSlotCount
  end.

Definition setReadyIfLast : go () :=
  state ← read x_state;
  if bool_decide (state ∈ [StateStopping; StateStopped; StateFailed]) then mret ()
  else
    count ← slotCount;
    if negb (count =? 0) then mret ()
    else
      _ ← setState StateReady;
      _ ← appendV0002ExecutorEvent "idle" (Some 0);
      observeSlotCount.

Definition recordAcceptedTerminal (o : nat) (event : string) : go () :=
  now ← xcall_ XNow; alter_slot o (with_accepted event now).

Definition terminalizeV0002Slot (o : nat) : go () :=
  task ← slot_task o;
  first ← claimTerminal o;
  _ ← (if first : bool then markAccepted task LifecycleTerminal else mret ());
  port ← slot_field o sl_port 0;
  _ ← releasePort port;
  update (λ σ, put_commands (delete task (x_commands σ)) σ).

(** The deferred calls of runTaskV0002, last first. *)
Definition task_defers (o : nat) : go () :=
  task ← slot_task o;
  _ ← terminalizeV0002Slot o;
  _ ← cleanupContainer o;
  _ ← removeSlot task;
  _ ← setReadyIfLast;
  _ ← alter_slot o as_done;
  alter_slot o as_exited.

(** *** A task at work (runTaskV0002, streamOpenHandsEvents) *)

(** The terminal report of the goroutine that claims it. *)
Definition report_failed (o : nat) (cause : string) (payload : gmap string string) : go () :=
  first ← claimTerminal o;
  if first : bool then
    _ ← alter_slot o (with_cause cause);
    task ← slot_task o;
    appendV0002TaskEventQuiet task "failed" payload
  else mret ().

Definition failV0002Slot (o : nat) (phase error : string) : go () :=
  report_failed o phase (<["error" := error]> (phase_payload phase)).

(** The stream ended with an error. *)
Definition stream_failed (o : nat) (error : string) : go () :=
  _ ← report_failed o "stream" (<["error" := error]> (phase_payload "stream"));
  task_defers o.

Definition container_url (port : Z) : string :=
  "http://" +:+ cf_host cfg +:+ ":" +:+ pretty.pretty port.

Definition conversationConfig (prompt key url model : string) : ConversationConfig :=
  if bool_decide (cf_profile cfg ≠ "")
  then mkConversation (cf_workspace cfg) prompt (cf_initial_run cfg) None (cf_profile cfg)
  else mkConversation (cf_workspace cfg) prompt (cf_initial_run cfg)
         (Some (["terminal"], mkLLM model key (cf_usage cfg) url)) "".

(** The attempts to connect; [Some] is the error of the last one or of the context. *)
Fixpoint dial (attempts : nat) (last : string) (url : string) : go (option string) :=
  match attempts with
  | O => mret (Some ("dial " +:+ url +:+ ": " +:+ last))
  | S n =>
      r ← xcall_ (XDial url);
      match r with
      | None => mret None
      | Some e =>
          again ← xcall_ XRetryDial;
          if again : bool then dial n (er_text e) url else mret (Some "context canceled")
      end
  end.

(** claimPublishedLog: new under its key; the memory is cleared when it is full. *)
Definition published_key (task : string) (p : publishedLog) : string :=
  task +:+ String Ascii.zero (fingerprint p).
Definition maxPublished : nat := 10000.
Definition claimPublishedLog (task : string) (p : publishedLog) : go bool :=
  atomic (λ σ,
    let known := if (maxPublished <=? size (x_published σ))%nat then ∅ else x_published σ in
    if bool_decide (published_key task p ∈ known) then (put_published known σ, false)
    else (put_published ({[published_key task p]} ∪ known) σ, true)).

Fixpoint publish_all (task : string) (l : list publishedLog) : go () :=
  match l with
  | [] => mret ()
  | p :: l' =>
      new ← claimPublishedLog task p;
      if negb new then publish_all task l'
      else
        uuid ← xcall_ XUuid;
        now ← xcall_ XNow;
        _ ← xcall_ (XAppendTaskLog task ("log-" +:+ uuid) (pl_stream p) (pl_content p) now);
        publish_all task l'
  end.
Definition appendPublishedOpenHandsLogs (task : string) (v : json) : go () :=
  publish_all task (publishedLogsFromOpenHands v).

Definition stream_url (o : nat) (conversation : string) : go string :=
  slot_field o (λ s, OpenHandsWSURL
    (if bool_decide (sl_url s = "") then container_url (sl_port s) else sl_url s) conversation) "".

(** One round of the loop that reads the event stream. *)
Definition stream_round (o : nat) (conversation : string) : go () :=
  url ← stream_url o conversation;
  task ← slot_task o;
  f ← xcall_ (XReadMessage url);
  match f with
  | FrameError text => stream_failed o text
  | FrameClosed => task_defers o
  | FrameData None => Goto (TStream o conversation)
  | FrameData (Some v) =>
      _ ← appendPublishedOpenHandsLogs task v;
      let status := taskStatusFromValue v in
      if negb (isTerminalTaskStatus status) then Goto (TStream o conversation)
      else
        first ← claimTerminal o;
        _ ← (if first : bool then
               let event := if bool_decide (status = "finished") then "finished" else "failed" in
               _ ← alter_slot o (with_cause ("terminal_state:" +:+ status));
               _ ← appendV0002TaskEventQuiet task event
                     (<["openhands_status" := status]> (phase_payload "terminal_state"));
               recordAcceptedTerminal o event
             else mret ());
        task_defers o
  end.

(** runTaskV0002 up to the stream. *)
Definition runTaskV0002 (o : nat) : go () :=
  s ← read (λ σ, slot_at σ o);
  match s with
  | None => mret ()
  | Some s =>
      let ref := sl_ref s in
      let addr := container_url (sl_port s) in
      healthy ← xcall_ (XHealthCheck addr (cf_startup_timeout cfg));
      match healthy with
      | Some e => _ ← failV0002Slot o "health_check" (er_text e); task_defers o
      | None =>
          _ ← update (put_openhands_ok true);
          if bool_decide (tr_key ref = "" ∨ tr_url ref = "" ∨ tr_model ref = "") then
            _ ← failV0002Slot o "submit"
                  "task launch parameters require OPENAI_API_KEY, OPENAI_BASE_URL, and OPENAI_MODEL";
            task_defers o
          else
            conv ← xcall_ (XStartConversation addr
                     (conversationConfig (promptFromV0002Payload (te_payload (tr_task ref)))
                        (tr_key ref) (tr_url ref) (tr_model ref)));
            match conv with
            | Err e => _ ← failV0002Slot o "submit" (er_text e); task_defers o
            | Ok id =>
                _ ← alter_slot o (with_conversation id addr);
                _ ← spawn (TControls o id);
                dialled ← dial 5 "" (OpenHandsWSURL addr id);
                match dialled with
                | Some e => stream_failed o e
                | None => Goto (TStream o id)
                end
            end
      end
  end.

(** *** The watchers *)

(** watchContainerExitV0002: one round; the subscription or the context can end. *)
Definition watch_round (o : nat) : go () :=
  s ← read (λ σ, slot_at σ o);
  match s with
  | None => mret ()
  | Some s =>
      e ← xcall_ (XDockerEvent (sl_container s));
      match e with
      | WatchEnded => mret ()
      | WatchEvent m =>
          if bool_decide (em_action m ≠ "die" ∨ em_id m ≠ sl_container s ∧ em_name m ≠ sl_name s)
          then Goto (TWatch o)
          else
            first ← claimTerminal o;
            if negb first then mret ()
            else
              _ ← alter_slot o (with_cause "container_died");
              r ← appendV0002TaskEvent (slotTaskID s) "failed"
                    (<["failure_reason" := "container_exited_before_finish"]>
                       (phase_payload "container_exit"));
              _ ← (match r with
                   | None => recordAcceptedTerminal o "failed"
                   | Some _ => mret ()
                   end);
              alter_slot o as_cancelled
      end
  end.

Definition appendControlEvent (task control status : string) (at_ : Z) (message : string) :
    go (option xerror) :=
  uuid ← xcall_ XUuid;
  xcall_ (XAppendTaskControlEvent task control ("control-event-" +:+ uuid) status message at_).

Definition applyCancelControl (o : nat) (conversation : string) (control : V0002TaskControl) :
    go () :=
  task ← slot_task o;
  url ← slot_field o sl_url "";
  acknowledged ← xcall_ XNow;
  r ← appendControlEvent task (xc_id control) "acknowledged" acknowledged "cancellation received";
  match r with
  | Some _ => mret ()
  | None =>
      paused ← xcall_ (XPauseConversation url conversation);
      match paused with
      | Some _ =>
          _ ← appendControlEvent task (xc_id control) "failed" (acknowledged + 1000)
                "cancellation could not be sent";
          mret ()
      | None =>
          r ← appendControlEvent task (xc_id control) "completed" (acknowledged + 1000)
                "cancellation sent to OpenHands";
          match r with
          | Some _ => mret ()
          | None =>
              first ← claimTerminal o;
              _ ← (if first : bool then
                     _ ← alter_slot o (with_cause "control");
                     _ ← appendV0002TaskEventQuiet task "failed"
                           (<["control" := "cancel"]> (phase_payload "control"));
                     recordAcceptedTerminal o "failed"
                   else mret ());
              alter_slot o as_cancelled
          end
      end
  end.

(** watchTaskControls: one round. *)
Definition controls_round (o : nat) (conversation : string) : go () :=
  more ← xcall_ XControlTick;
  if negb more then mret ()
  else
    task ← slot_task o;
    r ← xcall_ (XListAssignedControls task);
    match r with
    | Err _ => Goto (TControls o conversation)
    | Ok controls =>
        match List.find (λ c, bool_decide (xc_status c = "pending" ∧ xc_action c = "cancel"))
                controls with
        | None => Goto (TControls o conversation)
        | Some control => applyCancelControl o conversation control
        end
    end.

(** *** The main goroutine (Run, pollLoop, drain) *)

Definition forceKill (o : nat) : go () :=
  container ← slot_field o sl_container "";
  _ ← xcall_ (XForceKill container); mret ().

(** The first loop of drain: cancel and stop every container. *)
Fixpoint drain_stop (deadline : Z) (l : list nat) : go () :=
  match l with
  | [] => mret ()
  | o :: l' =>
      _ ← alter_slot o as_cancelled;
      container ← slot_field o sl_container "";
      _ ← xcall_ (XStopContainer container 5);
      now ← xcall_ XNow;
      _ ← (if deadline <? now then forceKill o else mret ());
      drain_stop deadline l'
  end.

Definition stopped : go () :=
  _ ← setState StateStopped;
  appendV0002ExecutorEvent "stopped" None.

(** The second loop of drain: wait for the exit of every slot or the end of the context. *)
Definition join_round (l : list nat) : go () :=
  match l with
  | [] => stopped
  | o :: l' =>
      exited ← slot_field o sl_exited true;
      if exited : bool then Goto (TJoin l')
      else
        expired ← xcall_ XDrainExpired;
        if expired : bool then Goto (TJoin l') else Goto (TJoin l)
  end.

Definition drain : go () :=
  slots ← read (λ σ, (map_to_list (x_slots σ)).*2);
  now ← xcall_ XNow;
  _ ← drain_stop (now + cf_drain_timeout cfg) slots;
  Goto (TJoin slots).

(** What Run does when the polling has ended. *)
Definition shutdown : go () :=
  _ ← setState StateStopping;
  _ ← appendV0002ExecutorEvent "stopping" None;
  drain.

Definition pollLoop : go () :=
  more ← xcall_ XPollTick;
  if more : bool then _ ← tickV0002; Goto TPoll else shutdown.

(** The containers that an earlier process left. *)
Fixpoint kill_all (l : list ContainerRef) : go () :=
  match l with
  | [] => mret ()
  | c :: l' => _ ← xcall_ (XForceKill (rf_id c)); kill_all l'
  end.
Definition cleanupLeftover : go () :=
  r ← xcall_ (XListLeftover (cf_cleanup cfg));
  match r with Ok owned => kill_all owned | Err _ => mret () end.

(** The registration of an executor that has its identifier. *)
Definition register : go (option xerror) :=
  _ ← setState StateRegistering;
  xcall_ (XRegisterExecutor 0).

Definition Run : go () :=
  _ ← cleanupLeftover;
  refused ← register;
  match refused with
  | Some _ => setState StateStopped
  | None =>
      _ ← setState StateReady;
      _ ← appendV0002ExecutorEvent "healthy" None;
      Goto TPoll
  end.

Definition thread_body (t : thread) : go () :=
  match t with
  | TRun => Run
  | TPoll => pollLoop
  | TJoin l => join_round l
  | TTask o => runTaskV0002 o
  | TStream o conversation => stream_round o conversation
  | TWatch o => watch_round o
  | TControls o conversation => controls_round o conversation
  end.

(** New, and the world in which Run starts. *)
Definition New : Exec :=
  mkExec ∅ ∅ (cf_port_start cfg) 0 ∅ 0 ∅ ∅ StateStarting false [].
Definition start_world : world Exec thread xres := mkWorld New {[0%nat := Run]}.

Definition executor_step : relation (world Exec thread xres) :=
  world_step record_call sane thread_body.
Definition reachable_executor (w : world Exec thread xres) : Prop := rtc executor_step start_world w.
End executor.
