(* ===== verification/DockerSafe.v ===== *)
(** * What the Docker Executor guarantees

    The protocol it follows towards the State Registry and Docker, task by task; its capacity;
    its ports; and that no slot and no container is left behind. Proved for every interleaving of the goroutines
    and every answer of the outside. *)

From stdpp Require Import base gmap sets list strings sorting relations fin_sets.
From S2P Require Import Prelude Platform OpenHands Conc Docker.
#[local] Open Scope Z_scope.

(** ** The abstract protocol of one task *)

(** A task is free, claimed under a command, reported as running, started in a container, or
    ended; everything outside the protocol is broken. *)
Inductive tphase : Type :=
| Free
| Claimed (command : string) (claim : V0002ClaimResponse)
| Working (command : string) (claim : V0002ClaimResponse)
| Started
| Ended
| Broken.

Definition before_start (ph : tphase) : bool :=
  match ph with Free | Claimed _ _ | Working _ _ => true | _ => false end.

Section protocol.
Context {JC : JsonCodec} {TC : TimeCodec} {MR : MapRange}.
Context (cfg : Config).

(** A report: [running] once after the claim, for the team of the task; before a container exists
    only a failure; afterwards one [finished] or [failed]. *)
Definition report_step (ph : tphase) (e : V0002TaskEventEnvelope) (r : option xerror) : tphase :=
  if bool_decide (ev_executor e ≠ cf_executor cfg) then Broken
  else
    match ph with
    | Claimed command claim =>
        if bool_decide (ev_type e = "running" ∧ ev_team e = te_team (cl_task claim))
        then match r with None => Working command claim | Some _ => Free end else Broken
    | Working _ claim =>
        if bool_decide (ev_type e = "failed" ∧ ev_team e = te_team (cl_task claim))
        then Free else Broken
    | Started => if bool_decide (ev_type e = "finished" ∨ ev_type e = "failed") then Ended else Broken
    | _ => Broken
    end.

(** A container is started for a task that runs, from the image of its claim and under its
    command. *)
Definition start_step (ph : tphase) (spec : ContainerSpec) (r : result xerror ContainerRef) :
    tphase :=
  match ph with
  | Working command claim =>
      if bool_decide (image_ref <$> claim_image claim = Some (cs_image spec) ∧
                      cs_labels spec !! "flowai.command_id" = Some command)
      then match r with Ok _ => Started | Err _ => ph end else Broken
  | _ => Broken
  end.

Definition call_step (task : string) (ph : tphase) (c : xcall) : xres c → tphase :=
  match c with
  | XClaimTask t command => λ r,
      if negb (bool_decide (t = task)) then ph
      else if negb (before_start ph) then Broken
      else match r with
           | Ok claim => if bool_decide (cl_claim claim = "claimed")
                         then Claimed command claim else Free
           | Err _ => Free
           end
  | XAppendTaskEvent e => λ r, if bool_decide (ev_task e = task) then report_step ph e r else ph
  | XOpenEnvironment t token => λ _,
      if negb (bool_decide (t = task)) then ph
      else match ph with
           | Working _ claim =>
               if cl_launch claim && bool_decide (cl_token claim = Some token) then ph else Broken
           | _ => Broken
           end
  | XStartContainer spec => λ r,
      if bool_decide (cs_labels spec !! LabelTaskID = Some task) then start_step ph spec r else ph
  | _ => λ _, ph
  end.

Definition task_step (task : string) (a : answered) (ph : tphase) : tphase :=
  call_step task ph (an_call a) (an_answer a).

(** The phase of a task after a history, the latest call first. *)
Definition phase_of (task : string) (trace : list answered) : tphase :=
  foldr (task_step task) Free trace.

(** ** The invariant *)

Definition phase (σ : Exec) (task : string) : tphase := phase_of task (x_trace σ).

(** The containers that Docker has started. *)
Definition is_start (a : answered) : bool :=
  match a with
  | mkAnswered (XStartContainer _) r =>
      (match r : result xerror ContainerRef with Ok _ => true | Err _ => false end)
  | _ => false
  end.
Definition starts (trace : list answered) : nat := length (filter (λ a, is_start a = true) trace).
Definition started (σ : Exec) : nat := starts (x_trace σ).

(** Their references, the latest first. *)
Definition start_ref (a : answered) : option ContainerRef :=
  match a with
  | mkAnswered (XStartContainer _) r =>
      (match r : result xerror ContainerRef with Ok ref => Some ref | Err _ => None end)
  | _ => None
  end.
Definition refs_of (trace : list answered) : list ContainerRef := omap start_ref trace.
Definition refs (σ : Exec) : list ContainerRef := refs_of (x_trace σ).

(** The end of a container: Docker says that it is stopped, or its forced removal was asked for. *)
Definition ends (container : string) (a : answered) : Prop :=
  match a with
  | mkAnswered (XStopContainer c _) r => c = container ∧ (r : option xerror) = None
  | mkAnswered (XForceKill c) _ => c = container
  | _ => False
  end.

(** The container was started and afterwards ended. *)
Definition removed_after_start (container : string) (trace : list answered) : Prop :=
  ∃ after before, trace = after ++ before ∧
    (∃ ref, ref ∈ refs_of before ∧ rf_id ref = container) ∧ Exists (ends container) after.

(** What the invariant sees of a slot. *)
Record core : Type := mkCore {
  co_task : string; co_port : Z; co_container : string; co_terminal : bool; co_cleaned : bool }.
Definition core_of (s : taskSlot) : core :=
  mkCore (slotTaskID s) (sl_port s) (sl_container s) (sl_terminal s) (sl_cleaned s).
Definition core_at (σ : Exec) (o : nat) : option core := core_of <$> slot_at σ o.
Definition has_object (σ : Exec) (task : string) : Prop :=
  ∃ o c, core_at σ o = Some c ∧ co_task c = task.

Record exec_ok (σ : Exec) : Prop := mkExecOk {
  ok_slots t o : x_slots σ !! t = Some o → ∃ c, core_at σ o = Some c ∧ co_task c = t;
  ok_unique o o' c c' : core_at σ o = Some c → core_at σ o' = Some c' →
    co_task c = co_task c' → o = o';
  ok_open o c : core_at σ o = Some c → co_terminal c = false → phase σ (co_task c) = Started;
  ok_objects o c : core_at σ o = Some c → before_start (phase σ (co_task c)) = false;
  ok_phase t : phase σ t ≠ Broken;
  ok_accepted t : before_start (phase σ t) = false → is_Some (x_accepted σ !! t);
  ok_unreported t : x_accepted σ !! t = Some LifecycleTerminal →
    phase σ t = Started ∧ ∃ o c, core_at σ o = Some c ∧ co_task c = t ∧ co_terminal c = true;
  ok_uncleaned o c : core_at σ o = Some c → co_cleaned c = false → x_slots σ !! co_task c = Some o;
  ok_started : (size (x_heap σ) ≤ started σ)%nat;
  ok_capacity : Z.of_nat (size (x_slots σ) + (started σ - size (x_heap σ))) ≤ cf_max cfg;
  ok_ports t t' o o' c c' : x_slots σ !! t = Some o → x_slots σ !! t' = Some o' →
    core_at σ o = Some c → core_at σ o' = Some c' → co_port c = co_port c' → t = t';
  ok_range o c : core_at σ o = Some c → cf_port_start cfg ≤ co_port c ≤ cf_port_end cfg;
  ok_next : cf_port_start cfg ≤ x_next_port σ;
  ok_container o c : core_at σ o = Some c → ∃ ref, ref ∈ refs σ ∧ rf_id ref = co_container c;
  ok_refs ref : ref ∈ refs σ → (∃ o c, core_at σ o = Some c ∧ co_container c = rf_id ref) ∨
    started σ ≠ size (x_heap σ) ∧ head (refs σ) = Some ref;
  ok_removed o c : core_at σ o = Some c → x_slots σ !! co_task c ≠ Some o →
    removed_after_start (co_container c) (x_trace σ);
}.

(** ** Who may change what *)

(** The main goroutine alone takes tasks and installs the containers it starts; the goroutine of a
    task hands its container to the removal and then, stopping, removes its slot; and whoever has
    claimed the terminal report of a slot alone makes it. *)
Inductive token : Type := TokMain | TokTask (o : nat) | TokStop (o : nat) | TokTerm (o : nat).

#[export] Instance token_eq_dec : EqDecision token.
Proof using. solve_decision. Defined.

#[export] Instance token_countable : Countable token.
Proof using.
  refine (inj_countable'
    (λ t, match t with TokMain => inl () | TokTask o => inr (inl o)
          | TokStop o => inr (inr (inl o)) | TokTerm o => inr (inr (inr o)) end)
    (λ t, match t with inl () => TokMain | inr (inl o) => TokTask o
          | inr (inr (inl o)) => TokStop o | inr (inr (inr o)) => TokTerm o end)
    _).
  by intros [].
Defined.

Definition core_le (c c' : core) : Prop :=
  co_task c' = co_task c ∧ co_port c' = co_port c ∧
  (co_terminal c = true → co_terminal c' = true) ∧ (co_cleaned c = true → co_cleaned c' = true) ∧
  co_container c' = co_container c.

(** Slot objects stay and their flags only go up; the history only grows. *)
Record exec_evolves (σ σ' : Exec) : Prop := mkEvolves {
  ev_core o c : core_at σ o = Some c → ∃ c', core_at σ' o = Some c' ∧ core_le c c';
  ev_trace : x_trace σ `suffix_of` x_trace σ';
}.

Definition has_slot (o : nat) (cleaned : bool) (σ : Exec) : Prop :=
  ∃ c, core_at σ o = Some c ∧ x_slots σ !! co_task c = Some o ∧ co_cleaned c = cleaned.

Definition exec_own (r : token) (σ : Exec) : Prop :=
  match r with
  | TokMain => True
  | TokTask o => has_slot o false σ
  | TokStop o => has_slot o true σ
  | TokTerm o => ∃ c, core_at σ o = Some c ∧ co_terminal c = true ∧
      phase σ (co_task c) = Started ∧ x_accepted σ !! co_task c ≠ Some LifecycleTerminal
  end.

Definition identity_at (σ : Exec) (o : nat) : option (string * Z) :=
  (λ c, (co_task c, co_port c)) <$> core_at σ o.
Definition slot_kept (o : nat) (σ σ' : Exec) : Prop :=
  (∀ t, x_slots σ !! t = Some o → x_slots σ' !! t = Some o) ∧
  co_cleaned <$> core_at σ' o = co_cleaned <$> core_at σ o.

Definition same_task (σ σ' : Exec) (t : string) : Prop :=
  phase σ' t = phase σ t ∧ x_accepted σ' !! t = x_accepted σ !! t.

Definition exec_keep (r : token) (σ σ' : Exec) : Prop :=
  match r with
  | TokMain => x_reservations σ' = x_reservations σ ∧ x_slots σ' ⊆ x_slots σ ∧
      refs σ' = refs σ ∧ dom (x_heap σ') = dom (x_heap σ) ∧
      (∀ o, identity_at σ' o = identity_at σ o) ∧ ∀ t, ¬ has_object σ t → same_task σ σ' t
  | TokTask o | TokStop o => slot_kept o σ σ'
  | TokTerm o => identity_at σ' o = identity_at σ o ∧
      ∀ t p, identity_at σ o = Some (t, p) → same_task σ σ' t
  end.

Definition exec_due (r : token) (σ : Exec) : Prop :=
  match r with
  | TokMain => started σ ≠ size (x_heap σ)
  | TokTask o => has_slot o false σ
  | TokStop o => has_slot o true σ
  | TokTerm _ => False
  end.

Lemma core_le_refl c : core_le c c.
Proof using. by split_and!. Qed.

Lemma core_le_trans a b c : core_le a b → core_le b c → core_le a c.
Proof using.
  unfold core_le. intros (? & ? & ? & ? & ?) (? & ? & ? & ? & ?). split_and!; eauto; congruence.
Qed.

Lemma exec_evolves_preorder : PreOrder exec_evolves.
Proof using.
  split.
  - intros σ. split; [|reflexivity]. intros o c Hc. exists c. split; [done|apply core_le_refl].
  - intros σ1 σ2 σ3 [H12 H12'] [H23 H23']. split; [|by etrans].
    intros o c Hc. destruct (H12 o c Hc) as (c2 & Hc2 & ?).
    destruct (H23 o c2 Hc2) as (c3 & Hc3 & ?). exists c3. split; [done|]. by eapply core_le_trans.
Qed.

(** Where the slot objects are the same. *)
Lemma same_cores_evolves σ σ' :
  (∀ o, core_at σ' o = core_at σ o) → x_trace σ `suffix_of` x_trace σ' → exec_evolves σ σ'.
Proof using.
  intros Hc Ht. split; [|done]. intros o c Ho. exists c. rewrite Hc.
  split; [done|apply core_le_refl].
Qed.

Lemma same_slot_kept o σ σ' :
  x_slots σ' = x_slots σ → (∀ o, core_at σ' o = core_at σ o) → slot_kept o σ σ'.
Proof using. intros Hs Hc. split; [by rewrite Hs|by rewrite Hc]. Qed.

Lemma same_has_slot o b σ σ' :
  x_slots σ' = x_slots σ → (∀ o, core_at σ' o = core_at σ o) → has_slot o b σ' → has_slot o b σ.
Proof using. intros Hs Hc (c & Ho & Hsl & Hb). exists c. by rewrite <- Hs, <- Hc. Qed.

Lemma size_dom_eq {A} (m m' : gmap nat A) : dom m' = dom m → size m' = size m.
Proof using. intros Hd. rewrite <- !size_dom. by rewrite Hd. Qed.

(** *** The history of the containers *)

Lemma starts_refs trace : starts trace = length (refs_of trace).
Proof using.
  unfold starts, refs_of. induction trace as [|[c r] trace IH]; [done|].
  rewrite filter_cons. cbn [omap list_omap]. unfold start_ref at 1.
  destruct c; simpl; try exact IH. destruct r as [ref|e]; simpl; [by rewrite IH|exact IH].
Qed.

Lemma refs_started σ σ' : refs σ' = refs σ → started σ' = started σ.
Proof using. unfold started, refs. rewrite !starts_refs. by intros ->. Qed.

Lemma refs_of_app after before : refs_of (after ++ before) = refs_of after ++ refs_of before.
Proof using. apply omap_app. Qed.

Lemma refs_suffix σ σ' ref : x_trace σ `suffix_of` x_trace σ' → ref ∈ refs σ → ref ∈ refs σ'.
Proof using.
  intros [l Hl] Hr. unfold refs. rewrite Hl, refs_of_app. apply elem_of_app. by right.
Qed.

Lemma removed_suffix container t t' :
  t `suffix_of` t' → removed_after_start container t → removed_after_start container t'.
Proof using.
  intros [l ->] (after & before & -> & Hr & He). exists (l ++ after), before.
  rewrite (assoc_L (++)). split_and!; [done..|]. apply Exists_app. by right.
Qed.

(** A container that was started is asked to end. *)
Lemma removed_now σ container a trace :
  (∃ ref, ref ∈ refs σ ∧ rf_id ref = container) → x_trace σ = trace → ends container a →
  removed_after_start container (a :: trace).
Proof using. intros Hr <- He. exists [a], (x_trace σ). split_and!; [done..|]. by left. Qed.

#[export] Existing Instance exec_evolves_preorder.

Lemma identity_at_Some σ o c : core_at σ o = Some c → identity_at σ o = Some (co_task c, co_port c).
Proof using. unfold identity_at. by intros ->. Qed.

Lemma has_object_identity σ σ' t :
  (∀ o, identity_at σ' o = identity_at σ o) → has_object σ' t → has_object σ t.
Proof using.
  intros Hi (o & c & Hc & <-). specialize (Hi o). rewrite (identity_at_Some _ _ _ Hc) in Hi.
  unfold identity_at in Hi. destruct (core_at σ o) as [c'|] eqn:Hc'; [|done].
  exists o, c'. split; [done|]. simpl in Hi. congruence.
Qed.

Lemma same_task_trans σ1 σ2 σ3 t : same_task σ1 σ2 t → same_task σ2 σ3 t → same_task σ1 σ3 t.
Proof using. unfold same_task. intros [-> ->] [-> ->]. done. Qed.

Lemma exec_keep_preorder r : PreOrder (exec_keep r).
Proof using.
  split.
  - intros σ. destruct r; unfold exec_keep, slot_kept, same_task; split_and?; done.
  - intros σ1 σ2 σ3. destruct r as [|o|o|o]; unfold exec_keep, slot_kept.
    + intros (-> & H1 & -> & -> & Hi & Ht) (-> & H2 & -> & -> & Hi' & Ht').
      split_and!; [done|by etrans|done|done|intros o; by rewrite Hi'|].
      intros t Hn. eapply same_task_trans; [by apply Ht|]. apply Ht'.
      intros Ho. apply Hn. by eapply has_object_identity.
    + intros [H1 E1] [H2 E2]. split; [auto|by etrans].
    + intros [H1 E1] [H2 E2]. split; [auto|by etrans].
    + intros [Hi Ht] [Hi' Ht']. split; [congruence|]. intros t p Hp.
      eapply same_task_trans; [by eapply Ht|]. eapply Ht'. by rewrite Hi.
Qed.

Lemma has_slot_kept o b σ σ' :
  has_slot o b σ → exec_evolves σ σ' → slot_kept o σ σ' → has_slot o b σ'.
Proof using.
  intros (c & Hc & Hs & <-) [He _] [Hk Hcl]. destruct (He o c Hc) as (c' & Hc' & Ht & _).
  exists c'. rewrite Hc, Hc' in Hcl. simplify_eq/=. rewrite Ht. auto.
Qed.

Lemma exec_own_keep r σ σ' :
  exec_own r σ → exec_evolves σ σ' → exec_keep r σ σ' → exec_own r σ'.
Proof using.
  intros Ho He Hk. destruct r as [|o|o|o]; [done|by eapply has_slot_kept..|].
  - destruct Ho as (c & Hc & Hterm & Hp & Ha). destruct (ev_core _ _ He o c Hc) as (c' & Hc' & Ht & _ & Hm & _).
    destruct Hk as [_ Hk]. destruct (Hk _ _ (identity_at_Some _ _ _ Hc)) as [Hp' Ha'].
    exists c'. rewrite Ht, Hp', Ha'. auto.
Qed.

#[export] Instance exec_protocol : Protocol Exec token := {|
  inv := exec_ok; evolves := exec_evolves; own := exec_own; keep := exec_keep; due := exec_due;
  evolves_preorder := exec_evolves_preorder; keep_preorder := exec_keep_preorder;
  own_keep := exec_own_keep |}.

(** ** Steps *)

(** A step that changes nothing the invariant sees, but perhaps the next port. *)
Definition quiet (σ σ' : Exec) : Prop :=
  x_slots σ' = x_slots σ ∧ dom (x_heap σ') = dom (x_heap σ) ∧
  (∀ o, core_at σ' o = core_at σ o) ∧ x_reservations σ' = x_reservations σ ∧
  x_accepted σ' = x_accepted σ ∧ refs σ' = refs σ ∧ (∀ t, phase σ' t = phase σ t) ∧
  (cf_port_start cfg ≤ x_next_port σ → cf_port_start cfg ≤ x_next_port σ') ∧
  x_trace σ `suffix_of` x_trace σ'.

#[local] Hint Extern 0 (_ `suffix_of` _) =>
  first [reflexivity | apply suffix_cons_r; reflexivity] : core.

Lemma quiet_ok σ σ' : quiet σ σ' → exec_ok σ → exec_ok σ'.
Proof using.
  intros (Hs & Hd & Hc & Hr & Ha & Hrefs & Hp & Hn & Htr) [].
  apply size_dom_eq in Hd. pose proof (refs_started _ _ Hrefs) as Hst.
  split; intros *; rewrite ?Hs, ?Hd, ?Hc, ?Ha, ?Hrefs, ?Hst, ?Hp; eauto.
  - setoid_rewrite Hc. eauto.
  - setoid_rewrite Hc. eauto.
  - intros. eapply removed_suffix; eauto.
Qed.

Lemma quiet_keep σ σ' r : quiet σ σ' → exec_keep r σ σ'.
Proof using.
  intros (Hs & Hd & Hc & Hr & Ha & Hst & Hp & Hn & _).
  destruct r; simpl; [|by apply same_slot_kept..|];
    unfold same_task, identity_at; rewrite ?Hs, ?Ha; split_and?; auto; intros; rewrite ?Hc; auto.
Qed.

Lemma quiet_evolves σ σ' : quiet σ σ' → exec_evolves σ σ'.
Proof using.
  intros (_ & _ & Hc & _ & _ & _ & _ & _ & Ht). by apply same_cores_evolves.
Qed.

Lemma quiet_due σ σ' r : quiet σ σ' → exec_due r σ' → exec_due r σ.
Proof using.
  intros (Hs & Hd & Hc & _ & _ & Hst & _). destruct r; simpl; [|by apply same_has_slot..|done].
  by rewrite (refs_started _ _ Hst), (size_dom_eq _ _ Hd).
Qed.

Lemma quiet_calm O σ σ' : quiet σ σ' → exec_ok σ → owned O σ → calm O σ σ'.
Proof using.
  intros Hq Hok Ho. pose proof (quiet_evolves _ _ Hq) as He.
  assert (Hk : ∀ r, exec_keep r σ σ') by (intros; by apply quiet_keep).
  split; [|by split; [|intros; apply Hk]].
  split_and!; [by eapply quiet_ok| |done|by intros; split; [apply Hk|]|].
  - intros r Hr. eapply exec_own_keep; [by apply Ho|done|apply Hk].
  - intros r Hd. destruct (decide (r ∈ O)); [by left|right]. split; [done|].
    by eapply quiet_due.
Qed.

(** The calls the protocol of a task is about. *)
Definition protocol_call (c : xcall) : bool :=
  match c with
  | XClaimTask _ _ | XAppendTaskEvent _ | XOpenEnvironment _ _ | XStartContainer _ => true
  | _ => false
  end.

Lemma record_quiet c r σ : protocol_call c = false → quiet σ (record_call c r σ).
Proof using.
  intros Hc. unfold record_call, quiet, refs, refs_of, phase, phase_of. simpl.
  split_and!; try done.
  - by destruct c.
  - intros t. unfold task_step at 1. simpl. by destruct c.
Qed.

#[local] Notation silent := (silent record_call (T := thread)).

Lemma silent_call c : protocol_call c = false → silent (xcall_ c).
Proof using.
  intros Hc. simpl. split; [|done]. intros O σ r Hi Ho. apply quiet_calm; [|done..].
  by apply record_quiet.
Qed.

Lemma silent_atomic {B} (f : Exec → Exec * B) :
  (∀ σ, exec_ok σ → quiet σ (f σ).1) → silent (atomic f : go B).
Proof using.
  intros Hf. simpl. split; [|done]. intros O σ Hi Ho. apply quiet_calm; [|done..]. by apply Hf.
Qed.

Lemma silent_update f : (∀ σ, exec_ok σ → quiet σ (f σ)) → silent (update f : go ()).
Proof using. intros Hf. by apply (silent_atomic (λ σ, (f σ, ()))). Qed.

Lemma quiet_refl σ : quiet σ σ.
Proof using. by split_and!. Qed.

Lemma silent_read {B} (f : Exec → B) : silent (read f : go B).
Proof using. apply (silent_atomic (λ σ, (σ, f σ))). intros. apply quiet_refl. Qed.

Lemma silent_ret {A} (a : A) : silent (mret a : go A).
Proof using. done. Qed.

Lemma quiet_put_heap σ m :
  (∀ o, core_of <$> m !! o = core_at σ o) → quiet σ (put_heap m σ).
Proof using.
  intros Hm. assert (Hd : dom m = dom (x_heap σ)).
  { apply set_eq. intros o. rewrite !elem_of_dom. specialize (Hm o). unfold core_at, slot_at in Hm.
    destruct (m !! o), (x_heap σ !! o); naive_solver. }
  by split_and!.
Qed.

Lemma alter_quiet o f σ :
  (∀ s, core_of (f s) = core_of s) → quiet σ (put_heap (alter f o (x_heap σ)) σ).
Proof using.
  intros Hf. apply quiet_put_heap. intros o'. unfold core_at, slot_at.
  destruct (decide (o' = o)) as [->|].
  - rewrite lookup_alter_eq. destruct (x_heap σ !! o); simpl; [by rewrite Hf|done].
  - by rewrite lookup_alter_ne.
Qed.

Lemma silent_alter o f : (∀ s, core_of (f s) = core_of s) → silent (alter_slot o f).
Proof using. intros Hf. apply silent_update. intros σ _. by apply alter_quiet. Qed.

#[local] Hint Resolve silent_read silent_ret : silent.
#[local] Hint Extern 1 (Conc.silent _ (xcall_ _)) => by apply silent_call : silent.
#[local] Hint Extern 1 (Conc.silent _ (alter_slot _ _)) => by apply silent_alter : silent.

(** Follow the structure of a program down to its steps. *)
Ltac silence :=
  repeat first
    [ progress intros
    | solve [eauto 2 with silent]
    | apply silent_bind
    | match goal with |- Conc.silent _ (match ?x with _ => _ end) => destruct x end
    | match goal with |- Conc.silent _ (if ?x then _ else _) => destruct x end ].

Lemma silent_setState s : silent (setState s).
Proof using. apply silent_update. intros σ _. by split_and!. Qed.

Lemma silent_commandIDFor task : silent (commandIDFor task).
Proof using.
  unfold commandIDFor. silence. apply silent_atomic. intros σ _.
  repeat case_match; first [apply quiet_refl | by split_and!].
Qed.

Lemma silent_releasePort port : cf_port_start cfg ≤ port → silent (releasePort port).
Proof using.
  intros Hp. apply silent_update. intros σ _. case_match; [|apply quiet_refl]. by split_and!.
Qed.

Lemma silent_drop_command task :
  silent (update (λ σ, put_commands (delete task (x_commands σ)) σ) : go ()).
Proof using. apply silent_update. intros σ _. by split_and!. Qed.

#[local] Hint Resolve silent_setState silent_commandIDFor silent_drop_command : silent.

Lemma silent_executor_event type running : silent (appendV0002ExecutorEvent cfg type running).
Proof using. unfold appendV0002ExecutorEvent. silence. Qed.
#[local] Hint Resolve silent_executor_event : silent.

Lemma silent_observe : silent (observeSlotCount cfg).
Proof using.
  unfold observeSlotCount, slotCount, refreshRegistrationV0002. silence.
  apply silent_atomic. intros σ _. case_match; [apply quiet_refl|by split_and!].
Qed.

Lemma silent_recordAccepted o event : silent (recordAcceptedTerminal o event).
Proof using. unfold recordAcceptedTerminal. silence. Qed.

Lemma silent_control_event task control status at_ message :
  silent (appendControlEvent task control status at_ message).
Proof using. unfold appendControlEvent. silence. Qed.

Lemma silent_wait claim : silent (wait_claimed claim).
Proof using. unfold wait_claimed. silence. Qed.

Lemma silent_dial n last url : silent (dial n last url).
Proof using. revert last. induction n as [|n IH]; intros last; cbn [dial]; silence. Qed.

Lemma silent_claim_log task p : silent (claimPublishedLog task p).
Proof using.
  apply silent_atomic. intros σ _. cbv beta zeta.
  generalize (if (maxPublished <=? size (x_published σ))%nat then ∅ else x_published σ).
  intros known. case_bool_decide; by split_and!.
Qed.

#[local] Hint Resolve silent_observe silent_recordAccepted silent_control_event silent_wait
  silent_dial silent_claim_log : silent.

Lemma silent_publish task l : silent (publish_all task l).
Proof using. induction l as [|p l IH]; cbn [publish_all]; silence. Qed.

Lemma silent_setReady : silent (setReadyIfLast cfg).
Proof using. unfold setReadyIfLast, slotCount. silence. Qed.

Lemma silent_drain_stop deadline l : silent (drain_stop deadline l).
Proof using.
  induction l as [|o l IH]; cbn [drain_stop]; unfold slot_field, forceKill, slot_field; silence.
Qed.

Lemma silent_stopped : silent (stopped cfg).
Proof using. unfold stopped. silence. Qed.

Lemma silent_kill_all l : silent (kill_all l).
Proof using. induction l as [|c l IH]; cbn [kill_all]; silence. Qed.
#[local] Hint Resolve silent_kill_all : silent.

Lemma silent_leftover : silent (cleanupLeftover cfg).
Proof using. unfold cleanupLeftover. silence. Qed.

Lemma silent_register : silent register.
Proof using. unfold register. silence. Qed.

#[local] Hint Resolve silent_publish silent_setReady silent_drain_stop silent_stopped : silent.

(** ** Steps of the main goroutine *)

Definition pre (t : thread) (O : gset token) (σ : Exec) : Prop :=
  match t with
  | TRun | TPoll | TJoin _ =>
      O = {[TokMain]} ∧ x_reservations σ = 0 ∧ started σ = size (x_heap σ)
  | TTask o | TStream o _ => O = {[TokTask o]}
  | TWatch o | TControls o _ => O = ∅ ∧ is_Some (core_at σ o)
  end.

#[local] Notation wp := (wp record_call sane pre).
#[local] Notation main := ({[TokMain]} : gset token).

Definition idle (n : Z) (σ : Exec) : Prop :=
  x_reservations σ = n ∧ started σ = size (x_heap σ).

(** The main goroutine at work on a task that has no slot yet; [k] containers are started
    without a slot. *)
Record held (n : Z) (k : nat) (task : string) (acc : option taskLifecycle) (P : tphase → Prop)
    (σ : Exec) : Prop := mkHeld {
  he_reservations : x_reservations σ = n;
  he_started : started σ = (size (x_heap σ) + k)%nat;
  he_object : ¬ has_object σ task;
  he_accepted : x_accepted σ !! task = acc;
  he_phase : P (phase σ task);
  he_room : Z.of_nat (size (x_slots σ)) + 1 ≤ cf_max cfg;
}.

Lemma held_idle n task acc P σ : held n 0 task acc P σ → idle n σ.
Proof using. intros []. split; [done|lia]. Qed.

Lemma held_mono n k task acc (P P' : tphase → Prop) σ :
  (∀ ph, P ph → P' ph) → held n k task acc P σ → held n k task acc P' σ.
Proof using. intros HP []. split; auto. Qed.

Lemma rely_main O σ σ' : TokMain ∈ O → rely O σ σ' → exec_keep TokMain σ σ'.
Proof using. intros Hin [_ Hk]. by apply (Hk TokMain). Qed.

Lemma idle_rely O n σ σ' : TokMain ∈ O → rely O σ σ' → idle n σ → idle n σ'.
Proof using.
  intros Hin Hr [<- Hs]. destruct (rely_main _ _ _ Hin Hr) as (Hres & _ & Hst%refs_started & Hd & _).
  split; [done|]. by rewrite Hst, (size_dom_eq _ _ Hd).
Qed.

Lemma held_rely O n k task acc P σ σ' :
  TokMain ∈ O → rely O σ σ' → held n k task acc P σ → held n k task acc P σ'.
Proof using.
  intros Hin Hr [].
  destruct (rely_main _ _ _ Hin Hr) as (Hres & Hsub & Hst%refs_started & Hd & Hi & Ht).
  destruct (Ht _ he_object0) as [Hp Ha].
  split; rewrite ?Hres, ?Hst, ?(size_dom_eq _ _ Hd), ?Hp, ?Ha; try done.
  - intros Ho. apply he_object0. by eapply has_object_identity.
  - apply map_subseteq_size in Hsub. lia.
Qed.

(** A step that concerns one task without a slot. *)
Record task_change (task : string) (σ σ' : Exec) : Prop := mkTaskChange {
  tc_slots : x_slots σ' = x_slots σ;
  tc_dom : dom (x_heap σ') = dom (x_heap σ);
  tc_cores o : core_at σ' o = core_at σ o;
  tc_next : x_next_port σ' = x_next_port σ;
  tc_trace : x_trace σ `suffix_of` x_trace σ';
  tc_refs : refs σ' = refs σ ∨
    started σ = size (x_heap σ) ∧ ∃ ref, refs σ' = ref :: refs σ;
  tc_others t : t ≠ task → same_task σ σ' t;
  tc_object : ¬ has_object σ task;
  tc_phase : phase σ' task ≠ Broken;
  tc_accepted : before_start (phase σ' task) = false → is_Some (x_accepted σ' !! task);
  tc_running : x_accepted σ' !! task ≠ Some LifecycleTerminal;
  tc_started : (size (x_heap σ) ≤ started σ')%nat;
  tc_room : Z.of_nat (size (x_slots σ) + (started σ' - size (x_heap σ))) ≤ cf_max cfg;
}.

(** The containers without a slot, after such a step. *)
Lemma task_change_refs task σ σ' ref :
  task_change task σ σ' → exec_ok σ → ref ∈ refs σ' →
  (∃ o c, core_at σ o = Some c ∧ co_container c = rf_id ref) ∨
  started σ' ≠ size (x_heap σ) ∧ head (refs σ') = Some ref.
Proof using.
  intros Htc Hok. destruct (tc_refs _ _ _ Htc) as [E|[Hst [ref' E]]].
  - rewrite E, (refs_started _ _ E). apply (ok_refs _ Hok).
  - rewrite E. intros [->|Hr]%elem_of_cons; [right|left].
    + split; [|done]. unfold started, refs in *. rewrite starts_refs in *. rewrite E. simpl. lia.
    + by destruct (ok_refs _ Hok _ Hr) as [?|[? _]].
Qed.

Lemma task_change_ok task σ σ' : task_change task σ σ' → exec_ok σ → exec_ok σ'.
Proof using.
  intros Htc Hok. pose proof (λ ref, task_change_refs _ _ _ ref Htc Hok) as Hrefs.
  destruct Htc as [Hs Hd Hc Hn Htr _ Ho Hobj Hp Ha Hr Hst Hroom], Hok. apply size_dom_eq in Hd.
  assert (Hot : ∀ o c, core_at σ o = Some c → co_task c ≠ task).
  { intros o c Hoc Ht. apply Hobj. by exists o, c. }
  assert (Hsame : ∀ o c, core_at σ o = Some c → same_task σ σ' (co_task c)).
  { intros o c Hoc. apply Ho. by eapply Hot. }
  split; intros *; rewrite ?Hs, ?Hd, ?Hc, ?Hn; eauto.
  - intros Hoc Hf. rewrite (proj1 (Hsame o c Hoc)). eauto.
  - intros Hoc. rewrite (proj1 (Hsame o c Hoc)). eauto.
  - destruct (decide (t = task)) as [->|Hne]; [done|]. rewrite (proj1 (Ho t Hne)). eauto.
  - destruct (decide (t = task)) as [->|Hne]; [done|]. destruct (Ho t Hne) as [-> ->]. eauto.
  - destruct (decide (t = task)) as [->|Hne]; [done|]. destruct (Ho t Hne) as [-> ->].
    setoid_rewrite Hc. eauto.
  - intros Hoc. destruct (ok_container0 o c Hoc) as (ref & Hin & E). exists ref.
    split; [by eapply refs_suffix|done].
  - setoid_rewrite Hc. apply Hrefs.
  - intros. eapply removed_suffix; eauto.
Qed.

Lemma task_change_guar task O σ σ' :
  TokMain ∈ O → task_change task σ σ' → exec_ok σ → owned O σ → guar O O σ σ'.
Proof using.
  intros Hin Htc Hok Hown. pose proof (task_change_ok _ _ _ Htc Hok) as Hok'.
  destruct Htc as [Hs Hd Hc Hn Htr _ Ho Hobj _ _ _ _ _].
  assert (He : exec_evolves σ σ') by by apply same_cores_evolves.
  assert (Hk : ∀ r, r ≠ TokMain → exec_keep r σ σ').
  { intros [|o|o|o] Hne; [done|by apply same_slot_kept..|]; simpl.
    - unfold identity_at. rewrite Hc. split; [done|]. intros t p Hp. apply Ho. intros ->.
      destruct (core_at σ o) as [c|] eqn:Hoc; [|done]. apply Hobj. exists o, c.
      simpl in Hp. split; congruence. }
  split_and!; [done| |done|..].
  - intros r Hr. destruct (decide (r = TokMain)) as [->|Hne]; [done|].
    eapply exec_own_keep; [by apply Hown|done|by apply Hk].
  - intros r Hr _. split; [|done]. apply Hk. by intros ->.
  - intros r Hr. destruct (decide (r ∈ O)); [by left|right]. split; [done|].
    destruct r; simpl in *; [done|by eapply same_has_slot..|done].
Qed.

(** The steps of the main goroutine on a held task, with what it holds afterwards. *)
Lemma wp_held_atomic {B} (f : Exec → Exec * B) n k task acc P n' k' acc' P' σ :
  held n k task acc P σ →
  (∀ σ1, exec_ok σ1 → held n k task acc P σ1 →
     task_change task σ1 (f σ1).1 ∧
     held (n' (f σ1).2) (k' (f σ1).2) task (acc' (f σ1).2) (P' (f σ1).2) (f σ1).1) →
  wp main (atomic f : go B) (λ b O σ, O = main ∧ held (n' b) (k' b) task (acc' b) (P' b) σ) σ.
Proof using.
  intros Hh Hf. simpl. intros σ1 Hr Hi Ho. assert (Hin : TokMain ∈ main) by set_solver.
  destruct (Hf σ1 Hi (held_rely _ _ _ _ _ _ _ _ Hin Hr Hh)) as [Htc Hh'].
  exists main. split; [by eapply task_change_guar|]. intros σ2 Hr2 _ _. split; [done|].
  by eapply held_rely.
Qed.

Lemma wp_held_call_frame c n task acc (P : tphase → Prop) (P' : xres c → tphase → Prop) k'
    (F : Exec → Prop) (F' : xres c → Exec → Prop) σ :
  (∀ σ σ', rely main σ σ' → F σ → F σ') → (∀ r σ σ', rely main σ σ' → F' r σ → F' r σ') →
  (∀ r σ, F σ → F' r (record_call c r σ)) →
  F σ → held n 0 task acc P σ → acc ≠ Some LifecycleTerminal →
  (∀ t ph r, t ≠ task → call_step t ph c r = ph) →
  (∀ ph r, sane c r → P ph → P' r (call_step task ph c r) ∧ call_step task ph c r ≠ Broken ∧
     (before_start (call_step task ph c r) = false → is_Some acc)) →
  (∀ r, k' r = if is_start (mkAnswered c r) then 1%nat else 0%nat) →
  wp main (xcall_ c) (λ r O σ, O = main ∧ (held n (k' r) task acc (P' r) σ ∧ F' r σ)) σ.
Proof using.
  intros HFr HFr' HFc HF Hh Hacc Hother Hstep Hk. simpl. intros r σ1 Hsane Hr Hi Ho.
  assert (Hin : TokMain ∈ main) by set_solver.
  pose proof (held_rely _ _ _ _ _ _ _ _ Hin Hr Hh) as [].
  destruct (Hstep (phase σ1 task) r Hsane he_phase0) as (HP' & Hb & Hs).
  assert (Hst : started (record_call c r σ1) = (started σ1 + k' r)%nat).
  { unfold started, starts. simpl. rewrite Hk. rewrite filter_cons.
    destruct (is_start (mkAnswered c r)); simpl; lia. }
  assert (Hrefs : refs (record_call c r σ1) = refs σ1 ∨
            ∃ ref, refs (record_call c r σ1) = ref :: refs σ1).
  { unfold refs, refs_of, record_call. cbn [omap list_omap x_trace put_trace].
    destruct (start_ref _); eauto. }
  assert (Hk1 : (k' r ≤ 1)%nat) by (rewrite Hk; case_match; lia).
  assert (Htc : task_change task σ1 (record_call c r σ1)).
  { split; try done.
    - destruct Hrefs as [|Hrefs]; [by left|right]. split; [lia|done].
    - intros t Hne. split; [|done]. by apply Hother.
    - intros Hbs. simpl. rewrite he_accepted0. by apply Hs.
    - simpl. by rewrite he_accepted0.
    - rewrite Hst. lia.
    - rewrite Hst. simpl. lia. }
  exists main. split; [by eapply task_change_guar|]. intros σ2 Hr2 _ _. split; [done|].
  split; [|by eauto].
  eapply held_rely; [done..|]. split; try done. rewrite Hst. simpl. lia.
Qed.

Lemma wp_held_call c n task acc (P : tphase → Prop) (P' : xres c → tphase → Prop) k' σ :
  held n 0 task acc P σ → acc ≠ Some LifecycleTerminal →
  (∀ t ph r, t ≠ task → call_step t ph c r = ph) →
  (∀ ph r, sane c r → P ph → P' r (call_step task ph c r) ∧ call_step task ph c r ≠ Broken ∧
     (before_start (call_step task ph c r) = false → is_Some acc)) →
  (∀ r, k' r = if is_start (mkAnswered c r) then 1%nat else 0%nat) →
  wp main (xcall_ c) (λ r O σ, O = main ∧ held n (k' r) task acc (P' r) σ) σ.
Proof using.
  intros Hh Hacc Hother Hstep Hk. eapply wp_mono; [|apply (wp_held_call_frame c n task acc P P' k'
    (λ _, True) (λ _ _, True)); done]. by intros r O σ' (? & ? & _).
Qed.

Lemma wp_held_silent {A} (p : go A) n k task acc P σ :
  silent p → held n k task acc P σ →
  wp main p (λ _ O σ, O = main ∧ held n k task acc P σ) σ.
Proof using.
  intros Hp Hh. apply wp_silent; [done|]. intros a σ1 Hr _ _. split; [done|].
  by eapply held_rely; [|done..]; set_solver.
Qed.

Lemma wp_idle_silent {A} (p : go A) n σ :
  silent p → idle n σ → wp main p (λ _ O σ, O = main ∧ idle n σ) σ.
Proof using.
  intros Hp Hh. apply wp_silent; [done|]. intros a σ1 Hr _ _. split; [done|].
  by eapply idle_rely; [|done..]; set_solver.
Qed.

(** Sequencing with the postconditions of the main goroutine. *)
Lemma wp_then {A B} (p : go A) (k : A → go B) (I : A → Exec → Prop) Q σ :
  wp main p (λ a O σ, O = main ∧ I a σ) σ →
  (∀ a σ, I a σ → wp main (k a) Q σ) → wp main (p ≫= k) Q σ.
Proof using.
  intros Hp Hk. apply wp_bind. eapply wp_mono; [|exact Hp].
  intros a O σ' [-> Ha]. by apply Hk.
Qed.

Lemma wp_main_ret {A} (a : A) (I : A → Exec → Prop) σ :
  (∀ σ1, rely main σ σ1 → I a σ1) → wp main (mret a : go A) (λ a O σ, O = main ∧ I a σ) σ.
Proof using. intros HI σ1 Hr _ _. auto. Qed.

Lemma wp_then_held {A B} (p : go A) (k : A → go B) n kk task acc P Q σ :
  silent p → held n kk task acc P σ →
  (∀ a σ1, held n kk task acc P σ1 → wp main (k a) Q σ1) → wp main (p ≫= k) Q σ.
Proof using.
  intros Hp Hh Hk. apply (wp_then _ _ (λ _, held n kk task acc P)); [by apply wp_held_silent|done].
Qed.

Lemma wp_then_idle {A B} (p : go A) (k : A → go B) n Q σ :
  silent p → idle n σ → (∀ a σ1, idle n σ1 → wp main (k a) Q σ1) → wp main (p ≫= k) Q σ.
Proof using.
  intros Hp Hh Hk. apply (wp_then _ _ (λ _, idle n)); [by apply wp_idle_silent|done].
Qed.

Lemma wp_ret_idle {A} (a : A) (I : A → Z) n σ :
  idle n σ → I a = n → wp main (mret a : go A) (λ a O σ, O = main ∧ idle (I a) σ) σ.
Proof using.
  intros Hi <-. apply (wp_main_ret a (λ a, idle (I a))). intros σ1 Hr.
  by eapply idle_rely; [|done..]; set_solver.
Qed.

(** ** Taking a task *)

Lemma held_bookkeeping n k task acc (P : tphase → Prop) σ σ' :
  exec_ok σ → held n k task acc P σ → (k ≤ 1)%nat →
  x_slots σ' = x_slots σ → x_heap σ' = x_heap σ → x_trace σ' = x_trace σ →
  x_next_port σ' = x_next_port σ →
  (∀ t, t ≠ task → x_accepted σ' !! t = x_accepted σ !! t) →
  x_accepted σ' !! task ≠ Some LifecycleTerminal →
  (∀ ph, P ph → before_start ph = true) →
  task_change task σ σ' ∧ held (x_reservations σ') k task (x_accepted σ' !! task) P σ'.
Proof using.
  intros Hok [] Hk Hs Hh Ht Hn Ha Hr HP.
  assert (Hp : ∀ t, phase σ' t = phase σ t) by (intros; unfold phase; by rewrite Ht).
  assert (Hst : started σ' = started σ) by (unfold started; by rewrite Ht).
  assert (Hc : ∀ o, core_at σ' o = core_at σ o) by (intros; unfold core_at, slot_at; by rewrite Hh).
  split; split; rewrite ?Hs, ?Hh, ?Hn, ?Hp, ?Hst, ?Ht; try done.
  - left. unfold refs. by rewrite Ht.
  - intros t Hne. split; [apply Hp|by apply Ha].
  - intros E. rewrite E in he_phase0. by apply HP in he_phase0.
  - intros Hb. apply HP in he_phase0. congruence.
  - lia.
  - lia.
  - intros (o & c & Hoc & Htk). apply he_object0. exists o, c. by rewrite <- Hc.
Qed.

Lemma wp_terminalize n task acc (P : tphase → Prop) σ :
  held n 0 task acc P σ → (∀ ph, P ph → before_start ph = true) →
  wp main (terminalizeAcceptedV0002 task) (λ _ O σ, O = main ∧ held n 0 task None P σ) σ.
Proof using.
  intros Hh HP. apply (wp_held_atomic _ n 0 task acc P (λ _, n) (λ _, 0%nat) (λ _, None) (λ _, P));
    [done|].
  intros σ1 Hok Hh1. simpl. set (σ2 := put_commands _ _).
  destruct (held_bookkeeping n 0 task acc P σ1 σ2) as [Htc Hh2]; simpl; try done; [lia|..].
  - intros t Hne. by rewrite lookup_delete_ne.
  - by rewrite lookup_delete_eq.
  - split; [done|]. simpl in Hh2. by rewrite lookup_delete_eq, (he_reservations _ _ _ _ _ _ Hh1) in Hh2.
Qed.

Lemma wp_reserve task (P : tphase → Prop) σ :
  held 0 0 task (Some LifecycleRunning) P σ → (∀ ph, P ph → before_start ph = true) →
  wp main reserveLocalSlot
    (λ _ O σ, O = main ∧ held 1 0 task (Some LifecycleRunning) P σ) σ.
Proof using.
  intros Hh HP.
  apply (wp_held_atomic _ 0 0 task (Some LifecycleRunning) P (λ _, 1) (λ _, 0%nat)
           (λ _, Some LifecycleRunning) (λ _, P)); [done|].
  intros σ1 Hok Hh1. simpl. set (σ2 := put_reservations _ _).
  destruct (held_bookkeeping 0 0 task (Some LifecycleRunning) P σ1 σ2) as [Htc Hh2];
    simpl; try done; [lia|by rewrite (he_accepted _ _ _ _ _ _ Hh1)|].
  split; [done|]. simpl in Hh2.
  by rewrite (he_accepted _ _ _ _ _ _ Hh1), (he_reservations _ _ _ _ _ _ Hh1) in Hh2.
Qed.

Lemma wp_markAccepted task (P : tphase → Prop) σ :
  held 0 0 task None P σ → (∀ ph, P ph → before_start ph = true) →
  wp main (markAcceptedV0002 task)
    (λ b O σ, O = main ∧ held 0 0 task (if b : bool then Some LifecycleRunning else None) P σ) σ.
Proof using.
  intros Hh HP.
  apply (wp_held_atomic _ 0 0 task None P (λ _, 0) (λ _, 0%nat)
           (λ b : bool, if b then Some LifecycleRunning else None) (λ _, P)); [done|].
  intros σ1 Hok Hh1. rewrite (he_accepted _ _ _ _ _ _ Hh1). simpl. set (σ2 := put_accepted _ _).
  destruct (held_bookkeeping 0 0 task None P σ1 σ2) as [Htc Hh2]; simpl; try done; [lia|..].
  - intros t Hne. by rewrite lookup_insert_ne.
  - by rewrite lookup_insert_eq.
  - split; [done|]. simpl in Hh2.
    by rewrite lookup_insert_eq, (he_reservations _ _ _ _ _ _ Hh1) in Hh2.
Qed.

(** A report on a task without a slot. *)
Lemma wp_report_held n task acc (P : tphase → Prop) (P' : option xerror → tphase → Prop)
    team type payload σ :
  held n 0 task acc P σ → acc ≠ Some LifecycleTerminal →
  (∀ id at_ ph r, P ph →
     let e := mkTaskEvent id team task (cf_executor cfg) type at_ payload in
     P' r (report_step ph e r) ∧ before_start (report_step ph e r) = true) →
  wp main (appendV0002TaskEventForTeam cfg task team type payload)
    (λ r O σ, O = main ∧ held n 0 task acc (P' r) σ) σ.
Proof using.
  intros Hh Hacc HP. unfold appendV0002TaskEventForTeam.
  eapply wp_then_held; [by apply silent_call|done|]. intros uuid σ1 Hh1.
  eapply wp_then_held; [by apply silent_call|done|]. intros now σ2 Hh2.
  apply (wp_held_call (XAppendTaskEvent _) n task acc P P' (λ _, 0%nat) σ2 Hh2 Hacc).
  - intros t ph r Hne. simpl. by rewrite bool_decide_eq_false_2.
  - intros ph r _ Hph. simpl. rewrite bool_decide_eq_true_2 by done.
    destruct (HP ("evt-" +:+ uuid) now ph r Hph) as [Hp1 Hp2]. split_and!; [done| |congruence].
    intros E. simpl in Hp2. by rewrite E in Hp2.
  - done.
Qed.

Definition out_idle (out : outcome) (σ : Exec) : Prop := idle (if out.1 then 0 else 1) σ.

Lemma wp_fail_claimed command claim task team phase error σ :
  held 1 0 task (Some LifecycleRunning) (eq (Working command claim)) σ →
  team = te_team (cl_task claim) →
  wp main (fail_claimed cfg task team phase error) (λ out O σ, O = main ∧ out_idle out σ) σ.
Proof using.
  intros Hh ->. unfold fail_claimed.
  eapply wp_then; [eapply wp_terminalize; [exact Hh|by intros ? <-]|]. intros [] σ1 Hh1.
  eapply (wp_then _ _ (λ _, held 1 0 task None (λ ph, before_start ph = true))).
  - unfold appendV0002TaskEventQuietForTeam.
    eapply wp_then; [eapply (wp_report_held _ _ _ _ (λ _ ph, before_start ph = true)); [done|done|]|].
    + intros id at_ ph r <-. unfold report_step. simpl. rewrite bool_decide_eq_false_2 by auto.
      by rewrite bool_decide_eq_true_2.
    + intros r σ2 Hh2. apply (wp_main_ret () (λ _, held 1 0 task None _)). intros σ3 Hr.
      eapply held_rely; [|done..]. set_solver.
  - intros _ σ2 Hh2. by eapply (wp_ret_idle _ (λ out : outcome, if out.1 then 0 else 1));
      [eapply held_idle|].
Qed.

(** A port in range that no slot has. *)
Definition port_free (p : Z) (σ : Exec) : Prop :=
  cf_port_start cfg ≤ p ≤ cf_port_end cfg ∧
  ∀ t o c, x_slots σ !! t = Some o → core_at σ o = Some c → co_port c ≠ p.

Lemma port_free_rely O p σ σ' : TokMain ∈ O → rely O σ σ' → port_free p σ → port_free p σ'.
Proof using.
  intros Hin Hr [Hrange Hp]. split; [done|]. intros t o c Ht Hc.
  destruct (rely_main _ _ _ Hin Hr) as (_ & Hsub & _ & _ & Hi & _).
  specialize (Hi o). rewrite (identity_at_Some _ _ _ Hc) in Hi. unfold identity_at in Hi.
  destruct (core_at σ o) as [c0|] eqn:Hc0; [|done].
  specialize (Hp t o c0 (lookup_weaken _ _ _ _ Ht Hsub) Hc0). simpl in Hi. congruence.
Qed.

Lemma free_port_spec σ p :
  exec_ok σ → free_port cfg σ = Some p → port_free p σ ∧ x_next_port σ ≤ p.
Proof using.
  intros Hok Hf. apply List.find_some in Hf as [Hin Hu%negb_true_iff].
  assert (Hz : p ∈ seqZ (x_next_port σ) (cf_port_end cfg - x_next_port σ + 1))
    by by apply list_elem_of_In.
  apply elem_of_seqZ in Hz. pose proof (ok_next _ Hok). split; [|lia]. split; [lia|].
  intros t o c Ht Hc <-. apply bool_decide_eq_false in Hu. apply Hu. exists t, o. split; [done|].
  unfold core_at in Hc. destruct (slot_at σ o); simplify_eq/=; done.
Qed.

Lemma wp_allocatePort {B} (k : option Z → go B) n kk task acc P Q σ :
  held n kk task acc P σ →
  (∀ r σ1, held n kk task acc P σ1 → (∀ p, r = Some p → port_free p σ1) → wp main (k r) Q σ1) →
  wp main (allocatePort cfg ≫= k) Q σ.
Proof using.
  intros Hh Hk. apply wp_bind. intros σ1 Hr Hi Ho. assert (Hin : TokMain ∈ main) by set_solver.
  pose proof (held_rely _ _ _ _ _ _ _ _ Hin Hr Hh) as Hh1.
  assert (Hq : ∀ p, free_port cfg σ1 = Some p → quiet σ1 (put_next_port (p + 1) σ1)).
  { intros p [_ Hp]%free_port_spec; [|done]. split_and!; simpl; try done. lia. }
  assert (Hcalm : calm main σ1 (match free_port cfg σ1 with
            | Some p => (put_next_port (p + 1) σ1, Some p) | None => (σ1, None) end).1).
  { apply quiet_calm; [|done..]. destruct (free_port cfg σ1) as [p|] eqn:Hf; simpl;
      [by apply Hq|apply quiet_refl]. }
  exists main. destruct Hcalm as [Hg Hrel]. split; [done|]. intros σ2 Hr2 Hi2 Ho2.
  assert (Hr12 : rely main σ1 σ2) by by etrans. apply Hk; [by eapply held_rely|].
  intros p Hp. eapply port_free_rely; [done..|]. apply free_port_spec; [done|].
  destruct (free_port cfg σ1); by simplify_eq/=.
Qed.

Lemma reservations_guar O n σ :
  TokMain ∈ O → exec_ok σ → owned O σ → guar O O σ (put_reservations n σ).
Proof using.
  intros Hin Hok Ho. split_and!.
  - by destruct Hok.
  - done.
  - by apply same_cores_evolves.
  - intros r Hr _. split; [|done].
    destruct r; [done|by apply same_slot_kept..|]; simpl; unfold same_task; auto.
  - intros r Hr. destruct (decide (r ∈ O)); [by left|by right].
Qed.

Lemma wp_release_idle O σ (Q : () → gset token → Exec → Prop) :
  TokMain ∈ O → idle 1 σ → (∀ σ1, idle 0 σ1 → Q () O σ1) →
  wp O releaseLocalSlotReservation Q σ.
Proof using.
  intros Hin Hi HQ σ1 Hr Hok Ho. destruct (idle_rely _ _ _ _ Hin Hr Hi) as [Hn Hs].
  exists O. rewrite Hn. cbn [fst]. change (0 <? 1) with true.
  split; [by apply reservations_guar|]. intros σ2 Hr2 _ _. apply HQ.
  eapply idle_rely; [done..|]. done.
Qed.

(** *** Installing a slot *)

Definition installed (task : string) (s : taskSlot) (σ : Exec) : Exec :=
  let o := fresh (dom (x_heap σ)) in
  put_slots (<[task := o]> (x_slots σ)) (put_heap (<[o := s]> (x_heap σ)) σ).

(** A slot object as it is installed. *)
Definition fresh_slot (task : string) (port : Z) (ref : ContainerRef) (s : taskSlot) : Prop :=
  core_of s = mkCore task port (rf_id ref) false false.

(** The container that was started last. *)
Definition latest (ref : ContainerRef) (σ : Exec) : Prop := head (refs σ) = Some ref.

Lemma latest_rely O ref σ σ' : TokMain ∈ O → rely O σ σ' → latest ref σ → latest ref σ'.
Proof using.
  unfold latest. intros Hin Hr. by destruct (rely_main _ _ _ Hin Hr) as (_ & _ & -> & _).
Qed.

Lemma core_at_fresh σ o : o = fresh (dom (x_heap σ)) → core_at σ o = None.
Proof using.
  intros ->. unfold core_at, slot_at. pose proof (is_fresh (dom (x_heap σ))) as Hf.
  apply not_elem_of_dom in Hf. by rewrite Hf.
Qed.

Lemma core_at_installed task s σ o :
  core_at (installed task s σ) o =
  if decide (o = fresh (dom (x_heap σ))) then Some (core_of s) else core_at σ o.
Proof using.
  unfold core_at, slot_at, installed. simpl. destruct (decide _) as [->|].
  - by rewrite lookup_insert_eq.
  - by rewrite lookup_insert_ne.
Qed.

Lemma unslotted σ task : exec_ok σ → ¬ has_object σ task → x_slots σ !! task = None.
Proof using.
  intros Hok Hn. destruct (x_slots σ !! task) as [o|] eqn:Ht; [|done].
  destruct (ok_slots _ Hok _ _ Ht) as (c & Hc & He). destruct Hn. by exists o, c.
Qed.

Lemma installed_ok n task s port ref σ :
  exec_ok σ → held n 1 task (Some LifecycleRunning) (eq Started) σ → port_free port σ →
  latest ref σ → fresh_slot task port ref s → exec_ok (installed task s σ).
Proof using.
  intros Hok [] [Hrange Hport] Hlast Hs. pose proof Hok as [].
  pose proof (unslotted _ _ Hok he_object0) as Hns.
  assert (Hobj : ∀ o c, core_at σ o = Some c → co_task c ≠ task).
  { intros o c Hc Ht. apply he_object0. by exists o, c. }
  assert (Hold : ∀ t o, x_slots σ !! t = Some o → o ≠ fresh (dom (x_heap σ))).
  { intros t o Ht ->. destruct (ok_slots0 _ _ Ht) as (c & Hc & _). by rewrite core_at_fresh in Hc. }
  assert (Hsize : size (x_heap (installed task s σ)) = S (size (x_heap σ))).
  { unfold installed. simpl. apply map_size_insert_None.
    apply not_elem_of_dom, is_fresh. }
  split; intros *; rewrite ?core_at_installed;
    try (change (x_slots (installed task s σ)) with (<[task := fresh (dom (x_heap σ))]> (x_slots σ)));
    try (change (started (installed task s σ)) with (started σ));
    try (change (refs (installed task s σ)) with (refs σ)); rewrite ?Hsize.
  - rewrite lookup_insert_Some. intros [[<- <-]|[Hne Ht]].
    + rewrite decide_True by done. rewrite Hs. by eexists.
    + destruct (ok_slots0 _ _ Ht) as (c & Hc & He). destruct (decide _) as [->|]; [|by eauto].
      by rewrite core_at_fresh in Hc.
  - repeat destruct (decide _); subst; rewrite ?Hs; intros; simplify_eq/=; eauto;
      exfalso; eapply Hobj; eauto.
  - destruct (decide _); [|by apply ok_open0]. rewrite Hs. intros [= <-] _. by symmetry.
  - destruct (decide _); [|by apply ok_objects0]. rewrite Hs. intros [= <-]. simpl.
    change (before_start (phase σ task) = false). by rewrite <- he_phase0.
  - apply ok_phase0.
  - apply ok_accepted0.
  - intros Ht. destruct (ok_unreported0 t Ht) as (Hp & o & c & Hc & He & Hterm).
    split; [done|]. exists o, c. rewrite core_at_installed. destruct (decide _) as [->|]; [|done].
    by rewrite core_at_fresh in Hc.
  - destruct (decide _) as [->|].
    + rewrite Hs. intros [= <-] _. simpl. by rewrite lookup_insert_eq.
    + intros Hc Hcl. rewrite lookup_insert_ne; [by eauto|]. apply not_eq_sym. eauto.
  - lia.
  - rewrite map_size_insert_None by done. lia.
  - rewrite !lookup_insert_Some. intros [[<- <-]|[Hne Ht]] [[<- <-]|[Hne' Ht']]; [done|..];
      intros Hc Hc' Hp.
    + rewrite decide_True in Hc by done. rewrite decide_False in Hc' by eauto.
      rewrite Hs in Hc. simplify_eq/=. by destruct (Hport _ _ _ Ht' Hc').
    + rewrite decide_True in Hc' by done. rewrite decide_False in Hc by eauto.
      rewrite Hs in Hc'. simplify_eq/=. by destruct (Hport _ _ _ Ht Hc).
    + rewrite decide_False in Hc by eauto. rewrite decide_False in Hc' by eauto. by eauto.
  - destruct (decide _); [|by eauto]. rewrite Hs. by intros [= <-].
  - done.
  - destruct (decide _); [|by eauto]. rewrite Hs. intros [= <-]. exists ref.
    split; [by apply head_Some_elem_of|done].
  - intros Hr. left. setoid_rewrite core_at_installed.
    destruct (ok_refs0 _ Hr) as [(o & c & Hc & E)|[_ E]].
    + exists o, c. destruct (decide _) as [->|]; [by rewrite core_at_fresh in Hc|done].
    + exists (fresh (dom (x_heap σ))), (core_of s). rewrite decide_True, Hs by done.
      unfold latest in Hlast. split; [done|]. simpl. congruence.
  - change (x_trace (installed task s σ)) with (x_trace σ). destruct (decide _) as [->|].
    + rewrite Hs. intros [= <-]. simpl. by rewrite lookup_insert_eq.
    + intros Hc. rewrite lookup_insert_ne; [by eauto|]. apply not_eq_sym. eauto.
Qed.

Lemma installed_guar n task s port ref σ :
  exec_ok σ → held n 1 task (Some LifecycleRunning) (eq Started) σ → port_free port σ →
  latest ref σ → fresh_slot task port ref s →
  guar main {[TokMain; TokTask (fresh (dom (x_heap σ)))]} σ (installed task s σ) ∧
  idle n (installed task s σ).
Proof using.
  intros Hok Hh Hport Hlast Hs.
  pose proof (installed_ok _ _ _ _ _ _ Hok Hh Hport Hlast Hs) as Hok'.
  destruct Hh. pose proof (unslotted _ _ Hok he_object0) as Hns.
  assert (Hcore : ∀ o c, core_at σ o = Some c → core_at (installed task s σ) o = Some c).
  { intros o c Hc. rewrite core_at_installed. destruct (decide _) as [->|]; [|done].
    by rewrite core_at_fresh in Hc. }
  assert (He : exec_evolves σ (installed task s σ)).
  { split; [|done]. intros o c Hc. exists c. split; [by apply Hcore|apply core_le_refl]. }
  assert (Hslot : ∀ o b, has_slot o b σ →
    o ≠ fresh (dom (x_heap σ)) ∧ slot_kept o σ (installed task s σ)).
  { intros o b (c & Hc & Hsl & _). split; [intros ->; by rewrite core_at_fresh in Hc|].
    split; [|by rewrite (Hcore _ _ Hc), Hc]. intros t Ht. simpl.
    rewrite lookup_insert_ne; [done|]. congruence. }
  split; [split_and!; [done| |done|..]|].
  - intros r [Hr%elem_of_singleton|Hr%elem_of_singleton]%elem_of_union; subst r; [done|].
    exists (core_of s). rewrite core_at_installed, decide_True by done. split; [done|].
    rewrite Hs. simpl. by rewrite lookup_insert_eq.
  - intros r Hr Hown. destruct r as [|o|o|o]; [set_solver| | |]; simpl in Hown.
    + destruct (Hslot _ _ Hown) as [Hne Hk]. split; [exact Hk|]. set_solver.
    + destruct (Hslot _ _ Hown) as [Hne Hk]. split; [exact Hk|]. set_solver.
    + destruct Hown as (c & Hc & _). split; [|set_solver]. split; [|done].
      unfold identity_at. by rewrite (Hcore _ _ Hc), Hc.
  - assert (Hold : ∀ o b, o ≠ fresh (dom (x_heap σ)) → has_slot o b (installed task s σ) →
      has_slot o b σ).
    { intros o b Hne (c & Hc & Hsl & Hb). rewrite core_at_installed, decide_False in Hc by done.
      exists c. split_and!; [done| |done]. simpl in Hsl.
      by apply lookup_insert_Some in Hsl as [[_ ?]|[_ ?]]. }
    intros r Hd. destruct r as [|o|o|o]; [left; set_solver|..|done];
      (destruct (decide (o = fresh (dom (x_heap σ)))) as [->|Hne]; [|right; set_solver]).
    + left. set_solver.
    + destruct Hd as (c & Hc & _ & Hb). rewrite core_at_installed, decide_True, Hs in Hc by done.
      by simplify_eq/=.
  - split; [done|]. change (started (installed task s σ)) with (started σ). unfold installed.
    simpl. rewrite map_size_insert_None by apply not_elem_of_dom, is_fresh. lia.
Qed.

(** The end of a successful start: the reservation is released and the goroutines run. *)
Lemma wp_launch o σ :
  idle 1 σ →
  wp {[TokMain; TokTask o]}
    (_ ← releaseLocalSlotReservation; _ ← spawn (TWatch o); _ ← spawn (TTask o); mret (true, None))
    (λ out O σ, O = main ∧ out_idle out σ) σ.
Proof using.
  intros Hi. assert (Hin : TokMain ∈ ({[TokMain; TokTask o]} : gset token)) by set_solver.
  apply wp_bind. apply wp_release_idle; [done|done|].
  intros σ1 Hi1 σ2 Hr2 Hok2 Ho2. exists {[TokMain; TokTask o]}, ∅. split_and!; [set_solver..| |].
  { split; [done|]. destruct (Ho2 (TokTask o)) as (c & Hc & _); [set_solver|]. by exists c. }
  pose proof (idle_rely _ 0 σ1 σ2 Hin Hr2 Hi1) as Hi2.
  intros σ3 Hr3 Hok3 Ho3. exists main, {[TokTask o]}. split_and!; [set_solver..|done|].
  pose proof (idle_rely _ 0 σ2 σ3 Hin Hr3 Hi2) as Hi3.
  by eapply (wp_ret_idle _ (λ out : outcome, if out.1 then 0 else 1)); [exact Hi3|].
Qed.

Lemma wp_install task s port ref σ :
  held 1 1 task (Some LifecycleRunning) (eq Started) σ → port_free port σ → latest ref σ →
  fresh_slot task port ref s →
  wp main
    (o ← addSlot task s; _ ← releaseLocalSlotReservation; _ ← spawn (TWatch o);
     _ ← spawn (TTask o); mret (true, None))
    (λ out O σ, O = main ∧ out_idle out σ) σ.
Proof using.
  intros Hh Hport Hlast Hs σ1 Hr1 Hok1 Ho1. assert (Hin : TokMain ∈ main) by set_solver.
  pose proof (held_rely _ _ _ _ _ _ _ _ Hin Hr1 Hh) as Hh1.
  pose proof (port_free_rely _ _ _ _ Hin Hr1 Hport) as Hp1.
  pose proof (latest_rely _ _ _ _ Hin Hr1 Hlast) as Hl1.
  destruct (installed_guar _ _ _ _ _ _ Hok1 Hh1 Hp1 Hl1 Hs) as [Hg Hi].
  eexists. split; [exact Hg|]. by apply wp_launch.
Qed.

Lemma spec_labels task command claim image values port :
  cs_labels (container_spec cfg task command claim image values port) !! LabelTaskID = Some task ∧
  cs_labels (container_spec cfg task command claim image values port) !! "flowai.command_id" =
    Some command.
Proof using. split; reflexivity. Qed.

Lemma wp_start_container task command claim image values port σ :
  held 1 0 task (Some LifecycleRunning) (eq (Working command claim)) σ → port_free port σ →
  claim_image claim = Some image → te_id (cl_task claim) = task →
  wp main (start_container cfg task command claim image values port)
    (λ out O σ, O = main ∧ out_idle out σ) σ.
Proof using.
  intros Hh Hport Himg Hid. unfold start_container.
  assert (Hin : TokMain ∈ main) by set_solver.
  assert (Hrel : silent (releasePort port)) by (apply silent_releasePort; apply Hport).
  apply wp_bind, wp_silent; [by apply silent_call|]. intros pulled σ1 Hr1 _ _.
  pose proof (held_rely _ _ _ _ _ _ _ _ Hin Hr1 Hh) as Hh1.
  pose proof (port_free_rely _ _ _ _ Hin Hr1 Hport) as Hp1.
  destruct pulled as [e|].
  { eapply wp_then_held; [exact Hrel|exact Hh1|]. intros _ σ2 Hh2. by eapply wp_fail_claimed. }
  apply wp_bind.
  set (c := XStartContainer _).
  eapply wp_mono; [|apply (wp_held_call_frame c 1 task (Some LifecycleRunning)
    (eq (Working command claim))
    (λ r, match r with Ok _ => eq Started | Err _ => eq (Working command claim) end)
    (λ r, match r with Ok _ => 1%nat | Err _ => 0%nat end) (port_free port)
    (λ r σ, port_free port σ ∧ match r with Ok ref => latest ref σ | Err _ => True end)); try done].
  - intros r O σ2 (-> & Hh2 & Hp2 & Hl2). destruct r as [ref|e].
    + eapply wp_bind, wp_silent; [by apply silent_call|]. intros now σ3 Hr3 _ _.
      apply (wp_install task _ port ref);
        [by eapply held_rely|by eapply port_free_rely|by eapply latest_rely|].
      unfold fresh_slot, core_of, new_slot, slotTaskID. simpl. by rewrite Hid.
    + eapply wp_then_held; [exact Hrel|exact Hh2|]. intros _ σ3 Hh3. by eapply wp_fail_claimed.
  - intros σ2 σ3 Hr3 Hp3. exact (port_free_rely _ _ _ _ Hin Hr3 Hp3).
  - intros r σ2 σ3 Hr3 [Hp3 Hl3]. split; [exact (port_free_rely _ _ _ _ Hin Hr3 Hp3)|].
    destruct r; [exact (latest_rely _ _ _ _ Hin Hr3 Hl3)|done].
  - intros r σ2 Hp2. split; [exact Hp2|]. by destruct r.
  - intros t ph r Hne. simpl. rewrite bool_decide_eq_false_2; [done|]. intros [= E]. done.
  - intros ph r _ <-. cbn [c call_step]. rewrite bool_decide_eq_true_2 by done.
    unfold start_step. rewrite Himg. rewrite bool_decide_eq_true_2 by done. by destruct r.
  - by intros [].
Qed.

(** The task that is worked on is given up before it has a slot. *)
Lemma wp_give_up {A} (k : A) (I : A → Z) task acc (P : tphase → Prop) σ :
  held 1 0 task acc P σ → (∀ ph, P ph → before_start ph = true) → I k = 1 →
  wp main (_ ← terminalizeAcceptedV0002 task; mret k) (λ a O σ, O = main ∧ idle (I a) σ) σ.
Proof using.
  intros Hh HP Hk.
  apply (wp_then _ _ (λ _, held 1 0 task None P)); [by eapply wp_terminalize|].
  intros _ σ1 Hh1. eapply wp_ret_idle; [|done]. by eapply held_idle.
Qed.

#[local] Notation out_n := (λ out : outcome, if out.1 then 0 else 1).

Lemma wp_start_with_values task command claim values σ :
  held 1 0 task (Some LifecycleRunning) (eq (Working command claim)) σ →
  te_id (cl_task claim) = task →
  wp main (start_with_values cfg task command claim values) (λ out O σ, O = main ∧ out_idle out σ) σ.
Proof using.
  intros Hh Hid. unfold start_with_values.
  destruct (claim_image claim) as [image|] eqn:Himg.
  - eapply wp_allocatePort; [done|]. intros [port|] σ1 Hh1 Hport.
    + apply wp_start_container; auto.
    + apply (wp_give_up (A := outcome) _ out_n _ _ _ _ Hh1); [by intros ? <-|done].
  - apply (wp_give_up (A := outcome) _ out_n _ _ _ _ Hh); [by intros ? <-|done].
Qed.

Lemma wp_open task token command claim σ :
  held 1 0 task (Some LifecycleRunning) (eq (Working command claim)) σ →
  cl_launch claim = true → cl_token claim = Some token →
  wp main (v2002OpenEnvironment task token)
    (λ _ O σ, O = main ∧ held 1 0 task (Some LifecycleRunning) (eq (Working command claim)) σ) σ.
Proof using.
  intros Hh Hl Ht. unfold v2002OpenEnvironment.
  eapply (wp_then _ _ (λ _, held 1 0 task (Some LifecycleRunning) (eq (Working command claim)))).
  - apply (wp_held_call (XOpenEnvironment task token) 1 task (Some LifecycleRunning)
      (eq (Working command claim)) (λ _, eq (Working command claim)) (λ _, 0%nat)); try done.
    + intros t ph r Hne. simpl. by rewrite bool_decide_eq_false_2.
    + intros ph r _ <-. cbn [call_step]. rewrite bool_decide_eq_true_2 by done. simpl.
      by rewrite Hl, bool_decide_eq_true_2.
  - intros r σ1 Hh1. by apply wp_held_silent.
Qed.

Lemma wp_run_claimed task command claim σ :
  held 1 0 task (Some LifecycleRunning) (eq (Claimed command claim)) σ →
  te_id (cl_task claim) = task →
  wp main (run_claimed cfg task command claim) (λ out O σ, O = main ∧ out_idle out σ) σ.
Proof using.
  intros Hh Hid. unfold run_claimed.
  eapply wp_then_held; [apply silent_wait|exact Hh|]. intros waited σ1 Hh1.
  destruct waited; simpl negb; cbn match;
    [|apply (wp_give_up (A := outcome) _ out_n _ _ _ _ Hh1); [by intros ? <-|done]].
  apply (wp_then _ _ (λ r, held 1 0 task (Some LifecycleRunning)
    match r with None => eq (Working command claim) | Some _ => λ ph, before_start ph = true end)).
  { apply (wp_report_held 1 task (Some LifecycleRunning) (eq (Claimed command claim))); [done..|].
    intros id at_ ph r <-. unfold report_step. simpl.
    rewrite bool_decide_eq_false_2 by auto. rewrite bool_decide_eq_true_2 by done.
    by destruct r. }
  intros [e|] σ2 Hh2.
  { by apply (wp_give_up (A := outcome) _ out_n _ _ _ _ Hh2). }
  destruct (cl_launch claim) eqn:Hl; [|by apply wp_start_with_values].
  assert (Hstuck : ∀ e : string,
    wp main (mret (failed e)) (λ out O σ, O = main ∧ out_idle out σ) σ2).
  { intros e. eapply (wp_ret_idle _ out_n); [by eapply held_idle|done]. }
  destruct (cl_token claim) as [token|] eqn:Ht; [|apply Hstuck].
  destruct token as [|c token]; [apply Hstuck|].
  eapply wp_then; [by eapply wp_open|]. intros [values|e] σ3 Hh3; cbn match.
  - by apply wp_start_with_values.
  - by eapply wp_fail_claimed.
Qed.

Lemma wp_with_reservation task command claim σ :
  held 0 0 task (Some LifecycleRunning) (eq (Claimed command claim)) σ →
  te_id (cl_task claim) = task →
  wp main (with_reservation cfg task command claim) (λ _ O σ, O = main ∧ idle 0 σ) σ.
Proof using.
  intros Hh Hid. unfold with_reservation.
  eapply wp_then; [eapply wp_reserve; [exact Hh|by intros ? <-]|]. intros [] σ1 Hh1.
  eapply wp_then_held; [apply silent_observe|exact Hh1|]. intros _ σ2 Hh2.
  eapply wp_then; [by apply wp_run_claimed|]. intros [ok e] σ3 Hi3. unfold out_idle in Hi3.
  apply (wp_then _ _ (λ _, idle 0)).
  - destruct ok.
    + exact (wp_idle_silent (mret () : go ()) 0 σ3 I Hi3).
    + apply (wp_release_idle main σ3); [set_solver|done|]. by intros.
  - intros _ σ4 Hi4. by apply (wp_ret_idle _ (λ _, 0) 0).
Qed.

(** Taking one task, from the check of its lifecycle on. *)
Lemma wp_startTask summary σ :
  held 0 0 (ts_id summary) None (λ ph, before_start ph = true) σ →
  wp main (startTaskV0002 cfg summary) (λ _ O σ, O = main ∧ idle 0 σ) σ.
Proof using.
  intros Hh. unfold startTaskV0002. set (task := ts_id summary) in *.
  eapply wp_then_held; [apply silent_commandIDFor|exact Hh|]. intros command σ1 Hh1.
  assert (Hret : ∀ (e : option string) σ', idle 0 σ' →
    wp main (mret e) (λ _ O σ, O = main ∧ idle 0 σ) σ').
  { intros e σ' Hi. by apply (wp_ret_idle _ (λ _, 0) 0). }
  apply (wp_then _ _ (λ r, held 0 0 task None
    match r with
    | Ok claim => λ ph, te_id (cl_task claim) = task ∧ before_start ph = true ∧
                    (cl_claim claim = "claimed" → ph = Claimed command claim)
    | Err _ => λ ph, before_start ph = true
    end)).
  { apply (wp_held_call (XClaimTask task command) 0 task None (λ ph, before_start ph = true)
      (λ r : result xerror V0002ClaimResponse, match r with
        | Ok claim => λ ph, te_id (cl_task claim) = task ∧ before_start ph = true ∧
                    (cl_claim claim = "claimed" → ph = Claimed command claim)
        | Err _ => λ ph, before_start ph = true
        end) (λ _, 0%nat)); try done.
    - intros t ph r Hne. simpl. by rewrite bool_decide_eq_false_2.
    - intros ph r Hs Hb. cbn [call_step]. rewrite bool_decide_eq_true_2 by done. simpl negb.
      rewrite Hb. simpl negb. cbn match. destruct r as [claim|e]; [|done].
      simpl in Hs. case_bool_decide; split_and!; try done; by intros. }
  intros [claim|e] σ2 Hh2; [|by apply Hret; eapply held_idle].
  destruct (he_phase _ _ _ _ _ _ Hh2) as (Hid & _).
  case_bool_decide as Hc; [by apply Hret; eapply held_idle|].
  assert (Hc' : cl_claim claim = "claimed") by (destruct (decide (cl_claim claim = "claimed")); tauto).
  apply (held_mono _ _ _ _ _ (eq (Claimed command claim))) in Hh2;
    [|intros ph (_ & _ & Hph); symmetry; auto].
  eapply wp_then; [eapply wp_markAccepted; [exact Hh2|by intros ? <-]|].
  intros new σ3 Hh3. destruct new; simpl negb.
  - by apply wp_with_reservation.
  - apply Hret. by eapply held_idle.
Qed.

(** What a read tells, with what is known of the state it was made in. *)
Lemma wp_read {B A} (f : Exec → B) (k : B → go A) Q O σ :
  (∀ σ1, rely O σ σ1 → exec_ok σ1 → owned O σ1 → wp O (k (f σ1)) Q σ1) →
  wp O (read f ≫= k) Q σ.
Proof using.
  intros Hk σ1 Hr Hi Ho. exists O. split; [by apply guar_refl|]. by apply Hk.
Qed.

Definition roomy (σ : Exec) : Prop := Z.of_nat (size (x_slots σ)) + 1 ≤ cf_max cfg.

Lemma roomy_rely O σ σ' : TokMain ∈ O → rely O σ σ' → roomy σ → roomy σ'.
Proof using.
  intros Hin Hr Hs. destruct (rely_main _ _ _ Hin Hr) as (_ & Hsub & _).
  apply map_subseteq_size in Hsub. unfold roomy in *. lia.
Qed.

(** A task that is not accepted can be taken when there is room. *)
Lemma held_candidate σ task :
  exec_ok σ → idle 0 σ → roomy σ → x_accepted σ !! task = None →
  held 0 0 task None (λ ph, before_start ph = true) σ.
Proof using.
  intros Hok [Hn Hs] Hroom Ha.
  assert (Hb : before_start (phase σ task) = true).
  { destruct (before_start (phase σ task)) eqn:E; [done|].
    apply (ok_accepted _ Hok) in E. rewrite Ha in E. by destruct E. }
  split; try done; [lia|]. intros (o & c & Hc & <-).
  apply (ok_objects _ Hok) in Hc. congruence.
Qed.

Lemma wp_start_all items σ :
  idle 0 σ → wp main (start_all cfg items) (λ _ O σ, O = main ∧ idle 0 σ) σ.
Proof using.
  assert (Hin : TokMain ∈ main) by set_solver.
  assert (Hret : ∀ σ', idle 0 σ' → wp main (mret () : go ()) (λ _ O σ, O = main ∧ idle 0 σ) σ').
  { intros σ' Hi. by apply (wp_ret_idle _ (λ _, 0) 0). }
  revert σ. induction items as [|summary items IH]; intros σ Hi; [by apply Hret|].
  cbn [start_all]. apply wp_read. intros σ1 Hr1 Hok1 _.
  pose proof (idle_rely _ _ _ _ Hin Hr1 Hi) as Hi1.
  destruct (_ <=? 0) eqn:Hfree; [by apply Hret|].
  assert (Hroom1 : roomy σ1) by (destruct Hi1; unfold roomy; lia).
  apply wp_read. intros σ2 Hr2 Hok2 _.
  pose proof (idle_rely _ _ _ _ Hin Hr2 Hi1) as Hi2.
  pose proof (roomy_rely _ _ _ Hin Hr2 Hroom1) as Hroom2.
  destruct (x_accepted σ2 !! ts_id summary) as [stage|] eqn:Hacc; [by apply IH|].
  pose proof (held_candidate _ _ Hok2 Hi2 Hroom2 Hacc) as Hh2.
  apply wp_read. intros σ3 Hr3 Hok3 _.
  pose proof (held_rely _ _ _ _ _ _ _ _ Hin Hr3 Hh2) as Hh3.
  destruct (x_slots σ3 !! ts_id summary) as [o|]; [by apply IH; eapply held_idle|].
  apply (wp_then _ _ (λ _, idle 0)); [by apply wp_startTask|].
  intros [e|] σ4 Hi4; [by apply Hret|by apply IH].
Qed.

Lemma wp_tick σ : idle 0 σ → wp main (tickV0002 cfg) (λ _ O σ, O = main ∧ idle 0 σ) σ.
Proof using.
  intros Hi. unfold tickV0002.
  assert (Hret : ∀ σ', idle 0 σ' → wp main (mret () : go ()) (λ _ O σ, O = main ∧ idle 0 σ) σ').
  { intros σ' Hi'. by apply (wp_ret_idle _ (λ _, 0) 0). }
  eapply wp_then_idle; [apply silent_read|exact Hi|]. intros free σ1 Hi1.
  destruct (free =? 0); [by apply Hret|].
  eapply wp_then_idle; [by apply silent_call|exact Hi1|]. intros r σ2 Hi2.
  destruct r as [items|e]; [by apply wp_start_all|by apply Hret].
Qed.

(** ** The goroutines *)

#[local] Notation body := (thread_body cfg).

Lemma wp_goto {A} t O (Q : A → gset token → Exec → Prop) σ :
  (∀ σ1, rely O σ σ1 → pre t O σ1) → wp O (Goto t) Q σ.
Proof using. intros Ht σ1 Hr _ _. by apply Ht. Qed.

Lemma finished_main n σ : idle n σ → finished () main σ.
Proof using. intros [_ Hs] r Hr%elem_of_singleton. subst. simpl. tauto. Qed.

Lemma wp_silent_main (p : go ()) n σ : silent p → idle n σ → wp main p finished σ.
Proof using.
  intros Hp Hi. apply wp_silent; [done|]. intros [] σ1 Hr _ _. eapply (finished_main n).
  by eapply idle_rely; [|done..]; set_solver.
Qed.

(** The main goroutine goes on, without a container on its hands. *)
Lemma wp_goto_main {A} t (Q : A → gset token → Exec → Prop) σ :
  (∀ σ1, idle 0 σ1 → pre t main σ1) → idle 0 σ → wp main (Goto t) Q σ.
Proof using.
  intros Ht Hi. apply wp_goto. intros σ1 Hr. apply Ht.
  by eapply idle_rely; [|done..]; set_solver.
Qed.

Lemma wp_join l σ : idle 0 σ → wp main (join_round cfg l) finished σ.
Proof using.
  intros Hi. assert (Hin : TokMain ∈ main) by set_solver.
  unfold join_round. destruct l as [|o l]; [by eapply wp_silent_main; [apply silent_stopped|]|].
  apply wp_read. intros σ1 Hr1 _ _. pose proof (idle_rely _ _ _ _ Hin Hr1 Hi) as Hi1.
  match goal with |- context [if ?exited then Goto _ else _] => destruct exited end;
    [by apply wp_goto_main|].
  eapply wp_then_idle; [by apply silent_call|exact Hi1|]. intros b σ2 Hi2.
  by destruct b; apply wp_goto_main.
Qed.

Lemma wp_drain σ : idle 0 σ → wp main (drain cfg) finished σ.
Proof using.
  intros Hi. unfold drain.
  eapply wp_then_idle; [apply silent_read|exact Hi|]. intros slots σ1 Hi1.
  eapply wp_then_idle; [by apply silent_call|exact Hi1|]. intros now σ2 Hi2.
  eapply wp_then_idle; [apply silent_drain_stop|exact Hi2|]. intros [] σ3 Hi3.
  by apply wp_goto_main.
Qed.

Lemma wp_poll σ : idle 0 σ → wp main (pollLoop cfg) finished σ.
Proof using.
  intros Hi. unfold pollLoop.
  eapply wp_then_idle; [by apply silent_call|exact Hi|]. intros more σ1 Hi1. destruct more.
  - apply (wp_then _ _ (λ _, idle 0)); [by apply wp_tick|]. intros [] σ2 Hi2.
    by apply wp_goto_main.
  - unfold shutdown. eapply wp_then_idle; [apply silent_setState|exact Hi1|]. intros [] σ2 Hi2.
    eapply wp_then_idle; [apply silent_executor_event|exact Hi2|]. intros [] σ3 Hi3.
    by apply wp_drain.
Qed.

Lemma wp_Run σ : idle 0 σ → wp main (Run cfg) finished σ.
Proof using.
  intros Hi. unfold Run.
  eapply wp_then_idle; [apply silent_leftover|exact Hi|]. intros [] σ1 Hi1.
  eapply wp_then_idle; [apply silent_register|exact Hi1|]. intros [e|] σ2 Hi2.
  { by eapply wp_silent_main; [apply silent_setState|]. }
  eapply wp_then_idle; [apply silent_setState|exact Hi2|]. intros [] σ3 Hi3.
  eapply wp_then_idle; [apply silent_executor_event|exact Hi3|]. intros [] σ4 Hi4.
  by apply wp_goto_main.
Qed.

(** ** Steps of the goroutines of a slot *)

Lemma rely_evolves O σ σ' : rely O σ σ' → exec_evolves σ σ'.
Proof using. by intros [He _]. Qed.

(** What stays true of a slot object. *)
Definition slot_is (o : nat) (task : string) (σ : Exec) : Prop :=
  ∃ c, core_at σ o = Some c ∧ co_task c = task.
Definition removed_at (o : nat) (σ : Exec) : Prop :=
  ∃ c, core_at σ o = Some c ∧ removed_after_start (co_container c) (x_trace σ).

Lemma slot_is_evolves o task σ σ' : exec_evolves σ σ' → slot_is o task σ → slot_is o task σ'.
Proof using.
  intros He (c & Hc & <-). destruct (ev_core _ _ He o c Hc) as (c' & Hc' & Ht & _). by exists c'.
Qed.

Lemma removed_at_evolves o σ σ' : exec_evolves σ σ' → removed_at o σ → removed_at o σ'.
Proof using.
  intros [He Ht] (c & Hc & Hr). destruct (He o c Hc) as (c' & Hc' & _ & _ & _ & _ & E).
  exists c'. rewrite E. split; [done|by eapply removed_suffix].
Qed.

(** Replacing a slot object by one of the same identity. *)
Definition replaced (o : nat) (s : taskSlot) (σ : Exec) : Exec :=
  put_heap (<[o := s]> (x_heap σ)) σ.

Lemma core_at_replaced o s σ o' :
  core_at (replaced o s σ) o' = if decide (o' = o) then Some (core_of s) else core_at σ o'.
Proof using.
  unfold core_at, slot_at, replaced. simpl. destruct (decide _) as [->|].
  - by rewrite lookup_insert_eq.
  - by rewrite lookup_insert_ne.
Qed.

Lemma core_at_slot σ o s : slot_at σ o = Some s → core_at σ o = Some (core_of s).
Proof using. intros Hs. unfold core_at. by rewrite Hs. Qed.

Lemma dom_replaced o s s0 σ : slot_at σ o = Some s0 → dom (x_heap (replaced o s σ)) = dom (x_heap σ).
Proof using.
  intros Hs. simpl. apply dom_insert_lookup_L. by exists s0.
Qed.

(** A slot object advances: its flags only go up, and nothing else changes. *)
Record advances (o : nat) (s0 s : taskSlot) (σ : Exec) : Prop := mkAdvances {
  ad_slot : slot_at σ o = Some s0;
  ad_le : core_le (core_of s0) (core_of s);
}.

Lemma replaced_evolves o s0 s σ : advances o s0 s σ → exec_evolves σ (replaced o s σ).
Proof using.
  intros [Hs Hle]. split; [|done]. intros o' c Hc. rewrite core_at_replaced.
  destruct (decide _) as [->|].
  - apply core_at_slot in Hs. rewrite Hs in Hc. simplify_eq. by eexists.
  - exists c. split; [done|apply core_le_refl].
Qed.

Lemma replaced_identity o s0 s σ o' :
  advances o s0 s σ → identity_at (replaced o s σ) o' = identity_at σ o'.
Proof using.
  intros [Hs (Ht & Hp & _)]. unfold identity_at. rewrite core_at_replaced.
  destruct (decide _) as [->|]; [|done]. rewrite (core_at_slot _ _ _ Hs). simpl in *.
  by rewrite Ht, Hp.
Qed.

Lemma replaced_core o s0 s σ o' c' :
  advances o s0 s σ → core_at (replaced o s σ) o' = Some c' →
  ∃ c, core_at σ o' = Some c ∧ core_le c c'.
Proof using.
  intros [Hs Hle]. rewrite core_at_replaced. destruct (decide _) as [->|].
  - intros [= <-]. exists (core_of s0). split; [by apply core_at_slot|done].
  - intros Hc. exists c'. split; [done|apply core_le_refl].
Qed.

Lemma replaced_ok o s0 s σ :
  exec_ok σ → advances o s0 s σ → exec_ok (replaced o s σ).
Proof using.
  intros Hok Had. pose proof (λ o' c', replaced_core o s0 s σ o' c' Had) as Hcore.
  pose proof (ev_core _ _ (replaced_evolves _ _ _ _ Had)) as He.
  pose proof (size_dom_eq _ _ (dom_replaced o s s0 σ (ad_slot _ _ _ _ Had))) as Hsz.
  destruct Hok. split.
  - intros t o' Hto. destruct (ok_slots0 _ _ Hto) as (c & Hc & <-).
    destruct (He _ _ Hc) as (c' & Hc' & ? & _). eauto.
  - intros o1 o2 c1 c2 H1 H2 E. destruct (Hcore _ _ H1) as (d1 & Hd1 & E1 & _).
    destruct (Hcore _ _ H2) as (d2 & Hd2 & E2 & _). apply (ok_unique0 o1 o2 d1 d2); congruence.
  - intros o' c' Hc' Hf. destruct (Hcore _ _ Hc') as (c & Hc & E & _ & Hm & _). rewrite E.
    apply (ok_open0 o' c Hc). destruct (co_terminal c); [|done]. rewrite Hm in Hf; done.
  - intros o' c' Hc'. destruct (Hcore _ _ Hc') as (c & Hc & E & _). rewrite E.
    by apply (ok_objects0 o' c).
  - done.
  - done.
  - intros t Hta. destruct (ok_unreported0 t Hta) as (Hph & o' & c & Hc & <- & Htm).
    destruct (He _ _ Hc) as (c' & Hc' & E & _ & Hm & _). split; [done|]. exists o', c'. auto.
  - intros o' c' Hc' Hf. destruct (Hcore _ _ Hc') as (c & Hc & E & _ & _ & Hm & _). rewrite E.
    apply (ok_uncleaned0 o' c Hc). destruct (co_cleaned c); [|done]. rewrite Hm in Hf; done.
  - by rewrite Hsz.
  - by rewrite Hsz.
  - intros t t' o1 o2 c1 c2 H1 H2 H3 H4 E. destruct (Hcore _ _ H3) as (d1 & Hd1 & _ & E1 & _).
    destruct (Hcore _ _ H4) as (d2 & Hd2 & _ & E2 & _).
    apply (ok_ports0 t t' o1 o2 d1 d2 H1 H2 Hd1 Hd2). congruence.
  - intros o' c' Hc'. destruct (Hcore _ _ Hc') as (c & Hc & _ & E & _). rewrite E. eauto.
  - done.
  - intros o' c' Hc'. destruct (Hcore _ _ Hc') as (c & Hc & _ & _ & _ & _ & E). rewrite E. eauto.
  - intros ref Hr. rewrite Hsz. destruct (ok_refs0 ref Hr) as [(o' & c & Hc & E)|]; [left|by right].
    destruct (He _ _ Hc) as (c' & Hc' & _ & _ & _ & _ & E'). exists o', c'. by rewrite E'.
  - intros o' c' Hc'. destruct (Hcore _ _ Hc') as (c & Hc & -> & _ & _ & _ & ->). eauto.
Qed.

(** Whether a token is about the removal that the step may be the beginning of. *)
Definition spared (o : nat) (s0 s : taskSlot) (r : token) : Prop :=
  sl_cleaned s = sl_cleaned s0 ∨ r ≠ TokTask o ∧ r ≠ TokStop o.

Lemma replaced_cleaned o s0 s σ o' :
  slot_at σ o = Some s0 → sl_cleaned s = sl_cleaned s0 ∨ o' ≠ o →
  co_cleaned <$> core_at (replaced o s σ) o' = co_cleaned <$> core_at σ o'.
Proof using.
  intros Hs Hc. rewrite core_at_replaced. destruct (decide _) as [->|]; [|done].
  rewrite (core_at_slot _ _ _ Hs). destruct Hc as [E|]; [|done]. simpl. by rewrite E.
Qed.

Lemma replaced_keep o s0 s σ r :
  advances o s0 s σ → spared o s0 s r → exec_keep r σ (replaced o s σ).
Proof using.
  intros Had Hsp. destruct r as [|o'|o'|o']; simpl.
  - split_and!; [done..| | |]; [by eapply (dom_replaced o s s0), Had| |done].
    intros. by eapply replaced_identity.
  - split; [done|]. apply (replaced_cleaned o s0); [apply Had|]. destruct Hsp; [by left|right; naive_solver].
  - split; [done|]. apply (replaced_cleaned o s0); [apply Had|]. destruct Hsp; [by left|right; naive_solver].
  - split; [by eapply replaced_identity|done].
Qed.

Lemma replaced_has_slot o s0 s σ o' b :
  advances o s0 s σ → sl_cleaned s = sl_cleaned s0 ∨ o' ≠ o →
  has_slot o' b (replaced o s σ) → has_slot o' b σ.
Proof using.
  intros Had Hsp (c' & Hc' & Hsl & <-).
  pose proof (replaced_cleaned o s0 s σ o' (ad_slot _ _ _ _ Had) Hsp) as E.
  destruct (replaced_core _ _ _ _ _ _ Had Hc') as (c & Hc & Ht & _).
  rewrite Hc, Hc' in E. exists c. rewrite Ht in Hsl. split_and!; [done..|]. by simplify_eq/=.
Qed.

Lemma replaced_due o s0 s σ r :
  advances o s0 s σ → spared o s0 s r → exec_due r (replaced o s σ) → exec_due r σ.
Proof using.
  intros Had Hsp. destruct r as [|o'|o'|o']; simpl; [|apply (replaced_has_slot o s0 s); [done|]..|done].
  - pose proof (size_dom_eq _ _ (dom_replaced o s s0 σ (ad_slot _ _ _ _ Had))) as Hsz.
    simpl in Hsz. by rewrite Hsz.
  - destruct Hsp; [by left|right; naive_solver].
  - destruct Hsp; [by left|right; naive_solver].
Qed.

Lemma replaced_guar o s0 s σ O O' :
  exec_ok σ → owned O σ → advances o s0 s σ → sl_cleaned s = sl_cleaned s0 →
  (∀ r, r ∈ O' → r ∉ O → exec_own r (replaced o s σ) ∧ ¬ exec_own r σ) →
  (∀ r, r ∈ O → r ∈ O') →
  guar O O' σ (replaced o s σ).
Proof using.
  intros Hok Ho Had Hcl Hnew Hold. assert (Hsp : ∀ r, spared o s0 s r) by by left.
  split_and!.
  - by eapply replaced_ok.
  - intros r Hr. destruct (decide (r ∈ O)) as [Hin|Hni]; [|by apply Hnew].
    eapply exec_own_keep; [by apply Ho|by eapply replaced_evolves|by eapply replaced_keep].
  - by eapply replaced_evolves.
  - intros r Hr Hown. split; [by eapply replaced_keep|]. intros Hr'. by apply (Hnew r Hr' Hr).
  - intros r Hd. destruct (decide (r ∈ O)); [left; auto|right]. split; [done|].
    by eapply replaced_due.
Qed.

(** The step that begins the removal. *)
Lemma has_slot_cleaned o b b' σ : has_slot o b σ → has_slot o b' σ → b = b'.
Proof using. intros (c & Hc & _ & <-) (c' & Hc' & _ & <-). congruence. Qed.

Lemma cleaned_guar o s σ :
  exec_ok σ → exec_own (TokTask o) σ → slot_at σ o = Some s →
  guar {[TokTask o]} {[TokStop o]} σ (replaced o (as_cleaned s) σ) ∧
  core_at (replaced o (as_cleaned s) σ) o = Some (core_of (as_cleaned s)).
Proof using.
  intros Hok Hown Hs. assert (Had : advances o s (as_cleaned s) σ) by (split; [done|by split_and!]).
  assert (Hcore : core_at (replaced o (as_cleaned s) σ) o = Some (core_of (as_cleaned s)))
    by by rewrite core_at_replaced, decide_True.
  split; [|done].
  assert (Hsp : ∀ r, r ∉ ({[TokTask o]} : gset token) → exec_own r σ → spared o s (as_cleaned s) r).
  { intros r Hr Hr'. right. split; [set_solver|]. intros ->.
    by pose proof (has_slot_cleaned _ _ _ _ Hown Hr'). }
  split_and!.
  - by eapply replaced_ok.
  - intros r ->%elem_of_singleton. destruct Hown as (c & Hc & Hsl & _).
    rewrite (core_at_slot _ _ _ Hs) in Hc. simplify_eq/=. by exists (core_of (as_cleaned s)).
  - by eapply replaced_evolves.
  - intros r Hr Hr'. pose proof (Hsp r Hr Hr') as H'. split; [by eapply replaced_keep|].
    destruct H' as [|[_ Hne]]; [|set_solver]. intros ->%elem_of_singleton.
    by pose proof (has_slot_cleaned _ _ _ _ Hown Hr').
  - intros r Hd. destruct (decide (r = TokStop o)) as [->|Hns]; [left; set_solver|right].
    destruct (decide (r = TokTask o)) as [->|Hnt].
    { destruct Hd as (c & Hc & _ & Hf). rewrite Hcore in Hc. by simplify_eq/=. }
    split; [set_solver|]. eapply (replaced_due o s (as_cleaned s)); [done|by right|done].
Qed.

(** claimTerminal: nobody, or the caller alone, may report the end of the slot. *)
Lemma wp_claimTerminal {A} o (k : bool → go A) Q O σ :
  (∀ σ1, exec_evolves σ σ1 → wp O (k false) Q σ1) →
  (∀ σ1, exec_evolves σ σ1 → is_Some (core_at σ1 o) → wp (O ∪ {[TokTerm o]}) (k true) Q σ1) →
  wp O (claimTerminal o ≫= k) Q σ.
Proof using.
  intros Hf Ht σ1 Hr Hi Ho. pose proof (rely_evolves _ _ _ Hr) as He.
  destruct (slot_at σ1 o) as [s|] eqn:Hs; [destruct (sl_terminal s) eqn:Hterm|].
  - exists O. split; [by apply guar_refl|]. by apply Hf.
  - assert (Had : advances o s (as_terminal s) σ1) by (split; [done|by split_and!]).
    pose proof (core_at_slot _ _ _ Hs) as Hc.
    pose proof (ok_open _ Hi _ _ Hc Hterm) as Hph.
    exists (O ∪ {[TokTerm o]}). split.
    + apply (replaced_guar o s (as_terminal s)); [done..| |set_solver].
      intros r [Hin|Heq%elem_of_singleton]%elem_of_union Hni; [done|]. subst r.
      split.
      * exists (core_of (as_terminal s)). rewrite core_at_replaced, decide_True by done.
        split_and!; [done|done|exact Hph|]. intros Ha.
        destruct (ok_unreported _ Hi _ Ha) as (_ & o' & c & Hc' & Htk & Htm).
        assert (o' = o) as -> by by apply (ok_unique _ Hi o' o c (core_of s)).
        rewrite Hc in Hc'. simplify_eq/=. congruence.
      * intros (c & Hc' & Htm & _). rewrite Hc in Hc'. simplify_eq/=. congruence.
    + apply Ht; [etrans; [exact He|by eapply replaced_evolves]|].
      exists (core_of (as_terminal s)).
      by rewrite (core_at_replaced o (as_terminal s) σ1), decide_True.
  - exists O. split; [by apply guar_refl|]. by apply Hf.
Qed.

(** A step of the holder of the terminal report of a slot, which gives it up. *)
Lemma surrender_guar o task σ σ' O :
  exec_ok σ → owned O σ → TokTerm o ∈ O → slot_is o task σ → exec_ok σ' →
  x_slots σ' = x_slots σ → (∀ o', core_at σ' o' = core_at σ o') →
  dom (x_heap σ') = dom (x_heap σ) → x_reservations σ' = x_reservations σ →
  refs σ' = refs σ → x_trace σ `suffix_of` x_trace σ' →
  (∀ t, t ≠ task → same_task σ σ' t) →
  guar O (O ∖ {[TokTerm o]}) σ σ'.
Proof using.
  intros Hok Ho Hin (c0 & Hc0 & Ht0) Hok' Hs Hc Hd Hr Hst Htr Hother.
  assert (He : exec_evolves σ σ') by by apply same_cores_evolves.
  assert (Hk : ∀ r, r ≠ TokTerm o → exec_own r σ → exec_keep r σ σ').
  { intros [|o'|o'|o'] Hne Hown; simpl; [|by apply same_slot_kept..|].
    - split_and!; [done|by rewrite Hs|done|done| |].
      + intros o'. unfold identity_at. by rewrite Hc.
      + intros t Hn. apply Hother. intros ->. apply Hn. by exists o, c0.
    - unfold identity_at. rewrite Hc. split; [done|]. intros t p Hp. apply Hother. intros ->.
      destruct Hown as (c & Hoc & _). rewrite Hoc in Hp. simplify_eq/=.
      apply Hne. f_equal. by apply (ok_unique _ Hok o' o c c0). }
  split_and!; [done| |done| |].
  - intros r [Hr1 Hr2%not_elem_of_singleton]%elem_of_difference.
    eapply exec_own_keep; [by apply Ho|done|]. apply Hk; [done|by apply Ho].
  - intros r Hni Hown. split; [|set_solver]. apply Hk; [|done]. by intros ->.
  - intros r Hdue. destruct (decide (r = TokTerm o)) as [->|Hne]; [done|].
    destruct (decide (r ∈ O)); [left; set_solver|right]. split; [done|].
    destruct r; simpl in *; [|by eapply same_has_slot..|done].
    by rewrite <- (refs_started _ _ Hst), <- (size_dom_eq _ _ Hd).
Qed.

Lemma ended_ok o c σ σ' :
  exec_ok σ → core_at σ o = Some c → co_terminal c = true →
  x_accepted σ !! co_task c ≠ Some LifecycleTerminal → is_Some (x_accepted σ !! co_task c) →
  x_slots σ' = x_slots σ → x_heap σ' = x_heap σ → x_next_port σ' = x_next_port σ →
  refs σ' = refs σ → x_trace σ `suffix_of` x_trace σ' → x_accepted σ' = x_accepted σ →
  phase σ' (co_task c) = Ended → (∀ t, t ≠ co_task c → same_task σ σ' t) → exec_ok σ'.
Proof using.
  intros Hok Hc Hterm Hacc Hsome Hs Hh Hn Hrefs Htr Ha Hph Hother.
  pose proof (refs_started _ _ Hrefs) as Hst.
  assert (Hcore : ∀ o', core_at σ' o' = core_at σ o') by (intros; unfold core_at, slot_at; by rewrite Hh).
  assert (Hown : ∀ o' c', core_at σ o' = Some c' → co_task c' = co_task c → o' = o ∧ c' = c).
  { intros o' c' Hc' Ht. assert (o' = o) as -> by by apply (ok_unique _ Hok o' o c' c).
    rewrite Hc in Hc'. by simplify_eq. }
  destruct Hok. split; intros *; rewrite ?Hs, ?Hh, ?Hcore, ?Hn, ?Hrefs, ?Hst, ?Ha; eauto.
  - intros Hc' Hf. destruct (decide (co_task c0 = co_task c)) as [E|Hne].
    + destruct (Hown _ _ Hc' E) as [-> ->]. congruence.
    + rewrite (proj1 (Hother _ Hne)). eauto.
  - intros Hc'. destruct (decide (co_task c0 = co_task c)) as [E|Hne]; [by rewrite E, Hph|].
    rewrite (proj1 (Hother _ Hne)). eauto.
  - destruct (decide (t = co_task c)) as [->|Hne]; [by rewrite Hph|].
    rewrite (proj1 (Hother _ Hne)). eauto.
  - destruct (decide (t = co_task c)) as [->|Hne]; [done|].
    rewrite (proj1 (Hother _ Hne)). eauto.
  - destruct (decide (t = co_task c)) as [->|Hne]; [done|].
    rewrite (proj1 (Hother _ Hne)). intros Ht. destruct (ok_unreported0 t Ht) as (Hp & o' & c' & ?).
    split; [done|]. exists o', c'. by rewrite Hcore.
  - setoid_rewrite Hcore. eauto.
  - intros. eapply removed_suffix; eauto.
Qed.

(** The terminal report. *)
Lemma wp_report_terminal {A} o task type payload (k : option xerror → go A) Q O σ :
  TokTerm o ∈ O → slot_is o task σ → type = "finished" ∨ type = "failed" →
  (∀ r σ1, exec_evolves σ σ1 → wp (O ∖ {[TokTerm o]}) (k r) Q σ1) →
  wp O (appendV0002TaskEvent cfg task type payload ≫= k) Q σ.
Proof using.
  intros Hin Hslot Htype Hk. apply wp_bind. unfold appendV0002TaskEvent.
  apply wp_bind, wp_silent; [apply silent_read|]. intros team σ1 Hr1 _ _.
  unfold appendV0002TaskEventForTeam.
  apply wp_bind, wp_silent; [by apply silent_call|]. intros uuid σ2 Hr2 _ _.
  apply wp_bind, wp_silent; [by apply silent_call|]. intros now σ3 Hr3 _ _.
  intros r σ4 _ Hr4 Hi4 Ho4.
  assert (He : exec_evolves σ σ4).
  { do 3 (etrans; [by eapply rely_evolves|]). by eapply rely_evolves. }
  pose proof (slot_is_evolves _ _ _ _ He Hslot) as Hslot4.
  destruct (Ho4 _ Hin) as (c & Hc & Hterm & Hph & Hacc).
  destruct Hslot4 as (c' & Hc' & Ht). assert (c' = c) as -> by congruence. subst task.
  set (e := mkTaskEvent _ _ _ _ _ _ _). set (σ' := record_call (XAppendTaskEvent e) r σ4).
  assert (Hstep : ∀ t, phase σ' t =
            if bool_decide (co_task c = t) then report_step (phase σ4 t) e r else phase σ4 t) by done.
  assert (Hend : phase σ' (co_task c) = Ended).
  { rewrite Hstep, bool_decide_eq_true_2, Hph by done. unfold report_step.
    rewrite bool_decide_eq_false_2 by (simpl; auto). by rewrite bool_decide_eq_true_2. }
  assert (Hother : ∀ t, t ≠ co_task c → same_task σ4 σ' t).
  { intros t Hne. split; [|done]. by rewrite Hstep, bool_decide_eq_false_2. }
  assert (Hsome : is_Some (x_accepted σ4 !! co_task c)).
  { apply (ok_accepted _ Hi4). by rewrite Hph. }
  exists (O ∖ {[TokTerm o]}). split.
  - apply (surrender_guar o (co_task c)); try done; [by exists c|by eapply (ended_ok o c)].
  - intros σ5 Hr5 _ _. apply Hk. etrans; [exact He|]. etrans; [|by eapply rely_evolves].
    by apply same_cores_evolves.
Qed.

(** The mark of a task whose end nobody reports. *)
Lemma unreported_ok o c σ :
  exec_ok σ → core_at σ o = Some c → co_terminal c = true → phase σ (co_task c) = Started →
  exec_ok (put_accepted (<[co_task c := LifecycleTerminal]> (x_accepted σ)) σ).
Proof using.
  intros Hok Hc Hterm Hph. destruct Hok. split; try done.
  - intros t Hb. simpl. destruct (decide (t = co_task c)) as [->|Hne].
    + rewrite lookup_insert_eq. by eexists.
    + rewrite lookup_insert_ne by done. by apply ok_accepted0.
  - intros t. simpl. rewrite lookup_insert_Some. intros [[<- _]|[_ Ht]]; [|by apply ok_unreported0].
    split; [exact Hph|]. by exists o, c.
Qed.

Lemma wp_markUnreported {A} o task (k : () → go A) Q O σ :
  TokTerm o ∈ O → slot_is o task σ →
  (∀ σ1, exec_evolves σ σ1 → wp (O ∖ {[TokTerm o]}) (k ()) Q σ1) →
  wp O (markAccepted task LifecycleTerminal ≫= k) Q σ.
Proof using.
  intros Hin Hslot Hk σ1 Hr Hi Ho. pose proof (rely_evolves _ _ _ Hr) as He.
  destruct (slot_is_evolves _ _ _ _ He Hslot) as (c & Hc & <-).
  destruct (Ho _ Hin) as (c' & Hc' & Hterm & Hph & _). assert (c' = c) as -> by congruence.
  exists (O ∖ {[TokTerm o]}). split.
  - apply (surrender_guar o (co_task c)); try done; [by exists c|by eapply unreported_ok|].
    intros t Hne. split; [done|]. simpl. by rewrite lookup_insert_ne.
  - apply Hk. etrans; [exact He|]. by apply same_cores_evolves.
Qed.

(** A call outside the protocol of the tasks, with what it leaves in the history. *)
Lemma wp_recorded {A} c (k : xres c → go A) Q O σ :
  protocol_call c = false →
  (∀ r σ1, exec_evolves σ σ1 → exec_ok σ1 → exec_evolves σ1 (record_call c r σ1) →
     wp O (k r) Q (record_call c r σ1)) →
  wp O (xcall_ c ≫= k) Q σ.
Proof using.
  intros Hc Hk r σ1 _ Hr Hi Ho. pose proof (record_quiet c r σ1 Hc) as Hq. exists O.
  split; [by apply quiet_calm|]. apply Hk; [by eapply rely_evolves|done|by apply quiet_evolves].
Qed.

(** What is asked of the container of a slot object, whatever became of its flags. *)
Definition holds_container (o : nat) (container : string) (σ : Exec) : Prop :=
  ∃ c, core_at σ o = Some c ∧ co_container c = container.

Lemma holds_container_evolves o container σ σ' :
  exec_evolves σ σ' → holds_container o container σ → holds_container o container σ'.
Proof using.
  intros He (c & Hc & <-). destruct (ev_core _ _ He o c Hc) as (c' & Hc' & _ & _ & _ & _ & E).
  by exists c'.
Qed.

Lemma removed_by_call o container call r σ :
  exec_ok σ → holds_container o container σ → ends container (mkAnswered call r) →
  removed_at o (record_call call r σ).
Proof using.
  intros Hok (c & Hc & <-) He. exists c. split; [exact Hc|].
  eapply (removed_now σ); [|done|done]. exact (ok_container _ Hok _ _ Hc).
Qed.

(** slot.cleanup: the goroutine of the task begins the removal, and the container ends. *)
Lemma wp_cleanup o (Q : () → gset token → Exec → Prop) σ :
  (∀ σ1, exec_evolves σ σ1 → removed_at o σ1 → Q () {[TokStop o]} σ1) →
  wp {[TokTask o]} (cleanup o) Q σ.
Proof using.
  intros Hk. unfold cleanup. intros σ1 Hr Hi Ho. pose proof (rely_evolves _ _ _ Hr) as He.
  pose proof (Ho (TokTask o) ltac:(set_solver)) as Hown.
  assert (∃ s, slot_at σ1 o = Some s ∧ sl_cleaned s = false) as (s & Hs & Hcl).
  { destruct Hown as (c & Hc & _ & Hf). unfold core_at in Hc.
    destruct (slot_at σ1 o) as [s|]; simplify_eq/=. by exists s. }
  destruct (cleaned_guar o s σ1 Hi Hown Hs) as [Hg Hcore].
  exists {[TokStop o]}. rewrite Hs, Hcl. split; [exact Hg|].
  assert (Hc : holds_container o (sl_container s) (replaced o (as_cleaned s) σ1)) by by eexists.
  destruct Hg as (_ & _ & He1 & _).
  assert (He' : exec_evolves σ (replaced o (as_cleaned s) σ1)) by by etrans.
  change (wp {[TokStop o]}
    (stopped ← xcall_ (XStopContainer (sl_container s) 2);
     match stopped with
     | None => mret ()
     | Some _ => _ ← xcall_ (XForceKill (sl_container s)); mret ()
     end) Q (replaced o (as_cleaned s) σ1)).
  apply wp_recorded; [done|]. intros r σ2 He2 Hok2 Her2.
  pose proof (holds_container_evolves _ _ _ _ He2 Hc) as Hc2.
  assert (He2' : exec_evolves σ (record_call (XStopContainer (sl_container s) 2) r σ2))
    by (do 2 (etrans; [eassumption|]); done).
  destruct r as [e|].
  - apply wp_recorded; [done|]. intros r3 σ3 He3 Hok3 Her3 σ4 Hr4 _ _.
    pose proof (holds_container_evolves _ _ _ _ (transitivity Her2 He3) Hc2) as Hc3.
    apply Hk.
    + do 2 (etrans; [eassumption|]). etrans; [done|]. by eapply rely_evolves.
    + eapply removed_at_evolves; [by eapply rely_evolves|]. by eapply removed_by_call.
  - intros σ4 Hr4 _ _. apply Hk.
    + etrans; [exact He2'|]. by eapply rely_evolves.
    + eapply removed_at_evolves; [by eapply rely_evolves|]. by eapply removed_by_call.
Qed.

Definition removed (task : string) (σ : Exec) : Exec := put_slots (delete task (x_slots σ)) σ.

Lemma removed_ok o task σ :
  exec_ok σ → x_slots σ !! task = Some o → has_slot o true σ → removed_at o σ →
  exec_ok (removed task σ).
Proof using.
  intros Hok Hs (c & Hc & _ & Hcl) (c0 & Hc0 & Hrem). assert (c0 = c) as -> by congruence.
  pose proof Hok as [].
  assert (Ht : co_task c = task) by (destruct (ok_slots0 _ _ Hs) as (? & ? & ?); congruence).
  assert (Hother : ∀ o' c', core_at σ o' = Some c' → co_task c' = task → o' = o ∧ c' = c).
  { intros o' c' Hc' Ht'. assert (o' = o) as -> by (apply (ok_unique0 o' o c' c); congruence).
    split; [done|congruence]. }
  split; try done; simpl.
  - intros t o' [_ Ht']%lookup_delete_Some. by apply ok_slots0.
  - intros o' c' Hc' Hf. rewrite lookup_delete_ne; [by apply ok_uncleaned0|]. intros Ht'.
    destruct (Hother o' c') as [-> ->]; [done..|]. congruence.
  - pose proof (map_size_delete task (x_slots σ)) as Hsz. rewrite Hs in Hsz.
    change (started (removed task σ)) with (started σ). unfold started in *. lia.
  - intros t t' o1 o2 c1 c2 [_ H1]%lookup_delete_Some [_ H2]%lookup_delete_Some.
    by apply ok_ports0.
  - intros o' c' Hc' Hn. destruct (decide (co_task c' = task)) as [Ht'|Hne].
    + by destruct (Hother o' c') as [-> ->].
    + rewrite lookup_delete_ne in Hn by done. by apply (ok_removed0 o').
Qed.

Lemma removed_guar o task σ :
  exec_ok σ → owned {[TokStop o]} σ → slot_is o task σ → removed_at o σ →
  x_slots σ !! task = Some o ∧ guar {[TokStop o]} ∅ σ (removed task σ).
Proof using.
  intros Hok Ho (c & Hc & Htk) Hrem. pose proof (Ho (TokStop o) ltac:(set_solver)) as Hown.
  assert (Hs : x_slots σ !! task = Some o).
  { destruct Hown as (c' & Hc' & Hs & _). congruence. }
  assert (Hkept : ∀ o', o' ≠ o → slot_kept o' σ (removed task σ)).
  { intros o' Hne. split; [|done]. intros t Ht. simpl. rewrite lookup_delete_ne; [done|]. congruence. }
  assert (Hhad : ∀ o' b, has_slot o' b (removed task σ) → has_slot o' b σ ∧ o' ≠ o).
  { intros o' b (c' & Hc' & Hsl & Hb). change (core_at σ o' = Some c') in Hc'. simpl in Hsl.
    apply lookup_delete_Some in Hsl as [Hne Hsl]. split; [by exists c'|]. congruence. }
  split; [done|]. split_and!; [by eapply removed_ok|set_solver|by apply same_cores_evolves|..].
  - intros r Hni Hr. split; [|set_solver]. destruct r as [|o'|o'|o']; simpl.
    + split_and!; try done. apply delete_subseteq.
    + apply Hkept. intros ->. by pose proof (has_slot_cleaned _ _ _ _ Hown Hr).
    + apply Hkept. set_solver.
    + done.
  - intros r Hd. right. destruct r as [|o'|o'|o']; [|destruct (Hhad _ _ Hd)..|done];
      (split; [set_solver|done]).
Qed.

Lemma wp_removeSlot {A} o task (k : () → go A) Q σ :
  slot_is o task σ → removed_at o σ →
  (∀ σ1, exec_evolves σ σ1 → wp ∅ (k ()) Q σ1) →
  wp {[TokStop o]} (removeSlot cfg task ≫= k) Q σ.
Proof using.
  intros Hslot Hrem Hk. apply wp_bind. unfold removeSlot. intros σ1 Hr Hi Ho.
  pose proof (rely_evolves _ _ _ Hr) as He.
  destruct (removed_guar o task σ1) as [Hs Hg];
    [done..|by eapply slot_is_evolves|by eapply removed_at_evolves|].
  exists ∅. rewrite Hs. split; [exact Hg|]. destruct Hg as (_ & _ & He1 & _).
  apply wp_silent; [apply silent_observe|]. intros [] σ2 Hr2 _ _. apply Hk.
  etrans; [exact He|]. etrans; [exact He1|]. by eapply rely_evolves.
Qed.

(** A field of a slot that exists. *)
Lemma wp_field {A B} o (f : taskSlot → B) d (k : B → go A) Q O σ :
  is_Some (core_at σ o) →
  (∀ s σ1, rely O σ σ1 → exec_ok σ1 → slot_at σ1 o = Some s → wp O (k (f s)) Q σ1) →
  wp O (slot_field o f d ≫= k) Q σ.
Proof using.
  intros [c Hc] Hk. apply wp_read. intros σ1 Hr Hi _.
  destruct (ev_core _ _ (rely_evolves _ _ _ Hr) o c Hc) as (c1 & Hc1 & _). unfold core_at in Hc1.
  destruct (slot_at σ1 o) as [s|] eqn:Hs; [by apply Hk|done].
Qed.

Lemma slot_is_slot σ o s : slot_at σ o = Some s → slot_is o (slotTaskID s) σ.
Proof using. intros Hs. exists (core_of s). split; [by apply core_at_slot|done]. Qed.

Lemma is_Some_evolves σ σ' o :
  exec_evolves σ σ' → is_Some (core_at σ o) → is_Some (core_at σ' o).
Proof using.
  intros He [c Hc]. destruct (ev_core _ _ He o c Hc) as (c' & Hc' & _). by exists c'.
Qed.

Lemma slot_is_Some σ o task : slot_is o task σ → is_Some (core_at σ o).
Proof using. intros (c & Hc & _). by exists c. Qed.

(** A silent step, with what is known of the slot objects afterwards. *)
Lemma wp_quietly {A B} (p : go B) (k : B → go A) Q O σ :
  silent p → (∀ b σ1, exec_evolves σ σ1 → wp O (k b) Q σ1) → wp O (p ≫= k) Q σ.
Proof using.
  intros Hp Hk. apply wp_bind, wp_silent; [done|]. intros b σ1 Hr _ _. apply Hk.
  by eapply rely_evolves.
Qed.

(** ** The goroutines of a slot *)

(** Making the terminal report that one has claimed. *)
Lemma wp_terminal_quiet {A} o task type payload (k : () → go A) Q O σ :
  TokTerm o ∈ O → slot_is o task σ → type = "finished" ∨ type = "failed" →
  (∀ σ1, exec_evolves σ σ1 → wp (O ∖ {[TokTerm o]}) (k ()) Q σ1) →
  wp O (appendV0002TaskEventQuiet cfg task type payload ≫= k) Q σ.
Proof using.
  intros Hin Hslot Htype Hk. apply wp_bind. unfold appendV0002TaskEventQuiet.
  eapply wp_report_terminal; [done..|]. intros r σ1 He σ2 Hr2 _ _.
  apply Hk. etrans; [exact He|]. by eapply rely_evolves.
Qed.

Lemma give_back (O : gset token) o : TokTerm o ∉ O → (O ∪ {[TokTerm o]}) ∖ {[TokTerm o]} = O.
Proof using. set_solver. Qed.

Lemma wp_report_failed {A} o cause payload (k : () → go A) Q O σ :
  is_Some (core_at σ o) → TokTerm o ∉ O →
  (∀ σ1, exec_evolves σ σ1 → wp O (k ()) Q σ1) →
  wp O (report_failed cfg o cause payload ≫= k) Q σ.
Proof using.
  intros Hs Hni Hk. apply wp_bind. unfold report_failed.
  apply wp_claimTerminal; intros σ1 He1.
  - intros σ2 Hr2 _ _. apply Hk. etrans; [exact He1|]. by eapply rely_evolves.
  - intros Hs1. apply wp_quietly; [silence|]. intros [] σ2 He2.
    apply wp_field; [by eapply is_Some_evolves|]. intros s σ3 Hr3 _ Hs3.
    assert (He3 : exec_evolves σ σ3).
    { etrans; [exact He1|]. etrans; [exact He2|]. by eapply rely_evolves. }
    unfold appendV0002TaskEventQuiet.
    eapply (wp_report_terminal o); [set_solver|by apply slot_is_slot|by right|].
    intros r σ4 He4. rewrite give_back by done. intros σ5 Hr5 _ _. apply Hk.
    etrans; [exact He3|]. etrans; [exact He4|]. by eapply rely_evolves.
Qed.

Lemma wp_terminalizeSlot {A} o (k : () → go A) Q O σ :
  is_Some (core_at σ o) → TokTerm o ∉ O →
  (∀ σ1, exec_evolves σ σ1 → wp O (k ()) Q σ1) →
  wp O (terminalizeV0002Slot o ≫= k) Q σ.
Proof using.
  intros Hs Hni Hk. apply wp_bind. unfold terminalizeV0002Slot.
  apply wp_field; [done|]. intros s σ1 Hr1 _ Hs1. apply rely_evolves in Hr1 as He1.
  assert (Hrest : ∀ σ2, exec_evolves σ1 σ2 →
    wp O (port ← slot_field o sl_port 0; _ ← releasePort port;
          update (λ σ, put_commands (delete (slotTaskID s) (x_commands σ)) σ))
      (λ a O σ, wp O (k a) Q σ) σ2).
  { intros σ2 He2. assert (He02 : exec_evolves σ σ2) by by etrans.
    apply wp_field; [by eapply is_Some_evolves|]. intros s' σ3 Hr3 Hok3 Hs3.
    pose proof (ok_range _ Hok3 _ _ (core_at_slot _ _ _ Hs3)) as Hrange. simpl in Hrange.
    apply wp_quietly; [apply silent_releasePort; lia|]. intros [] σ4 He4.
    apply wp_silent; [apply silent_drop_command|]. intros [] σ5 Hr5 _ _. apply Hk.
    etrans; [exact He02|]. etrans; [by eapply rely_evolves|]. etrans; [exact He4|].
    by eapply rely_evolves. }
  apply wp_claimTerminal; intros σ2 He2.
  - apply wp_bind. intros σ3 Hr3 _ _. apply Hrest. etrans; [exact He2|]. by eapply rely_evolves.
  - intros Hs2. eapply (wp_markUnreported o); [set_solver| |].
    { by eapply slot_is_evolves, slot_is_slot. }
    intros σ3 He3. rewrite give_back by done. apply Hrest. by etrans.
Qed.

Lemma wp_cleanupContainer {A} o (k : () → go A) Q σ :
  (∀ σ1, exec_evolves σ σ1 → removed_at o σ1 → wp {[TokStop o]} (k ()) Q σ1) →
  wp {[TokTask o]} (cleanupContainer cfg o ≫= k) Q σ.
Proof using.
  intros Hk. apply wp_bind. unfold cleanupContainer.
  apply wp_quietly; [apply silent_read|]. intros accepted σ1 He1.
  assert (Hclean : ∀ σ2, exec_evolves σ σ2 →
    wp {[TokTask o]} (cleanup o) (λ a O σ, wp O (k a) Q σ) σ2).
  { intros σ2 He2. apply wp_cleanup. intros σ3 He3 Hrem. apply Hk; [by etrans|done]. }
  destruct (cleanup_delay cfg accepted.1 <=? 0); [by apply Hclean|].
  apply wp_quietly; [by apply silent_call|]. intros now σ2 He2.
  apply wp_quietly; [silence|]. intros [] σ3 He3. apply Hclean.
  etrans; [exact He1|]. by etrans.
Qed.

(** The end of the goroutine of a task. *)
Lemma wp_defers o σ :
  is_Some (core_at σ o) → wp {[TokTask o]} (task_defers cfg o) finished σ.
Proof using.
  intros Hs. unfold task_defers.
  apply wp_field; [done|]. intros s σ1 Hr1 _ Hs1.
  apply wp_terminalizeSlot; [by apply slot_is_slot in Hs1 as ?%slot_is_Some|set_solver|].
  intros σ2 He2. pose proof (slot_is_evolves _ _ _ _ He2 (slot_is_slot _ _ _ Hs1)) as Hsl2.
  apply wp_cleanupContainer. intros σ3 He3 Hrem3.
  eapply (wp_removeSlot o); [by eapply slot_is_evolves|done|]. intros σ4 He4.
  apply wp_silent; [silence|]. intros [] σ5 _ _ _ r Hr. set_solver.
Qed.

Lemma wp_fail_defers o phase error σ :
  is_Some (core_at σ o) →
  wp {[TokTask o]} (_ ← failV0002Slot cfg o phase error; task_defers cfg o) finished σ.
Proof using.
  intros Hs. unfold failV0002Slot. apply wp_report_failed; [done|set_solver|].
  intros σ1 He1. by eapply wp_defers, is_Some_evolves.
Qed.

Lemma wp_stream_failed o error σ :
  is_Some (core_at σ o) → wp {[TokTask o]} (stream_failed cfg o error) finished σ.
Proof using.
  intros Hs. unfold stream_failed. apply wp_report_failed; [done|set_solver|].
  intros σ1 He1. by eapply wp_defers, is_Some_evolves.
Qed.

Lemma own_task_Some o σ : owned {[TokTask o]} σ → is_Some (core_at σ o).
Proof using. intros Ho. destruct (Ho (TokTask o)) as (c & Hc & _); [set_solver|by exists c]. Qed.

Lemma wp_stream o conversation σ :
  owned {[TokTask o]} σ → wp {[TokTask o]} (stream_round cfg o conversation) finished σ.
Proof using.
  intros Ho. unfold stream_round.
  apply wp_quietly; [unfold stream_url; apply silent_read|]. intros url σ1 He1.
  assert (Hs1 : is_Some (core_at σ1 o)) by (eapply is_Some_evolves; [done|by apply own_task_Some]).
  apply wp_field; [done|]. intros s σ2 Hr2 _ Hs2. apply slot_is_slot in Hs2 as Hsl2.
  apply wp_quietly; [by apply silent_call|]. intros f σ3 He3.
  pose proof (slot_is_evolves _ _ _ _ He3 Hsl2) as Hsl3.
  destruct f as [[v|]| |text].
  - apply wp_quietly; [apply silent_publish|]. intros [] σ4 He4.
    pose proof (slot_is_evolves _ _ _ _ He4 Hsl3) as Hsl4.
    destruct (negb _); [by apply wp_goto|].
    apply wp_claimTerminal; intros σ5 He5.
    + apply wp_quietly; [apply silent_ret|]. intros [] σ6 He6. apply wp_defers.
      eapply slot_is_Some, slot_is_evolves; [|exact Hsl4]. by etrans.
    + intros _. pose proof (slot_is_evolves _ _ _ _ He5 Hsl4) as Hsl5. apply wp_bind.
      apply wp_quietly; [silence|]. intros [] σ6 He6.
      eapply (wp_terminal_quiet o);
        [set_solver|by eapply slot_is_evolves|case_bool_decide; auto|].
      intros σ7 He7. rewrite give_back by set_solver.
      apply wp_silent; [apply silent_recordAccepted|]. intros [] σ8 Hr8 _ _. apply wp_defers.
      eapply slot_is_Some, slot_is_evolves; [|exact Hsl5].
      etrans; [exact He6|]. etrans; [exact He7|]. by eapply rely_evolves.
  - by apply wp_goto.
  - by eapply wp_defers, slot_is_Some.
  - by eapply wp_stream_failed, slot_is_Some.
Qed.

Lemma wp_runTask o σ :
  owned {[TokTask o]} σ → wp {[TokTask o]} (runTaskV0002 cfg o) finished σ.
Proof using.
  intros Ho. pose proof (own_task_Some _ _ Ho) as Hs0. unfold runTaskV0002.
  apply wp_read. intros σ1 Hr1 _ _.
  pose proof (is_Some_evolves _ _ _ (rely_evolves _ _ _ Hr1) Hs0) as Hs1.
  destruct (slot_at σ1 o) as [s|] eqn:Hs; [|unfold core_at in Hs1; rewrite Hs in Hs1; by destruct Hs1].
  cbv zeta. apply wp_quietly; [by apply silent_call|]. intros healthy σ2 He2.
  pose proof (is_Some_evolves _ _ _ He2 Hs1) as Hs2.
  destruct healthy as [e|]; [by apply wp_fail_defers|].
  apply wp_quietly; [apply silent_update; intros; by split_and!|]. intros [] σ3 He3.
  pose proof (is_Some_evolves _ _ _ He3 Hs2) as Hs3.
  case_bool_decide as Hlaunch; [by apply wp_fail_defers|].
  apply wp_quietly; [by apply silent_call|]. intros conv σ4 He4.
  pose proof (is_Some_evolves _ _ _ He4 Hs3) as Hs4.
  destruct conv as [id|e]; [|by apply wp_fail_defers].
  apply wp_quietly; [silence|]. intros [] σ5 He5.
  pose proof (is_Some_evolves _ _ _ He5 Hs4) as Hs5.
  intros σ6 Hr6 _ _. pose proof (is_Some_evolves _ _ _ (rely_evolves _ _ _ Hr6) Hs5) as Hs6.
  exists {[TokTask o]}, ∅. split_and!; [set_solver..|done|].
  apply wp_quietly; [apply silent_dial|]. intros dialled σ7 He7.
  destruct dialled as [e|]; [by eapply wp_stream_failed, is_Some_evolves|by apply wp_goto].
Qed.

(** A goroutine that only watches a slot. *)
Lemma finished_none σ : finished () (∅ : gset token) σ.
Proof using. intros r Hr. set_solver. Qed.

Lemma wp_watch o σ : is_Some (core_at σ o) → wp ∅ (watch_round cfg o) finished σ.
Proof using.
  intros Hs0. unfold watch_round. apply wp_read. intros σ1 Hr1 _ _.
  destruct (slot_at σ1 o) as [s|] eqn:Hs; [|intros σ2 _ _ _; apply finished_none].
  pose proof (slot_is_slot _ _ _ Hs) as Hsl1.
  apply wp_quietly; [by apply silent_call|]. intros e σ2 He2.
  pose proof (slot_is_evolves _ _ _ _ He2 Hsl1) as Hsl2.
  destruct e as [|m]; [intros σ3 _ _ _; apply finished_none|].
  case_bool_decide as Hm.
  { apply wp_goto. intros σ3 Hr3. split; [done|].
    eapply slot_is_Some, slot_is_evolves; [by eapply rely_evolves|exact Hsl2]. }
  apply wp_claimTerminal; intros σ3 He3; simpl negb; cbn match.
  - intros σ4 _ _ _. apply finished_none.
  - intros _. pose proof (slot_is_evolves _ _ _ _ He3 Hsl2) as Hsl3.
    apply wp_quietly; [silence|]. intros [] σ4 He4.
    eapply (wp_report_terminal o); [set_solver|by eapply slot_is_evolves|by right|].
    intros r σ5 _. rewrite give_back by set_solver.
    apply wp_silent; [silence|]. intros [] σ6 _ _ _. apply finished_none.
Qed.

Lemma wp_cancel o conversation control σ :
  is_Some (core_at σ o) → wp ∅ (applyCancelControl cfg o conversation control) finished σ.
Proof using.
  intros Hs0. unfold applyCancelControl.
  assert (Hend : ∀ σ', wp ∅ (mret () : go ()) finished σ').
  { intros σ' σ'' _ _ _. apply finished_none. }
  apply wp_field; [done|]. intros s σ1 Hr1 _ Hs1. pose proof (slot_is_slot _ _ _ Hs1) as Hsl1.
  apply wp_quietly; [apply silent_read|]. intros url σ2 He2.
  apply wp_quietly; [by apply silent_call|]. intros acknowledged σ3 He3.
  apply wp_quietly; [silence|]. intros [e|] σ4 He4; [apply Hend|].
  apply wp_quietly; [by apply silent_call|]. intros [e|] σ5 He5.
  { apply wp_quietly; [silence|]. intros r σ6 _. apply Hend. }
  apply wp_quietly; [silence|]. intros [e|] σ6 He6; [apply Hend|].
  assert (Hsl6 : slot_is o (slotTaskID s) σ6).
  { eapply slot_is_evolves, Hsl1. do 4 (etrans; [eassumption|]). done. }
  apply wp_claimTerminal; intros σ7 He7.
  - apply wp_silent; [silence|]. intros [] σ8 _ _ _. apply finished_none.
  - intros _. pose proof (slot_is_evolves _ _ _ _ He7 Hsl6) as Hsl7. apply wp_bind.
    apply wp_quietly; [silence|]. intros [] σ8 He8.
    eapply (wp_terminal_quiet o); [set_solver|by eapply slot_is_evolves|by right|].
    intros σ9 _. rewrite give_back by set_solver.
    apply wp_silent; [silence|]. intros [] σ10 _ _ _.
    apply wp_silent; [silence|]. intros [] σ11 _ _ _. apply finished_none.
Qed.

Lemma wp_controls o conversation σ :
  is_Some (core_at σ o) → wp ∅ (controls_round cfg o conversation) finished σ.
Proof using.
  intros Hs0. unfold controls_round.
  assert (Hnext : ∀ σ', is_Some (core_at σ' o) →
    wp ∅ (Goto (TControls o conversation) : go ()) finished σ').
  { intros σ' Hs. apply wp_goto. intros σ'' Hr. split; [done|].
    eapply is_Some_evolves; [by eapply rely_evolves|done]. }
  apply wp_quietly; [by apply silent_call|]. intros more σ1 He1.
  pose proof (is_Some_evolves _ _ _ He1 Hs0) as Hs1.
  destruct more; simpl negb; cbn match; [|intros σ2 _ _ _; apply finished_none].
  apply wp_field; [done|]. intros s σ2 Hr2 _ Hs2.
  pose proof (slot_is_Some _ _ _ (slot_is_slot _ _ _ Hs2)) as Hs2'.
  apply wp_quietly; [by apply silent_call|]. intros r σ3 He3.
  pose proof (is_Some_evolves _ _ _ He3 Hs2') as Hs3.
  destruct r as [controls|e]; [|by apply Hnext].
  destruct (List.find _ controls) as [control|]; [by apply wp_cancel|by apply Hnext].
Qed.

(** ** Every goroutine does what it should *)

Lemma executor_verified : verified record_call sane body pre.
Proof using.
  intros t O σ Hi Ho Hpre. destruct t; simpl in Hpre |- *.
  - destruct Hpre as [-> Hidle]. by apply wp_Run.
  - destruct Hpre as [-> Hidle]. by apply wp_poll.
  - destruct Hpre as [-> Hidle]. by apply wp_join.
  - subst. by apply wp_runTask.
  - subst. by apply wp_stream.
  - destruct Hpre as [-> Hs]. by apply wp_watch.
  - destruct Hpre as [-> Hs]. by apply wp_controls.
Qed.

Lemma New_ok : 0 ≤ cf_max cfg → exec_ok (New cfg).
Proof using. intros Hmax. split; try done. intros ref Hr. by apply not_elem_of_nil in Hr. Qed.

Lemma start_ok :
  0 ≤ cf_max cfg →
  world_ok record_call sane pre (start_world cfg) (λ i, if decide (i = 0%nat) then main else ∅).
Proof using.
  intros Hmax. split; simpl.
  - by apply New_ok.
  - intros i p [<- <-]%lookup_singleton_Some. simpl. by apply wp_Run.
  - intros i p [<- <-]%lookup_singleton_Some r Hr%elem_of_singleton. by subst.
  - intros i j r [? [<- _]%lookup_singleton_Some] [? [<- _]%lookup_singleton_Some]. done.
  - intros [|o|o|o] Hd; [done|by destruct Hd as (c & Hc & _)..|done].
Qed.

(** What holds in every reachable state: the invariant; a goroutine lives for every slot; and the
    main goroutine lives while it has a container on its hands. *)
Lemma executor_invariant w :
  0 ≤ cf_max cfg → reachable_executor cfg w →
  exec_ok (w_state w) ∧
  (∀ task o, x_slots (w_state w) !! task = Some o → ∃ i, is_Some (w_threads w !! i)) ∧
  (started (w_state w) ≠ size (x_heap (w_state w)) → ∃ i, is_Some (w_threads w !! i)).
Proof using.
  intros Hmax Hr.
  destruct (adequacy record_call sane body pre _ _ _ executor_verified
              (start_ok Hmax) Hr) as [Hi Hd].
  split_and!; [done| |apply (Hd TokMain)]. intros task o Ho.
  destruct (ok_slots _ Hi _ _ Ho) as (c & Hc & <-).
  destruct (co_cleaned c) eqn:E; [apply (Hd (TokStop o))|apply (Hd (TokTask o))]; by exists c.
Qed.
End protocol.
