(* ===== verification/DockerProps.v ===== *)
(** * The contract of the Docker executor

    What the protocol of DockerSafe says of the calls that the executor makes, of its capacity
    and its ports, and of what is left when its goroutines have ended; with the runs that show
    each of them on a concrete executor, and those that show where the reports stop short. *)

From stdpp Require Import base gmap sets list strings sorting relations fin_sets.
From S2P Require Import Prelude Platform OpenHands Conc Docker DockerSafe.
#[local] Open Scope Z_scope.

(** ** Histories *)

Lemma map_size_image {A} (m : gmap nat A) (n : gmap string nat) :
  (∀ o, is_Some (m !! o) → ∃ t, n !! t = Some o) → (size m ≤ size n)%nat.
Proof.
  intros Hm. assert (Hsub : (map_to_list m).*1 ⊆+ (map_to_list n).*2).
  { apply NoDup_submseteq; [apply NoDup_fst_map_to_list|].
    intros o ([o' a] & -> & Ho)%list_elem_of_fmap. apply elem_of_map_to_list in Ho.
    destruct (Hm o') as [t Ht]; [by exists a|]. apply list_elem_of_fmap. exists (t, o').
    split; [done|]. by apply elem_of_map_to_list. }
  apply submseteq_length in Hsub. by rewrite !length_fmap, !length_map_to_list in Hsub.
Qed.

Section history.
Context {JC : JsonCodec} {TC : TimeCodec} {MR : MapRange}.
Context (cfg : Config).

Definition reports_on (task : string) (a : answered) : bool :=
  match an_call a with XAppendTaskEvent e => bool_decide (ev_task e = task) | _ => false end.
Definition reports (task : string) (trace : list answered) : nat :=
  length (filter (λ a, reports_on task a = true) trace).

(** What may still happen to a task that has a container: other calls, and a terminal report. *)
Definition only_ends (task : string) (a : answered) : Prop :=
  match an_call a with
  | XClaimTask t _ | XOpenEnvironment t _ => t ≠ task
  | XStartContainer spec => cs_labels spec !! LabelTaskID ≠ Some task
  | XAppendTaskEvent e => ev_task e = task → ev_type e = "finished" ∨ ev_type e = "failed"
  | _ => True
  end.

Lemma task_step_Broken task a : task_step cfg task a Broken = Broken.
Proof using.
  destruct a as [c r]. unfold task_step. simpl. destruct c; simpl; try done;
    repeat case_match; try done.
  unfold report_step. by destruct (bool_decide (ev_executor e ≠ cf_executor cfg)).
Qed.

Lemma phase_of_cons task c r trace :
  phase_of cfg task (mkAnswered c r :: trace) = call_step cfg task (phase_of cfg task trace) c r.
Proof using. done. Qed.

Lemma phase_of_start task spec r trace :
  cs_labels spec !! LabelTaskID = Some task →
  phase_of cfg task (mkAnswered (XStartContainer spec) r :: trace) =
  start_step (phase_of cfg task trace) spec r.
Proof using. intros Hl. rewrite phase_of_cons. simpl. by rewrite bool_decide_eq_true_2. Qed.

(** A history that keeps the protocol has kept it all along. *)
Lemma phase_of_prefix task after before :
  phase_of cfg task (after ++ before) ≠ Broken → phase_of cfg task before ≠ Broken.
Proof using.
  induction after as [|a after IH]; [done|]. intros Hb. apply IH. intros E. apply Hb.
  unfold phase_of in *. simpl. by rewrite E, task_step_Broken.
Qed.

(** One call on a task that has a container. *)
Lemma started_step task a ph :
  ph = Started ∨ ph = Ended → task_step cfg task a ph ≠ Broken →
  only_ends task a ∧
  task_step cfg task a ph = (if reports_on task a then Ended else ph) ∧
  (reports_on task a = true → ph = Started).
Proof using.
  intros Hph. destruct a as [c r]. unfold task_step, only_ends, reports_on. simpl.
  destruct c; simpl; try done; repeat case_bool_decide; simpl; try done;
    try (by intros; split_and!); destruct Hph as [-> | ->]; simpl; try done;
    unfold report_step; repeat case_bool_decide; done.
Qed.

Lemma started_history task before after :
  phase_of cfg task before = Started → phase_of cfg task (after ++ before) ≠ Broken →
  Forall (only_ends task) after ∧
  (phase_of cfg task (after ++ before) = Started ∧ reports task after = 0%nat ∨
   phase_of cfg task (after ++ before) = Ended ∧ reports task after = 1%nat).
Proof using.
  intros Hs. induction after as [|a after IH]; intros Hb; [by split; [constructor|left]|].
  assert (Hb' : phase_of cfg task (after ++ before) ≠ Broken).
  { by apply (phase_of_prefix task [a]). }
  destruct (IH Hb') as [Hall Hcase].
  change (phase_of cfg task ((a :: after) ++ before))
    with (task_step cfg task a (phase_of cfg task (after ++ before))) in *.
  unfold reports in *. rewrite filter_cons.
  destruct (started_step task a (phase_of cfg task (after ++ before))) as (Ha & He & Hr);
    [tauto|done|]. split; [by constructor|]. rewrite He.
  destruct (reports_on task a); simpl.
  - destruct Hcase as [[_ Hz]|[E _]]; [right; split; [done|congruence]|].
    rewrite Hr in E by done. done.
  - tauto.
Qed.

(** The way to a phase before the container. *)
Lemma claimed_history task trace command claim :
  phase_of cfg task trace = Claimed command claim →
  cl_claim claim = "claimed" ∧
  ∃ later earlier, trace = later ++ mkAnswered (XClaimTask task command) (Ok claim) :: earlier.
Proof using.
  induction trace as [|[c r] trace IH]; [done|].
  rewrite phase_of_cons.
  assert (Hsame : phase_of cfg task trace = Claimed command claim →
    cl_claim claim = "claimed" ∧ ∃ later earlier, mkAnswered c r :: trace =
      later ++ mkAnswered (XClaimTask task command) (Ok claim) :: earlier).
  { intros Hp. destruct (IH Hp) as (Hc & later & earlier & ->). split; [done|].
    by exists (mkAnswered c r :: later), earlier. }
  destruct c; simpl; try exact Hsame.
  - case_bool_decide as Ht; simpl; [subst|exact Hsame].
    destruct (before_start _); simpl; [|done]. destruct r as [cl|e]; [|done].
    case_bool_decide; [|done]. intros [= -> ->]. split; [done|]. by exists [], trace.
  - case_bool_decide; [|exact Hsame]. unfold report_step. intros Hp. exfalso.
    repeat case_match; done.
  - case_bool_decide; simpl; [|exact Hsame]. intros Hp. apply Hsame.
    repeat case_match; done.
  - case_bool_decide; simpl; [|exact Hsame]. unfold start_step. intros Hp. exfalso.
    repeat case_match; subst; try done.
Qed.

Lemma working_history task trace command claim :
  phase_of cfg task trace = Working command claim →
  ∃ later e middle earlier,
    trace = later ++ mkAnswered (XAppendTaskEvent e) None :: middle ++
            mkAnswered (XClaimTask task command) (Ok claim) :: earlier ∧
    cl_claim claim = "claimed" ∧ ev_task e = task ∧ ev_type e = "running" ∧
    ev_team e = te_team (cl_task claim).
Proof using.
  induction trace as [|[c r] trace IH]; [done|].
  rewrite phase_of_cons.
  assert (Hsame : phase_of cfg task trace = Working command claim →
    ∃ later e middle earlier,
      mkAnswered c r :: trace = later ++ mkAnswered (XAppendTaskEvent e) None :: middle ++
            mkAnswered (XClaimTask task command) (Ok claim) :: earlier ∧
      cl_claim claim = "claimed" ∧ ev_task e = task ∧ ev_type e = "running" ∧
      ev_team e = te_team (cl_task claim)).
  { intros Hp. destruct (IH Hp) as (later & e & middle & earlier & -> & H').
    by exists (mkAnswered c r :: later), e, middle, earlier. }
  destruct c; simpl; try exact Hsame.
  - case_bool_decide; simpl; [|exact Hsame]. intros Hp. exfalso. repeat case_match; done.
  - case_bool_decide as Ht; [|exact Hsame]. unfold report_step. case_bool_decide; [done|].
    destruct (phase_of cfg task trace) as [|cmd cl|cmd cl| | |] eqn:Hp; try done.
    + case_bool_decide as Htype; [|done]. destruct r; [done|]. intros [= -> ->].
      destruct (claimed_history _ _ _ _ Hp) as (Hc & middle & earlier & ->).
      by exists [], e, middle, earlier.
    + by case_bool_decide.
    + by case_bool_decide.
  - case_bool_decide; simpl; [|exact Hsame]. intros Hp. apply Hsame.
    repeat case_match; done.
  - case_bool_decide; simpl; [|exact Hsame]. unfold start_step. intros Hp. apply Hsame.
    repeat case_match; congruence.
Qed.

(** ** The contract *)

Lemma reachable_ok w : 0 ≤ cf_max cfg → reachable_executor cfg w → exec_ok cfg (w_state w).
Proof using. intros Hmax Hw. by apply executor_invariant. Qed.

(** C4. The executor follows the protocol of a task: whatever the goroutines, the registry, Docker
    and OpenHands do, no history of calls on a task leaves the abstract state machine (claim,
    [running], environment, container, one terminal report). *)
Theorem executor_refines_protocol w task :
  0 ≤ cf_max cfg → reachable_executor cfg w →
  phase_of cfg task (x_trace (w_state w)) ≠ Broken.
Proof using. intros Hmax Hw. exact (ok_phase _ _ (reachable_ok w Hmax Hw) task). Qed.

(** C5. A container is started for a task only under a claim that the registry granted for that
    task, after the registry accepted the [running] report for the team of the claim; it gets the
    image of the claim and carries the claim's command identifier. *)
Theorem container_authorised w task spec r after before :
  0 ≤ cf_max cfg → reachable_executor cfg w →
  x_trace (w_state w) = after ++ mkAnswered (XStartContainer spec) r :: before →
  cs_labels spec !! LabelTaskID = Some task →
  ∃ command claim image later e middle earlier,
    before = later ++ mkAnswered (XAppendTaskEvent e) None :: middle ++
             mkAnswered (XClaimTask task command) (Ok claim) :: earlier ∧
    cl_claim claim = "claimed" ∧
    ev_task e = task ∧ ev_type e = "running" ∧ ev_team e = te_team (cl_task claim) ∧
    claim_image claim = Some image ∧ cs_image spec = image_ref image ∧
    cs_labels spec !! "flowai.command_id" = Some command.
Proof using.
  intros Hmax Hw Ht Hl. pose proof (ok_phase _ _ (reachable_ok w Hmax Hw) task) as Hb.
  unfold phase in Hb.
  rewrite Ht in Hb. apply phase_of_prefix in Hb. rewrite phase_of_start in Hb by done.
  destruct (phase_of cfg task before) as [|cmd cl|cmd cl| | |] eqn:Hp; try done.
  unfold start_step in Hb. case_bool_decide as Hspec; [|done]. destruct Hspec as [Himg Hcmd].
  apply fmap_Some in Himg as (image & Hi & He).
  destruct (working_history _ _ _ _ Hp) as (later & e & middle & earlier & -> & Hc & ? & ? & ?).
  by exists cmd, cl, image, later, e, middle, earlier.
Qed.

(** C6. Once a container runs for a task, at most one more report is made on it, a terminal one, and
    the task is not claimed, opened or started again by this executor. *)
Theorem task_ends_once w task spec ref after before :
  0 ≤ cf_max cfg → reachable_executor cfg w →
  x_trace (w_state w) = after ++ mkAnswered (XStartContainer spec) (Ok ref) :: before →
  cs_labels spec !! LabelTaskID = Some task →
  Forall (only_ends task) after ∧ (reports task after ≤ 1)%nat.
Proof using.
  intros Hmax Hw Ht Hl. pose proof (ok_phase _ _ (reachable_ok w Hmax Hw) task) as Hb.
  unfold phase in Hb.
  rewrite Ht in Hb. pose proof (phase_of_prefix _ _ _ Hb) as Hb'.
  set (t1 := mkAnswered (XStartContainer spec) (Ok ref) :: before) in *.
  assert (Hs : phase_of cfg task t1 = Started).
  { unfold t1 in *. rewrite phase_of_start in * by done. unfold start_step in *.
    repeat case_match; done. }
  destruct (started_history _ _ _ Hs Hb) as [Hall Hcase]. split; [done|]. lia.
Qed.

(** The slots whose container has not been handed to its removal. *)
Definition uncleaned (σ : Exec) : gmap nat taskSlot :=
  filter (λ os, sl_cleaned os.2 = false) (x_heap σ).

Lemma uncleaned_slots w :
  0 ≤ cf_max cfg → reachable_executor cfg w →
  (size (uncleaned (w_state w)) ≤ size (x_slots (w_state w)))%nat.
Proof using.
  intros Hmax Hw. pose proof (reachable_ok w Hmax Hw) as Hok. apply map_size_image. intros o [s Hs].
  apply map_lookup_filter_Some in Hs as [Hs Hc]. exists (slotTaskID s).
  apply (ok_uncleaned _ _ Hok o (core_of s)); [by apply core_at_slot|done].
Qed.

(** C7. The capacity: no more slots than EXECUTOR_MAX_CONTAINERS, and no more containers that have
    been started and not yet handed to their removal. *)
Theorem capacity_respected w :
  0 ≤ cf_max cfg → reachable_executor cfg w →
  Z.of_nat (size (x_slots (w_state w))) ≤ cf_max cfg ∧
  Z.of_nat (started (w_state w) -
    (size (x_heap (w_state w)) - size (uncleaned (w_state w)))) ≤ cf_max cfg.
Proof using.
  intros Hmax Hw. pose proof (reachable_ok w Hmax Hw) as Hok.
  pose proof (uncleaned_slots w Hmax Hw) as Hu.
  pose proof (ok_capacity _ _ Hok). pose proof (ok_started _ _ Hok).
  assert (Hle : (size (uncleaned (w_state w)) ≤ size (x_heap (w_state w)))%nat)
    by apply map_subseteq_size, map_filter_subseteq.
  unfold uncleaned in *. lia.
Qed.

(** The containers of two slots are published on different ports, all of the configured range. *)
Theorem ports_exclusive w task task' s s' :
  0 ≤ cf_max cfg → reachable_executor cfg w →
  slot_of (w_state w) task = Some s → slot_of (w_state w) task' = Some s' →
  cf_port_start cfg ≤ sl_port s ≤ cf_port_end cfg ∧ (sl_port s = sl_port s' → task = task').
Proof using.
  intros Hmax Hw. pose proof (reachable_ok w Hmax Hw) as Hok.
  intros (o & Ho & Hs)%bind_Some (o' & Ho' & Hs')%bind_Some.
  apply core_at_slot in Hs, Hs'. split; [exact (ok_range _ _ Hok _ _ Hs)|].
  exact (ok_ports _ _ Hok _ _ _ _ _ _ Ho Ho' Hs Hs').
Qed.

(** The containers that Docker has started are the references of the invariant. *)
Lemma started_ref ref trace :
  (∃ spec, mkAnswered (XStartContainer spec) (Ok ref) ∈ trace) ↔ ref ∈ refs_of trace.
Proof using.
  unfold refs_of. rewrite list_elem_of_omap. split.
  - intros [spec Hin]. by eexists.
  - intros ([c r] & Hin & Hr). destruct c; try done. destruct r as [ref'|e]; simplify_eq/=.
    by exists spec.
Qed.

(** C31. Nothing is left behind: once every goroutine has ended, the executor has no slot, and for
    every container that Docker started for it the history goes on, after the start, with a stop that
    Docker answered with success or with a forced removal of that container. *)
Theorem nothing_left_behind w :
  0 ≤ cf_max cfg → reachable_executor cfg w → w_threads w = ∅ →
  x_slots (w_state w) = ∅ ∧
  ∀ spec ref, mkAnswered (XStartContainer spec) (Ok ref) ∈ x_trace (w_state w) →
    removed_after_start (rf_id ref) (x_trace (w_state w)).
Proof using.
  intros Hmax Hw Hempty. destruct (executor_invariant cfg w Hmax Hw) as (Hok & Hlive & Hmain).
  assert (Hnone : ¬ ∃ i, is_Some (w_threads w !! i)).
  { rewrite Hempty. intros (i & p & Hp). by rewrite lookup_empty in Hp. }
  assert (Hs : x_slots (w_state w) = ∅).
  { apply map_empty. intros t. destruct (x_slots (w_state w) !! t) as [o|] eqn:Ho; [|done].
    by destruct Hnone; eapply Hlive. }
  split; [done|]. intros spec ref Hstart.
  assert (Hin : ref ∈ refs (w_state w)) by (apply started_ref; by exists spec).
  destruct (ok_refs _ _ Hok _ Hin) as [(o & c & Hc & <-)|[Hne _]]; [|by destruct Hnone; apply Hmain].
  apply (ok_removed _ _ Hok o c Hc). by rewrite Hs, lookup_empty.
Qed.

(** A task that the executor marks as terminal has a container and no terminal report: the mark
    is made exactly when nobody else claimed the report, and then nobody makes it any more. *)
Theorem terminal_mark_unreported w task :
  0 ≤ cf_max cfg → reachable_executor cfg w →
  x_accepted (w_state w) !! task = Some LifecycleTerminal →
  phase_of cfg task (x_trace (w_state w)) = Started ∧
  ∃ o s, x_heap (w_state w) !! o = Some s ∧ slotTaskID s = task ∧ sl_terminal s = true.
Proof using.
  intros Hmax Hw Ha.
  destruct (ok_unreported _ _ (reachable_ok w Hmax Hw) task Ha) as (Hp & o & c & Hc & Ht & Hterm).
  split; [exact Hp|]. unfold core_at, slot_at in Hc.
  destruct (x_heap (w_state w) !! o) as [s|] eqn:Hs; [|done]. simpl in Hc. simplify_eq/=.
  by exists o, s.
Qed.
End history.

(** ** Runs *)

#[local] Existing Instances time_bits json_plain.

(** Maps are visited in the order of their document. *)
Definition range_in_order : MapRange.
Proof. refine {| range l := l |}. done. Defined.
#[local] Existing Instance range_in_order.

Definition fx_docker (scope : string) (max : Z) : Config :=
  mkConfig "ex1" "clean" "127.0.0.1" scope (if bool_decide (scope = "team") then "team" else "")
    "tag" "http://registry" "/run/docker.sock" max 30000 30001 "" "missing" 60 60 10 0 0
    "/workspace" "usage" "" true.

Definition fx_entry (task : string) : V0002TaskListEntry :=
  mkTaskEntry task "team" "src" task "type" "tag" "do it" "claimed" None (Some "ex1") None None
    None None None "" None.
Definition fx_claim (task : string) : V0002ClaimResponse :=
  mkClaim "claimed" (fx_entry task) (Some (mkImageRef "repo" "v1" "")) (Some "task") None None
    true (Some "token").
Definition fx_values : gmap string string :=
  list_to_map [("OPENAI_API_KEY", "k"); ("OPENAI_BASE_URL", "u"); ("OPENAI_MODEL", "m")].

(** An outside in which every request succeeds. What differs from run to run: the pending task,
    whether the executor polls on, the next frame of the stream and the next container event. *)
Record outside : Type := mkOutside {
  os_task : string; os_polls : bool; os_frame : frame; os_event : docker_event }.

Definition answer_of (out : outside) : oracle xres := λ c,
  match c with
  | XUuid => "u"
  | XNow => 7
  | XPollTick => os_polls out
  | XWaitClaim _ | XRetryDial => true
  | XControlTick => false
  | XDrainExpired => true
  | XDiscoverTasks _ _ => Ok [mkSummary (os_task out) "team" "tag" "pending" 1]
  | XClaimTask task _ => Ok (fx_claim task)
  | XOpenEnvironment _ _ => Ok fx_values
  | XStartContainer spec => Ok (mkRef ("c-" +:+ cs_name spec) (cs_name spec))
  | XDockerEvent _ => os_event out
  | XStartConversation _ _ => Ok "conv"
  | XReadMessage _ => os_frame out
  | XListAssignedControls _ => Ok []
  | XListLeftover _ => Ok []
  | XWaitDelay _ => ()
  | XAppendTaskEvent _ | XAppendExecutorEvent _ | XRegisterExecutor _ | XPullImage _ _
  | XStopContainer _ _ | XForceKill _ | XHealthCheck _ _ | XDial _ | XAppendTaskLog _ _ _ _ _
  | XAppendTaskControlEvent _ _ _ _ _ _ | XPauseConversation _ _ => None
  end.

(** A run: so many steps of a goroutine under an outside, one after the other. *)
Definition fx_schedule (l : list (nat * nat * outside)) : list (nat * oracle xres) :=
  concat ((λ '(n, i, out), replicate n (i, answer_of out)) <$> l).
Definition fx_run (cfg : Config) (l : list (nat * nat * outside)) : world Exec thread xres :=
  run_schedule record_call (thread_body cfg) (fx_schedule l) (start_world cfg).

Lemma fx_run_reachable cfg l : reachable_executor cfg (fx_run cfg l).
Proof.
  unfold reachable_executor, executor_step, fx_run.
  apply (run_schedule_steps record_call sane (thread_body cfg)).
  intros i answer Hin c. unfold fx_schedule in Hin.
  apply list_elem_of_In, in_concat in Hin as (x & Hx & Hin).
  apply list_elem_of_In, list_elem_of_fmap in Hx as ([[n j] out] & -> & _).
  apply list_elem_of_In, elem_of_replicate in Hin as [[= -> ->] _].
  by destruct c.
Qed.

Definition fx_finished : frame := FrameData (Some (JObj [("execution_status", JStr "finished")])).
Definition fx_out (task : string) : outside := mkOutside task true fx_finished WatchEnded.
Definition fx_stop : outside := mkOutside "t1" false fx_finished WatchEnded.
Definition fx_closed : outside := mkOutside "t1" true FrameClosed WatchEnded.
Definition fx_died : outside :=
  mkOutside "t1" true (FrameError "eof") (WatchEvent (mkMessage "die" "c-oh-t1" "oh-t1")).

(** Task [t1] from its claim to the end of every goroutine. The main goroutine is 0; it starts 1,
    the watcher of the container, and 2, that of the task, which starts 3, that of the controls. *)
Definition full_run : world Exec thread xres :=
  fx_run (fx_docker "team" 1)
    [(63, 0, fx_out "t1"); (60, 2, fx_out "t1"); (9, 3, fx_out "t1"); (9, 1, fx_out "t1"); (60, 0, fx_stop)]%nat.

(** The same run up to the container, and up to the end of a stream that the server closes. *)
Definition started_run : world Exec thread xres :=
  fx_run (fx_docker "team" 1) [(63, 0, fx_out "t1")]%nat.
Definition closed_run : world Exec thread xres :=
  fx_run (fx_docker "team" 1) [(63, 0, fx_out "t1"); (60, 2, fx_closed)]%nat.

(** The reports of a history, the first one first: the type, the task and the team. *)
Definition task_reports (w : world Exec thread xres) : list (string * string * string) :=
  reverse (omap (λ a, match an_call a with
                      | XAppendTaskEvent e => Some (ev_type e, ev_task e, ev_team e)
                      | _ => None
                      end) (x_trace (w_state w))).
Definition self_reports (w : world Exec thread xres) : list (string * option Z) :=
  reverse (omap (λ a, match an_call a with
                      | XAppendExecutorEvent e => Some (xe_type e, xe_running e)
                      | _ => None
                      end) (x_trace (w_state w))).

(** A complete run: the task is reported as running and finished, and nothing remains. With one
    slot the executor is never reported as busy: the count is compared when a task is taken,
    before there is a slot, and when the slot is gone. *)
Example full_run_reports :
  task_reports full_run = [("running", "t1", "team"); ("finished", "t1", "team")] ∧
  self_reports full_run = [("healthy", None); ("idle", Some 0); ("stopping", None); ("stopped", None)] ∧
  w_threads full_run = ∅ ∧ x_slots (w_state full_run) = ∅.
Proof. split_and!; vm_compute; reflexivity. Qed.

(** A stream that the server closes ends the task without a terminal report: the registry keeps
    it running. *)
Example closed_stream_unreported :
  task_reports closed_run = [("running", "t1", "team")] ∧
  x_accepted (w_state closed_run) !! "t1" = Some LifecycleTerminal ∧
  x_slots (w_state closed_run) = ∅.
Proof. split_and!; vm_compute; reflexivity. Qed.

(** A port that is given back while its slot is still there can be skipped by the next task, and
    is then not offered again: with both slots allowed and port 30000 free, task [t3] is claimed,
    reported as running, and dropped without another report. *)
Definition lost_run : world Exec thread xres :=
  fx_run (fx_docker "team" 2)
    [(63, 0, fx_out "t1"); (24, 2, fx_out "t1"); (50, 0, fx_out "t2"); (40, 2, fx_out "t1");
     (30, 0, fx_out "t3")]%nat.

Example lost_port :
  task_reports lost_run = [("running", "t1", "team"); ("finished", "t1", "team");
                           ("running", "t2", "team"); ("running", "t3", "team")] ∧
  map_to_list (x_slots (w_state lost_run)) = [("t2", 1%nat)] ∧
  port_used (w_state lost_run) 30000 = false ∧
  x_accepted (w_state lost_run) !! "t3" = None.
Proof. split_and!; vm_compute; reflexivity. Qed.

(** The team of a report is looked up in the slots when it is sent: an executor of the system that
    reports a dead container after the slot is gone reports it for no team. *)
Definition late_run : world Exec thread xres :=
  fx_run (fx_docker "system" 1)
    [(63, 0, fx_out "t1"); (4, 1, fx_died); (60, 2, fx_died); (9, 1, fx_died)]%nat.

Example late_report_without_team :
  task_reports late_run = [("running", "t1", "team"); ("failed", "t1", "")].
Proof. vm_compute. reflexivity. Qed.

(** ** Witnesses *)

#[local] Notation sys w := (w_state w).

Lemma executor_refines_protocol_witness :
  phase_of (fx_docker "team" 1) "t1" (x_trace (sys full_run)) = Ended ∧
  phase_of (fx_docker "team" 1) "t1" (x_trace (sys full_run)) ≠ Broken.
Proof.
  split; [vm_compute; reflexivity|].
  apply (executor_refines_protocol (fx_docker "team" 1) full_run); [done|apply fx_run_reachable].
Defined.

(** The history of the complete run around the start of the container. *)
Definition before_start_of (w : world Exec thread xres) : list answered :=
  match list_find (λ a, is_start a = true) (x_trace (w_state w)) with
  | Some (n, _) => drop (S n) (x_trace (w_state w)) | None => [] end.
Definition after_start_of (w : world Exec thread xres) : list answered :=
  match list_find (λ a, is_start a = true) (x_trace (w_state w)) with
  | Some (n, _) => take n (x_trace (w_state w)) | None => [] end.
Definition fx_spec : ContainerSpec :=
  container_spec (fx_docker "team" 1) "t1" "cmd-u" (fx_claim "t1") (mkImageRef "repo" "v1" "")
    fx_values 30000.

Lemma full_run_history :
  x_trace (sys full_run) = after_start_of full_run ++
    mkAnswered (XStartContainer fx_spec) (Ok (mkRef "c-oh-t1" "oh-t1")) :: before_start_of full_run.
Proof. vm_compute. reflexivity. Qed.

Lemma container_authorised_witness :
  ∃ command claim image later e middle earlier,
    before_start_of full_run = later ++ mkAnswered (XAppendTaskEvent e) None :: middle ++
             mkAnswered (XClaimTask "t1" command) (Ok claim) :: earlier ∧
    cl_claim claim = "claimed" ∧
    ev_task e = "t1" ∧ ev_type e = "running" ∧ ev_team e = te_team (cl_task claim) ∧
    claim_image claim = Some image ∧ cs_image fx_spec = image_ref image ∧
    cs_labels fx_spec !! "flowai.command_id" = Some command.
Proof.
  apply (container_authorised (fx_docker "team" 1) full_run "t1" fx_spec _ _ _ ltac:(done)
    (fx_run_reachable _ _) full_run_history). reflexivity.
Defined.

Lemma task_ends_once_witness :
  reports "t1" (after_start_of full_run) = 1%nat ∧
  Forall (only_ends "t1") (after_start_of full_run) ∧ (reports "t1" (after_start_of full_run) ≤ 1)%nat.
Proof.
  split; [vm_compute; reflexivity|].
  apply (task_ends_once (fx_docker "team" 1) full_run "t1" fx_spec _ _ _ ltac:(done)
    (fx_run_reachable _ _) full_run_history). reflexivity.
Defined.

Lemma capacity_respected_witness :
  size (x_slots (sys started_run)) = 1%nat ∧
  Z.of_nat (started (sys started_run) -
    (size (x_heap (sys started_run)) - size (uncleaned (sys started_run)))) ≤ 1.
Proof.
  split; [vm_compute; reflexivity|].
  apply (capacity_respected (fx_docker "team" 1) started_run); [done|apply fx_run_reachable].
Defined.

Lemma ports_exclusive_witness :
  ∃ s, slot_of (sys started_run) "t1" = Some s ∧ 30000 ≤ sl_port s ≤ 30001.
Proof.
  destruct (slot_of (sys started_run) "t1") as [s|] eqn:E; [|vm_compute in E; discriminate E].
  exists s. split; [done|].
  apply (ports_exclusive (fx_docker "team" 1) started_run "t1" "t1" s s ltac:(done)
    (fx_run_reachable _ _) E E).
Defined.

(** In the run of one task a container was started, and it is removed. *)
Lemma nothing_left_behind_witness :
  ∃ spec ref, mkAnswered (XStartContainer spec) (Ok ref) ∈ x_trace (sys full_run) ∧
    removed_after_start (rf_id ref) (x_trace (sys full_run)).
Proof.
  assert (∃ ref, head (refs_of (x_trace (sys full_run))) = Some ref) as [ref Hr]
    by (eexists; vm_compute; reflexivity).
  apply head_Some_elem_of, started_ref in Hr as [spec Hr]. exists spec, ref. split; [exact Hr|].
  eapply (nothing_left_behind (fx_docker "team" 1) full_run);
    [done|apply fx_run_reachable|vm_compute; reflexivity|exact Hr].
Defined.

Lemma terminal_mark_unreported_witness :
  phase_of (fx_docker "team" 1) "t1" (x_trace (sys closed_run)) = Started ∧
  ∃ o s, x_heap (sys closed_run) !! o = Some s ∧ slotTaskID s = "t1" ∧ sl_terminal s = true.
Proof.
  apply (terminal_mark_unreported (fx_docker "team" 1) closed_run); [done|apply fx_run_reachable|].
  vm_compute. reflexivity.
Defined.
