(* ===== verification/Cache.v ===== *)
(** * The recovery cache of an executor (cache/cache.go, cache/codec.go)

    Three buckets of encoded records in a bbolt database. A transaction of the database either
    takes effect as a whole or reports an error; [disk] is the error it reports, if any. The
    Docker and the Kubernetes executor have the same file. *)

From stdpp Require Import base gmap strings list sorting.
From Stdlib Require Import Ascii.
From S2P Require Import Prelude Platform GoStrings Fixtures Cursor.
#[local] Open Scope Z_scope.

(** ** Records *)

Record AssignmentRecord : Type := mkAssignment {
  as_task : string; as_team : string; as_executor : string; as_command : string;
  as_image : string; as_image_source : string; as_environment : string; as_token : string;
  as_runtime : string; as_runtime_ref : string; as_conversation : string; as_observed : Z;
  as_state : string }.

Record EventOutboxRecord : Type := mkOutbox {
  ob_event : string; ob_team : string; ob_task : string; ob_executor : string; ob_type : string;
  ob_at : string; ob_payload : string; ob_state : string; ob_updated : Z }.

Definition with_state (state : string) (now : Z) (r : EventOutboxRecord) : EventOutboxRecord :=
  mkOutbox (ob_event r) (ob_team r) (ob_task r) (ob_executor r) (ob_type r) (ob_at r)
    (ob_payload r) state now.

(** encoding/json on the two records. A record with text that is not UTF-8 or an instant out of
    range does not keep its form. *)
Class RecordCodec := {
  encodeAssignment : AssignmentRecord → option string;
  decodeAssignment : string → option AssignmentRecord;
  encodeOutbox : EventOutboxRecord → option string;
  decodeOutbox : string → option EventOutboxRecord;
  assignment_fits : AssignmentRecord → Prop;
  outbox_fits : EventOutboxRecord → Prop;
  assignment_decoded r : assignment_fits r →
    ∃ s, encodeAssignment r = Some s ∧ s ≠ "" ∧ decodeAssignment s = Some r;
  outbox_decoded r : outbox_fits r →
    ∃ s, encodeOutbox r = Some s ∧ s ≠ "" ∧ decodeOutbox s = Some r;
}.

(** ** The store *)

Record Buckets : Type := mkBuckets {
  bk_metadata : gmap string string; bk_assignments : gmap string string;
  bk_outbox : gmap string string }.

(** A store that is closed has no database. *)
Definition Store : Type := option Buckets.

Definition store_closed : string := "cache: store is not open".
Definition SchemaVersion : Z := 1.
Definition metadataSchemaVersionKey : string := "schema_version".

(** db.Update and db.View. *)
Definition db_update (disk : option string) (b : Buckets) (f : Buckets → result string Buckets) :
    Store * result string () :=
  match f b, disk with
  | Err e, _ => (Some b, Err e)
  | Ok _, Some e => (Some b, Err e)
  | Ok b', None => (Some b', Ok ())
  end.
Definition db_view {A} (disk : option string) (b : Buckets) (f : Buckets → result string A) :
    Store * result string A :=
  (Some b, match disk with Some e => Err e | None => f b end).

Definition on_open {A} (s : Store) (f : Buckets → Store * result string A) :
    Store * result string A :=
  match s with None => (None, Err store_closed) | Some b => f b end.

Section store.
Context {RC : RecordCodec}.

(** decodeAssignment and decodeOutbox refuse an empty document. *)
Definition decode_with {A} (decode : string → option A) (empty raw : string) : result string A :=
  if bool_decide (raw = "") then Err empty
  else match decode raw with Some r => Ok r | None => Err "json" end.
Definition read_assignment : string → result string AssignmentRecord :=
  decode_with decodeAssignment "cache: empty assignment record".
Definition read_outbox : string → result string EventOutboxRecord :=
  decode_with decodeOutbox "cache: empty outbox record".

(** The values of a bucket in the order of their keys, decoded up to the first that fails. *)
Fixpoint decode_all {A} (decode : string → result string A) (l : list string) :
    result string (list A) :=
  match l with
  | [] => Ok []
  | raw :: l' =>
      match decode raw, decode_all decode l' with
      | Ok r, Ok rs => Ok (r :: rs)
      | Err e, _ => Err e
      | _, Err e => Err e
      end
  end.
Definition in_key_order {A} (m : gmap string A) : list A :=
  omap (λ k, m !! k) (merge_sort String.le (map_to_list m).*1).

Definition ExecutorID (disk : option string) (s : Store) : Store * result string string :=
  on_open s (λ b, db_view disk b (λ b, Ok (default "" (bk_metadata b !! "executor_id")))).

Definition PutExecutorID (disk : option string) (id : string) (s : Store) :
    Store * result string () :=
  on_open s (λ b,
    if bool_decide (id = "") then (Some b, Err "cache: executor_id is required")
    else db_update disk b (λ b,
      Ok (mkBuckets (<["executor_id" := id]> (bk_metadata b)) (bk_assignments b) (bk_outbox b)))).

Definition PutAssignment (disk : option string) (r : AssignmentRecord) (s : Store) :
    Store * result string () :=
  on_open s (λ b,
    if bool_decide (as_task r = "") then (Some b, Err "cache: assignment task_id is required")
    else
      match encodeAssignment r with
      | None => (Some b, Err "json")
      | Some payload => db_update disk b (λ b,
          Ok (mkBuckets (bk_metadata b) (<[as_task r := payload]> (bk_assignments b)) (bk_outbox b)))
      end).

Definition empty_assignment : AssignmentRecord :=
  mkAssignment "" "" "" "" "" "" "" "" "" "" "" 0 "".

Definition Assignment (disk : option string) (task : string) (s : Store) :
    Store * result string AssignmentRecord :=
  on_open s (λ b, db_view disk b (λ b,
    match bk_assignments b !! task with
    | None => Ok empty_assignment
    | Some raw => read_assignment raw
    end)).

Definition ListAssignments (disk : option string) (s : Store) :
    Store * result string (list AssignmentRecord) :=
  on_open s (λ b, db_view disk b (λ b,
    decode_all read_assignment (in_key_order (bk_assignments b)))).

Definition DeleteAssignment (disk : option string) (task : string) (s : Store) :
    Store * result string () :=
  on_open s (λ b, db_update disk b (λ b,
    Ok (mkBuckets (bk_metadata b) (delete task (bk_assignments b)) (bk_outbox b)))).

Definition PutOutbox (disk : option string) (r : EventOutboxRecord) (s : Store) :
    Store * result string () :=
  on_open s (λ b,
    if bool_decide (ob_event r = "") then (Some b, Err "cache: outbox event_id is required")
    else
      match encodeOutbox r with
      | None => (Some b, Err "json")
      | Some payload => db_update disk b (λ b,
          Ok (mkBuckets (bk_metadata b) (bk_assignments b) (<[ob_event r := payload]> (bk_outbox b))))
      end).

Definition UpdateOutboxState (disk : option string) (event state : string) (now : Z) (s : Store) :
    Store * result string () :=
  on_open s (λ b,
    if bool_decide (event = "") then (Some b, Err "cache: outbox event_id is required")
    else db_update disk b (λ b,
      match bk_outbox b !! event with
      | None => Err "cache: outbox record missing"
      | Some raw =>
          match read_outbox raw with
          | Err e => Err e
          | Ok r =>
              match encodeOutbox (with_state state now r) with
              | None => Err "json"
              | Some encoded =>
                  Ok (mkBuckets (bk_metadata b) (bk_assignments b)
                        (<[event := encoded]> (bk_outbox b)))
              end
          end
      end)).

Definition PendingOutbox (disk : option string) (s : Store) :
    Store * result string (list EventOutboxRecord) :=
  on_open s (λ b, db_view disk b (λ b,
    match decode_all read_outbox (in_key_order (bk_outbox b)) with
    | Ok l => Ok (filter (λ r, ob_state r = "pending") l)
    | Err e => Err e
    end)).

(** *** The schema version *)

(** fmt.Sscanf with one decimal verb on an unsigned 32-bit integer: leading spaces, then digits. *)
Fixpoint leading_digits (l : list ascii) : list ascii :=
  match l with
  | c :: l' => if is_digit c then c :: leading_digits l' else []
  | [] => []
  end.
Definition scan_uint32 (s : string) : option Z :=
  let digits := leading_digits (drop_spaces (chars s)) in
  if bool_decide (digits = []) then None
  else if decimal_value digits <? 2 ^ 32 then Some (decimal_value digits) else None.

Definition verifySchemaVersion (b : Buckets) : result string () :=
  match bk_metadata b !! metadataSchemaVersionKey with
  | None => Ok ()
  | Some raw =>
      match scan_uint32 raw with
      | None => Err "cache: parse schema_version"
      | Some stored =>
          if SchemaVersion <? stored then Err "cache: stored schema_version is newer than supported"
          else Ok ()
      end
  end.

Definition writeSchemaVersion (disk : option string) (b : Buckets) : Store * result string () :=
  db_update disk b (λ b,
    Ok (mkBuckets (<[metadataSchemaVersionKey := "1"]> (bk_metadata b)) (bk_assignments b)
          (bk_outbox b))).

(** Open, once the database file is open and has its buckets. *)
Definition Open (disk : option string) (b : Buckets) : result string Buckets :=
  match verifySchemaVersion b with
  | Err e => Err e
  | Ok _ =>
      match writeSchemaVersion disk b with
      | (Some b', Ok _) => Ok b'
      | (_, Err e) => Err e
      | (None, Ok _) => Err store_closed
      end
  end.
End store.

(** ** The reference: a memory of records *)

Record Memory : Type := mkMemory {
  mm_executor : string; mm_assignments : gmap string AssignmentRecord;
  mm_outbox : gmap string EventOutboxRecord }.

Definition empty_memory : Memory := mkMemory "" ∅ ∅.

Definition mem_write (disk : option string) (m m' : Memory) : Memory * result string () :=
  match disk with Some e => (m, Err e) | None => (m', Ok ()) end.
Definition mem_read {A} (disk : option string) (m : Memory) (a : A) : Memory * result string A :=
  (m, match disk with Some e => Err e | None => Ok a end).

Definition mem_put_executor disk (id : string) (m : Memory) : Memory * result string () :=
  if bool_decide (id = "") then (m, Err "cache: executor_id is required")
  else mem_write disk m (mkMemory id (mm_assignments m) (mm_outbox m)).
Definition mem_put_assignment disk (r : AssignmentRecord) (m : Memory) : Memory * result string () :=
  if bool_decide (as_task r = "") then (m, Err "cache: assignment task_id is required")
  else mem_write disk m (mkMemory (mm_executor m) (<[as_task r := r]> (mm_assignments m)) (mm_outbox m)).
Definition mem_delete_assignment disk (task : string) (m : Memory) : Memory * result string () :=
  mem_write disk m (mkMemory (mm_executor m) (delete task (mm_assignments m)) (mm_outbox m)).
Definition mem_put_outbox disk (r : EventOutboxRecord) (m : Memory) : Memory * result string () :=
  if bool_decide (ob_event r = "") then (m, Err "cache: outbox event_id is required")
  else mem_write disk m (mkMemory (mm_executor m) (mm_assignments m) (<[ob_event r := r]> (mm_outbox m))).
Definition mem_update_outbox disk (event state : string) (now : Z) (m : Memory) :
    Memory * result string () :=
  if bool_decide (event = "") then (m, Err "cache: outbox event_id is required")
  else
    match mm_outbox m !! event with
    | None => (m, Err "cache: outbox record missing")
    | Some r => mem_write disk m (mkMemory (mm_executor m) (mm_assignments m)
                  (<[event := with_state state now r]> (mm_outbox m)))
    end.
Definition mem_assignment disk (task : string) (m : Memory) : Memory * result string AssignmentRecord :=
  mem_read disk m (default empty_assignment (mm_assignments m !! task)).
Definition mem_assignments disk (m : Memory) : Memory * result string (list AssignmentRecord) :=
  mem_read disk m (in_key_order (mm_assignments m)).
Definition mem_pending disk (m : Memory) : Memory * result string (list EventOutboxRecord) :=
  mem_read disk m (filter (λ r, ob_state r = "pending") (in_key_order (mm_outbox m))).
Definition mem_executor_id disk (m : Memory) : Memory * result string string :=
  mem_read disk m (mm_executor m).

(** An operation and its answer. *)
Inductive cop : Type :=
| OpExecutorID | OpPutExecutorID (id : string)
| OpPutAssignment (r : AssignmentRecord) | OpAssignment (task : string) | OpListAssignments
| OpDeleteAssignment (task : string)
| OpPutOutbox (r : EventOutboxRecord) | OpUpdateOutboxState (event state : string) (now : Z)
| OpPendingOutbox.

Definition cval (o : cop) : Type :=
  match o with
  | OpExecutorID => string
  | OpAssignment _ => AssignmentRecord
  | OpListAssignments => list AssignmentRecord
  | OpPendingOutbox => list EventOutboxRecord
  | _ => ()
  end.

Definition run_memory (disk : option string) (o : cop) : Memory → Memory * result string (cval o) :=
  match o with
  | OpExecutorID => mem_executor_id disk
  | OpPutExecutorID id => mem_put_executor disk id
  | OpPutAssignment r => mem_put_assignment disk r
  | OpAssignment task => mem_assignment disk task
  | OpListAssignments => mem_assignments disk
  | OpDeleteAssignment task => mem_delete_assignment disk task
  | OpPutOutbox r => mem_put_outbox disk r
  | OpUpdateOutboxState event state now => mem_update_outbox disk event state now
  | OpPendingOutbox => mem_pending disk
  end.

Section equivalence.
Context {RC : RecordCodec}.

Definition run_store (disk : option string) (o : cop) : Store → Store * result string (cval o) :=
  match o with
  | OpExecutorID => ExecutorID disk
  | OpPutExecutorID id => PutExecutorID disk id
  | OpPutAssignment r => PutAssignment disk r
  | OpAssignment task => Assignment disk task
  | OpListAssignments => ListAssignments disk
  | OpDeleteAssignment task => DeleteAssignment disk task
  | OpPutOutbox r => PutOutbox disk r
  | OpUpdateOutboxState event state now => UpdateOutboxState disk event state now
  | OpPendingOutbox => PendingOutbox disk
  end.

(** The buckets hold the encodings of the records. *)
Definition encodes {A} (decode : string → result string A) (raw : gmap string string)
    (m : gmap string A) : Prop := map_Forall2 (λ _ s r, decode s = Ok r) raw m.
Record represents (b : Buckets) (m : Memory) : Prop := mkRepresents {
  rp_executor : default "" (bk_metadata b !! "executor_id") = mm_executor m;
  rp_assignments : encodes read_assignment (bk_assignments b) (mm_assignments m);
  rp_outbox : encodes read_outbox (bk_outbox b) (mm_outbox m);
}.

(** The records that an operation writes have a form to be kept in. *)
Definition op_fits (o : cop) (m : Memory) : Prop :=
  match o with
  | OpPutAssignment r => assignment_fits r
  | OpPutOutbox r => outbox_fits r
  | OpUpdateOutboxState event state now =>
      ∀ r, mm_outbox m !! event = Some r → outbox_fits (with_state state now r)
  | _ => True
  end.

Lemma encoded_assignment r : assignment_fits r →
  ∃ s, encodeAssignment r = Some s ∧ read_assignment s = Ok r.
Proof using.
  intros (s & He & Hn & Hd)%assignment_decoded. exists s. split; [done|].
  unfold read_assignment, decode_with. by rewrite bool_decide_eq_false_2, Hd.
Qed.

Lemma encoded_outbox r : outbox_fits r → ∃ s, encodeOutbox r = Some s ∧ read_outbox s = Ok r.
Proof using.
  intros (s & He & Hn & Hd)%outbox_decoded. exists s. split; [done|].
  unfold read_outbox, decode_with. by rewrite bool_decide_eq_false_2, Hd.
Qed.

Lemma encodes_lookup {A} (decode : string → result string A) raw m k :
  encodes decode raw m →
  match m !! k with
  | Some r => ∃ s, raw !! k = Some s ∧ decode s = Ok r
  | None => raw !! k = None
  end.
Proof using. intros Hm. specialize (Hm k). destruct Hm; eauto. Qed.

(** The same keys in the same order. *)
Lemma keys_eq {A B} (m : gmap string A) (n : gmap string B) :
  dom m = dom n →
  merge_sort String.le (map_to_list m).*1 = merge_sort String.le (map_to_list n).*1.
Proof using.
  intros Hd. apply (StronglySorted_unique String.le); [apply StronglySorted_merge_sort; apply _..|].
  rewrite !merge_sort_Permutation. apply NoDup_Permutation; [apply NoDup_fst_map_to_list..|].
  assert (Hk : ∀ C (q : gmap string C) k, k ∈ (map_to_list q).*1 ↔ k ∈ dom q).
  { intros C q k. rewrite elem_of_dom, list_elem_of_fmap. split.
    - intros ([k' v] & -> & Hv%elem_of_map_to_list). by exists v.
    - intros [v Hv]. exists (k, v). split; [done|]. by apply elem_of_map_to_list. }
  intros k. by rewrite !Hk, Hd.
Qed.

Lemma decode_all_encodes {A} (decode : string → result string A) raw m :
  encodes decode raw m → decode_all decode (in_key_order raw) = Ok (in_key_order m).
Proof using.
  intros Hm. unfold in_key_order. rewrite (keys_eq raw m) by by eapply map_Forall2_dom_L.
  generalize (merge_sort String.le (map_to_list m).*1) as ks.
  induction ks as [|k ks IH]; [done|]. csimpl. pose proof (encodes_lookup _ _ _ k Hm) as Hk.
  destruct (m !! k) as [r|]; [destruct Hk as (s & -> & Hs)|by rewrite Hk].
  cbn [decode_all]. by rewrite Hs, IH.
Qed.

(** C13. The store answers as a memory of records does: on buckets that hold the encodings of the
    records of a memory, every operation gives the answer and the error of the memory's, and
    leaves buckets that hold its records again, whatever the disk reports. *)
Theorem store_equals_memory disk o b m :
  represents b m → op_fits o m →
  ∃ b', run_store disk o (Some b) = (Some b', (run_memory disk o m).2) ∧
        represents b' (run_memory disk o m).1.
Proof using.
  intros [He Ha Ho] Hfits. destruct o; simpl in *.
  - exists b. unfold ExecutorID, mem_executor_id, mem_read, db_view. simpl. rewrite He.
    by destruct disk.
  - unfold PutExecutorID, mem_put_executor. simpl. case_bool_decide; [by exists b|].
    unfold db_update, mem_write. destruct disk; eexists; (split; [done|]); [done|].
    split; [|done..]. simpl. by rewrite lookup_insert_eq.
  - unfold PutAssignment, mem_put_assignment. simpl. case_bool_decide; [by exists b|].
    destruct (encoded_assignment _ Hfits) as (s & -> & Hs). unfold db_update, mem_write.
    destruct disk; eexists; (split; [done|]); [done|]. split; [done| |done].
    by apply map_Forall2_insert_2.
  - exists b. unfold Assignment, mem_assignment, mem_read, db_view. simpl. destruct disk; [done|].
    pose proof (encodes_lookup _ _ _ task Ha) as Hk.
    destruct (mm_assignments m !! task) as [r|]; [destruct Hk as (s & -> & ->)|rewrite Hk]; done.
  - exists b. unfold ListAssignments, mem_assignments, mem_read, db_view. simpl.
    rewrite (decode_all_encodes _ _ _ Ha). by destruct disk.
  - unfold DeleteAssignment, mem_delete_assignment, db_update, mem_write. simpl.
    destruct disk; eexists; (split; [done|]); [done|]. split; [done| |done].
    by apply map_Forall2_delete.
  - unfold PutOutbox, mem_put_outbox. simpl. case_bool_decide; [by exists b|].
    destruct (encoded_outbox _ Hfits) as (s & -> & Hs). unfold db_update, mem_write.
    destruct disk; eexists; (split; [done|]); [done|]. split; [done..|].
    by apply map_Forall2_insert_2.
  - unfold UpdateOutboxState, mem_update_outbox. simpl. case_bool_decide; [by exists b|].
    pose proof (encodes_lookup _ _ _ event Ho) as Hk. unfold db_update.
    destruct (mm_outbox m !! event) as [r|] eqn:Hr; [|rewrite Hk; by exists b].
    destruct Hk as (s & -> & ->).
    destruct (encoded_outbox _ (Hfits r eq_refl)) as (s' & -> & Hs'). unfold mem_write.
    destruct disk; eexists; (split; [done|]); [done|]. split; [done..|].
    by apply map_Forall2_insert_2.
  - exists b. unfold PendingOutbox, mem_pending, mem_read, db_view. simpl.
    rewrite (decode_all_encodes _ _ _ Ho). by destruct disk.
Qed.

(** A store that was opened keeps what it held, and a newer schema is left alone. *)
Lemma Open_represents disk b b' m :
  represents b m → Open disk b = Ok b' → represents b' m ∧
  bk_metadata b' !! metadataSchemaVersionKey = Some "1".
Proof using.
  intros [He Ha Ho]. unfold Open, writeSchemaVersion, db_update.
  destruct (verifySchemaVersion b); [|done]. destruct disk; [done|]. intros [= <-].
  split; [split; [|done..]|]; simpl; [|by rewrite lookup_insert_eq].
  by rewrite lookup_insert_ne.
Qed.
End equivalence.

(** ** A codec and a store *)

Definition assignment_fields (r : AssignmentRecord) : string :=
  fields [as_task r; as_team r; as_executor r; as_command r; as_image r; as_image_source r;
          as_environment r; as_token r; as_runtime r; as_runtime_ref r; as_conversation r;
          format_bits (as_observed r); as_state r].
Definition assignment_unfields (s : string) : option AssignmentRecord :=
  match unfields s [] with
  | Some [a; b; c; d; e; f; g; h; i; j; k; t; l] =>
      (λ at_, mkAssignment a b c d e f g h i j k at_ l) <$> parse_bits t
  | _ => None
  end.
Definition outbox_fields (r : EventOutboxRecord) : string :=
  fields [ob_event r; ob_team r; ob_task r; ob_executor r; ob_type r; ob_at r; ob_payload r;
          ob_state r; format_bits (ob_updated r)].
Definition outbox_unfields (s : string) : option EventOutboxRecord :=
  match unfields s [] with
  | Some [a; b; c; d; e; f; g; h; t] => (λ at_, mkOutbox a b c d e f g h at_) <$> parse_bits t
  | _ => None
  end.

Definition record_fields : RecordCodec.
Proof.
  refine {| encodeAssignment r := Some (assignment_fields r);
            decodeAssignment := assignment_unfields;
            encodeOutbox r := Some (outbox_fields r); decodeOutbox := outbox_unfields;
            assignment_fits _ := True; outbox_fits _ := True |}.
  - intros r _. exists (assignment_fields r). split; [done|]. split; [apply fields_nonempty|].
    unfold assignment_unfields, assignment_fields. rewrite unfields_fields, parse_format_bits.
    by destruct r.
  - intros r _. exists (outbox_fields r). split; [done|]. split; [apply fields_nonempty|].
    unfold outbox_unfields, outbox_fields. rewrite unfields_fields, parse_format_bits.
    by destruct r.
Defined.

#[local] Existing Instance record_fields.

Definition fx_event (state : string) : EventOutboxRecord :=
  mkOutbox "e1" "team" "t1" "ex1" "running" "at" "{}" state 5.
Definition fx_buckets : Buckets := mkBuckets ∅ ∅ {["e1" := outbox_fields (fx_event "pending")]}.
Definition fx_memory : Memory := mkMemory "" ∅ {["e1" := fx_event "pending"]}.

(** A pending event is accepted and no longer listed. *)
Lemma store_equals_memory_witness :
  ∃ b', run_store None (OpUpdateOutboxState "e1" "accepted" 9) (Some fx_buckets) = (Some b', Ok ()) ∧
        represents b' (run_memory None (OpUpdateOutboxState "e1" "accepted" 9) fx_memory).1.
Proof.
  apply (store_equals_memory None (OpUpdateOutboxState "e1" "accepted" 9) fx_buckets fx_memory).
  - split; [reflexivity|apply map_Forall2_empty|]. apply map_Forall2_singleton.
    vm_compute. reflexivity.
  - simpl. done.
Defined.

(** The schema of a later version is refused and stays as it is. *)
Example newer_schema_refused :
  Open None (mkBuckets {[metadataSchemaVersionKey := "2"]} ∅ ∅) =
    Err "cache: stored schema_version is newer than supported" ∧
  is_ok (Open None (mkBuckets ∅ ∅ ∅)) = true.
Proof. split; vm_compute; reflexivity. Qed.
