(* ===== verification/Kube.v ===== *)
(** * The Kubernetes executor (executor/k8s-openhands/internal/executor)

    executor.go, v0002.go and pod_lifecycle.go as goroutines, in the way of Docker. What survives
    the process is the cache, kept here as the memory of records that Cache shows it to be, and
    the history of calls; a restart keeps these and starts Run anew. *)

From stdpp Require Import base gmap strings list sorting.
From Stdlib Require Import Ascii.
From S2P Require Import Prelude Platform GoStrings Cursor OpenHands Conc Cache.
From S2P Require Docker.
#[local] Open Scope Z_scope.

(** ** Configuration *)

(** The settings that the task machine reads; durations in nanoseconds. The identity of the
    executor is part of its state. *)
Record Config : Type := mkConfig {
  kc_max : Z; kc_registry_url : string; kc_scope : string; kc_team : string; kc_tag : string;
  kc_namespace : string; kc_service_account : string; kc_storage_class : string;
  kc_cache_dir : string; kc_api_key : string; kc_port : Z; kc_pull_policy : string;
  kc_finished_delay : Z; kc_failed_delay : Z; kc_workspace : string; kc_usage : string;
  kc_profile : string; kc_initial_run : bool }.

(** Config.Validate: the first check that fails. *)
Definition Validate `{Docker.UrlParse} (c : Config) : option string :=
  if kc_max c <? 1 then Some "EXECUTOR_MAX_PODS"
  else if bool_decide (kc_registry_url c = "") then Some "EXECUTOR_STATE_REGISTRY_URL"
  else if bool_decide (kc_scope c ≠ "team" ∧ kc_scope c ≠ "system") then Some "EXECUTOR_SCOPE"
  else if bool_decide (kc_scope c = "team" ∧ kc_team c = "") then Some "EXECUTOR_TEAM_ID"
  else if bool_decide (kc_scope c = "system" ∧ kc_team c ≠ "") then Some "EXECUTOR_TEAM_ID"
  else if bool_decide (kc_tag c = "") then Some "EXECUTOR_AUTHORIZED_TAG"
  else if bool_decide (kc_namespace c = "") then Some "EXECUTOR_NAMESPACE"
  else if bool_decide (kc_service_account c = "") then Some "EXECUTOR_SERVICE_ACCOUNT"
  else if bool_decide (kc_storage_class c = "") then Some "EXECUTOR_STORAGE_CLASS_NAME"
  else if bool_decide (kc_cache_dir c = "") then Some "EXECUTOR_CACHE_DIR"
  else
    match Docker.url_parse (kc_registry_url c) with
    | Some (scheme, host) =>
        if bool_decide ((scheme ≠ "http" ∧ scheme ≠ "https") ∨ host = "")
        then Some "EXECUTOR_STATE_REGISTRY_URL"
        else if bool_decide (kc_workspace c = "") then Some "OPENHANDS_WORKSPACE"
        else if kc_finished_delay c <? 0 then Some "EXECUTOR_FINISHED_CLEANUP_DELAY"
        else if kc_failed_delay c <? 0 then Some "EXECUTOR_FAILED_CLEANUP_DELAY"
        else None
    | None => Some "EXECUTOR_STATE_REGISTRY_URL"
    end.

(** ** Wire types; those of the registry are the same as the Docker executor's *)

Record TaskEvent : Type := mkEvent {
  ke_id : string; ke_team : string; ke_task : string; ke_executor : string; ke_type : string;
  ke_at : string; ke_payload : string }.

#[export] Instance TaskEvent_eq_dec : EqDecision TaskEvent.
Proof. solve_decision. Defined.

Record ExecutorRecord : Type := mkRecord {
  xr_id : string; xr_scope : string; xr_team : option string; xr_tag : string }.

Inductive PodStatus : Type :=
| PodStatusUnknown | PodStatusPending | PodStatusRunning | PodStatusSucceeded | PodStatusFailed.

#[export] Instance PodStatus_eq_dec : EqDecision PodStatus.
Proof. solve_decision. Defined.

Record PodSpec : Type := mkPodSpec {
  sp_name : string; sp_namespace : string; sp_image : string; sp_pull_policy : string;
  sp_task : string; sp_service_account : string; sp_port : Z; sp_env : gmap string string;
  sp_labels : gmap string string }.
Record PodRef : Type := mkPodRef { pr_name : string; pr_uid : string }.
Record PodState : Type := mkPodState {
  po_ref : PodRef; po_ip : string; po_status : PodStatus; po_labels : gmap string string }.

Definition LabelExecutorID : string := "flowai.executor_id".
Definition LabelTeamID : string := "flowai.team_id".
Definition LabelTaskID : string := "flowai.task_id".
Definition LabelCommandID : string := "flowai.command_id".
Definition LabelExecutorScope : string := "flowai.executor_scope".
Definition LabelResolvedImageSource : string := "flowai.resolved_image_source".
Definition LabelRuntime : string := "flowai.runtime".

Definition BuildTaskLabels (executor team task command scope source : string) :
    gmap string string :=
  list_to_map [(LabelExecutorID, executor); (LabelTeamID, team); (LabelTaskID, task);
    (LabelCommandID, command); (LabelExecutorScope, scope); (LabelResolvedImageSource, source);
    (LabelRuntime, "k8s")].

(** ** Calls and their answers *)

(** The case that a select statement takes when several are ready. *)
Inductive selected : Type := SelTerminal | SelControls | SelEnded | SelDone.

Inductive kcall : Type :=
| KUuid | KNow | KPollTick | KDisk | KSelect | KCtxDone
| KListPods (selector : gmap string string)
| KDiscoverTasks (tag : string) (limit : Z)
| KClaimTask (task command : string)
| KOpenEnvironment (task token : string)
| KAppendTaskEvent (e : TaskEvent)
| KCreateExecutor
| KRegisterExecutor (running : Z)
| KCreatePod (spec : PodSpec)
| KDeletePod (name : string)
| KWatchPod (name : string)
| KPodUpdate (name : string)
| KHealthCheck (url : string)
| KStartConversation (url : string) (c : ConversationConfig)
| KDial (url : string)
| KReadMessage (url : string)
| KAppendTaskLog (task id stream content : string) (at_ : Z)
| KListAssignedControls (task : string)
| KAppendTaskControlEvent (task control id status message : string) (at_ : Z)
| KPauseConversation (url conversation : string)
| KWaitDelay (delay : Z).

(** KDisk answers what the database reports for the next transaction; KPodUpdate the next
    observation of a pod, none when the watch ends. *)
Definition kres (c : kcall) : Type :=
  match c with
  | KUuid => string
  | KNow => Z
  | KPollTick | KCtxDone => bool
  | KDisk => option string
  | KSelect => selected
  | KListPods _ => result Docker.xerror (list PodState)
  | KDiscoverTasks _ _ => result Docker.xerror (list Docker.V0002TaskSummary)
  | KClaimTask _ _ => result Docker.xerror Docker.V0002ClaimResponse
  | KOpenEnvironment _ _ => result Docker.xerror (gmap string string)
  | KCreateExecutor | KRegisterExecutor _ => result Docker.xerror ExecutorRecord
  | KCreatePod _ => result Docker.xerror PodRef
  | KPodUpdate _ => option PodState
  | KStartConversation _ _ => result Docker.xerror string
  | KReadMessage _ => Docker.frame
  | KListAssignedControls _ => result Docker.xerror (list Docker.V0002TaskControl)
  | KWaitDelay _ => ()
  | _ => option Docker.xerror
  end.

Record answered : Type := mkAnswered { an_call : kcall; an_answer : kres an_call }.

(** ** State *)

(** A podSlot object; the channels of its goroutine hold one message. *)
Record podSlot : Type := mkSlot {
  ps_task : string; ps_team : string; ps_command : string; ps_name : string; ps_uid : string;
  ps_image : string; ps_source : string; ps_conversation : string; ps_prompt : string;
  ps_key : string; ps_url : string; ps_model : string;
  ps_terminal : option (result string string); ps_ended : option string }.

Record Executor : Type := mkExecutor {
  k_id : string; k_state : Docker.State; k_last : gmap string Z; k_pods : gmap string nat;
  k_heap : gmap nat podSlot; k_reservations : Z; k_published : gset string;
  k_cache : Memory; k_trace : list answered }.

Definition put_id v (σ : Executor) : Executor :=
  mkExecutor v (k_state σ) (k_last σ) (k_pods σ) (k_heap σ) (k_reservations σ) (k_published σ)
    (k_cache σ) (k_trace σ).
Definition put_state v (σ : Executor) : Executor :=
  mkExecutor (k_id σ) v (k_last σ) (k_pods σ) (k_heap σ) (k_reservations σ) (k_published σ)
    (k_cache σ) (k_trace σ).
Definition put_last v (σ : Executor) : Executor :=
  mkExecutor (k_id σ) (k_state σ) v (k_pods σ) (k_heap σ) (k_reservations σ) (k_published σ)
    (k_cache σ) (k_trace σ).
Definition put_pods v (σ : Executor) : Executor :=
  mkExecutor (k_id σ) (k_state σ) (k_last σ) v (k_heap σ) (k_reservations σ) (k_published σ)
    (k_cache σ) (k_trace σ).
Definition put_heap v (σ : Executor) : Executor :=
  mkExecutor (k_id σ) (k_state σ) (k_last σ) (k_pods σ) v (k_reservations σ) (k_published σ)
    (k_cache σ) (k_trace σ).
Definition put_reservations v (σ : Executor) : Executor :=
  mkExecutor (k_id σ) (k_state σ) (k_last σ) (k_pods σ) (k_heap σ) v (k_published σ)
    (k_cache σ) (k_trace σ).
Definition put_published v (σ : Executor) : Executor :=
  mkExecutor (k_id σ) (k_state σ) (k_last σ) (k_pods σ) (k_heap σ) (k_reservations σ) v
    (k_cache σ) (k_trace σ).
Definition put_cache v (σ : Executor) : Executor :=
  mkExecutor (k_id σ) (k_state σ) (k_last σ) (k_pods σ) (k_heap σ) (k_reservations σ)
    (k_published σ) v (k_trace σ).
Definition put_trace v (σ : Executor) : Executor :=
  mkExecutor (k_id σ) (k_state σ) (k_last σ) (k_pods σ) (k_heap σ) (k_reservations σ)
    (k_published σ) (k_cache σ) v.

Definition with_conversation (id : string) (s : podSlot) : podSlot :=
  mkSlot (ps_task s) (ps_team s) (ps_command s) (ps_name s) (ps_uid s) (ps_image s) (ps_source s)
    id (ps_prompt s) (ps_key s) (ps_url s) (ps_model s) (ps_terminal s) (ps_ended s).
Definition with_terminal (r : option (result string string)) (s : podSlot) : podSlot :=
  mkSlot (ps_task s) (ps_team s) (ps_command s) (ps_name s) (ps_uid s) (ps_image s) (ps_source s)
    (ps_conversation s) (ps_prompt s) (ps_key s) (ps_url s) (ps_model s) r (ps_ended s).
Definition with_ended (d : option string) (s : podSlot) : podSlot :=
  mkSlot (ps_task s) (ps_team s) (ps_command s) (ps_name s) (ps_uid s) (ps_image s) (ps_source s)
    (ps_conversation s) (ps_prompt s) (ps_key s) (ps_url s) (ps_model s) (ps_terminal s) d.

(** ** Pure functions *)

(** commandIDForStable: twelve characters that start at a byte. *)
Definition charset : list ascii := chars "0123456789abcdef".
Definition commandIDForStable (seed : Z) : string :=
  "cmd-" +:+ of_chars
    ((λ i, default "0"%char (charset !! Z.to_nat (Z.land ((seed + Z.of_nat i * 13) mod 256) 15)))
       <$> seq 0 12).

Definition without (c : ascii) (l : list ascii) : list ascii := filter (λ d, d ≠ c) l.
Definition shortID (task : string) : string :=
  of_chars (take 8 (without "_" (without "-" (chars task)))).

(** The position of the last occurrence, or -1. *)
Fixpoint last_index_from (n : Z) (c : ascii) (l : list ascii) (found : Z) : Z :=
  match l with
  | [] => found
  | d :: l' => last_index_from (n + 1) c l' (if bool_decide (d = c) then n else found)
  end.
Definition last_index (s : string) (c : ascii) : Z := last_index_from 0 c (chars s) (-1).

Definition imageRefAlreadyHasTagOrDigest (ref : string) : bool :=
  if bool_decide ("@"%char ∈ chars ref) then true
  else if bool_decide (":"%char ∈ chars ref) then last_index ref "/" <? last_index ref ":"
  else false.

(** The reference of the image of a claim, nothing without a repository. *)
Definition image_of (i : V0002ImageReference) : option string :=
  let repository := ir_repository i in
  if bool_decide (repository = "") then None
  else Some
    (if imageRefAlreadyHasTagOrDigest repository then repository
     else if bool_decide (ir_tag i ≠ "") then repository +:+ ":" +:+ ir_tag i
     else if bool_decide (ir_digest i ≠ "") then repository +:+ "@" +:+ ir_digest i
     else repository).
Definition claim_image (claim : Docker.V0002ClaimResponse) : option string :=
  match Docker.cl_image claim with
  | Some i => image_of i
  | None => Docker.te_resolved (Docker.cl_task claim) ≫= image_of
  end.

Definition openHandsPodEnv (key : string) : gmap string string :=
  if bool_decide (key = "") then ∅ else {["SESSION_API_KEY" := key]}.
Definition pod_env (key : string) (values : gmap string string) : gmap string string :=
  delete "SESSION_API_KEY" values ∪ openHandsPodEnv key.

Definition stringPtr (s : option string) : string := default "" s.

(** strings.SplitN with an at sign and two parts. *)
Definition split_ref (ref : string) : option (string * string) :=
  match split_chars "@" (chars ref) with
  | name :: rest => 
      if bool_decide (rest = []) then None
      else Some (of_chars name, of_chars (join_chars "@" rest))
  | [] => None
  end.
Definition runtime_ref (name uid : string) : string := name +:+ "@" +:+ uid.

(** promptFromPayload: the first key that holds a string, also an empty one. *)
Fixpoint first_text (l : list (string * json)) (keys : list string) : option string :=
  match keys with
  | [] => None
  | k :: keys' => match assoc k l with Some (JStr s) => Some s | _ => first_text l keys' end
  end.
Definition promptFromPayload `{JsonCodec} (payload : string) : string :=
  if bool_decide (payload = "") then ""
  else
    match json_unmarshal payload with
    | Some (JObj l) =>
        default payload (first_text l ["prompt"; "instructions"; "input"; "message"])
    | _ => payload
    end.

(** conversationStatus. *)
Fixpoint conversationStatus `{MapRange} (v : json) : string :=
  match v with
  | JObj l =>
      let nested := List.map (λ kv, match kv with (k, x) => (k, conversationStatus x) end) l in
      first_nonempty
        ([text_member l "execution_status"] ++ in_range_order nested ++
         (text_member l <$> ["status"; "kind"]))
  | _ => ""
  end.

Definition sameOptionalTeam (left right : option string) : bool := bool_decide (left = right).

(** {"phase":"running"}, and the documents of the other payloads. *)
Definition running_payload : string :=
  "{" +:+ quote +:+ "phase" +:+ quote +:+ ":" +:+ quote +:+ "running" +:+ quote +:+ "}".
Definition finish_payload `{JsonCodec} (phase detail : string) : string :=
  json_marshal (JObj [("detail", JStr detail); ("phase", JStr phase)]).

(** ** Goroutines *)

(** Run and its poll loop; the goroutine of a pod, waiting for its address, starting and
    observing the conversation; the one that watches for its end, and the one of the stream. *)
Inductive thread : Type :=
| TRun | TPoll
| TPod (o : nat) | TAddress (o : nat) | TServe (o : nat) (ip : string)
| TMonitor (o : nat) (base conversation : string)
| TWatch (o : nat) | TStream (o : nat) (base conversation : string)
| TRead (o : nat) (url : string).

Definition go : Type → Type := prog Executor thread kres.

Definition record_call (c : kcall) (r : kres c) (σ : Executor) : Executor :=
  put_trace (mkAnswered c r :: k_trace σ) σ.

Definition slot_at (σ : Executor) (o : nat) : option podSlot := k_heap σ !! o.

(** The documented behaviour of the outside: the answer of a claim is about its task, as for the
    Docker executor, and the name of a pod that exists is a DNS name. *)
Definition sane (c : kcall) : kres c → Prop :=
  match c with
  | KClaimTask task _ => λ r,
      match r with Ok cl => Docker.te_id (Docker.cl_task cl) = task | Err _ => True end
  | KCreatePod spec => λ r,
      match r with Ok _ => "@"%char ∉ chars (sp_name spec) | Err _ => True end
  | _ => λ _, True
  end.

Section executor.
Context {JC : JsonCodec} {TC : TimeCodec} {MR : MapRange}.
Context (cfg : Config).

Definition kcall_ (c : kcall) : go (kres c) := call c.

Definition slot_field {A} (o : nat) (f : podSlot → A) (d : A) : go A :=
  read (λ σ, match slot_at σ o with Some s => f s | None => d end).
Definition alter_slot (o : nat) (f : podSlot → podSlot) : go () :=
  update (λ σ, put_heap (alter f o (k_heap σ)) σ).
Definition setState (s : Docker.State) : go () := update (put_state s).
Definition PodCount : go Z := read (λ σ, Z.of_nat (size (k_pods σ))).

(** A transaction of the cache. *)
Definition transact {A} (f : option string → Memory → Memory * result string A) :
    go (result string A) :=
  disk ← kcall_ KDisk;
  atomic (λ σ, let out := f disk (k_cache σ) in (put_cache out.1 σ, out.2)).

Definition own_team : option string :=
  if bool_decide (kc_scope cfg = "team") then Some (kc_team cfg) else None.

(** observePodCount. *)
Definition observePodCount : go () :=
  current ← PodCount;
  _ ← kcall_ (KRegisterExecutor current);
  setState (if current =? 0 then Docker.StateReady else Docker.StateBusy).

Definition podFor (task : string) : go (option nat) := read (λ σ, k_pods σ !! task).
Definition freeSlots : go Z :=
  read (λ σ, kc_max cfg - Z.of_nat (size (k_pods σ)) - k_reservations σ).

Definition addPod (task : string) (s : podSlot) : go nat :=
  o ← atomic (λ σ,
    let o := fresh (dom (k_heap σ)) in
    (put_pods (<[task := o]> (k_pods σ)) (put_heap (<[o := s]> (k_heap σ)) σ), o));
  _ ← observePodCount;
  mret o.

Definition removePod (task : string) : go () :=
  present ← atomic (λ σ, (put_pods (delete task (k_pods σ)) σ, k_pods σ !! task));
  match present with None => mret () | Some _ => observePodCount end.

Definition reservePodSlot : go () := update (λ σ, put_reservations (k_reservations σ + 1) σ).
Definition releasePodSlotReservation : go () :=
  update (λ σ, if 0 <? k_reservations σ then put_reservations (k_reservations σ - 1) σ else σ).

(** The pods that carry the labels of this executor. *)
Definition own_pods (id : string) : gmap string string :=
  list_to_map [(LabelExecutorID, id); (LabelRuntime, "k8s")].
Definition executor_id : go string := read k_id.

Definition hasClusterCapacity : go (result string bool) :=
  free ← freeSlots;
  if free <=? 0 then mret (Ok false)
  else
    id ← executor_id;
    r ← kcall_ (KListPods (own_pods id));
    mret match r with
         | Err e => Err (Docker.er_text e)
         | Ok pods => Ok (Z.of_nat (length pods) <? kc_max cfg)
         end.

Definition commandIDFor (task : string) : go string :=
  now ← kcall_ KNow;
  atomic (λ σ,
    let drawn := Z.land now 255 in
    match k_last σ !! task with
    | Some v => if negb (v =? 0) then (σ, commandIDForStable v)
                else (put_last (<[task := drawn]> (k_last σ)) σ, commandIDForStable drawn)
    | None => (put_last (<[task := drawn]> (k_last σ)) σ, commandIDForStable drawn)
    end).

(** *** Reports (appendTaskEvent): into the outbox first, accepted after the registry's answer *)

Definition outbox_record (e : TaskEvent) (now : Z) : EventOutboxRecord :=
  mkOutbox (ke_id e) (ke_team e) (ke_task e) (ke_executor e) (ke_type e) (ke_at e) (ke_payload e)
    "pending" now.

Definition accept_outbox (event : string) : go (result string ()) :=
  now ← kcall_ KNow;
  transact (λ disk, mem_update_outbox disk event "accepted" now).

Definition send_event (e : TaskEvent) : go (option Docker.xerror) :=
  r ← kcall_ (KAppendTaskEvent e);
  match r with
  | Some err => mret (Some err)
  | None => _ ← accept_outbox (ke_id e); mret None
  end.

Definition appendTaskEvent (task team type payload : string) : go (option Docker.xerror) :=
  id ← executor_id;
  uuid ← kcall_ KUuid;
  at_ ← kcall_ KNow;
  let e := mkEvent ("evt-" +:+ uuid) team task id type (format_rfc3339 at_) payload in
  now ← kcall_ KNow;
  _ ← transact (λ disk, mem_put_outbox disk (outbox_record e now));
  send_event e.

(** *** Taking a task (startTaskV0002) *)

Definition assignment (task team executor command image source environment token ref conversation
    state : string) (now : Z) : AssignmentRecord :=
  mkAssignment task team executor command image source environment token "k8s" ref conversation
    now state.

Definition pod_spec (executor task team command image source : string) (env : gmap string string) :
    PodSpec :=
  mkPodSpec ("oh-" +:+ shortID task) (kc_namespace cfg) image (kc_pull_policy cfg) task
    (kc_service_account cfg) (kc_port cfg) env
    (BuildTaskLabels executor team task command (kc_scope cfg) source).

Definition new_slot (task team command image source : string) (env : gmap string string)
    (claim : Docker.V0002ClaimResponse) (uid : string) : podSlot :=
  mkSlot task team command ("oh-" +:+ shortID task) uid image source ""
    (promptFromPayload (Docker.te_payload (Docker.cl_task claim)))
    (default "" (env !! "OPENAI_API_KEY")) (default "" (env !! "OPENAI_BASE_URL"))
    (default "" (env !! "OPENAI_MODEL")) None None.

(** From the reservation to the goroutine of the pod; [None] is success. *)
Definition launch_pod (task team command image source : string) (env : gmap string string)
    (claim : Docker.V0002ClaimResponse) : go (option string) :=
  let environment := stringPtr (Docker.cl_environment claim) in
  let token := stringPtr (Docker.cl_token claim) in
  _ ← reservePodSlot;
  reported ← appendTaskEvent task team "running" running_payload;
  match reported with
  | Some e => _ ← releasePodSlotReservation; mret (Some (Docker.er_text e))
  | None =>
      id ← executor_id;
      let spec := pod_spec id task team command image source env in
      r ← kcall_ (KCreatePod spec);
      match r with
      | Err e =>
          _ ← transact (λ disk, mem_delete_assignment disk task);
          _ ← releasePodSlotReservation;
          mret (Some (Docker.er_text e))
      | Ok ref =>
          _ ← kcall_ KNow;
          o ← addPod task (new_slot task team command image source env claim (pr_uid ref));
          _ ← releasePodSlotReservation;
          now ← kcall_ KNow;
          _ ← transact (λ disk, mem_put_assignment disk
                (assignment task team id command image source environment token
                   (runtime_ref (sp_name spec) (pr_uid ref)) "" "running" now));
          _ ← spawn (TPod o);
          mret None
      end
  end.

(** From the claim to the reservation. *)
Definition start_claimed (task team command : string) (claim : Docker.V0002ClaimResponse) :
    go (option string) :=
  let environment := stringPtr (Docker.cl_environment claim) in
  let token := stringPtr (Docker.cl_token claim) in
  opened ← (if Docker.cl_launch claim then
              if bool_decide (token = "") then
                mret (Err "launch parameters require scope_token" : result string (gmap string string))
              else
                r ← kcall_ (KOpenEnvironment task token);
                mret match r with
                     | Ok values => Ok (pod_env (kc_api_key cfg) values)
                     | Err e => Err (Docker.er_text e)
                     end
            else mret (Ok (openHandsPodEnv (kc_api_key cfg))));
  match opened with
  | Err e => mret (Some e)
  | Ok env =>
      match claim_image claim with
      | None => mret (Some "missing resolved_image")
      | Some image =>
          let source := stringPtr (Docker.cl_image_source claim) in
          id ← executor_id;
          now ← kcall_ KNow;
          _ ← transact (λ disk, mem_put_assignment disk
                (assignment task team id command image source environment token "" "" "claimed" now));
          launch_pod task team command image source env claim
      end
  end.

Definition startTaskV0002 (summary : Docker.V0002TaskSummary) : go (option string) :=
  let task := Docker.ts_id summary in
  let team := Docker.ts_team summary in
  command ← commandIDFor task;
  id ← executor_id;
  now ← kcall_ KNow;
  intent ← transact (λ disk, mem_put_assignment disk
             (assignment task team id command "" "" "" "" "" "" "claiming" now));
  match intent with
  | Err e => mret (Some e)
  | Ok _ =>
      r ← kcall_ (KClaimTask task command);
      match r with
      | Err e =>
          mret (if Docker.IsOlderTaskMustBeClaimedFirst e || Docker.IsTaskAlreadyClaimed e
                   || Docker.IsNotFound e
                then None else Some (Docker.er_text e))
      | Ok claim =>
          if bool_decide (Docker.cl_claim claim ≠ "claimed") then mret (Some "unexpected envelope")
          else start_claimed task team command claim
      end
  end.

Fixpoint start_all (items : list Docker.V0002TaskSummary) : go () :=
  match items with
  | [] => mret ()
  | summary :: items' =>
      capacity ← hasClusterCapacity;
      match capacity with
      | Ok true =>
          slot ← podFor (Docker.ts_id summary);
          match slot with
          | Some _ => start_all items'
          | None =>
              err ← startTaskV0002 summary;
              match err with Some _ => mret () | None => start_all items' end
          end
      | _ => mret ()
      end
  end.

Definition tickV0002 : go () :=
  capacity ← hasClusterCapacity;
  match capacity with
  | Ok true =>
      r ← kcall_ (KDiscoverTasks (kc_tag cfg) 100);
      match r with
      | Err _ => mret ()
      | Ok items => start_all (merge_sort Docker.summary_le items)
      end
  | _ => mret ()
  end.

(** *** The end of a pod (finishPodTask, removePod) *)

Definition slot_task (o : nat) : go string := slot_field o ps_task "".

Definition cleanup_delay (type : string) : Z :=
  if bool_decide (type = "finished") then kc_finished_delay cfg else kc_failed_delay cfg.

Definition finishPodTask (o : nat) (type phase detail : string) : go () :=
  task ← slot_task o;
  team ← slot_field o ps_team "";
  name ← slot_field o ps_name "";
  reported ← appendTaskEvent task team type (finish_payload phase detail);
  match reported with
  | Some _ => mret ()
  | None =>
      _ ← transact (λ disk, mem_delete_assignment disk task);
      _ ← (if 0 <? cleanup_delay type then kcall_ (KWaitDelay (cleanup_delay type)) else mret ());
      _ ← kcall_ (KDeletePod name);
      mret ()
  end.

(** The deferred call of runPodTask. *)
Definition pod_defers (o : nat) : go () := task ← slot_task o; removePod task.

Definition finish (o : nat) (type phase detail : string) : go () :=
  _ ← finishPodTask o type phase detail; pod_defers o.

(** *** A pod at work (runPodTask) *)

Definition watch_pod (o : nat) : go () :=
  name ← slot_field o ps_name "";
  r ← kcall_ (KWatchPod name);
  match r with
  | Some e => finish o "failed" "watch" (Docker.er_text e)
  | None => Goto (TAddress o)
  end.

(** One update before the pod has an address. *)
Definition address_round (o : nat) : go () :=
  name ← slot_field o ps_name "";
  u ← kcall_ (KPodUpdate name);
  match u with
  | None =>
      ended ← kcall_ KCtxDone;
      if ended : bool then pod_defers o
      else finish o "failed" "watch" "pod watch closed before pod became ready"
  | Some p =>
      if bool_decide (po_status p = PodStatusFailed)
      then finish o "failed" "pod" "pod failed before OpenHands became ready"
      else if bool_decide (po_status p = PodStatusRunning ∧ po_ip p ≠ "") then
        _ ← spawn (TWatch o); Goto (TServe o (po_ip p))
      else Goto (TAddress o)
  end.

(** The goroutine that observes the pod from then on: one update. *)
Definition watch_round (o : nat) : go () :=
  name ← slot_field o ps_name "";
  u ← kcall_ (KPodUpdate name);
  match u with
  | None =>
      ended ← kcall_ KCtxDone;
      if ended : bool then mret ()
      else alter_slot o (with_ended (Some "pod watch closed while OpenHands was running"))
  | Some p =>
      if bool_decide (po_status p = PodStatusFailed)
      then alter_slot o (with_ended (Some "pod failed while OpenHands was running"))
      else Goto (TWatch o)
  end.

Definition base_url (ip : string) : string :=
  "http://" +:+ ip +:+ ":" +:+ pretty.pretty (kc_port cfg).

Definition conversationConfig (prompt key url model : string) : ConversationConfig :=
  if bool_decide (kc_profile cfg ≠ "")
  then mkConversation (kc_workspace cfg) prompt (kc_initial_run cfg) None (kc_profile cfg)
  else mkConversation (kc_workspace cfg) prompt (kc_initial_run cfg)
         (Some (["terminal"], mkLLM model key (kc_usage cfg) url)) "".

(** With a conversation: keep it, and observe it. *)
Definition observe (o : nat) (base conversation : string) : go () :=
  s ← read (λ σ, slot_at σ o);
  match s with
  | None => mret ()
  | Some s =>
      id ← executor_id;
      now ← kcall_ KNow;
      _ ← (if bool_decide (ps_conversation s ≠ "") then
             _ ← transact (λ disk, mem_put_assignment disk
                   (assignment (ps_task s) (ps_team s) id (ps_command s) (ps_image s) (ps_source s)
                      "" "" (runtime_ref (ps_name s) (ps_uid s)) conversation "running" now));
             mret ()
           else mret ());
      _ ← spawn (TStream o base conversation);
      Goto (TMonitor o base conversation)
  end.

Definition serve (o : nat) (ip : string) : go () :=
  let base := base_url ip in
  healthy ← kcall_ (KHealthCheck base);
  match healthy with
  | Some e => finish o "failed" "health_check" (Docker.er_text e)
  | None =>
      s ← read (λ σ, slot_at σ o);
      match s with
      | None => mret ()
      | Some s =>
          if bool_decide (ps_conversation s ≠ "") then observe o base (ps_conversation s)
          else if bool_decide (ps_key s = "" ∨ ps_url s = "" ∨ ps_model s = "") then
            finish o "failed" "submit"
              "task launch parameters require OPENAI_API_KEY, OPENAI_BASE_URL, and OPENAI_MODEL"
          else
            conv ← kcall_ (KStartConversation base
                     (conversationConfig (ps_prompt s) (ps_key s) (ps_url s) (ps_model s)));
            match conv with
            | Err e => finish o "failed" "submit" (Docker.er_text e)
            | Ok id => _ ← alter_slot o (with_conversation id); observe o base id
            end
      end
  end.

(** *** The event stream (waitForTerminal, appendPublishedOpenHandsLogs) *)

Definition claimPublishedLog (task : string) (p : publishedLog) : go bool :=
  atomic (λ σ,
    let known := if (Docker.maxPublished <=? size (k_published σ))%nat then ∅ else k_published σ in
    if bool_decide (Docker.published_key task p ∈ known) then (put_published known σ, false)
    else (put_published ({[Docker.published_key task p]} ∪ known) σ, true)).

Fixpoint publish_all (task : string) (l : list publishedLog) : go () :=
  match l with
  | [] => mret ()
  | p :: l' =>
      new ← claimPublishedLog task p;
      if negb new then publish_all task l'
      else
        uuid ← kcall_ KUuid;
        now ← kcall_ KNow;
        _ ← kcall_ (KAppendTaskLog task ("log-" +:+ uuid) (pl_stream p) (pl_content p) now);
        publish_all task l'
  end.
Definition appendPublishedOpenHandsLogs (task : string) (v : json) : go () :=
  publish_all task (publishedLogsFromOpenHands v).

Definition waitForTerminal (o : nat) (base conversation : string) : go () :=
  let url := OpenHandsWSURL base conversation in
  r ← kcall_ (KDial url);
  match r with
  | Some e => alter_slot o (with_terminal (Some (Err (Docker.er_text e))))
  | None => Goto (TRead o url)
  end.

Definition is_terminal (status : string) : bool :=
  bool_decide (status ∈ ["finished"; "failed"; "error"; "stuck"; "paused"]).

(** One frame; every end of the stream is an error. *)
Definition read_round (o : nat) (url : string) : go () :=
  task ← slot_task o;
  f ← kcall_ (KReadMessage url);
  match f with
  | Docker.FrameError text => alter_slot o (with_terminal (Some (Err text)))
  | Docker.FrameClosed => alter_slot o (with_terminal (Some (Err "close 1000 (normal)")))
  | Docker.FrameData None => Goto (TRead o url)
  | Docker.FrameData (Some v) =>
      _ ← appendPublishedOpenHandsLogs task v;
      let status := conversationStatus v in
      if is_terminal status then alter_slot o (with_terminal (Some (Ok status)))
      else Goto (TRead o url)
  end.

(** *** Observing the conversation *)

Definition appendControlEvent (task control status : string) (at_ : Z) (message : string) :
    go (option Docker.xerror) :=
  uuid ← kcall_ KUuid;
  kcall_ (KAppendTaskControlEvent task control ("control-event-" +:+ uuid) status message at_).

(** The first pending cancellation: whether it was applied, or the error. *)
Definition applyPendingControls (o : nat) (base conversation : string) : go (result string bool) :=
  task ← slot_task o;
  r ← kcall_ (KListAssignedControls task);
  match r with
  | Err e => mret (Err (Docker.er_text e))
  | Ok controls =>
      match List.find (λ c, bool_decide (Docker.xc_status c = "pending" ∧ Docker.xc_action c = "cancel"))
              controls with
      | None => mret (Ok false)
      | Some control =>
          acknowledged ← kcall_ KNow;
          r ← appendControlEvent task (Docker.xc_id control) "acknowledged" acknowledged
                "cancellation received";
          match r with
          | Some e => mret (Err (Docker.er_text e))
          | None =>
              paused ← kcall_ (KPauseConversation base conversation);
              match paused with
              | Some e =>
                  _ ← appendControlEvent task (Docker.xc_id control) "failed" (acknowledged + 1000)
                        "cancellation could not be sent";
                  mret (Err (Docker.er_text e))
              | None =>
                  r ← appendControlEvent task (Docker.xc_id control) "completed"
                        (acknowledged + 1000) "cancellation sent to OpenHands";
                  mret match r with Some e => Err (Docker.er_text e) | None => Ok true end
              end
          end
      end
  end.

(** One turn of the select. A terminal result without a status keeps the loop going. *)
Definition monitor_round (o : nat) (base conversation : string) : go () :=
  taken ← kcall_ KSelect;
  match taken with
  | SelTerminal =>
      t ← slot_field o ps_terminal None;
      match t with
      | None => Goto (TMonitor o base conversation)
      | Some (Err e) => finish o "failed" "stream" e
      | Some (Ok status) =>
          finish o (if bool_decide (status = "finished") then "finished" else "failed")
            "terminal_state" status
      end
  | SelControls =>
      r ← applyPendingControls o base conversation;
      match r with
      | Ok true => finish o "failed" "control" "cancel"
      | _ => Goto (TMonitor o base conversation)
      end
  | SelEnded =>
      d ← slot_field o ps_ended None;
      match d with
      | None => Goto (TMonitor o base conversation)
      | Some detail => finish o "failed" "pod" detail
      end
  | SelDone => pod_defers o
  end.

(** *** Starting and restarting (Run, ensureRegistered, reconcileCachedWork) *)

(** ensureRegistered; [None] is success. *)
Definition ensureRegistered : go (option string) :=
  _ ← setState Docker.StateRegistering;
  running ← PodCount;
  known ← executor_id;
  r ← (if bool_decide (known = "") then kcall_ KCreateExecutor
       else kcall_ (KRegisterExecutor running));
  match r : result Docker.xerror ExecutorRecord with
  | Err e => mret (Some (Docker.er_text e))
  | Ok record =>
      if negb (bool_decide (xr_scope record = kc_scope cfg ∧ xr_tag record = kc_tag cfg)
               && sameOptionalTeam (xr_team record) own_team)
      then mret (Some "registration response binding does not match configuration")
      else if bool_decide (known ≠ "" ∧ xr_id record ≠ known)
      then mret (Some "registration response executor_id does not match cache")
      else
        stored ← transact (λ disk, mem_put_executor disk (xr_id record));
        match stored with
        | Err e => mret (Some e)
        | Ok _ =>
            _ ← update (put_id (xr_id record));
            _ ← setState Docker.StateReady;
            mret None
        end
  end.

(** Reconcile: the assignments whose command a listed pod carries; the others are dropped. *)
Definition pod_commands (pods : list PodState) : gset string :=
  list_to_set (filter (λ c, c ≠ "") (omap (λ p, po_labels p !! LabelCommandID) pods)).

Fixpoint keep_matching (commands : gset string) (l : list AssignmentRecord) :
    go (list AssignmentRecord) :=
  match l with
  | [] => mret []
  | r :: l' =>
      if bool_decide (as_state r = "finished" ∨ as_state r = "failed") then keep_matching commands l'
      else if bool_decide (as_command r ∈ commands) then
        rest ← keep_matching commands l'; mret (r :: rest)
      else
        _ ← transact (λ disk, mem_delete_assignment disk (as_task r));
        keep_matching commands l'
  end.

Definition Reconcile : go (result string (list AssignmentRecord)) :=
  all ← transact mem_assignments;
  match all with
  | Err e => mret (Err e)
  | Ok all =>
      if bool_decide (kc_namespace cfg = "") then mret (Ok all)
      else
        id ← executor_id;
        r ← kcall_ (KListPods (own_pods id));
        match r with
        | Err e => mret (Err (Docker.er_text e))
        | Ok pods => kept ← keep_matching (pod_commands pods) all; mret (Ok kept)
        end
  end.

Definition event_of (r : EventOutboxRecord) : TaskEvent :=
  mkEvent (ob_event r) (ob_team r) (ob_task r) (ob_executor r) (ob_type r) (ob_at r) (ob_payload r).

(** retryPendingOutbox: the events that were not accepted, as they were; the first error ends it. *)
Fixpoint retry_all (l : list EventOutboxRecord) : go (option string) :=
  match l with
  | [] => mret None
  | r :: l' =>
      refused ← kcall_ (KAppendTaskEvent (event_of r));
      match refused with
      | Some e => mret (Some (Docker.er_text e))
      | None =>
          accepted ← accept_outbox (ob_event r);
          match accepted with Err e => mret (Some e) | Ok _ => retry_all l' end
      end
  end.
Definition retryPendingOutbox : go (option string) :=
  pending ← transact mem_pending;
  match pending with Err e => mret (Some e) | Ok l => retry_all l end.

Definition recovered_slot (r : AssignmentRecord) (name uid : string) : podSlot :=
  mkSlot (as_task r) (as_team r) (as_command r) name uid (as_image r) (as_image_source r)
    (as_conversation r) "" "" "" "" None None.

Fixpoint reattach (l : list AssignmentRecord) : go (option string) :=
  match l with
  | [] => mret None
  | r :: l' =>
      match split_ref (as_runtime_ref r) with
      | Some (name, uid) =>
          if bool_decide (name = "" ∨ uid = "") then mret (Some "invalid pod reference")
          else
            o ← addPod (as_task r) (recovered_slot r name uid);
            _ ← spawn (TPod o);
            reattach l'
      | None => mret (Some "invalid pod reference")
      end
  end.

Definition reconcileCachedWork : go (option string) :=
  assignments ← Reconcile;
  match assignments with
  | Err e => mret (Some e)
  | Ok l =>
      refused ← retryPendingOutbox;
      match refused with Some e => mret (Some e) | None => reattach l end
  end.

Definition Run : go () :=
  refused ← ensureRegistered;
  match refused with
  | Some _ => setState Docker.StateFailed
  | None =>
      failed ← reconcileCachedWork;
      match failed with Some _ => mret () | None => Goto TPoll end
  end.

Definition pollLoop : go () :=
  more ← kcall_ KPollTick;
  if more : bool then _ ← tickV0002; Goto TPoll else setState Docker.StateStopped.

Definition thread_body (t : thread) : go () :=
  match t with
  | TRun => Run
  | TPoll => pollLoop
  | TPod o => watch_pod o
  | TAddress o => address_round o
  | TServe o ip => serve o ip
  | TMonitor o base conversation => monitor_round o base conversation
  | TWatch o => watch_round o
  | TStream o base conversation => waitForTerminal o base conversation
  | TRead o url => read_round o url
  end.

(** ** The process and its restarts *)

(** New, on the cache of a machine and the history of its calls; the identity is the cached one
    (run of cmd/executor_k8s_openhands). *)
Definition New (cache : Memory) (trace : list answered) : Executor :=
  mkExecutor (mm_executor cache) Docker.StateStarting ∅ ∅ ∅ 0 ∅ cache trace.
Definition process (cache : Memory) (trace : list answered) : world Executor thread kres :=
  mkWorld (New cache trace) {[0%nat := Run]}.
Definition start_world : world Executor thread kres := process empty_memory [].

(** A step of a goroutine; or the process ends, wherever its goroutines are, and starts anew. *)
Inductive kube_step (w : world Executor thread kres) : world Executor thread kres → Prop :=
| kube_thread w' : world_step record_call sane thread_body w w' → kube_step w w'
| kube_restart : kube_step w (process (k_cache (w_state w)) (k_trace (w_state w))).
Definition reachable_kube (w : world Executor thread kres) : Prop := rtc kube_step start_world w.
End executor.
