(* ===== verification/KubeSafe.v ===== *)
(** * What the Kubernetes executor guarantees, across its restarts

    The protocol it follows towards the State Registry and Kubernetes, its capacity, its outbox of
    events and its pods, for every interleaving, every answer and every restart. *)

From stdpp Require Import base gmap sets list strings sorting relations fin_sets.
From Stdlib Require Import Ascii.
From S2P Require Import Prelude Platform GoStrings Cursor OpenHands Conc Cache Kube.
From S2P Require Docker.
#[local] Open Scope Z_scope.

(** ** What a history says *)

(** The abstract protocol of one task: nothing granted, claimed under a command, or reported as
    running; everything outside the protocol is broken. A task can be claimed again at any time. *)
Inductive tphase : Type :=
| Idle
| Claimed (command : string) (claim : Docker.V0002ClaimResponse)
| Working (command : string) (claim : Docker.V0002ClaimResponse)
| Broken.

Definition claim_step (ph : tphase) (command : string)
    (r : result Docker.xerror Docker.V0002ClaimResponse) : tphase :=
  match ph, r with
  | Broken, _ => Broken
  | _, Ok claim =>
      if bool_decide (Docker.cl_claim claim = "claimed") then Claimed command claim else Idle
  | _, Err _ => Idle
  end.

(** An accepted [running] report. *)
Definition running_step (ph : tphase) (r : option Docker.xerror) : tphase :=
  match ph, r with
  | Claimed command claim, None => Working command claim
  | Claimed _ _, Some _ => Idle
  | _, _ => ph
  end.

(** A pod uses up what was granted: the image of the claim, under its command. *)
Definition create_step (ph : tphase) (spec : PodSpec) : tphase :=
  match ph with
  | Working command claim =>
      if bool_decide (claim_image claim = Some (sp_image spec) ∧
                      sp_labels spec !! LabelCommandID = Some command) then Idle else Broken
  | _ => Broken
  end.

Definition open_step (ph : tphase) (token : string) : tphase :=
  match ph with
  | Claimed _ claim =>
      if Docker.cl_launch claim && bool_decide (Docker.cl_token claim = Some token)
      then ph else Broken
  | _ => Broken
  end.

Definition call_step (task : string) (ph : tphase) (c : kcall) : kres c → tphase :=
  match c with
  | KClaimTask t command => λ r, if bool_decide (t = task) then claim_step ph command r else ph
  | KAppendTaskEvent e => λ r,
      if bool_decide (ke_task e = task ∧ ke_type e = "running") then running_step ph r else ph
  | KOpenEnvironment t token => λ _, if bool_decide (t = task) then open_step ph token else ph
  | KCreatePod spec => λ _,
      if bool_decide (sp_labels spec !! LabelTaskID = Some task) then create_step ph spec else ph
  | _ => λ _, ph
  end.

Definition task_step (task : string) (a : answered) (ph : tphase) : tphase :=
  call_step task ph (an_call a) (an_answer a).
Definition phase_of (task : string) (trace : list answered) : tphase :=
  foldr (task_step task) Idle trace.

(** The pods that were created and not handed to their deletion, with their labels. *)
Definition pod_step (a : answered) (m : gmap string (gmap string string)) :
    gmap string (gmap string string) :=
  match a with
  | mkAnswered (KCreatePod spec) r =>
      match r : result Docker.xerror PodRef with
      | Ok _ => <[sp_name spec := sp_labels spec]> m | Err _ => m end
  | mkAnswered (KDeletePod name) r =>
      match r : option Docker.xerror with None => delete name m | Some _ => m end
  | _ => m
  end.
Definition alive (trace : list answered) : gmap string (gmap string string) :=
  foldr pod_step ∅ trace.

(** A listing names every such pod that has the labels asked for. *)
Definition lists_all (selector : gmap string string) (pods : list PodState)
    (m : gmap string (gmap string string)) : Prop :=
  ∀ name labels, m !! name = Some labels → selector ⊆ labels →
    name ∈ (λ p, pr_name (po_ref p)) <$> pods.
Definition truthful_answer (a : answered) (m : gmap string (gmap string string)) : Prop :=
  match a with
  | mkAnswered (KListPods selector) r =>
      match r : result Docker.xerror (list PodState) with
      | Ok pods => lists_all selector pods m | Err _ => True end
  | _ => True
  end.
Fixpoint truthful (trace : list answered) : Prop :=
  match trace with
  | [] => True
  | a :: trace' => truthful_answer a (alive trace') ∧ truthful trace'
  end.

(** The identifiers that were drawn. *)
Definition draw (a : answered) : option string :=
  match a with mkAnswered KUuid u => Some (u : string) | _ => None end.
Definition drawn (trace : list answered) : list string := omap draw trace.
Definition distinct (trace : list answered) : Prop := NoDup (drawn trace).

Definition sent (e : TaskEvent) (trace : list answered) : Prop :=
  KAppendTaskEvent e ∈ an_call <$> trace.
Definition acknowledged (e : TaskEvent) (trace : list answered) : Prop :=
  mkAnswered (KAppendTaskEvent e) None ∈ trace.

(** A pod that was created for a task under a command. *)
Definition pod_of (trace : list answered) (task command name uid : string) : Prop :=
  ∃ spec ref, mkAnswered (KCreatePod spec) (Ok ref) ∈ trace ∧
    sp_name spec = name ∧ pr_uid ref = uid ∧ "@"%char ∉ chars name ∧
    sp_labels spec !! LabelTaskID = Some task ∧ sp_labels spec !! LabelCommandID = Some command.

Definition evt (u : string) : string := "evt-" +:+ u.

Section safety.
Context {JC : JsonCodec} {TC : TimeCodec} {MR : MapRange}.
Context (cfg : Config).

(** ** The invariant *)

(** A record of the outbox is pending or acknowledged; it is what was sent under its identifier. *)
Record record_ok (trace : list answered) (i : string) (r : EventOutboxRecord) : Prop := mkRecordOk {
  ro_id : ob_event r = i;
  ro_drawn : ∃ u, u ∈ drawn trace ∧ i = evt u;
  ro_state : ob_state r = "pending" ∨ ob_state r = "accepted" ∧ acknowledged (event_of r) trace;
  ro_sent e : sent e trace → ke_id e = i → e = event_of r;
}.
Record outbox_ok (trace : list answered) (outbox : gmap string EventOutboxRecord) : Prop :=
  mkOutboxOk {
  oo_records i r : outbox !! i = Some r → record_ok trace i r;
  oo_drawn e : sent e trace → ∃ u, u ∈ drawn trace ∧ ke_id e = evt u;
  oo_unique e e' : sent e trace → sent e' trace → ke_id e = ke_id e' → e = e';
}.

Definition ref_ok (trace : list answered) (r : AssignmentRecord) : Prop :=
  as_runtime_ref r = "" ∨
  ∃ name uid, as_runtime_ref r = runtime_ref name uid ∧
    pod_of trace (as_task r) (as_command r) name uid.
Definition slot_ok (trace : list answered) (s : podSlot) : Prop :=
  pod_of trace (ps_task s) (ps_command s) (ps_name s) (ps_uid s).

Definition known_id (σ : Executor) : string := mm_executor (k_cache σ).
Definition outbox_of (σ : Executor) : gmap string EventOutboxRecord := mm_outbox (k_cache σ).
Definition phase (σ : Executor) (task : string) : tphase := phase_of task (k_trace σ).
Definition pods (σ : Executor) : gmap string (gmap string string) := alive (k_trace σ).

Record kube_ok (σ : Executor) : Prop := mkKubeOk {
  ko_phase t : phase σ t ≠ Broken;
  ko_id : k_id σ = "" ∨ k_id σ = known_id σ;
  ko_labels name labels : pods σ !! name = Some labels →
    known_id σ ≠ "" ∧ own_pods (known_id σ) ⊆ labels;
  ko_capacity : truthful (k_trace σ) → Z.of_nat (size (pods σ)) ≤ kc_max cfg;
  ko_slots o s : slot_at σ o = Some s → slot_ok (k_trace σ) s;
  ko_refs t r : mm_assignments (k_cache σ) !! t = Some r → ref_ok (k_trace σ) r;
  ko_outbox : distinct (k_trace σ) → outbox_ok (k_trace σ) (outbox_of σ);
}.

(** ** Who may change what *)

(** The main goroutine alone claims, reports [running] and creates; whoever draws an identifier
    alone uses it, until its event is sent. *)
Inductive token : Type := TokMain | TokUuid (u : string).

#[export] Instance token_eq_dec : EqDecision token.
Proof using. solve_decision. Defined.

#[export] Instance token_countable : Countable token.
Proof using.
  refine (inj_countable' (λ t, match t with TokMain => inl () | TokUuid u => inr u end)
    (λ t, match t with inl () => TokMain | inr u => TokUuid u end) _).
  by intros [].
Defined.

Definition stable_outbox (m m' : gmap string EventOutboxRecord) : Prop :=
  ∀ i r, m !! i = Some r → ∃ r', m' !! i = Some r' ∧ event_of r' = event_of r.

Definition kube_evolves (σ σ' : Executor) : Prop :=
  k_trace σ `suffix_of` k_trace σ' ∧ (known_id σ ≠ "" → known_id σ' = known_id σ) ∧
  (distinct (k_trace σ') → stable_outbox (outbox_of σ) (outbox_of σ')).

Definition kube_own (r : token) (σ : Executor) : Prop :=
  match r with TokMain => True | TokUuid u => u ∈ drawn (k_trace σ) end.

(** Nothing new appears under an identifier: what is sent again is what the outbox holds. *)
Definition same_at (i : string) (σ σ' : Executor) : Prop :=
  (∀ r', outbox_of σ' !! i = Some r' →
    ∃ r, outbox_of σ !! i = Some r ∧ event_of r = event_of r') ∧
  ∀ e, ke_id e = i → sent e (k_trace σ') →
    sent e (k_trace σ) ∨ ∃ r, outbox_of σ !! i = Some r ∧ event_of r = e.

Definition kube_keep (r : token) (σ σ' : Executor) : Prop :=
  match r with
  | TokMain => (∀ t, phase σ' t = phase σ t) ∧ pods σ' ⊆ pods σ ∧ k_id σ' = k_id σ ∧
      known_id σ' = known_id σ
  | TokUuid u => k_trace σ `suffix_of` k_trace σ' ∧ (distinct (k_trace σ') → same_at (evt u) σ σ')
  end.

Lemma drawn_suffix tr tr' u : tr `suffix_of` tr' → u ∈ drawn tr → u ∈ drawn tr'.
Proof using. intros [l ->]. unfold drawn. rewrite omap_app, elem_of_app. by right. Qed.

Lemma distinct_suffix tr tr' : tr `suffix_of` tr' → distinct tr' → distinct tr.
Proof using. intros [l ->]. unfold distinct, drawn. rewrite omap_app. by intros (_ & _ & ?)%NoDup_app. Qed.

Lemma truthful_suffix tr tr' : tr `suffix_of` tr' → truthful tr' → truthful tr.
Proof using.
  intros [l ->]. induction l as [|a l IH]; [done|]. intros [_ Ht]. by apply IH.
Qed.

Lemma sent_suffix tr tr' e : tr `suffix_of` tr' → sent e tr → sent e tr'.
Proof using. intros [l ->]. unfold sent. rewrite fmap_app, elem_of_app. by right. Qed.

Lemma acknowledged_suffix tr tr' e : tr `suffix_of` tr' → acknowledged e tr → acknowledged e tr'.
Proof using. intros [l ->]. unfold acknowledged. rewrite elem_of_app. by right. Qed.

Lemma pod_of_suffix tr tr' task command name uid :
  tr `suffix_of` tr' → pod_of tr task command name uid → pod_of tr' task command name uid.
Proof using.
  intros [l ->] (spec & ref & Hin & H'). exists spec, ref. split; [|done]. apply elem_of_app. by right.
Qed.

Lemma ref_ok_suffix tr tr' r : tr `suffix_of` tr' → ref_ok tr r → ref_ok tr' r.
Proof using.
  intros Hs [He|(name & uid & He & Hp)]; [by left|right]. exists name, uid. split; [done|].
  by eapply pod_of_suffix.
Qed.

Lemma kube_evolves_preorder : PreOrder kube_evolves.
Proof using.
  split.
  - intros σ. split_and!; [done|done|]. intros _ i r Hr. by exists r.
  - intros σ1 σ2 σ3 (S12 & I12 & O12) (S23 & I23 & O23). split_and!; [by etrans| |].
    + intros Hn. rewrite <- (I12 Hn). apply I23. by rewrite (I12 Hn).
    + intros Hd i r Hr. destruct (O12 (distinct_suffix _ _ S23 Hd) i r Hr) as (r2 & Hr2 & E2).
      destruct (O23 Hd i r2 Hr2) as (r3 & Hr3 & E3). exists r3. split; [done|congruence].
Qed.

Lemma kube_keep_preorder r : PreOrder (kube_keep r).
Proof using.
  split.
  - intros σ. destruct r; simpl; split_and!; try done. intros _. split; [eauto|auto].
  - intros σ1 σ2 σ3. destruct r as [|u].
    + intros (P12 & A12 & K12 & M12) (P23 & A23 & K23 & M23).
      split_and!; [intros t; by rewrite P23|by etrans|congruence|congruence].
    + intros (S12 & E12) (S23 & E23). split; [by etrans|]. intros Hd.
      destruct (E12 (distinct_suffix _ _ S23 Hd)) as [O12 T12], (E23 Hd) as [O23 T23].
      split.
      * intros r3 H3. destruct (O23 r3 H3) as (r2 & H2 & E2). destruct (O12 r2 H2) as (r1 & ? & ?).
        exists r1. split; [done|congruence].
      * intros e He Hs. destruct (T23 e He Hs) as [Hs2|(r2 & H2 & E2)]; [by apply T12|right].
        destruct (O12 r2 H2) as (r1 & ? & ?). exists r1. split; [done|congruence].
Qed.

Lemma kube_own_keep r σ σ' : kube_own r σ → kube_evolves σ σ' → kube_keep r σ σ' → kube_own r σ'.
Proof using.
  destruct r as [|u]; [done|]. intros Ho (Hs & _) _. by eapply drawn_suffix.
Qed.

#[export] Instance kube_protocol : Protocol Executor token := {|
  inv := kube_ok; evolves := kube_evolves; own := kube_own; keep := kube_keep;
  due _ _ := False;
  evolves_preorder := kube_evolves_preorder; keep_preorder := kube_keep_preorder;
  own_keep := kube_own_keep |}.

(** ** Steps *)

Lemma outbox_ok_mono tr tr' m :
  tr `suffix_of` tr' → (∀ e, sent e tr' → sent e tr) → outbox_ok tr m → outbox_ok tr' m.
Proof using.
  intros Hs He [Hr Hd Hu]. split.
  - intros i r Hi. destruct (Hr i r Hi) as [Hid (u & Hu' & ->) Hst Hsent]. split; [done|..].
    + exists u. split; [by eapply drawn_suffix|done].
    + destruct Hst as [?|[? ?]]; [by left|right]. split; [done|]. by eapply acknowledged_suffix.
    + auto.
  - intros e (u & Hu' & Hid)%He%Hd. exists u. split; [by eapply drawn_suffix|done].
  - auto.
Qed.

(** A step that anybody may make. *)
Record soft (σ σ' : Executor) : Prop := mkSoft {
  sf_trace : k_trace σ `suffix_of` k_trace σ';
  sf_phase t : phase σ' t = phase σ t;
  sf_pods : pods σ' ⊆ pods σ;
  sf_id : k_id σ' = k_id σ;
  sf_known : known_id σ' = known_id σ;
  sf_outbox : outbox_of σ' = outbox_of σ;
  sf_sent e : sent e (k_trace σ') → sent e (k_trace σ);
  sf_slots o s : slot_at σ' o = Some s → slot_ok (k_trace σ') s;
  sf_refs t r : mm_assignments (k_cache σ') !! t = Some r → ref_ok (k_trace σ') r;
}.

Lemma soft_ok σ σ' : soft σ σ' → kube_ok σ → kube_ok σ'.
Proof using.
  intros [] []. split; try done.
  - intros t. by rewrite sf_phase0.
  - by rewrite sf_id0, sf_known0.
  - intros name labels Hn. rewrite sf_known0. eapply ko_labels0, lookup_weaken; done.
  - intros Ht. apply map_subseteq_size in sf_pods0.
    specialize (ko_capacity0 (truthful_suffix _ _ sf_trace0 Ht)). lia.
  - intros Hd. rewrite sf_outbox0. eapply outbox_ok_mono; [done..|].
    by eapply ko_outbox0, distinct_suffix.
Qed.

Lemma soft_evolves σ σ' : soft σ σ' → kube_evolves σ σ'.
Proof using.
  intros []. split_and!; [done|done|]. intros _ i r Hr. exists r. by rewrite sf_outbox0.
Qed.

Lemma soft_keep σ σ' r : soft σ σ' → kube_keep r σ σ'.
Proof using.
  intros []. destruct r as [|u]; split_and!; try done. intros _. unfold same_at. rewrite sf_outbox0.
  split; eauto.
Qed.

Lemma soft_calm O σ σ' : soft σ σ' → kube_ok σ → owned O σ → calm O σ σ'.
Proof using.
  intros Hs Hok Ho. pose proof (soft_evolves _ _ Hs) as He.
  assert (Hk : ∀ r, kube_keep r σ σ') by (intros r; by apply soft_keep).
  split; [|by split; [|intros r _; apply Hk]].
  split_and!; [by eapply soft_ok| |done|by intros r Hr _; split; [apply Hk|]|done].
  intros r Hr. eapply kube_own_keep; [by apply Ho|done|apply Hk].
Qed.

(** The calls that are part of the protocols. *)
Definition protocol_call (c : kcall) : bool :=
  match c with
  | KClaimTask _ _ | KAppendTaskEvent _ | KOpenEnvironment _ _ | KCreatePod _ => true
  | _ => false
  end.

Lemma slot_ok_suffix tr tr' s : tr `suffix_of` tr' → slot_ok tr s → slot_ok tr' s.
Proof using. apply pod_of_suffix. Qed.

Lemma suffix_record c r σ : k_trace σ `suffix_of` k_trace (record_call c r σ).
Proof using. by exists [mkAnswered c r]. Qed.

Lemma sent_cons e a tr : sent e (a :: tr) ↔ an_call a = KAppendTaskEvent e ∨ sent e tr.
Proof using. unfold sent. rewrite fmap_cons, elem_of_cons. split; (intros [E|?]; [left|]; auto). Qed.

Lemma record_soft c r σ : protocol_call c = false → kube_ok σ → soft σ (record_call c r σ).
Proof using.
  intros Hc []. pose proof (suffix_record c r σ) as Hs. split; try done.
  - intros t. unfold phase, phase_of. simpl. unfold task_step at 1. simpl. by destruct c.
  - unfold pods, alive. simpl. destruct c; try done. simpl. destruct r; [done|]. apply delete_subseteq.
  - intros e [E|?]%sent_cons; [simpl in E; by subst|done].
  - intros o s Ho. eapply slot_ok_suffix; [done|]. eauto.
  - intros t a Ha. eapply ref_ok_suffix; [done|]. eauto.
Qed.

#[local] Notation silent := (silent record_call (T := thread)).

Lemma ksilent_call c : protocol_call c = false → silent (kcall_ c).
Proof using.
  intros Hc. simpl. split; [|done]. intros O σ r Hi Ho. apply soft_calm; [|done..].
  by apply record_soft.
Qed.

Lemma ksilent_atomic {B} (f : Executor → Executor * B) :
  (∀ σ, kube_ok σ → soft σ (f σ).1) → silent (atomic f : go B).
Proof using.
  intros Hf. simpl. split; [|done]. intros O σ Hi Ho. apply soft_calm; [|done..]. by apply Hf.
Qed.

Lemma ksilent_update f : (∀ σ, kube_ok σ → soft σ (f σ)) → silent (update f : go ()).
Proof using. intros Hf. by apply (ksilent_atomic (λ σ, (f σ, ()))). Qed.

(** A step that changes none of what the invariant is about. *)
Lemma soft_same σ σ' :
  k_trace σ' = k_trace σ → k_id σ' = k_id σ → k_cache σ' = k_cache σ → k_heap σ' = k_heap σ →
  kube_ok σ → soft σ σ'.
Proof using.
  intros Ht Hi Hc Hh []. unfold phase, pods, known_id, outbox_of, slot_at in *.
  split; intros *; unfold phase, pods, known_id, outbox_of, slot_at; rewrite ?Ht, ?Hi, ?Hc, ?Hh; eauto.
Qed.

Lemma ksilent_read {B} (f : Executor → B) : silent (read f : go B).
Proof using. apply (ksilent_atomic (λ σ, (σ, f σ))). intros σ Hok. by apply soft_same. Qed.

Lemma ksilent_ret {A} (a : A) : silent (mret a : go A).
Proof using. done. Qed.

Lemma soft_alter o f σ :
  (∀ s, slot_ok (k_trace σ) s → slot_ok (k_trace σ) (f s)) → kube_ok σ →
  soft σ (put_heap (alter f o (k_heap σ)) σ).
Proof using.
  intros Hf []. split; try done.
  intros o' s. unfold slot_at. simpl. destruct (decide (o' = o)) as [-> |Hne].
  - rewrite lookup_alter_eq. intros (s' & Hs & ->)%fmap_Some. eauto.
  - rewrite lookup_alter_ne; [|done]. eauto.
Qed.

Lemma ksilent_alter o f :
  (∀ tr s, slot_ok tr s → slot_ok tr (f s)) → silent (alter_slot o f).
Proof using. intros Hf. apply ksilent_update. intros σ Hok. apply soft_alter; [|done]. apply Hf. Qed.

Lemma soft_cache m σ :
  mm_executor m = known_id σ → mm_outbox m = outbox_of σ →
  (∀ t r, mm_assignments m !! t = Some r → ref_ok (k_trace σ) r) →
  kube_ok σ → soft σ (put_cache m σ).
Proof using. intros He Ho Hr []. by split. Qed.

Lemma ksilent_transact {A} (f : option string → Memory → Memory * result string A) :
  (∀ disk m, mm_executor (f disk m).1 = mm_executor m ∧ mm_outbox (f disk m).1 = mm_outbox m ∧
     ∀ t r, mm_assignments (f disk m).1 !! t = Some r →
       mm_assignments m !! t = Some r ∨ as_runtime_ref r = "") →
  silent (transact f).
Proof using.
  intros Hf. unfold transact. apply silent_bind; [by apply ksilent_call|]. intros disk.
  apply ksilent_atomic. intros σ Hok. destruct (Hf disk (k_cache σ)) as (He & Ho & Hr).
  apply soft_cache; [done..| |done]. intros t r [Ha|Hn]%Hr; [by apply (ko_refs _ Hok t)|by left].
Qed.

(** Follow the structure of a program down to its steps. *)
#[local] Hint Resolve ksilent_read ksilent_ret : silent.
#[local] Hint Extern 1 (Conc.silent _ (kcall_ _)) => by apply ksilent_call : silent.
#[local] Hint Extern 1 (Conc.silent _ (alter_slot _ _)) => by apply ksilent_alter : silent.
Ltac silence :=
  repeat first
    [ progress intros
    | solve [eauto 2 with silent]
    | apply silent_bind
    | match goal with |- Conc.silent _ (match ?x with _ => _ end) => destruct x end
    | match goal with |- Conc.silent _ (if ?x then _ else _) => destruct x end ].

Lemma ksilent_setState s : silent (setState s).
Proof using. apply ksilent_update. intros σ Hok. by apply soft_same. Qed.
#[local] Hint Resolve ksilent_setState : silent.

Lemma ksilent_observe : silent observePodCount.
Proof using. unfold observePodCount, PodCount. silence. Qed.
#[local] Hint Resolve ksilent_observe : silent.

Lemma ksilent_removePod task : silent (removePod task).
Proof using.
  unfold removePod. silence. apply ksilent_atomic. intros σ Hok. by apply soft_same.
Qed.

Lemma ksilent_commandIDFor task : silent (commandIDFor task).
Proof using.
  unfold commandIDFor. silence. apply ksilent_atomic. intros σ Hok.
  repeat case_match; by apply soft_same.
Qed.

Lemma ksilent_reserve : silent reservePodSlot.
Proof using. apply ksilent_update. intros σ Hok. by apply soft_same. Qed.

Lemma ksilent_release : silent releasePodSlotReservation.
Proof using. apply ksilent_update. intros σ Hok. case_match; by apply soft_same. Qed.

Lemma ksilent_delete_assignment task : silent (transact (λ disk, mem_delete_assignment disk task)).
Proof using.
  apply ksilent_transact. intros disk m. unfold mem_delete_assignment, mem_write.
  destruct disk; simpl; split_and!; try done; [by left|].
  intros t r [_ Hr]%lookup_delete_Some. by left.
Qed.

(** Assignments without a pod. *)
Lemma ksilent_put_intent r :
  as_runtime_ref r = "" → silent (transact (λ disk, mem_put_assignment disk r)).
Proof using.
  intros Hr. apply ksilent_transact. intros disk m. unfold mem_put_assignment, mem_write.
  case_bool_decide; [by split_and!; [..|left]|].
  destruct disk; simpl; split_and!; try done; [by left|].
  intros t r' [[_ <-]|[_ Hr']]%lookup_insert_Some; [by right|by left].
Qed.

Lemma ksilent_mem_read {A} (f : Memory → A) : silent (transact (λ disk m, mem_read disk m (f m))).
Proof using. apply ksilent_transact. intros disk m. by split_and!; [..|left]. Qed.

Lemma ksilent_claim_log task p : silent (claimPublishedLog task p).
Proof using.
  apply ksilent_atomic. intros σ Hok. cbv beta zeta.
  generalize (if (Docker.maxPublished <=? size (k_published σ))%nat then ∅ else k_published σ).
  intros known. case_bool_decide; by apply soft_same.
Qed.
#[local] Hint Resolve ksilent_removePod ksilent_commandIDFor ksilent_reserve ksilent_release
  ksilent_delete_assignment ksilent_claim_log : silent.

Lemma ksilent_publish task l : silent (publish_all task l).
Proof using. induction l as [|p l IH]; cbn [publish_all]; silence. Qed.

Lemma ksilent_defers o : silent (pod_defers o).
Proof using. unfold pod_defers, slot_task, slot_field. silence. Qed.

Lemma ksilent_controls o base conversation : silent (applyPendingControls o base conversation).
Proof using. unfold applyPendingControls, slot_task, slot_field, appendControlEvent. silence. Qed.

Lemma ksilent_capacity : silent (hasClusterCapacity cfg).
Proof using. unfold hasClusterCapacity, freeSlots, executor_id. silence. Qed.

Lemma ksilent_keep_matching commands l : silent (keep_matching commands l).
Proof using. induction l as [|r l IH]; cbn [keep_matching]; silence. Qed.
#[local] Hint Resolve ksilent_publish ksilent_defers ksilent_controls ksilent_keep_matching : silent.

Lemma ksilent_assignments : silent (transact mem_assignments).
Proof using. apply ksilent_mem_read. Qed.
#[local] Hint Resolve ksilent_assignments : silent.

Lemma ksilent_Reconcile : silent (Reconcile cfg).
Proof using. unfold Reconcile, executor_id. silence. Qed.

(** ** The logic of its goroutines *)

#[local] Notation main := ({[TokMain]} : gset token).
Definition pre (t : thread) (O : gset token) (σ : Executor) : Prop :=
  match t with
  | TRun => O = main ∧ k_id σ = known_id σ
  | TPoll => O = main ∧ k_id σ = known_id σ ∧ known_id σ ≠ ""
  | _ => O = ∅
  end.
#[local] Notation wp := (wp record_call sane pre).

Lemma kwp_quietly {A B} (p : go B) (k : B → go A) Q O σ :
  silent p →
  (∀ a σ1, rely O σ σ1 → kube_ok σ1 → owned O σ1 → wp O (k a) Q σ1) → wp O (p ≫= k) Q σ.
Proof using. intros Hp Hk. apply wp_bind. by apply wp_silent. Qed.

Lemma rely_suffix O σ σ' : rely O σ σ' → k_trace σ `suffix_of` k_trace σ'.
Proof using. by intros [(? & _) _]. Qed.

Lemma finished_any u O σ : finished u O σ.
Proof using. intros r _ Hd. exact Hd. Qed.
Lemma kwp_over {A} (p : go A) O σ : wp O p (λ _ _ _, True) σ → wp O (p ≫= λ _, mret ()) finished σ.
Proof using. intros Hp. apply wp_bind. eapply wp_mono; [|exact Hp]. intros. intros ????. apply finished_any. Qed.

Lemma kwp_silent_end (p : go ()) O σ : silent p → wp O p finished σ.
Proof using. intros Hp. apply wp_silent; [done|]. intros. apply finished_any. Qed.

(** ** Reports *)

Lemma evt_inj u v : evt u = evt v → u = v.
Proof using. intros [= E]. exact E. Qed.

Lemma event_of_record e now : event_of (outbox_record e now) = e.
Proof using. by destruct e. Qed.

Definition holds (O : gset token) (u : string) (σ : Executor) : Prop :=
  distinct (k_trace σ) → TokUuid u ∈ O.

(** Nothing goes by the identifier, or only the event [e]. *)
Definition unused (u : string) (σ : Executor) : Prop :=
  distinct (k_trace σ) →
  u ∈ drawn (k_trace σ) ∧ outbox_of σ !! evt u = None ∧
  ∀ e, ke_id e = evt u → ¬ sent e (k_trace σ).
Definition mine (u : string) (e : TaskEvent) (σ : Executor) : Prop :=
  distinct (k_trace σ) →
  u ∈ drawn (k_trace σ) ∧ (∀ r, outbox_of σ !! evt u = Some r → event_of r = e) ∧
  ∀ e', ke_id e' = evt u → sent e' (k_trace σ) → e' = e.

Lemma holds_rely O O' u σ σ' : rely O' σ σ' → holds O u σ → holds O u σ'.
Proof using. intros Hr Hh Hd. apply Hh. eapply distinct_suffix; [by eapply rely_suffix|done]. Qed.

Lemma keep_uuid O u σ σ' :
  holds O u σ → rely O σ σ' → distinct (k_trace σ') →
  distinct (k_trace σ) ∧ k_trace σ `suffix_of` k_trace σ' ∧ same_at (evt u) σ σ'.
Proof using.
  intros Hh Hr Hd. pose proof (rely_suffix _ _ _ Hr) as Hs.
  pose proof (distinct_suffix _ _ Hs Hd) as Hd0. split_and!; [done..|].
  destruct Hr as [_ Hk]. by apply (Hk (TokUuid u) (Hh Hd0)).
Qed.

Lemma unused_rely O u σ σ' : holds O u σ → rely O σ σ' → unused u σ → unused u σ'.
Proof using.
  intros Hh Hr Hu Hd. destruct (keep_uuid O u σ σ' Hh Hr Hd) as (Hd0 & Hs & Ho & He).
  destruct (Hu Hd0) as (Hdr & Hn & Hsent). split_and!.
  - by eapply drawn_suffix.
  - destruct (outbox_of σ' !! evt u) as [r|] eqn:E; [|done]. destruct (Ho r eq_refl) as (r0 & E0 & _).
    congruence.
  - intros e Hid Hse. destruct (He e Hid Hse) as [?|(r & E & _)]; [by eapply Hsent|congruence].
Qed.

Lemma mine_rely O u e σ σ' : holds O u σ → rely O σ σ' → mine u e σ → mine u e σ'.
Proof using.
  intros Hh Hr Hu Hd. destruct (keep_uuid O u σ σ' Hh Hr Hd) as (Hd0 & Hs & Ho & He).
  destruct (Hu Hd0) as (Hdr & Hn & Hsent). split_and!.
  - by eapply drawn_suffix.
  - intros r E. destruct (Ho r E) as (r0 & E0 & <-). by apply Hn.
  - intros e' Hid Hse. destruct (He e' Hid Hse) as [?|(r & E & <-)]; [by apply Hsent|by apply Hn].
Qed.

Lemma guar_same O σ σ' :
  kube_ok σ' → owned O σ → kube_evolves σ σ' →
  (∀ r, r ∉ O → kube_own r σ → kube_keep r σ σ') → guar O O σ σ'.
Proof using.
  intros Hok Ho He Hk. split_and!; [done| |done|by intros r Hr Hown; split; [apply Hk|]|done].
  intros [|u] Hr; [done|]. destruct He as [Hs _]. eapply drawn_suffix; [done|]. by apply (Ho (TokUuid u)).
Qed.

(** What a step of the outbox does not touch. *)
Definition light (σ σ' : Executor) : Prop := kube_evolves σ σ' ∧ kube_keep TokMain σ σ'.
Definition no_uuid (O : gset token) : Prop := ∀ u, TokUuid u ∉ O.

Lemma light_rely O σ σ' : no_uuid O → light σ σ' → rely O σ σ'.
Proof using. intros Hn [He Hk]. split; [done|]. intros [|u] Hr; [done|]. by destruct (Hn u). Qed.

Lemma rely_subset O O' σ σ' : O ⊆ O' → rely O' σ σ' → rely O σ σ'.
Proof using. intros Hs [He Hk]. split; [done|]. intros r Hr. apply Hk. set_solver. Qed.

(** Drawing an identifier. *)
Definition with_uuid (O : gset token) (u : string) (tr : list answered) : gset token :=
  if decide (NoDup (drawn tr)) then O ∪ {[TokUuid u]} else O.

Lemma with_uuid_subset O u tr : O ⊆ with_uuid O u tr.
Proof using. unfold with_uuid. case_decide; set_solver. Qed.

Lemma draw_guar O u σ :
  kube_ok σ → owned O σ →
  let σ' := record_call KUuid u σ in
  guar O (with_uuid O u (k_trace σ')) σ σ' ∧ rely O σ σ' ∧
  holds (with_uuid O u (k_trace σ')) u σ' ∧ unused u σ'.
Proof using.
  intros Hok Ho σ'. pose proof (record_soft KUuid u σ eq_refl Hok) as Hs. fold σ' in Hs.
  destruct (soft_calm O σ σ' Hs Hok Ho) as [(Hok' & Ho' & He & Hk & Hdue) Hr].
  assert (Hd : distinct (k_trace σ') → u ∉ drawn (k_trace σ)).
  { unfold distinct. simpl. by intros [? _]%NoDup_cons. }
  split_and!; [split_and!| | |]; try done.
  - intros r Hr'. unfold with_uuid in Hr'. case_decide; [|by apply Ho'].
    apply elem_of_union in Hr' as [Hr'| ->%elem_of_singleton]; [by apply Ho'|]. by left.
  - intros r Hr' Hown. destruct (Hk r Hr' Hown) as [? _]. split; [done|].
    unfold with_uuid. case_decide as Hnd; [|done].
    intros [?| ->%elem_of_singleton]%elem_of_union; [done|]. by apply Hd.
  - intros Hnd. unfold with_uuid. rewrite decide_True by done. set_solver.
  - intros Hnd. pose proof (Hd Hnd) as Hu.
    destruct (ko_outbox _ Hok (distinct_suffix _ _ (sf_trace _ _ Hs) Hnd)) as [Hrec Hsent _].
    split_and!; [by left| |].
    + change (outbox_of σ') with (outbox_of σ).
      destruct (outbox_of σ !! evt u) as [r|] eqn:E; [|done].
      destruct (ro_drawn _ _ _ (Hrec _ _ E)) as (v & Hv & ->%evt_inj). done.
    + intros e Hid Hse%(sf_sent _ _ Hs). destruct (Hsent e Hse) as (v & Hv & Hid').
      rewrite Hid in Hid'. apply evt_inj in Hid' as ->. done.
Qed.

(** A change of the outbox alone. *)
Lemma outbox_change_ok m σ :
  kube_ok σ → mm_executor m = known_id σ → mm_assignments m = mm_assignments (k_cache σ) →
  (distinct (k_trace σ) → ∀ i r, mm_outbox m !! i = Some r → record_ok (k_trace σ) i r) →
  kube_ok (put_cache m σ).
Proof using.
  intros [] He Ha Hr. split; try done.
  - simpl. unfold known_id. simpl. by rewrite He.
  - intros name labels Hn. unfold known_id. simpl. rewrite He. by eapply ko_labels0.
  - simpl. by rewrite Ha.
  - intros Hd. destruct (ko_outbox0 Hd) as [_ Hdr Huq]. split; [by apply Hr|done..].
Qed.

(** Putting the event into the outbox. *)
Lemma put_guar O u e now disk σ :
  kube_ok σ → owned O σ → holds O u σ → unused u σ → ke_id e = evt u →
  let σ' := put_cache (mem_put_outbox disk (outbox_record e now) (k_cache σ)).1 σ in
  guar O O σ σ' ∧ light σ σ' ∧ mine u e σ'.
Proof using.
  intros Hok Ho Hh Hu Hid σ'. pose proof Hok as [].
  set (m' := (mem_put_outbox disk (outbox_record e now) (k_cache σ)).1) in *.
  assert (Hm : m' = k_cache σ ∨ m' = mkMemory (mm_executor (k_cache σ)) (mm_assignments (k_cache σ))
                 (<[evt u := outbox_record e now]> (mm_outbox (k_cache σ)))).
  { subst m'. unfold mem_put_outbox, mem_write. simpl. rewrite Hid, bool_decide_eq_false_2 by done.
    destruct disk; [by left|by right]. }
  assert (He : mm_executor m' = known_id σ ∧ mm_assignments m' = mm_assignments (k_cache σ)).
  { by destruct Hm as [-> | ->]. }
  assert (Hob : ∀ i r, mm_outbox m' !! i = Some r →
            i = evt u ∧ r = outbox_record e now ∨ outbox_of σ !! i = Some r).
  { intros i r. destruct Hm as [-> | ->]; [by right|]. simpl.
    intros [[<- <-]|[_ ?]]%lookup_insert_Some; [by left|by right]. }
  destruct He as [He Ha].
  assert (Hev : kube_evolves σ σ').
  { split_and!; [done|done|]. intros Hd i r Hi. exists r. split; [|done]. simpl in Hd.
    destruct (Hu Hd) as (_ & Hn & _). unfold outbox_of. simpl. destruct Hm as [-> | ->]; [done|].
    simpl. rewrite lookup_insert_ne; [done|]. intros <-. congruence. }
  assert (Hsu : ∀ v, v ≠ u → same_at (evt v) σ σ').
  { intros v Hv. split; [|by left]. intros r [[E _]|E]%Hob; [|by exists r].
    by apply evt_inj in E. }
  split_and!.
  - apply guar_same; [|done..|].
    + apply outbox_change_ok; [done..|]. intros Hd i r [[-> ->]|E]%Hob;
        [|by apply (oo_records _ _ (ko_outbox0 Hd))].
      destruct (Hu Hd) as (Hin & Hn & Hse). split; [done|by exists u|by left|].
      intros e' He' Hi'. by destruct (Hse e' Hi').
    + intros [|v] Hr _; [done|]. split; [done|]. intros Hd. apply Hsu. intros ->. by apply Hr, Hh.
  - split; [done|]. by split_and!.
  - intros Hd. destruct (Hu Hd) as (Hin & Hn & Hse). split_and!; [done| |].
    + intros r [[_ ->]|E]%Hob; [apply event_of_record|]. congruence.
    + intros e' Hi' He'. by destruct (Hse e' Hi').
Qed.

(** Sending an event. *)
Definition sendable (e : TaskEvent) (σ : Executor) : Prop :=
  distinct (k_trace σ) →
  (∃ u, u ∈ drawn (k_trace σ) ∧ ke_id e = evt u) ∧
  (∀ r, outbox_of σ !! ke_id e = Some r → event_of r = e) ∧
  ∀ e', ke_id e' = ke_id e → sent e' (k_trace σ) → e' = e.

Lemma mine_sendable u e σ : ke_id e = evt u → mine u e σ → sendable e σ.
Proof using.
  intros Hid Hm Hd. destruct (Hm Hd) as (Hu & Hr & Hs). rewrite Hid. split_and!; [by exists u|done..].
Qed.

Lemma running_step_Broken ph r : ph ≠ Broken → running_step ph r ≠ Broken.
Proof using. by destruct ph, r. Qed.

Lemma send_ok e r σ : kube_ok σ → sendable e σ → kube_ok (record_call (KAppendTaskEvent e) r σ).
Proof using.
  intros Hok He. pose proof Hok as []. set (σ' := record_call (KAppendTaskEvent e) r σ).
  pose proof (suffix_record (KAppendTaskEvent e) r σ) as Hs.
  split; try done.
  - intros t. unfold phase, phase_of. simpl. unfold task_step at 1. simpl.
    case_bool_decide; [apply running_step_Broken|]; apply ko_phase0.
  - intros Ht. apply ko_capacity0. by eapply truthful_suffix.
  - intros o s Ho. eapply slot_ok_suffix; [done|]. eauto.
  - intros t a Ha. eapply ref_ok_suffix; [done|]. eauto.
  - intros Hd. destruct (ko_outbox0 Hd) as [Hrec Hdr Huq]. destruct (He Hd) as (Hu & Hr & Hsame).
    split.
    + intros i rec Hi. destruct (Hrec i rec Hi) as [Hid Hdrawn Hst Hsent]. split; [done|done|..].
      * destruct Hst as [?|[? ?]]; [by left|right]. split; [done|].
        by eapply acknowledged_suffix.
      * intros e' [[= <-]|He']%sent_cons Hi'; [|by apply Hsent]. rewrite <- Hi' in Hi. symmetry. by apply Hr.
    + intros e' [[= <-]|He']%sent_cons; [done|by apply Hdr].
    + intros e1 e2 [[= <-]|H1]%sent_cons [[= <-]|H2]%sent_cons Heq; [done|..].
      * symmetry. by apply Hsame.
      * by apply Hsame.
      * by apply Huq.
Qed.

Lemma send_guar O e r σ :
  kube_ok σ → owned O σ → sendable e σ → TokMain ∈ O ∨ ke_type e ≠ "running" →
  (∀ v, distinct (k_trace σ) → TokUuid v ∉ O → ke_id e = evt v →
     ∃ rec, outbox_of σ !! evt v = Some rec) →
  guar O O σ (record_call (KAppendTaskEvent e) r σ).
Proof using.
  intros Hok Ho He Hmain Hv. pose proof (suffix_record (KAppendTaskEvent e) r σ) as Hs.
  apply guar_same; [by apply send_ok|done|..].
  - split_and!; [done|done|]. intros _ i rec Hi. by exists rec.
  - intros [|v] Hr _.
    + destruct Hmain as [?|Hrun]; [done|]. split_and!; try done. intros t. unfold phase, phase_of.
      simpl. unfold task_step at 1. simpl. by rewrite bool_decide_eq_false_2 by naive_solver.
    + split; [done|]. intros Hd. split; [by intros rec Hrec; exists rec|].
      intros e' Hid [[= <-]|He']%sent_cons; [right|by left].
      destruct (Hv v Hd Hr Hid) as [rec Hrec]. exists rec. split; [done|].
      destruct (He Hd) as (_ & Hrec' & _). apply Hrec'. by rewrite Hid.
Qed.

(** Accepting a record after its event was acknowledged. *)
Lemma accept_step e event now disk σ :
  kube_ok σ → acknowledged e (k_trace σ) → ke_id e = event →
  let σ' := put_cache (mem_update_outbox disk event "accepted" now (k_cache σ)).1 σ in
  kube_ok σ' ∧ kube_evolves σ σ' ∧ ∀ r, kube_keep r σ σ'.
Proof using.
  intros Hok Hack Hid σ'. pose proof Hok as [].
  set (m' := (mem_update_outbox disk event "accepted" now (k_cache σ)).1) in *.
  assert (Hm : m' = k_cache σ ∨ ∃ r, outbox_of σ !! event = Some r ∧
      m' = mkMemory (mm_executor (k_cache σ)) (mm_assignments (k_cache σ))
             (<[event := with_state "accepted" now r]> (mm_outbox (k_cache σ)))).
  { subst m'. unfold mem_update_outbox, mem_write. case_bool_decide; [by left|].
    change (mm_outbox (k_cache σ)) with (outbox_of σ).
    destruct (outbox_of σ !! event) as [r|] eqn:E; [|by left].
    destruct disk; [by left|right]. by exists r. }
  assert (He : mm_executor m' = known_id σ ∧ mm_assignments m' = mm_assignments (k_cache σ)).
  { by destruct Hm as [-> |(r & _ & ->)]. }
  assert (Hob : ∀ i r', mm_outbox m' !! i = Some r' → ∃ r, outbox_of σ !! i = Some r ∧
            (r' = r ∨ i = event ∧ r' = with_state "accepted" now r)).
  { intros i r'. destruct Hm as [-> |(r & Hr & ->)]; simpl.
    - intros E. exists r'. split; [done|by left].
    - intros [[<- <-]|[_ E]]%lookup_insert_Some; [exists r; auto|exists r'; auto]. }
  destruct He as [He Ha].
  assert (Hev : stable_outbox (outbox_of σ) (mm_outbox m')).
  { intros i r Hi. destruct Hm as [-> |(r0 & Hr0 & ->)]; [by exists r|]. simpl.
    destruct (decide (i = event)) as [-> |Hne].
    - rewrite lookup_insert_eq. eexists. split; [done|]. simplify_eq. by destruct r0.
    - rewrite lookup_insert_ne by done. by exists r. }
  split_and!.
  - apply outbox_change_ok; [done..|]. intros Hd i r' (r & Hr & Hcase)%Hob.
    destruct (oo_records _ _ (ko_outbox0 Hd) i r Hr) as [Hi Hu Hst Hse].
    destruct Hcase as [-> |[-> ->]]; [by split|]. split; try done.
    right. split; [done|]. replace (event_of (with_state "accepted" now r)) with e; [done|].
    rewrite (Hse e); [by destruct r| |done]. apply list_elem_of_fmap.
    by eexists (mkAnswered (KAppendTaskEvent e) None).
  - split_and!; [done|done|]. by intros _.
  - intros [|v]; [by split_and!|]. split; [done|]. intros _. split; [|by left].
    intros r' (r & Hr & Hcase)%Hob. exists r. split; [done|]. destruct Hcase as [-> |[_ ->]]; [done|].
    by destruct r.
Qed.

Lemma kwp_accept {A} e event (k : result string () → go A) Q O σ :
  acknowledged e (k_trace σ) → ke_id e = event →
  (∀ r σ1, rely O σ σ1 → kube_ok σ1 → owned O σ1 → wp O (k r) Q σ1) →
  wp O (accept_outbox event ≫= k) Q σ.
Proof using.
  intros Hack Hid Hk. unfold accept_outbox, transact.
  intros now σ1 _ Hr1 Hok1 Ho1. pose proof (record_soft KNow now σ1 eq_refl Hok1) as Hs1.
  destruct (soft_calm O _ _ Hs1 Hok1 Ho1) as [Hg1 Hr1']. exists O. split; [done|].
  intros disk σ2 _ Hr2 Hok2 Ho2. pose proof (record_soft KDisk disk σ2 eq_refl Hok2) as Hs2.
  destruct (soft_calm O _ _ Hs2 Hok2 Ho2) as [Hg2 Hr2']. exists O. split; [done|].
  intros σ3 Hr3 Hok3 Ho3. set (σ4 := put_cache _ σ3).
  assert (Hr03 : rely O σ σ3) by (do 4 (etrans; [eassumption|]); done).
  destruct (accept_step e event now disk σ3 Hok3) as (Hok4 & He4 & Hk4); [|done|].
  { eapply acknowledged_suffix; [by eapply rely_suffix|done]. }
  exists O. assert (Hg4 : guar O O σ3 σ4) by (apply guar_same; auto).
  split; [done|]. apply Hk; [|done|apply Hg4]. etrans; [done|]. split; [done|]. intros r _. apply Hk4.
Qed.

Lemma kwp_soft_call {A} c (k : kres c → go A) Q O σ :
  protocol_call c = false →
  (∀ r σ1, rely O σ σ1 → kube_ok σ1 → owned O σ1 → wp O (k r) Q σ1) → wp O (Call c k) Q σ.
Proof using.
  intros Hc Hk r σ1 _ Hr1 Hok1 Ho1. pose proof (record_soft c r σ1 Hc Hok1) as Hs1.
  destruct (soft_calm O _ _ Hs1 Hok1 Ho1) as [Hg1 Hr1']. exists O. split; [done|].
  apply Hk; [by etrans|apply Hg1..].
Qed.

Lemma kwp_read {B A} (f : Executor → B) (k : B → go A) Q O σ :
  (∀ σ1, rely O σ σ1 → kube_ok σ1 → owned O σ1 → wp O (k (f σ1)) Q σ1) → wp O (read f ≫= k) Q σ.
Proof using.
  intros Hk σ1 Hr1 Hok1 Ho1. exists O. split; [by apply guar_refl|]. by apply Hk.
Qed.

(** Sending the event gives its identifier back. *)
Lemma send_returns O O1 u e r σ :
  kube_ok σ → owned O1 σ → no_uuid O → O ⊆ O1 → TokMain ∈ O ∨ ke_type e ≠ "running" →
  holds O1 u σ → mine u e σ → ke_id e = evt u →
  guar O1 O σ (record_call (KAppendTaskEvent e) r σ).
Proof using.
  intros Hok Ho Hno Hsub Hmain Hh Hm Hid.
  destruct (send_guar O1 e r σ) as (Hok' & Hown & Hev & Hkeep & Hdue); [done|done|..].
  - by eapply mine_sendable.
  - destruct Hmain; [left; set_solver|by right].
  - intros v Hd Hv Hvid. rewrite Hid in Hvid. apply evt_inj in Hvid as <-. by destruct Hv; apply Hh.
  - split_and!; [done| |done| |done].
    + intros x Hx. apply Hown. set_solver.
    + intros x Hx Hxo. destruct (Hkeep x Hx Hxo) as [? _]. split; [done|set_solver].
Qed.

(** What follows a report: the thread goes on after the call for its event. *)
Definition reports_then {A} O e (k : option Docker.xerror → go A) Q (σ : Executor) : Prop :=
  ∀ r σ1 σ2, rely O σ σ1 → kube_ok σ1 → rely O (record_call (KAppendTaskEvent e) r σ1) σ2 →
    kube_ok σ2 → owned O σ2 → wp O (k r) Q σ2.

Lemma kwp_send {A} (k : option Docker.xerror → go A) Q O O1 u e σ0 σ :
  no_uuid O → O ⊆ O1 → TokMain ∈ O ∨ ke_type e ≠ "running" →
  holds O1 u σ → mine u e σ → ke_id e = evt u → rely O σ0 σ →
  reports_then O e k Q σ0 → wp O1 (send_event e) (λ r O2 σ2, wp O2 (k r) Q σ2) σ.
Proof using.
  intros Hno Hsub Hmain Hh Hm Hid Hr0 Hk r σ1 _ Hr1 Hok1 Ho1. exists O.
  split.
  { apply (send_returns O O1 u); [done..| | |done]; [by eapply holds_rely|by eapply mine_rely]. }
  set (σ2 := record_call _ r σ1).
  assert (Hfin : ∀ σ3, rely O σ2 σ3 → kube_ok σ3 → owned O σ3 → wp O (k r) Q σ3).
  { intros σ3. apply (Hk r σ1); [|done]. etrans; [done|]. by eapply rely_subset. }
  destruct r as [err|]; [exact Hfin|].
  apply (kwp_accept e); [by left|done|]. intros _ σ3 Hr3 _ _ σ4 Hr4 Hok4 Ho4.
  apply Hfin; [by etrans|done..].
Qed.

Lemma kwp_append {A} task team type payload (k : option Docker.xerror → go A) Q O σ :
  no_uuid O → TokMain ∈ O ∨ type ≠ "running" →
  (∀ e, ke_task e = task → ke_type e = type → reports_then O e k Q σ) →
  wp O (appendTaskEvent task team type payload ≫= k) Q σ.
Proof using.
  intros Hno Hmain Hk. unfold appendTaskEvent, executor_id, transact.
  apply wp_bind, kwp_read. intros σ1 Hr1 _ _. generalize (k_id σ1) as id. intros id.
  intros u σ2 _ Hr2 Hok2 Ho2. destruct (draw_guar O u σ2 Hok2 Ho2) as (Hg & Hrd & Hh & Hu).
  set (σ3 := record_call KUuid u σ2) in *. set (O1 := with_uuid O u (k_trace σ3)) in *.
  assert (Hsub : O ⊆ O1) by apply with_uuid_subset.
  exists O1. split; [done|]. assert (Hr03 : rely O σ σ3) by (do 2 (etrans; [eassumption|]); done).
  apply kwp_soft_call; [done|]. intros at_ σ4 Hr4 _ _.
  apply kwp_soft_call; [done|]. intros now σ5 Hr5 _ _.
  apply kwp_soft_call; [done|]. intros disk σ6 Hr6 _ _.
  set (e := mkEvent _ _ _ _ _ _ _). intros σ7 Hr7 Hok7 Ho7.
  assert (Hr37 : rely O1 σ3 σ7) by (do 3 (etrans; [eassumption|]); done).
  destruct (put_guar O1 u e now disk σ7 Hok7 Ho7) as (Hg7 & Hl7 & Hm7);
    [by eapply holds_rely|by eapply unused_rely|done|].
  exists O1. split; [done|].
  apply (kwp_send k Q O O1 u e σ); [done|done|done| |done|done| |by apply Hk].
  - intros Hd. by eapply holds_rely; [exact Hr37|..].
  - etrans; [exact Hr03|]. etrans; [by eapply rely_subset, Hr37|]. by apply light_rely.
Qed.

(** *** The goroutines of a pod *)

(** What somebody else than the main goroutine reports is no concern of anybody. *)
Lemma kwp_append_other {A} task team type payload (k : option Docker.xerror → go A) Q σ :
  type ≠ "running" →
  (∀ r σ1, k_trace σ `suffix_of` k_trace σ1 → kube_ok σ1 → wp ∅ (k r) Q σ1) →
  wp ∅ (appendTaskEvent task team type payload ≫= k) Q σ.
Proof using.
  intros Ht Hk. apply kwp_append; [intros u; set_solver|by right|].
  intros e _ _ r σ1 σ2 Hr1 _ Hr2 Hok2 _. apply Hk; [|done]. etrans; [by eapply rely_suffix|].
  etrans; [apply suffix_record|by eapply rely_suffix].
Qed.

Lemma kwp_finish o type phase detail σ :
  type ≠ "running" → wp ∅ (finish cfg o type phase detail) finished σ.
Proof using.
  intros Ht. unfold finish, finishPodTask, slot_task, slot_field. apply wp_bind.
  apply kwp_read. intros σ1 _ _ _. apply kwp_read. intros σ2 _ _ _. apply kwp_read. intros σ3 _ _ _.
  apply kwp_append_other; [done|]. intros r σ4 _ _.
  apply wp_silent; [destruct r; silence|]. intros [] σ5 _ _ _.
  apply kwp_silent_end, ksilent_defers.
Qed.

Lemma kwp_goto t (σ : Executor) :
  (∀ σ1, pre t ∅ σ1) → wp ∅ (Goto t : go ()) finished σ.
Proof using. intros Hp σ1 _ _ _. apply Hp. Qed.

Lemma kwp_spawn {A} t (k : () → go A) Q O σ :
  (∀ σ1, pre t ∅ σ1) →
  (∀ σ1, rely O σ σ1 → kube_ok σ1 → owned O σ1 → wp O (k ()) Q σ1) → wp O (spawn t ≫= k) Q σ.
Proof using.
  intros Hp Hk σ1 Hr Hok Ho. exists O, ∅. split_and!; [set_solver|set_solver|apply Hp|by apply Hk].
Qed.

Lemma kwp_watch_pod o σ : wp ∅ (watch_pod cfg o) finished σ.
Proof using.
  unfold watch_pod, slot_field. apply kwp_read. intros σ1 _ _ _.
  apply kwp_quietly; [by apply ksilent_call|]. intros [e|] σ2 _ _ _; [by apply kwp_finish|by apply kwp_goto].
Qed.

Lemma kwp_address o σ : wp ∅ (address_round cfg o) finished σ.
Proof using.
  unfold address_round, slot_field. apply kwp_read. intros σ1 _ _ _.
  apply kwp_quietly; [by apply ksilent_call|]. intros [p|] σ2 _ _ _.
  - case_bool_decide; [by apply kwp_finish|]. case_bool_decide; [|by apply kwp_goto].
    apply kwp_spawn; [done|]. intros σ3 _ _ _. by apply kwp_goto.
  - apply kwp_quietly; [by apply ksilent_call|]. intros [] σ3 _ _ _; [|by apply kwp_finish].
    apply kwp_silent_end, ksilent_defers.
Qed.

Lemma kwp_watch o σ : wp ∅ (watch_round o) finished σ.
Proof using.
  unfold watch_round, slot_field. apply kwp_read. intros σ1 _ _ _.
  apply kwp_quietly; [by apply ksilent_call|]. intros [p|] σ2 _ _ _.
  - case_bool_decide; [apply kwp_silent_end; silence|by apply kwp_goto].
  - apply kwp_quietly; [by apply ksilent_call|]. intros b σ3 _ _ _. apply kwp_silent_end. silence.
Qed.

(** An assignment that names the pod of a slot. *)
Lemma kwp_put_pod {A} r (k : result string () → go A) Q O σ :
  ref_ok (k_trace σ) r →
  (∀ a σ1, rely O σ σ1 → kube_ok σ1 → owned O σ1 → wp O (k a) Q σ1) →
  wp O (transact (λ disk, mem_put_assignment disk r) ≫= k) Q σ.
Proof using.
  intros Href Hk. unfold transact. apply kwp_soft_call; [done|]. intros disk σ1 Hr1 _ _.
  intros σ2 Hr2 Hok2 Ho2.
  assert (Hsoft : soft σ2 (put_cache (mem_put_assignment disk r (k_cache σ2)).1 σ2)).
  { assert (Href2 : ref_ok (k_trace σ2) r).
    { eapply ref_ok_suffix; [|done]. etrans; by eapply rely_suffix. }
    unfold mem_put_assignment, mem_write. case_bool_decide; [by apply soft_same|].
    destruct disk; simpl; [by apply soft_same|]. apply soft_cache; [done..| |done].
    intros t a. simpl. intros [[_ <-]|[_ Ha]]%lookup_insert_Some; [done|by apply (ko_refs _ Hok2 t)]. }
  destruct (soft_calm O _ _ Hsoft Hok2 Ho2) as [Hg Hr]. exists O. split; [done|].
  apply Hk; [|apply Hg..]. etrans; [done|]. by etrans.
Qed.

Lemma kwp_observe o base conversation σ : wp ∅ (observe o base conversation) finished σ.
Proof using.
  unfold observe. apply kwp_read. intros σ1 _ Hok1 _.
  destruct (slot_at σ1 o) as [s|] eqn:Hs; [|apply kwp_silent_end, ksilent_ret].
  pose proof (ko_slots _ Hok1 o s Hs) as Hslot.
  unfold executor_id. apply kwp_read. intros σ2 Hr2 _ _.
  apply kwp_quietly; [by apply ksilent_call|]. intros now σ3 Hr3 _ _.
  assert (Hend : ∀ σ', wp ∅ (_ ← spawn (TStream o base conversation);
                             Goto (TMonitor o base conversation)) finished σ').
  { intros σ'. apply kwp_spawn; [done|]. intros σ4 _ _ _. by apply kwp_goto. }
  apply wp_bind. case_bool_decide.
  - apply kwp_put_pod; [|intros a σ4 _ _ _ σ5 _ _ _; apply Hend]. right. simpl.
    exists (ps_name s), (ps_uid s). split; [done|]. eapply pod_of_suffix; [|exact Hslot].
    etrans; by eapply rely_suffix.
  - intros σ5 _ _ _. apply Hend.
Qed.

Lemma kwp_serve o ip σ : wp ∅ (serve cfg o ip) finished σ.
Proof using.
  unfold serve. cbv zeta. apply kwp_quietly; [by apply ksilent_call|].
  intros [e|] σ1 _ _ _; [by apply kwp_finish|]. apply kwp_read. intros σ2 _ _ _.
  destruct (slot_at σ2 o) as [s|]; [|apply kwp_silent_end, ksilent_ret].
  case_bool_decide; [apply kwp_observe|]. case_bool_decide; [by apply kwp_finish|].
  apply kwp_quietly; [by apply ksilent_call|]. intros [id|e] σ3 _ _ _; [|by apply kwp_finish].
  apply kwp_quietly; [silence|]. intros [] σ4 _ _ _. apply kwp_observe.
Qed.

Lemma kwp_wait o base conversation σ : wp ∅ (waitForTerminal o base conversation) finished σ.
Proof using.
  unfold waitForTerminal. cbv zeta. apply kwp_quietly; [by apply ksilent_call|].
  intros [e|] σ1 _ _ _; [apply kwp_silent_end; silence|by apply kwp_goto].
Qed.

Lemma kwp_read_round o url σ : wp ∅ (read_round o url) finished σ.
Proof using.
  unfold read_round, slot_task, slot_field. apply kwp_read. intros σ1 _ _ _.
  apply kwp_quietly; [by apply ksilent_call|]. intros f σ2 _ _ _. destruct f as [[v|]| |text].
  - apply kwp_quietly; [apply ksilent_publish|]. intros [] σ3 _ _ _. cbv zeta.
    destruct (is_terminal _); [apply kwp_silent_end; silence|by apply kwp_goto].
  - by apply kwp_goto.
  - apply kwp_silent_end. silence.
  - apply kwp_silent_end. silence.
Qed.

Lemma kwp_monitor o base conversation σ : wp ∅ (monitor_round cfg o base conversation) finished σ.
Proof using.
  unfold monitor_round, slot_field. apply kwp_quietly; [by apply ksilent_call|].
  intros taken σ1 _ _ _. destruct taken.
  - apply kwp_read. intros σ2 _ _ _. generalize (match slot_at σ2 o with Some s => ps_terminal s | None => None end).
    intros [[status|e]|].
    + apply kwp_finish. by case_bool_decide.
    + by apply kwp_finish.
    + by apply kwp_goto.
  - apply kwp_quietly; [apply ksilent_controls|]. intros [[]|e] σ2 _ _ _;
      [by apply kwp_finish|by apply kwp_goto..].
  - apply kwp_read. intros σ2 _ _ _. generalize (match slot_at σ2 o with Some s => ps_ended s | None => None end).
    intros [detail|]; [by apply kwp_finish|by apply kwp_goto].
  - apply kwp_silent_end, ksilent_defers.
Qed.

(** *** The main goroutine: its identity and its room *)

Definition settled (σ : Executor) : Prop := k_id σ = known_id σ ∧ known_id σ ≠ "".
Definition roomy (σ : Executor) : Prop :=
  truthful (k_trace σ) → Z.of_nat (size (pods σ)) < kc_max cfg.

Lemma main_keeps σ σ' : rely main σ σ' → kube_keep TokMain σ σ'.
Proof using. intros [_ Hk]. apply (Hk TokMain). by apply elem_of_singleton. Qed.

Lemma settled_rely σ σ' : rely main σ σ' → settled σ → settled σ'.
Proof using.
  intros Hr [Hi Hn]. destruct (main_keeps _ _ Hr) as (_ & _ & Hid & Hkn).
  unfold settled. by rewrite Hid, Hkn.
Qed.

Lemma kroomy_rely σ σ' : rely main σ σ' → roomy σ → roomy σ'.
Proof using.
  intros Hr Hroom Ht. destruct (main_keeps _ _ Hr) as (_ & Hp & _).
  apply map_subseteq_size in Hp.
  specialize (Hroom (truthful_suffix _ _ (rely_suffix _ _ _ Hr) Ht)). lia.
Qed.

Lemma phase_rely σ σ' t : rely main σ σ' → phase σ' t = phase σ t.
Proof using. intros Hr. by destruct (main_keeps _ _ Hr) as (Hp & _). Qed.

Lemma size_names (m : gmap string (gmap string string)) (l : list string) :
  (∀ name, is_Some (m !! name) → name ∈ l) → (size m ≤ length l)%nat.
Proof using.
  intros Hm. rewrite <- size_dom.
  assert (Hsub : dom m ⊆ (list_to_set l : gset string)).
  { intros name Hn%elem_of_dom. apply elem_of_list_to_set. by apply Hm. }
  apply subseteq_size in Hsub. etrans; [exact Hsub|].
  clear Hm Hsub. induction l as [|x l IH]; [by rewrite list_to_set_nil, size_empty|].
  rewrite list_to_set_cons, size_union_alt, size_singleton. simpl.
  assert (size ((list_to_set l : gset string) ∖ {[x]}) ≤ size (list_to_set l : gset string))%nat;
    [apply subseteq_size; set_solver|lia].
Qed.

(** A truthful listing with room is room. *)
Lemma listing_room id (l : list PodState) σ :
  kube_ok σ → settled σ → id = known_id σ →
  Z.of_nat (length l) < kc_max cfg →
  roomy (record_call (KListPods (own_pods id)) (Ok l) σ).
Proof using.
  intros Hok [Hi Hn] -> Hl [Hans Ht]. simpl in Hans.
  change (pods (record_call _ _ σ)) with (pods σ).
  assert (size (pods σ) ≤ length ((λ p, pr_name (po_ref p)) <$> l))%nat as Hs.
  { apply size_names. intros name [labels Hname].
    destruct (ko_labels _ Hok name labels Hname) as [_ Hlab]. by apply (Hans name labels). }
  rewrite length_fmap in Hs. lia.
Qed.

Lemma kwp_capacity {A} (k : result string bool → go A) Q σ :
  settled σ →
  (∀ r σ1, rely main σ σ1 → kube_ok σ1 → owned main σ1 → (r = Ok true → roomy σ1) →
     wp main (k r) Q σ1) →
  wp main (hasClusterCapacity cfg ≫= k) Q σ.
Proof using.
  intros Hset Hk. unfold hasClusterCapacity, freeSlots, executor_id. apply wp_bind.
  apply kwp_read. intros σ1 Hr1 _ _. case_match; [intros σ2 Hr2 Hok2 Ho2; apply Hk; [by etrans|done..]|].
  apply kwp_read. intros σ2 Hr2 Hok2 _.
  assert (Hid : k_id σ2 = known_id σ2 ∧ settled σ2).
  { assert (settled σ2) as Hset2 by (apply (settled_rely σ); [etrans; [exact Hr1|exact Hr2]|done]).
    split; [apply Hset2|done]. }
  destruct Hid as [Hid Hset2]. revert Hid. generalize (k_id σ2) as id. intros id Hid.
  intros r σ3 _ Hr3 Hok3 Ho3.
  pose proof (record_soft (KListPods (own_pods id)) r σ3 eq_refl Hok3) as Hs3.
  destruct (soft_calm main _ _ Hs3 Hok3 Ho3) as [Hg3 Hr3']. exists main. split; [done|].
  intros σ4 Hr4 Hok4 Ho4.
  apply Hk; [do 4 (etrans; [eassumption|]); done|done..|].
  intros Heq. destruct r as [l|e]; [|done]. injection Heq as Hlen%Z.ltb_lt.
  eapply kroomy_rely; [exact Hr4|]. apply listing_room; [done|by eapply settled_rely| |done].
  destruct (main_keeps _ _ Hr3) as (_ & _ & _ & Hkn). congruence.
Qed.

(** *** Taking a task *)

(** A call of the main goroutine that changes phases alone. *)
Lemma main_call_guar c r σ :
  kube_ok σ → owned main σ → kube_ok (record_call c r σ) →
  (∀ e, c ≠ KAppendTaskEvent e) → guar main main σ (record_call c r σ).
Proof using.
  intros Hok Ho Hok' Hc. apply guar_same; [done..| |].
  - split_and!; [apply suffix_record|done|]. intros _ i x Hi. by exists x.
  - intros [|u] Hr _; [set_solver|]. split; [apply suffix_record|]. intros _.
    split; [by intros x Hx; exists x|]. intros e Hid [E|He]%sent_cons; [|by left].
    simpl in E. by destruct (Hc e).
Qed.

(** A call that only moves phases. *)
Lemma phases_ok c r σ :
  kube_ok σ → (∀ t, phase (record_call c r σ) t ≠ Broken) →
  match c with KAppendTaskEvent _ | KCreatePod _ => False | _ => True end →
  kube_ok (record_call c r σ).
Proof using.
  intros [] Hp Hc. pose proof (suffix_record c r σ) as Hs.
  assert (Hpods : pods (record_call c r σ) ⊆ pods σ).
  { unfold pods, alive. simpl. destruct c; try done. simpl. destruct r; [done|]. apply delete_subseteq. }
  split; try done.
  - intros name labels Hn. eapply ko_labels0, lookup_weaken; done.
  - intros Ht. apply map_subseteq_size in Hpods.
    specialize (ko_capacity0 (truthful_suffix _ _ Hs Ht)). lia.
  - intros o s Ho. eapply slot_ok_suffix; [done|]. eauto.
  - intros t a Ha. eapply ref_ok_suffix; [done|]. eauto.
  - intros Hd. eapply outbox_ok_mono; [done| |by eapply ko_outbox0, distinct_suffix].
    intros e [E|?]%sent_cons; [|done]. simpl in E. by subst.
Qed.

(** The main goroutine at work on a task. *)
Record work (task : string) (ph : tphase) (σ : Executor) : Prop := mkWork {
  wk_settled : settled σ; wk_roomy : roomy σ; wk_phase : phase σ task = ph }.

Lemma work_rely task ph σ σ' : rely main σ σ' → work task ph σ → work task ph σ'.
Proof using.
  intros Hr []. split; [by eapply settled_rely|by eapply kroomy_rely|].
  by rewrite (phase_rely _ _ _ Hr).
Qed.

Definition main_end {A} (a : A) (O : gset token) (σ : Executor) : Prop := O = main ∧ settled σ.

Lemma kwp_end {A} (p : go A) σ : silent p → settled σ → wp main p main_end σ.
Proof using.
  intros Hp Hs. apply wp_silent; [done|]. intros a σ1 Hr _ _. split; [done|]. by eapply settled_rely.
Qed.

Lemma task_label executor team task command scope source :
  BuildTaskLabels executor team task command scope source !! LabelTaskID = Some task.
Proof using. reflexivity. Qed.

Lemma command_label executor team task command scope source :
  BuildTaskLabels executor team task command scope source !! LabelCommandID = Some command.
Proof using. reflexivity. Qed.

Lemma own_labels executor team task command scope source :
  own_pods executor ⊆ BuildTaskLabels executor team task command scope source.
Proof using. do 2 (apply insert_subseteq_l; [reflexivity|]). apply map_empty_subseteq. Qed.

Lemma phase_record c r σ t : phase (record_call c r σ) t = call_step t (phase σ t) c r.
Proof using. done. Qed.

Lemma record_work c r σ task ph :
  match c with KCreatePod _ => False | _ => True end →
  work task ph σ → work task (call_step task ph c r) (record_call c r σ).
Proof using.
  intros Hc [Hset Hroom <-]. split; [exact Hset| |apply phase_record].
  intros Ht. pose proof (truthful_suffix _ _ (suffix_record c r σ) Ht) as Ht0. specialize (Hroom Ht0).
  assert (Hp : pods (record_call c r σ) ⊆ pods σ).
  { unfold pods, alive. simpl. destruct c; try done. simpl. destruct r; [done|]. apply delete_subseteq. }
  apply map_subseteq_size in Hp. lia.
Qed.

Lemma claim_step_Broken ph command r : ph ≠ Broken → claim_step ph command r ≠ Broken.
Proof using. destruct ph, r; simpl; try done; by case_bool_decide. Qed.

Lemma kwp_claim {A} task command (k : kres (KClaimTask task command) → go A) Q σ :
  settled σ → roomy σ →
  (∀ r σ1, rely main σ1 σ1 → settled σ1 →
     (∀ claim, r = Ok claim → Docker.cl_claim claim = "claimed" →
        work task (Claimed command claim) σ1) → wp main (k r) Q σ1) →
  wp main (kcall_ (KClaimTask task command) ≫= k) Q σ.
Proof using.
  intros Hset Hroom Hk r σ1 _ Hr1 Hok1 Ho1. exists main.
  assert (Hw : work task (phase σ1 task) σ1).
  { split; [by eapply settled_rely|by eapply kroomy_rely|done]. }
  apply (record_work (KClaimTask task command) r) in Hw; [|done]. simpl in Hw.
  rewrite bool_decide_eq_true_2 in Hw by done. pose proof (ko_phase _ Hok1 task) as Hb.
  split.
  - apply main_call_guar; [done..| |done]. apply phases_ok; [done| |done].
    intros t. rewrite phase_record. simpl. pose proof (ko_phase _ Hok1 t).
    case_bool_decide; [by apply claim_step_Broken|done].
  - apply Hk; [reflexivity|apply Hw|]. intros claim -> Hc. unfold claim_step in Hw.
    rewrite bool_decide_eq_true_2 in Hw by done. by destruct (phase σ1 task).
Qed.

Lemma kwp_open {A} task token command claim (k : kres (KOpenEnvironment task token) → go A) Q σ :
  work task (Claimed command claim) σ → Docker.cl_launch claim = true →
  Docker.cl_token claim = Some token →
  (∀ r σ1, work task (Claimed command claim) σ1 → wp main (k r) Q σ1) →
  wp main (kcall_ (KOpenEnvironment task token) ≫= k) Q σ.
Proof using.
  intros Hw Hl Htok Hk r σ1 _ Hr1 Hok1 Ho1. exists main. apply (work_rely _ _ _ _ Hr1) in Hw.
  pose proof (wk_phase _ _ _ Hw) as Hp.
  split.
  - apply main_call_guar; [done..| |done]. apply phases_ok; [done| |done].
    intros t. rewrite phase_record. simpl. case_bool_decide as Ht; [|apply (ko_phase _ Hok1)].
    subst t. rewrite Hp. simpl. by rewrite Hl, bool_decide_eq_true_2.
  - apply Hk. apply (record_work (KOpenEnvironment task token) r) in Hw; [|done]. simpl in Hw.
    by rewrite bool_decide_eq_true_2, Hl, bool_decide_eq_true_2 in Hw.
Qed.

(** The report that the task runs. *)
Lemma main_no_uuid : no_uuid main.
Proof using. intros u. set_solver. Qed.

Lemma kwp_running {A} task team payload command claim (k : option Docker.xerror → go A) Q σ :
  work task (Claimed command claim) σ →
  (∀ r σ1, kube_ok σ1 → settled σ1 → (r = None → work task (Working command claim) σ1) →
     wp main (k r) Q σ1) →
  wp main (appendTaskEvent task team "running" payload ≫= k) Q σ.
Proof using.
  intros Hw Hk. apply kwp_append; [apply main_no_uuid|left; set_solver|].
  intros e Het Hey r σ1 σ2 Hr1 Hok1 Hr2 Hok2 _. apply (work_rely _ _ _ _ Hr1) in Hw.
  apply (record_work (KAppendTaskEvent e) r), (work_rely _ _ _ _ Hr2) in Hw; [|done]. simpl in Hw.
  rewrite bool_decide_eq_true_2 in Hw by done.
  apply Hk; [done|apply Hw|]. by intros ->.
Qed.

(** A pod for the task. *)
Lemma create_ok task command claim spec r σ :
  kube_ok σ → sane (KCreatePod spec) r → work task (Working command claim) σ →
  claim_image claim = Some (sp_image spec) →
  sp_labels spec !! LabelTaskID = Some task → sp_labels spec !! LabelCommandID = Some command →
  own_pods (known_id σ) ⊆ sp_labels spec →
  kube_ok (record_call (KCreatePod spec) r σ).
Proof using.
  intros Hok Hsane [[Hid Hn] Hroom Hp] Himg Ht Hc Hown. pose proof Hok as [].
  pose proof (suffix_record (KCreatePod spec) r σ) as Hs.
  assert (Hpods : pods (record_call (KCreatePod spec) r σ) = pods σ ∨
            pods (record_call (KCreatePod spec) r σ) = <[sp_name spec := sp_labels spec]> (pods σ)).
  { unfold pods. simpl. destruct r; [by right|by left]. }
  split; try done.
  - intros t. rewrite phase_record. simpl. case_bool_decide as E; [|apply ko_phase0].
    assert (t = task) as -> by congruence. rewrite Hp. simpl. by rewrite bool_decide_eq_true_2.
  - intros name labels. destruct Hpods as [-> | ->]; [apply ko_labels0|].
    intros [[_ <-]|[_ ?]]%lookup_insert_Some; [done|by eapply ko_labels0].
  - intros Htr. assert (Htr0 : truthful (k_trace σ)) by by eapply truthful_suffix.
    specialize (Hroom Htr0). specialize (ko_capacity0 Htr0).
    destruct Hpods as [-> | ->]; [done|]. rewrite map_size_insert. destruct (pods σ !! sp_name spec); unfold id; lia.
  - intros o s Ho. eapply slot_ok_suffix; [done|]. eauto.
  - intros t a Ha. eapply ref_ok_suffix; [done|]. eauto.
  - intros Hd. eapply outbox_ok_mono; [done| |by apply ko_outbox0].
    by intros e [E|?]%sent_cons.
Qed.

Lemma kwp_create {A} task command claim spec id (k : kres (KCreatePod spec) → go A) Q σ :
  work task (Working command claim) σ → claim_image claim = Some (sp_image spec) →
  id = known_id σ → own_pods id ⊆ sp_labels spec →
  sp_labels spec !! LabelTaskID = Some task → sp_labels spec !! LabelCommandID = Some command →
  (∀ r σ1, settled σ1 →
     (∀ ref, r = Ok ref → pod_of (k_trace σ1) task command (sp_name spec) (pr_uid ref)) →
     wp main (k r) Q σ1) →
  wp main (kcall_ (KCreatePod spec) ≫= k) Q σ.
Proof using.
  intros Hw Himg -> Hown Ht Hc Hk r σ1 Hsane Hr1 Hok1 Ho1. exists main.
  apply (work_rely _ _ _ _ Hr1) in Hw. destruct (main_keeps _ _ Hr1) as (_ & _ & _ & Hkn).
  split.
  - apply main_call_guar; [done..| |done]. eapply create_ok; try done. by rewrite Hkn.
  - apply Hk; [apply Hw|]. intros ref ->. exists spec, ref. split_and!; try done. by left.
Qed.

(** A slot for a pod. *)
Lemma kwp_addPod {A} task s (k : nat → go A) Q O σ :
  slot_ok (k_trace σ) s →
  (∀ o σ1, rely O σ σ1 → kube_ok σ1 → owned O σ1 → wp O (k o) Q σ1) →
  wp O (addPod task s ≫= k) Q σ.
Proof using.
  intros Hslot Hk. unfold addPod. apply wp_bind. intros σ1 Hr1 Hok1 Ho1.
  set (o := fresh (dom (k_heap σ1))).
  set (σ2 := put_pods (<[task := o]> (k_pods σ1)) (put_heap (<[o := s]> (k_heap σ1)) σ1)).
  assert (Hsoft : soft σ1 σ2).
  { pose proof Hok1 as []. split; try done. intros o' s'. unfold slot_at. simpl.
    intros [[_ <-]|[_ Ho]]%lookup_insert_Some; [|by apply (ko_slots0 o')].
    eapply slot_ok_suffix; [by eapply rely_suffix|done]. }
  destruct (soft_calm O _ _ Hsoft Hok1 Ho1) as [Hg Hr2]. exists O. split; [done|].
  apply kwp_quietly; [apply ksilent_observe|]. intros [] σ3 Hr3 _ _ σ4 Hr4 Hok4 Ho4.
  apply Hk; [|done..]. etrans; [exact Hr1|]. etrans; [exact Hr2|]. by etrans.
Qed.

(** What a silent step leaves of the work on a task. *)
Lemma kwp_work {A B} task ph (p : go B) (k : B → go A) Q σ :
  silent p → work task ph σ →
  (∀ a σ1, kube_ok σ1 → work task ph σ1 → wp main (k a) Q σ1) → wp main (p ≫= k) Q σ.
Proof using.
  intros Hp Hw Hk. apply kwp_quietly; [done|]. intros a σ1 Hr Hok _. apply Hk; [done|].
  by eapply work_rely.
Qed.

Lemma kwp_settled {A B} (p : go B) (k : B → go A) Q σ :
  silent p → settled σ →
  (∀ a σ1, kube_ok σ1 → settled σ1 → k_trace σ `suffix_of` k_trace σ1 → wp main (k a) Q σ1) →
  wp main (p ≫= k) Q σ.
Proof using.
  intros Hp Hs Hk. apply kwp_quietly; [done|]. intros a σ1 Hr Hok _. apply Hk; [done| |].
  - by eapply settled_rely.
  - by eapply rely_suffix.
Qed.

(** The identity that the main goroutine reads is the cached one. *)
Lemma kwp_work_id {A} task ph (k : string → go A) Q σ :
  work task ph σ →
  (∀ σ1, kube_ok σ1 → work task ph σ1 → wp main (k (known_id σ1)) Q σ1) →
  wp main (executor_id ≫= k) Q σ.
Proof using.
  intros Hw Hk. unfold executor_id. apply kwp_read. intros σ1 Hr Hok _.
  apply (work_rely _ _ _ _ Hr) in Hw. destruct (wk_settled _ _ _ Hw) as [-> _]. by apply Hk.
Qed.

Lemma kwp_launch_pod task team command image source env claim σ :
  work task (Claimed command claim) σ → claim_image claim = Some image →
  wp main (launch_pod cfg task team command image source env claim) main_end σ.
Proof using.
  intros Hw Himg. unfold launch_pod. cbv zeta.
  eapply kwp_work; [apply ksilent_reserve|exact Hw|]. intros [] σ1 _ Hw1.
  eapply kwp_running; [exact Hw1|]. intros r σ2 _ Hset2 Hwork2.
  destruct r as [e|]; [apply kwp_end; [silence|done]|]. specialize (Hwork2 eq_refl).
  eapply kwp_work_id; [exact Hwork2|]. intros σ3 _ Hw3.
  eapply kwp_create; [exact Hw3|done|done|apply own_labels|apply task_label|apply command_label|].
  intros [ref|e] σ4 Hset4 Hpod; [|apply kwp_end; [silence|done]]. specialize (Hpod ref eq_refl).
  apply kwp_settled; [by apply ksilent_call|done|]. intros _ σ5 _ Hset5 Hs5.
  pose proof (pod_of_suffix _ _ _ _ _ _ Hs5 Hpod) as Hpod5.
  apply kwp_addPod; [exact Hpod5|]. intros o σ6 Hr6 _ _.
  pose proof (pod_of_suffix _ _ _ _ _ _ (rely_suffix _ _ _ Hr6) Hpod5) as Hpod6.
  apply kwp_settled; [apply ksilent_release|by eapply settled_rely|]. intros [] σ7 _ Hset7 Hs7.
  apply kwp_settled; [by apply ksilent_call|done|]. intros now σ8 _ Hset8 Hs8.
  apply kwp_put_pod.
  { right. simpl. eexists _, _. split; [done|]. eapply pod_of_suffix; [|exact Hpod6].
    etrans; [exact Hs7|done]. }
  intros _ σ9 Hr9 _ _. apply kwp_spawn; [done|]. intros σ10 Hr10 _ _.
  apply kwp_end; [apply ksilent_ret|]. eapply settled_rely; [|exact Hset8]. by etrans.
Qed.

Lemma kwp_start_image task team command claim opened σ :
  work task (Claimed command claim) σ →
  wp main
    (match opened : result string (gmap string string) with
     | Err e => mret (Some e)
     | Ok env =>
         match claim_image claim with
         | None => mret (Some "missing resolved_image")
         | Some image =>
             let source := stringPtr (Docker.cl_image_source claim) in
             id ← executor_id;
             now ← kcall_ KNow;
             _ ← transact (λ disk, mem_put_assignment disk
                   (assignment task team id command image source
                      (stringPtr (Docker.cl_environment claim)) (stringPtr (Docker.cl_token claim))
                      "" "" "claimed" now));
             launch_pod cfg task team command image source env claim
         end
     end) main_end σ.
Proof using.
  intros Hw. pose proof (wk_settled _ _ _ Hw) as Hset.
  destruct opened as [env|e]; [|apply kwp_end; [apply ksilent_ret|done]].
  destruct (claim_image claim) as [image|] eqn:Himg; [|apply kwp_end; [apply ksilent_ret|done]].
  cbv zeta. eapply kwp_work; [apply ksilent_read|exact Hw|]. intros id σ1 _ Hw1.
  eapply kwp_work; [by apply ksilent_call|exact Hw1|]. intros now σ2 _ Hw2.
  eapply kwp_work; [by apply ksilent_put_intent|exact Hw2|]. intros _ σ3 _ Hw3.
  by apply kwp_launch_pod.
Qed.

Lemma kwp_start_claimed task team command claim σ :
  work task (Claimed command claim) σ →
  wp main (start_claimed cfg task team command claim) main_end σ.
Proof using.
  intros Hw. unfold start_claimed. cbv zeta. apply wp_bind.
  destruct (Docker.cl_launch claim) eqn:Hl.
  - case_bool_decide as Htok.
    + intros σ1 Hr1 _ _. apply (kwp_start_image task team command claim (Err _)).
      by eapply work_rely.
    + eapply (kwp_open task _ command claim); [exact Hw|done| |].
      * destruct (Docker.cl_token claim); [done|]. by destruct Htok.
      * intros [values|e] σ1 Hw1 σ2 Hr2 _ _.
        -- apply (kwp_start_image task team command claim (Ok _)). by eapply work_rely.
        -- apply (kwp_start_image task team command claim (Err _)). by eapply work_rely.
  - intros σ1 Hr1 _ _. apply (kwp_start_image task team command claim (Ok _)).
    by eapply work_rely.
Qed.

Lemma kwp_startTask summary σ :
  settled σ → roomy σ → wp main (startTaskV0002 cfg summary) main_end σ.
Proof using.
  intros Hset Hroom. unfold startTaskV0002. cbv zeta.
  set (task := Docker.ts_id summary).
  assert (Hw : work task (phase σ task) σ) by done.
  eapply kwp_work; [apply ksilent_commandIDFor|exact Hw|]. intros command σ1 _ Hw1.
  eapply kwp_work; [apply ksilent_read|exact Hw1|]. intros id σ2 _ Hw2.
  eapply kwp_work; [by apply ksilent_call|exact Hw2|]. intros now σ3 _ Hw3.
  eapply kwp_work; [by apply ksilent_put_intent|exact Hw3|]. intros [_|e] σ4 _ Hw4;
    [|apply kwp_end; [apply ksilent_ret|apply Hw4]].
  apply kwp_claim; [apply Hw4|apply Hw4|]. intros [claim|e] σ5 _ Hset5 Hclaim;
    [|apply kwp_end; [apply ksilent_ret|done]].
  case_bool_decide as Hc; [apply kwp_end; [apply ksilent_ret|done]|].
  apply kwp_start_claimed, Hclaim; done.
Qed.

Lemma kwp_start_all items σ : settled σ → wp main (start_all cfg items) main_end σ.
Proof using.
  revert σ. induction items as [|summary items IH]; intros σ Hset; cbn [start_all].
  { apply kwp_end; [apply ksilent_ret|done]. }
  apply kwp_capacity; [done|]. intros r σ1 Hr1 _ _ Hroom.
  assert (Hset1 : settled σ1) by by eapply settled_rely.
  destruct r as [[]|e]; [|apply kwp_end; [apply ksilent_ret|done]..].
  specialize (Hroom eq_refl). unfold podFor. apply kwp_read. intros σ2 Hr2 _ _.
  assert (Hset2 : settled σ2) by by eapply settled_rely.
  destruct (k_pods σ2 !! _) as [o|]; [by apply IH|].
  apply wp_bind. eapply wp_mono; [|apply kwp_startTask; [done|by eapply kroomy_rely]].
  intros err O σ3 [-> Hset3]. destruct err as [e|]; [apply kwp_end; [apply ksilent_ret|done]|].
  by apply IH.
Qed.

Lemma kwp_tick σ : settled σ → wp main (tickV0002 cfg) main_end σ.
Proof using.
  intros Hset. unfold tickV0002. apply kwp_capacity; [done|]. intros r σ1 Hr1 _ _ _.
  assert (Hset1 : settled σ1) by by eapply settled_rely.
  destruct r as [[]|e]; [|apply kwp_end; [apply ksilent_ret|done]..].
  apply kwp_settled; [by apply ksilent_call|done|]. intros [items|e] σ2 _ Hset2 _;
    [by apply kwp_start_all|apply kwp_end; [apply ksilent_ret|done]].
Qed.

Lemma kwp_poll σ : settled σ → wp main (pollLoop cfg) finished σ.
Proof using.
  intros Hset. unfold pollLoop. apply kwp_settled; [by apply ksilent_call|done|].
  intros [] σ1 _ Hset1 _; [|apply kwp_silent_end, ksilent_setState].
  apply wp_bind. eapply wp_mono; [|by apply kwp_tick]. intros [] O σ2 [-> Hset2] σ3 Hr3 _ _.
  split; [done|]. by apply (settled_rely σ2).
Qed.

(** *** Registration *)

(** A step of the main goroutine that leaves the history and the outbox alone. *)
Lemma main_guar σ σ' :
  kube_ok σ' → k_trace σ' = k_trace σ → outbox_of σ' = outbox_of σ →
  (known_id σ ≠ "" → known_id σ' = known_id σ) → guar main main σ σ'.
Proof using.
  intros Hok Ht Ho Hk. apply guar_same; [done|by intros r ->%elem_of_singleton|..].
  - split_and!; [by rewrite Ht|done|]. intros _ i r Hi. exists r. by rewrite Ho.
  - intros [|u] Hr _; [set_solver|]. split; [by rewrite Ht|]. intros _. unfold same_at.
    rewrite Ho, Ht. split; eauto.
Qed.

Lemma put_executor_ok disk id σ :
  kube_ok σ → k_id σ = known_id σ → (known_id σ ≠ "" → id = known_id σ) →
  let out := mem_put_executor disk id (k_cache σ) in
  let σ' := put_cache out.1 σ in
  guar main main σ σ' ∧ k_id σ' = k_id σ ∧
  (out.2 = Ok () → known_id σ' = id ∧ id ≠ "").
Proof using.
  intros Hok Hid Hsame out σ'.
  assert (Hout : out.1 = k_cache σ ∧ out.2 ≠ Ok () ∨
     id ≠ "" ∧ out.1 = mkMemory id (mm_assignments (k_cache σ)) (mm_outbox (k_cache σ))).
  { subst out. unfold mem_put_executor, mem_write. case_bool_decide; [by left|].
    destruct disk; [by left|by right]. }
  assert (Hkn : known_id σ ≠ "" → known_id σ' = known_id σ).
  { intros Hn. unfold known_id at 1. simpl. destruct Hout as [[-> _]|[_ ->]]; [done|]. simpl. auto. }
  assert (Hrest : mm_assignments out.1 = mm_assignments (k_cache σ) ∧ outbox_of σ' = outbox_of σ).
  { unfold outbox_of. simpl. by destruct Hout as [[-> _]|[_ ->]]. }
  destruct Hrest as [Ha Ho].
  split_and!; [|done|].
  - apply main_guar; [|done..]. pose proof Hok as []. split; try done.
    + simpl. destruct (decide (known_id σ = "")) as [E|E]; [left; congruence|right].
      by rewrite Hkn.
    + intros name labels Hn. destruct (ko_labels0 name labels Hn) as [Hne Hsub]. by rewrite Hkn.
    + simpl. rewrite Ha. done.
    + intros Hd. rewrite Ho. by apply ko_outbox0.
  - intros Hres. destruct Hout as [[_ Hn]|[Hn E]]; [done|]. unfold known_id. simpl. by rewrite E.
Qed.

Lemma kwp_register σ :
  k_id σ = known_id σ →
  wp main (ensureRegistered cfg) (λ r O σ', O = main ∧ (r = None → settled σ')) σ.
Proof using.
  intros Hid. unfold ensureRegistered, PodCount, executor_id.
  assert (Hfail : ∀ (e : string) σ', wp main (mret (Some e) : go (option string)) (λ r O σ', O = main ∧ (r = None → settled σ')) σ').
  { intros e σ' σ'' _ _ _. by split. }
  apply kwp_quietly; [apply ksilent_setState|]. intros [] σ1 Hr1 _ _. apply kwp_read. intros σ2 Hr2 _ _.
  generalize (Z.of_nat (size (k_pods σ2))) as running. intros running.
  apply kwp_read. intros σ3 Hr3 _ _.
  assert (Hr03 : rely main σ σ3) by (etrans; [exact Hr1|]; by etrans).
  assert (Hid3 : k_id σ3 = known_id σ3).
  { destruct (main_keeps _ _ Hr03) as (_ & _ & -> & ->). done. }
  remember (k_id σ3) as known eqn:Hknown.
  apply wp_bind. apply wp_silent; [case_bool_decide; by apply ksilent_call|].
  intros r σ4 Hr4 _ _.
  destruct r as [record|e]; [|apply Hfail].
  destruct (negb _); [apply Hfail|]. case_bool_decide as Hmatch; [apply Hfail|].
  unfold transact. apply kwp_soft_call; [done|]. intros disk σ5 Hr5 _ _ σ6 Hr6 Hok6 Ho6.
  assert (Hr36 : rely main σ3 σ6) by (etrans; [exact Hr4|]; by etrans).
  destruct (main_keeps _ _ Hr36) as (_ & _ & Hi6 & Hk6).
  destruct (put_executor_ok disk (xr_id record) σ6 Hok6) as (Hg & Hi7 & Hstored).
  { congruence. }
  { rewrite Hk6, <- Hid3. intros Hn. apply dec_stable. intros Hne. by apply Hmatch. }
  exists main. split; [done|]. set (out := mem_put_executor disk (xr_id record) (k_cache σ6)) in *.
  change (wp main (match out.2 with
                   | Ok _ => _ ← update (put_id (xr_id record));
                             _ ← setState Docker.StateReady; mret None
                   | Err e => mret (Some e) end)
            (λ r O σ', O = main ∧ (r = None → settled σ')) (put_cache out.1 σ6)).
  destruct (out.2) as [[]|e]; [|apply Hfail]. destruct (Hstored eq_refl) as [Hkn7 Hn7].
  intros σ8 Hr8 Hok8 Ho8. destruct (main_keeps _ _ Hr8) as (_ & _ & _ & Hk8).
  assert (Hset9 : settled (put_id (xr_id record) σ8)).
  { split; unfold known_id; simpl; change (mm_executor (k_cache σ8)) with (known_id σ8); congruence. }
  exists main. split.
  - apply main_guar; [|done..]. pose proof Hok8 as []. split; try done. right. apply Hset9.
  - apply kwp_settled; [apply ksilent_setState|exact Hset9|].
    intros [] σ10 _ Hset10 _ σ11 Hr11 _ _. split; [done|]. intros _. by eapply settled_rely.
Qed.

(** *** Recovery *)

Lemma in_key_order_elem {A} (m : gmap string A) x : x ∈ in_key_order m → ∃ k, m !! k = Some x.
Proof using. unfold in_key_order. intros (k & _ & Hk)%list_elem_of_omap. by exists k. Qed.

Definition refs_ok (l : list AssignmentRecord) (σ : Executor) : Prop :=
  ∀ r, r ∈ l → ref_ok (k_trace σ) r.

Lemma refs_ok_suffix l σ σ' : k_trace σ `suffix_of` k_trace σ' → refs_ok l σ → refs_ok l σ'.
Proof using. intros Hs Hl r Hr. by eapply ref_ok_suffix, Hl. Qed.

(** Reading the cache. *)
Lemma kwp_mem_read {A B} (f : Memory → B) (k : result string B → go A) Q O σ :
  (∀ a σ1 σ2, rely O σ σ1 → kube_ok σ1 → rely O σ1 σ2 → kube_ok σ2 → owned O σ2 →
     (∀ v, a = Ok v → v = f (k_cache σ1)) → wp O (k a) Q σ2) →
  wp O (transact (λ disk m, mem_read disk m (f m)) ≫= k) Q σ.
Proof using.
  intros Hk. unfold transact. apply kwp_soft_call; [done|]. intros disk σ1 Hr1 _ _ σ2 Hr2 Hok2 Ho2.
  assert (Hsoft : soft σ2 (put_cache (k_cache σ2) σ2)) by by apply soft_same.
  destruct (soft_calm O _ _ Hsoft Hok2 Ho2) as [Hg Hr]. exists O. split; [done|].
  apply (Hk _ σ2); [by etrans|done|done|apply Hg..|]. simpl. intros v Hv. by destruct disk; simplify_eq.
Qed.

Lemma kwp_keep_matching commands l (Q : list AssignmentRecord → gset token → Executor → Prop) O σ :
  (∀ l' σ1, rely O σ σ1 → kube_ok σ1 → owned O σ1 → l' ⊆ l → Q l' O σ1) →
  wp O (keep_matching commands l) Q σ.
Proof using.
  revert Q σ. induction l as [|r l IH]; intros Q σ HQ; cbn [keep_matching].
  { intros σ1 Hr1 Hok1 Ho1. by apply HQ. }
  case_bool_decide; [apply IH; intros l' σ1 Hr1 Hok1 Ho1 Hl; apply HQ; [done..|set_solver]|].
  case_bool_decide.
  - apply wp_bind, IH. intros l' σ1 Hr1 _ _ Hl σ2 Hr2 Hok2 Ho2. apply HQ; [by etrans|done..|set_solver].
  - apply kwp_quietly; [apply ksilent_delete_assignment|]. intros _ σ1 Hr1 _ _. apply IH.
    intros l' σ2 Hr2 Hok2 Ho2 Hl. apply HQ; [by etrans|done..|set_solver].
Qed.

Lemma kwp_Reconcile {A} (k : result string (list AssignmentRecord) → go A) Q σ :
  settled σ →
  (∀ a σ1, settled σ1 → (∀ l, a = Ok l → refs_ok l σ1) → wp main (k a) Q σ1) →
  wp main (Reconcile cfg ≫= k) Q σ.
Proof using.
  intros Hset Hk. unfold Reconcile. apply wp_bind.
  change (mem_assignments) with (λ disk m, mem_read disk m (in_key_order (mm_assignments m))).
  apply kwp_mem_read. intros a σ1 σ2 Hr1 Hok1 Hr2 _ _ Hall.
  assert (Hset2 : settled σ2) by (eapply settled_rely; [etrans; [exact Hr1|exact Hr2]|done]).
  destruct a as [all|e];
    [|intros σ3 Hr3 _ _; apply Hk; [by eapply settled_rely|done]].
  assert (Hrefs : refs_ok all σ2).
  { apply (refs_ok_suffix _ σ1); [by eapply rely_suffix|]. rewrite (Hall all eq_refl).
    intros r (t & Ht)%in_key_order_elem. by apply (ko_refs _ Hok1 t). }
  case_bool_decide.
  { intros σ3 Hr3 _ _. apply Hk; [by eapply settled_rely|]. intros l [= <-].
    eapply refs_ok_suffix; [by eapply rely_suffix|done]. }
  unfold executor_id. apply kwp_read. intros σ3 Hr3 _ _.
  apply kwp_quietly; [by apply ksilent_call|]. intros [pods|e] σ4 Hr4 _ _.
  - apply wp_bind, kwp_keep_matching. intros l σ5 Hr5 _ _ Hl σ6 Hr6 _ _.
    assert (Hr26 : rely main σ2 σ6) by (do 3 (etrans; [eassumption|]); done).
    apply Hk; [by eapply settled_rely|]. intros l' [= <-] r Hr.
    eapply ref_ok_suffix; [by eapply rely_suffix|]. by apply Hrefs, Hl.
  - intros σ5 Hr5 _ _. apply Hk; [|done]. eapply settled_rely; [|exact Hset2].
    etrans; [exact Hr3|]. by etrans.
Qed.

(** A record that was read from the outbox. *)
Definition kept (r : EventOutboxRecord) (σ : Executor) : Prop :=
  distinct (k_trace σ) →
  ∃ r', outbox_of σ !! ob_event r = Some r' ∧ event_of r' = event_of r.

Lemma kept_rely O r σ σ' : rely O σ σ' → kept r σ → kept r σ'.
Proof using.
  intros [(Hs & _ & Hst) _] Hk Hd. destruct (Hk (distinct_suffix _ _ Hs Hd)) as (r1 & H1 & E1).
  destruct (Hst Hd _ _ H1) as (r2 & H2' & E2). exists r2. split; [done|congruence].
Qed.

Lemma kept_sendable r σ : kube_ok σ → kept r σ → sendable (event_of r) σ.
Proof using.
  intros Hok Hk Hd. destruct (Hk Hd) as (r' & Hr' & <-).
  destruct (oo_records _ _ (ko_outbox _ Hok Hd) _ _ Hr') as [Hid Hu _ Hsent].
  assert (Hke : ke_id (event_of r') = ob_event r) by exact Hid. rewrite Hke. split_and!.
  - exact Hu.
  - intros r2 H2'. by simplify_eq.
  - intros e He Hse. by apply Hsent.
Qed.

Lemma kwp_retry_all l σ :
  settled σ → (∀ r, r ∈ l → kept r σ) → wp main (retry_all l) main_end σ.
Proof using.
  revert σ. induction l as [|r l IH]; intros σ Hset Hl; cbn [retry_all].
  { apply kwp_end; [apply ksilent_ret|done]. }
  intros a σ1 _ Hr1 Hok1 Ho1. exists main.
  assert (Hkept : kept r σ1) by (eapply kept_rely, Hl; [done|by left]).
  set (σ2 := record_call _ a σ1). assert (Hset2 : settled σ2) by exact (settled_rely _ _ Hr1 Hset).
  split.
  { apply send_guar; [done|done|by apply kept_sendable|left; set_solver|].
    intros v Hd _ Hv. destruct (Hkept Hd) as (r' & Hr' & _). exists r'. by rewrite <- Hv. }
  destruct a as [e|]; [apply kwp_end; [apply ksilent_ret|done]|].
  apply (kwp_accept (event_of r)); [by left|done|]. intros accepted σ3 Hr3 _ _.
  destruct accepted as [_|e]; [|apply kwp_end; [apply ksilent_ret|by eapply settled_rely]].
  apply IH; [by eapply settled_rely|]. intros r' Hin. eapply kept_rely; [exact Hr3|].
  intros Hd. apply (kept_rely _ _ _ _ Hr1 (Hl r' ltac:(by right))).
  eapply distinct_suffix; [apply suffix_record|exact Hd].
Qed.

Lemma kwp_retry σ : settled σ → wp main retryPendingOutbox main_end σ.
Proof using.
  intros Hset. unfold retryPendingOutbox.
  change mem_pending with (λ disk m, mem_read disk m
    (filter (λ r, ob_state r = "pending") (in_key_order (mm_outbox m)))).
  apply kwp_mem_read. intros a σ1 σ2 Hr1 Hok1 Hr2 Hok2 _ Ha.
  assert (Hset2 : settled σ2) by (eapply settled_rely; [etrans; [exact Hr1|exact Hr2]|done]).
  destruct a as [l|e]; [|apply kwp_end; [apply ksilent_ret|done]].
  apply kwp_retry_all; [done|]. rewrite (Ha l eq_refl).
  intros r [_ (i & Hi)%in_key_order_elem]%list_elem_of_filter.
  eapply kept_rely; [exact Hr2|]. intros Hd. exists r. split; [|done].
  destruct (oo_records _ _ (ko_outbox _ Hok1 Hd) i r Hi) as [Hid _ _ _]. by rewrite Hid.
Qed.

Lemma split_runtime_ref name uid :
  "@"%char ∉ chars name → split_ref (runtime_ref name uid) = Some (name, uid).
Proof using.
  intros Hn. unfold split_ref, runtime_ref. rewrite chars_app.
  change (chars ("@" +:+ uid)) with ("@"%char :: chars uid). rewrite split_chars_app by done.
  rewrite bool_decide_eq_false_2 by apply split_chars_nonempty.
  by rewrite join_split, !of_chars_chars.
Qed.

Lemma kwp_reattach l σ : settled σ → refs_ok l σ → wp main (reattach l) main_end σ.
Proof using.
  revert σ. induction l as [|r l IH]; intros σ Hset Hl; cbn [reattach].
  { apply kwp_end; [apply ksilent_ret|done]. }
  destruct (split_ref (as_runtime_ref r)) as [[name uid]|] eqn:Hsplit;
    [|apply kwp_end; [apply ksilent_ret|done]].
  case_bool_decide; [apply kwp_end; [apply ksilent_ret|done]|].
  destruct (Hl r ltac:(by left)) as [He|(name' & uid' & He & Hpod)]; [by rewrite He in Hsplit|].
  assert (Hn : "@"%char ∉ chars name') by (by destruct Hpod as (? & ? & _ & _ & _ & ? & _)).
  rewrite He, split_runtime_ref in Hsplit by done. injection Hsplit as -> ->.
  apply kwp_addPod; [exact Hpod|]. intros o σ1 Hr1 _ _.
  apply kwp_spawn; [done|]. intros σ2 Hr2 _ _.
  assert (Hr02 : rely main σ σ2) by by etrans.
  apply IH; [by eapply settled_rely|]. intros r' Hr'. eapply ref_ok_suffix; [by eapply rely_suffix|].
  apply Hl. by right.
Qed.

Lemma kwp_Run σ : k_id σ = known_id σ → wp main (Run cfg) finished σ.
Proof using.
  intros Hid. unfold Run. apply wp_bind. eapply wp_mono; [|by apply kwp_register].
  intros r O σ1 [-> Hset]. destruct r as [e|]; [apply kwp_silent_end, ksilent_setState|].
  specialize (Hset eq_refl). apply wp_bind.
  assert (Hend : ∀ (r : option string) O σ', main_end r O σ' →
    wp O (match r with Some _ => mret () | None => Goto TPoll end : go ()) finished σ').
  { intros r O σ' [-> Hs]. destruct r; [apply kwp_silent_end, ksilent_ret|].
    intros σ'' Hr _ _. split; [done|]. by apply (settled_rely σ'). }
  eapply wp_mono; [exact Hend|]. unfold reconcileCachedWork.
  apply kwp_Reconcile; [done|]. intros a σ2 Hset2 Hrefs.
  destruct a as [l|e]; [|apply kwp_end; [apply ksilent_ret|done]].
  apply wp_bind. eapply wp_mono; [|apply (wp_evolves record_call sane pre main _ main_end σ2 σ2); [reflexivity|by apply kwp_retry]].
  intros refused O σ3 [[-> Hset3] (Hs3 & _)].
  destruct refused as [e|]; [apply kwp_end; [apply ksilent_ret|done]|].
  apply kwp_reattach; [done|]. eapply refs_ok_suffix; [exact Hs3|]. by apply Hrefs.
Qed.

(** ** Every goroutine, and every restart *)

Lemma kube_verified : verified record_call sane (thread_body cfg) pre.
Proof using.
  intros t O σ Hi Ho Hpre. destruct t; simpl in Hpre |- *.
  - destruct Hpre as [-> Hid]. by apply kwp_Run.
  - destruct Hpre as [-> Hset]. by apply kwp_poll.
  - subst. apply kwp_watch_pod.
  - subst. apply kwp_address.
  - subst. apply kwp_serve.
  - subst. apply kwp_monitor.
  - subst. apply kwp_watch.
  - subst. apply kwp_wait.
  - subst. apply kwp_read_round.
Qed.

(** A process that starts on what is left of another. *)
Lemma process_ok σ :
  kube_ok σ →
  world_ok record_call sane pre (process cfg (k_cache σ) (k_trace σ))
    (λ i, if decide (i = 0%nat) then main else ∅).
Proof using.
  intros []. split; simpl.
  - split; try done. by right.
  - intros i p [<- <-]%lookup_singleton_Some. simpl. by apply kwp_Run.
  - intros i p [<- <-]%lookup_singleton_Some r Hr%elem_of_singleton. by subst.
  - intros i j r [? [<- _]%lookup_singleton_Some] [? [<- _]%lookup_singleton_Some]. done.
  - done.
Qed.

Lemma empty_ok : 0 ≤ kc_max cfg → kube_ok (New empty_memory []).
Proof using.
  intros Hmax. split; try done.
  - by left.
  - intros _. split; [done|..]; intros e; [|intros e']; intros Hs; by apply elem_of_nil in Hs.
Qed.

Lemma kube_invariant w :
  0 ≤ kc_max cfg → reachable_kube cfg w →
  kube_ok (w_state w) ∧ ∃ Os, world_ok record_call sane pre w Os.
Proof using.
  intros Hmax Hw. assert (∃ Os, world_ok record_call sane pre w Os) as [Os Hok].
  { pose proof (process_ok _ (empty_ok Hmax)) as Hstart.
    change (process cfg (k_cache (New empty_memory [])) (k_trace (New empty_memory [])))
      with (start_world cfg) in Hstart.
    unfold reachable_kube in Hw. revert Hw Hstart. generalize (start_world cfg) as w0.
    intros w0 Hw. generalize (λ i : nat, if decide (i = 0%nat) then main else ∅) as Os0.
    induction Hw as [w|w0 w1 w Hs _ IH]; intros Os0 Hok; [by exists Os0|].
    destruct Hs as [w1 Hs|].
    - destruct (world_ok_step _ _ _ _ w0 w1 Os0 kube_verified Hok Hs) as [Os1 Hok1]. by apply (IH Os1).
    - eapply IH, process_ok, Hok. }
  split; [apply Hok|by exists Os].
Qed.
End safety.
