(* ===== verification/KubeProps.v ===== *)
(** * The contract of the Kubernetes executor

    What the protocol of KubeSafe says of the pods it creates, of their number, of its reports and
    of what it finds again after a restart; with the runs that show each of them on a concrete
    executor, and those that show what a restart does not survive. *)

From stdpp Require Import base gmap sets list strings sorting relations fin_sets.
From Stdlib Require Import Ascii.
From S2P Require Import Prelude Platform GoStrings Cursor OpenHands Conc Cache Kube KubeSafe.
From S2P Require Docker.
#[local] Open Scope Z_scope.

Section contract.
Context {JC : JsonCodec} {TC : TimeCodec} {MR : MapRange}.
Context (cfg : Config).

(** ** Histories *)

Definition creates (task : string) (a : answered) : bool :=
  match an_call a with
  | KCreatePod spec => bool_decide (sp_labels spec !! LabelTaskID = Some task)
  | _ => false
  end.
Definition no_pod (task : string) (l : list answered) : Prop := Forall (λ a, creates task a = false) l.

Lemma kphase_of_cons task c r trace :
  phase_of task (mkAnswered c r :: trace) = call_step task (phase_of task trace) c r.
Proof using. done. Qed.

Lemma ktask_step_Broken task a : task_step task a Broken = Broken.
Proof using.
  destruct a as [c r]. unfold task_step. simpl. destruct c; simpl; try done; case_bool_decide; try done.
Qed.

Lemma kphase_of_prefix task after before :
  phase_of task (after ++ before) ≠ Broken → phase_of task before ≠ Broken.
Proof using.
  induction after as [|a after IH]; [done|]. intros Hb. apply IH. intros E. apply Hb.
  unfold phase_of in *. simpl. by rewrite E, ktask_step_Broken.
Qed.

(** A step that leaves a granted task as it is creates no pod for it. *)
Lemma granted_same task a ph :
  task_step task a ph = ph → ph ≠ Idle → ph ≠ Broken → creates task a = false.
Proof using.
  destruct a as [c r]. unfold task_step, creates. simpl. destruct c; simpl; try done.
  case_bool_decide; [|done]. unfold create_step. destruct ph; try done. by case_bool_decide.
Qed.

Lemma grant_history task trace command claim :
  phase_of task trace = Claimed command claim →
  Docker.cl_claim claim = "claimed" ∧
  ∃ later earlier, trace = later ++ mkAnswered (KClaimTask task command) (Ok claim) :: earlier ∧
    no_pod task later.
Proof using.
  induction trace as [|[c r] trace IH]; [done|]. intros Hp. rewrite kphase_of_cons in Hp.
  assert (Hsame : phase_of task trace = Claimed command claim →
    Docker.cl_claim claim = "claimed" ∧
    ∃ later earlier, mkAnswered c r :: trace =
      later ++ mkAnswered (KClaimTask task command) (Ok claim) :: earlier ∧ no_pod task later).
  { intros E. destruct (IH E) as (Hc & later & earlier & -> & Hno). split; [done|].
    exists (mkAnswered c r :: later), earlier. split; [done|]. constructor; [|done].
    apply (granted_same _ _ (Claimed command claim)); [|done..]. by rewrite E in Hp. }
  destruct c; simpl in Hp; try exact (Hsame Hp); case_bool_decide as Ht; try exact (Hsame Hp).
  - subst. destruct (phase_of task trace), r as [cl|e]; simpl in Hp; try done;
      case_bool_decide; simplify_eq; (split; [done|]); exists [], trace; by split; [|constructor].
  - apply Hsame. unfold open_step in Hp. destruct (phase_of task trace); try done. by case_match.
  - apply Hsame. by destruct (phase_of task trace), r.
  - unfold create_step in Hp. destruct (phase_of task trace); try done. by case_bool_decide.
Qed.

Lemma running_history task trace command claim :
  phase_of task trace = Working command claim →
  ∃ later e middle earlier,
    trace = later ++ mkAnswered (KAppendTaskEvent e) None :: middle ++
            mkAnswered (KClaimTask task command) (Ok claim) :: earlier ∧
    Docker.cl_claim claim = "claimed" ∧ ke_task e = task ∧ ke_type e = "running" ∧
    no_pod task later ∧ no_pod task middle.
Proof using.
  induction trace as [|[c r] trace IH]; [done|]. intros Hp. rewrite kphase_of_cons in Hp.
  assert (Hsame : phase_of task trace = Working command claim →
    ∃ later e middle earlier,
      mkAnswered c r :: trace = later ++ mkAnswered (KAppendTaskEvent e) None :: middle ++
            mkAnswered (KClaimTask task command) (Ok claim) :: earlier ∧
      Docker.cl_claim claim = "claimed" ∧ ke_task e = task ∧ ke_type e = "running" ∧
      no_pod task later ∧ no_pod task middle).
  { intros E. destruct (IH E) as (later & e & middle & earlier & -> & ? & ? & ? & Hno & ?).
    exists (mkAnswered c r :: later), e, middle, earlier. split_and!; try done. constructor; [|done].
    apply (granted_same _ _ (Working command claim)); [|done..]. by rewrite E in Hp. }
  destruct c; simpl in Hp; try exact (Hsame Hp); case_bool_decide as Ht; try exact (Hsame Hp).
  - destruct (phase_of task trace), r as [cl|er]; simpl in Hp; try done; by case_bool_decide.
  - apply Hsame. unfold open_step in Hp. destruct (phase_of task trace); try done. by case_match.
  - destruct (phase_of task trace) eqn:Hph, r as [er|]; simpl in Hp; try done; simplify_eq;
      try by apply Hsame.
    destruct (grant_history _ _ _ _ Hph) as (Hc & middle & earlier & -> & Hno).
    exists [], e, middle, earlier. destruct Ht. split_and!; try done. constructor.
  - unfold create_step in Hp. destruct (phase_of task trace); try done. by case_bool_decide.
Qed.

(** ** The contract *)

Lemma reachable_kube_ok w : 0 ≤ kc_max cfg → reachable_kube cfg w → kube_ok cfg (w_state w).
Proof using. intros Hmax Hw. by apply kube_invariant. Qed.

(** C10. A pod is created for a task only under a claim that the registry granted for that task, after
    the registry accepted a [running] report on it; it gets the image of the claim and carries the
    claim's command identifier, and no grant is used for two pods: whatever is created for the task
    between the claim and this pod is nothing. Restarts of the process do not change this. *)
Theorem pod_authorised w task spec r after before :
  0 ≤ kc_max cfg → reachable_kube cfg w →
  k_trace (w_state w) = after ++ mkAnswered (KCreatePod spec) r :: before →
  sp_labels spec !! LabelTaskID = Some task →
  ∃ command claim later e middle earlier,
    before = later ++ mkAnswered (KAppendTaskEvent e) None :: middle ++
             mkAnswered (KClaimTask task command) (Ok claim) :: earlier ∧
    Docker.cl_claim claim = "claimed" ∧ ke_task e = task ∧ ke_type e = "running" ∧
    no_pod task later ∧ no_pod task middle ∧
    claim_image claim = Some (sp_image spec) ∧
    sp_labels spec !! LabelCommandID = Some command.
Proof using.
  intros Hmax Hw Ht Hl. pose proof (ko_phase _ _ (reachable_kube_ok w Hmax Hw) task) as Hb.
  unfold phase in Hb. rewrite Ht in Hb. apply kphase_of_prefix in Hb. rewrite kphase_of_cons in Hb.
  simpl in Hb. rewrite bool_decide_eq_true_2 in Hb by done. unfold create_step in Hb.
  destruct (phase_of task before) as [|cmd cl|cmd cl|] eqn:Hp; try done.
  case_bool_decide as Hspec; [|done]. destruct Hspec as [Himg Hcmd].
  destruct (running_history _ _ _ _ Hp) as (later & e & middle & earlier & -> & ? & ? & ? & ? & ?).
  by exists cmd, cl, later, e, middle, earlier.
Qed.

(** The environment of a task is opened only while its claim is held that says it has launch
    parameters, and with the scope token of that claim. *)
Theorem environment_authorised w task token r after before :
  0 ≤ kc_max cfg → reachable_kube cfg w →
  k_trace (w_state w) = after ++ mkAnswered (KOpenEnvironment task token) r :: before →
  ∃ command claim later earlier,
    before = later ++ mkAnswered (KClaimTask task command) (Ok claim) :: earlier ∧
    Docker.cl_claim claim = "claimed" ∧ Docker.cl_launch claim = true ∧
    Docker.cl_token claim = Some token ∧ no_pod task later.
Proof using.
  intros Hmax Hw Ht. pose proof (ko_phase _ _ (reachable_kube_ok w Hmax Hw) task) as Hb.
  unfold phase in Hb. rewrite Ht in Hb. apply kphase_of_prefix in Hb. rewrite kphase_of_cons in Hb.
  simpl in Hb. rewrite bool_decide_eq_true_2 in Hb by done. unfold open_step in Hb.
  destruct (phase_of task before) as [|cmd cl|cmd cl|] eqn:Hp; try done.
  case_match eqn:Hopen; [|done]. apply andb_prop in Hopen as [Hl Htok%bool_decide_eq_true].
  destruct (grant_history _ _ _ _ Hp) as (Hc & later & earlier & -> & Hno).
  by exists cmd, cl, later, earlier.
Qed.

(** C12. The capacity, across restarts: as long as every listing of the executor's pods named all of
    them, no more than EXECUTOR_MAX_PODS were ever created and not handed to their deletion. *)
Theorem max_pods_respected w :
  0 ≤ kc_max cfg → reachable_kube cfg w → truthful (k_trace (w_state w)) →
  Z.of_nat (size (alive (k_trace (w_state w)))) ≤ kc_max cfg.
Proof using. intros Hmax Hw. exact (ko_capacity _ _ (reachable_kube_ok w Hmax Hw)). Qed.

(** C11. The outbox: with distinct identifiers, a record in it is pending or accepted, and it is
    accepted only after the registry acknowledged this very event; all that was ever sent under
    its identifier is what it holds; and whatever is sent twice under one identifier, by whichever
    process, is the same event in every field. *)
Theorem outbox_contract w :
  0 ≤ kc_max cfg → reachable_kube cfg w → distinct (k_trace (w_state w)) →
  (∀ i r, mm_outbox (k_cache (w_state w)) !! i = Some r →
    ob_event r = i ∧
    (ob_state r = "pending" ∨
     ob_state r = "accepted" ∧ acknowledged (event_of r) (k_trace (w_state w))) ∧
    ∀ e, sent e (k_trace (w_state w)) → ke_id e = i → e = event_of r) ∧
  ∀ e e', sent e (k_trace (w_state w)) → sent e' (k_trace (w_state w)) → ke_id e = ke_id e' → e = e'.
Proof using.
  intros Hmax Hw Hd. pose proof (ko_outbox _ _ (reachable_kube_ok w Hmax Hw) Hd) as [Hr _ Hu].
  split; [|done]. intros i r Hi. by destruct (Hr i r Hi) as [Hid _ Hst Hsent].
Qed.

(** A process that restarts takes up its own pods only: every slot names, by name and unique
    identifier, a pod that this executor created for the task and under the command of the slot. *)
Theorem slots_name_own_pods w o s :
  0 ≤ kc_max cfg → reachable_kube cfg w → k_heap (w_state w) !! o = Some s →
  ∃ spec ref, mkAnswered (KCreatePod spec) (Ok ref) ∈ k_trace (w_state w) ∧
    sp_name spec = ps_name s ∧ pr_uid ref = ps_uid s ∧
    sp_labels spec !! LabelTaskID = Some (ps_task s) ∧
    sp_labels spec !! LabelCommandID = Some (ps_command s).
Proof using.
  intros Hmax Hw Ho. destruct (ko_slots _ _ (reachable_kube_ok w Hmax Hw) o s Ho)
    as (spec & ref & Hin & Hn & Hu & _ & Ht & Hc).
  by exists spec, ref.
Qed.
End contract.

(** ** Runs *)

#[local] Existing Instances time_bits json_plain.

(** Maps are visited in the order of their document. *)
Definition range_in_order : MapRange.
Proof. refine {| range l := l |}. done. Defined.
#[local] Existing Instance range_in_order.

Definition fx_kube (max : Z) : Config :=
  mkConfig max "http://registry" "team" "team" "tag" "ns" "account" "class" "/cache" "" 8000
    "if-not-present" 0 0 "/workspace" "usage" "" true.

Definition fx_claim (task : string) : Docker.V0002ClaimResponse :=
  Docker.mkClaim "claimed"
    (Docker.mkTaskEntry task "team" "src" task "type" "tag" "do it" "claimed" None (Some "ex1") None
       None None None None "" None)
    (Some (mkImageRef "repo" "v1" "")) (Some "task") None None true (Some "token").
Definition fx_values : gmap string string :=
  list_to_map [("OPENAI_API_KEY", "k"); ("OPENAI_BASE_URL", "u"); ("OPENAI_MODEL", "m")].
Definition fx_pod (task command : string) : PodState :=
  mkPodState (mkPodRef ("oh-" +:+ shortID task) ("uid-" +:+ task)) "10.0.0.1" PodStatusRunning
    (BuildTaskLabels "ex1" "team" task command "team" "task").

(** An outside in which every request succeeds; what differs is the pending task, the listed pods,
    whether the registry refuses events, and whether Kubernetes creates pods. *)
Record outside : Type := mkOutside {
  os_task : string; os_now : Z; os_pods : list PodState; os_refuses : bool; os_creates : bool }.

Definition answer_of (n : nat) (out : outside) : oracle kres := λ c,
  match c with
  | KUuid => pretty.pretty n
  | KNow => os_now out
  | KPollTick => true
  | KCtxDone => false
  | KDisk => None
  | KSelect => SelTerminal
  | KListPods _ => Ok (os_pods out)
  | KDiscoverTasks _ _ => Ok [Docker.mkSummary (os_task out) "team" "tag" "pending" 1]
  | KClaimTask task _ => Ok (fx_claim task)
  | KOpenEnvironment _ _ => Ok fx_values
  | KCreateExecutor | KRegisterExecutor _ => Ok (mkRecord "ex1" "team" (Some "team") "tag")
  | KCreatePod spec =>
      if os_creates out && bool_decide ("@"%char ∉ chars (sp_name spec)) then 
        Ok (mkPodRef (sp_name spec) ("uid-" +:+ sp_task spec))
      else Err (Docker.mkError None "quota")
  | KPodUpdate _ => Some (fx_pod (os_task out) "")
  | KStartConversation _ _ => Ok "conv"
  | KReadMessage _ => Docker.FrameData (Some (JObj [("execution_status", JStr "finished")]))
  | KListAssignedControls _ => Ok []
  | KWaitDelay _ => ()
  | KAppendTaskEvent _ =>
      if os_refuses out then Some (Docker.mkError None "refused") else None
  | KDeletePod _ | KWatchPod _ | KHealthCheck _ | KDial _ | KAppendTaskLog _ _ _ _ _
  | KAppendTaskControlEvent _ _ _ _ _ _ | KPauseConversation _ _ => None
  end.

(** A run: so many steps of a goroutine under an outside; or a restart. *)
Inductive event : Type := Steps (n i : nat) (out : outside) | Crash.

Fixpoint fx_steps (cfg : Config) (clock n i : nat) (out : outside)
    (w : world Executor thread kres) : world Executor thread kres :=
  match n with
  | O => w
  | S n' => fx_steps cfg (S clock) n' i out
              (run_schedule record_call (thread_body cfg) [(i, answer_of clock out)] w)
  end.
Fixpoint fx_go (cfg : Config) (clock : nat) (l : list event) (w : world Executor thread kres) :
    world Executor thread kres :=
  match l with
  | [] => w
  | Steps n i out :: l' => fx_go cfg (clock + n) l' (fx_steps cfg clock n i out w)
  | Crash :: l' => fx_go cfg clock l' (process cfg (k_cache (w_state w)) (k_trace (w_state w)))
  end.
Definition fx_run (cfg : Config) (l : list event) : world Executor thread kres :=
  fx_go cfg 0 l (start_world cfg).

Lemma fx_steps_reachable cfg clock n i out w :
  reachable_kube cfg w → reachable_kube cfg (fx_steps cfg clock n i out w).
Proof.
  revert clock w. induction n as [|n IH]; intros clock w Hw; [done|]. apply IH.
  unfold reachable_kube. etrans; [exact Hw|].
  apply (rtc_subrel (world_step record_call sane (thread_body cfg))); [by apply kube_thread|].
  apply (run_schedule_steps record_call sane (thread_body cfg)).
  intros j answer [= -> ->]%list_elem_of_singleton c.
  destruct c; simpl; try done.
  destruct (os_creates out); [|done]. simpl. by case_bool_decide.
Qed.

Lemma fx_go_reachable cfg clock l w : reachable_kube cfg w → reachable_kube cfg (fx_go cfg clock l w).
Proof.
  revert clock w. induction l as [|[n i out|] l IH]; intros clock w Hw; [done|..]; apply IH.
  - by apply fx_steps_reachable.
  - eapply rtc_r; [exact Hw|apply kube_restart].
Qed.

Lemma fx_go_run_reachable cfg l : reachable_kube cfg (fx_run cfg l).
Proof. apply fx_go_reachable. apply rtc_refl. Qed.

Definition fx_out (task : string) (pods : list PodState) : outside := mkOutside task 7 pods false true.
Definition fx_command : string := commandIDForStable 7.
Definition pod1 : PodState := fx_pod "t1" fx_command.
Definition pod2 : PodState := fx_pod "t2" fx_command.

(** The main goroutine is 0; that of the first pod is 1; it starts 2, which watches the pod, and 3,
    which reads the stream. *)
Definition full_run : world Executor thread kres :=
  fx_run (fx_kube 1)
    [Steps 60 0 (fx_out "t1" []); Steps 40 1 (fx_out "t1" [pod1]);
     Steps 10 3 (fx_out "t1" [pod1]); Steps 40 1 (fx_out "t1" [pod1])].

(** The process ends while the task runs, and another one takes it up. *)
Definition recovered_run : world Executor thread kres :=
  fx_run (fx_kube 1)
    [Steps 60 0 (fx_out "t1" []); Steps 40 1 (fx_out "t1" [pod1]); Crash;
     Steps 60 0 (fx_out "t1" [pod1]); Steps 40 1 (fx_out "t1" [pod1]);
     Steps 10 3 (fx_out "t1" [pod1]); Steps 40 1 (fx_out "t1" [pod1])].

(** What a history shows. *)
Definition task_reports (w : world Executor thread kres) : list (string * string) :=
  reverse (omap (λ a, match an_call a with
                      | KAppendTaskEvent e => Some (ke_type e, ke_task e) | _ => None end)
             (k_trace (w_state w))).
Definition claims (w : world Executor thread kres) : list (string * string) :=
  reverse (omap (λ a, match an_call a with
                      | KClaimTask task command => Some (task, command) | _ => None end)
             (k_trace (w_state w))).
Definition conversations (w : world Executor thread kres) : nat :=
  length (filter (λ a, match an_call a with KStartConversation _ _ => true | _ => false end = true)
            (k_trace (w_state w))).
Definition assignment_states (w : world Executor thread kres) : list (string * string) :=
  prod_map id as_state <$> map_to_list (mm_assignments (k_cache (w_state w))).

(** A complete run: the task is reported as running and finished, its pod deleted, its assignment
    forgotten. The process in between makes no difference: one claim, one pod, one conversation. *)
Example complete_run_reports :
  task_reports full_run = [("running", "t1"); ("finished", "t1")] ∧
  alive (k_trace (w_state full_run)) = ∅ ∧ assignment_states full_run = [].
Proof. split_and!; vm_compute; reflexivity. Qed.

Example recovered_run_reports :
  task_reports recovered_run = [("running", "t1"); ("finished", "t1")] ∧
  claims recovered_run = [("t1", fx_command)] ∧ conversations recovered_run = 1%nat ∧
  alive (k_trace (w_state recovered_run)) = ∅ ∧ assignment_states recovered_run = [].
Proof. split_and!; vm_compute; reflexivity. Qed.

(** The process ends between the creation of a pod and the record of it: the pod is listed, so its
    assignment is kept, but it has no reference, and that ends the new process. So it does each
    time: the executor does not poll any more, and the task stays reported as running. *)
Definition torn_run (restarts : nat) : world Executor thread kres :=
  fx_run (fx_kube 1)
    (Steps 50 0 (fx_out "t1" []) :: concat (replicate restarts [Crash; Steps 60 0 (fx_out "t1" [pod1])])).

Example torn_start :
  w_threads (torn_run 1) = ∅ ∧ w_threads (torn_run 3) = ∅ ∧
  task_reports (torn_run 3) = [("running", "t1")] ∧
  assignment_states (torn_run 3) = [("t1", "claimed")].
Proof. split_and!; vm_compute; reflexivity. Qed.

(** An event that was not sent before the process ended, and is refused when it is retried, ends
    the new process too: no later event is retried and no task is taken up. *)
Definition refused_run : world Executor thread kres :=
  fx_run (fx_kube 1)
    [Steps 43 0 (fx_out "t1" []); Crash; Steps 60 0 (mkOutside "t1" 7 [] true true); Crash;
     Steps 60 0 (mkOutside "t1" 7 [] true true)].

Example refused_start :
  w_threads refused_run = ∅ ∧ task_reports refused_run = [("running", "t1"); ("running", "t1")].
Proof. split_and!; vm_compute; reflexivity. Qed.

(** Pods are matched by their command identifier alone, and two tasks that are taken in the same
    instant have the same one: the pod of the first is gone, that of the second keeps it. *)
Definition gone_run : world Executor thread kres :=
  fx_run (fx_kube 2)
    [Steps 60 0 (fx_out "t1" []); Steps 60 0 (fx_out "t2" [pod1]); Crash;
     Steps 60 0 (fx_out "t1" [pod2])].

Example gone_pod_kept :
  claims gone_run = [("t1", fx_command); ("t2", fx_command)] ∧
  (map_to_list (k_pods (w_state gone_run))).*1 = ["t1"; "t2"].
Proof. split_and!; vm_compute; reflexivity. Qed.

(** The intent to claim does not outlive the process: without a pod it is dropped, and the task is
    claimed again under another command. *)
Definition intent_run : world Executor thread kres :=
  fx_run (fx_kube 1)
    [Steps 31 0 (fx_out "t1" []); Crash; Steps 40 0 (mkOutside "t1" 8 [] false true)].

Example intent_dropped :
  claims intent_run = [("t1", commandIDForStable 7); ("t1", commandIDForStable 8)] ∧
  commandIDForStable 7 ≠ commandIDForStable 8.
Proof. split; [vm_compute; reflexivity|by vm_compute]. Qed.

(** A pod that cannot be created is not reported: the task stays running in the registry. *)
Definition uncreated_run : world Executor thread kres :=
  fx_run (fx_kube 1) [Steps 60 0 (mkOutside "t1" 7 [] false false)].

Example uncreated_unreported :
  task_reports uncreated_run = [("running", "t1")] ∧ assignment_states uncreated_run = [].
Proof. split; vm_compute; reflexivity. Qed.

(** A restart before the conversation has started ends the task: its prompt and its launch
    parameters were only in memory. *)
Definition early_run : world Executor thread kres :=
  fx_run (fx_kube 1)
    [Steps 60 0 (fx_out "t1" []); Crash; Steps 60 0 (fx_out "t1" [pod1]);
     Steps 60 1 (fx_out "t1" [pod1])].

Example early_restart_fails :
  task_reports early_run = [("running", "t1"); ("failed", "t1")] ∧
  conversations early_run = 0%nat.
Proof. split; vm_compute; reflexivity. Qed.

(** A terminal report that is refused leaves the pod and the assignment behind, with nobody to
    observe them: the event stays pending until the process restarts. *)
Definition stranded_run : world Executor thread kres :=
  fx_run (fx_kube 1)
    [Steps 60 0 (fx_out "t1" []); Steps 40 1 (fx_out "t1" [pod1]);
     Steps 10 3 (fx_out "t1" [pod1]); Steps 40 1 (mkOutside "t1" 7 [pod1] true true)].

Example refused_end_strands_pod :
  task_reports stranded_run = [("running", "t1"); ("finished", "t1")] ∧
  k_pods (w_state stranded_run) = ∅ ∧
  (map_to_list (alive (k_trace (w_state stranded_run)))).*1 = ["oh-t1"] ∧
  (map_to_list (w_threads stranded_run)).*1 = [2; 0]%nat.
Proof. split_and!; vm_compute; reflexivity. Qed.

(** Command identifiers: a byte is drawn, but only its four low bits show. *)
Lemma commandIDForStable_low seed :
  commandIDForStable seed = commandIDForStable (seed mod 16).
Proof.
  unfold commandIDForStable. do 2 f_equal. apply list_fmap_ext. intros _ i _. do 2 f_equal.
  change 15 with (Z.ones 4). rewrite !Z.land_ones by done. change (2 ^ 4) with 16.
  rewrite !(Z.mod_mod_divide _ 256 16) by (by exists 16). by rewrite Zplus_mod_idemp_l.
Qed.

(** Two tasks whose identifiers agree on eight characters get pods of one name. *)
Example shortID_collision : shortID "task-0001-1" = shortID "task-0001-2".
Proof. vm_compute. reflexivity. Qed.

(** ** Witnesses *)

#[local] Notation sys w := (w_state w).

(** A listing that names every pod, whatever its labels. *)
Definition names_all (a : answered) (m : gmap string (gmap string string)) : bool :=
  match a with
  | mkAnswered (KListPods _) r =>
      match r : result Docker.xerror (list PodState) with
      | Ok pods => forallb (λ name, bool_decide (name ∈ (λ p, pr_name (po_ref p)) <$> pods))
                     (map_to_list m).*1
      | Err _ => true
      end
  | _ => true
  end.
Fixpoint all_named (trace : list answered) : bool :=
  match trace with
  | [] => true
  | a :: trace' => names_all a (alive trace') && all_named trace'
  end.

Lemma all_named_truthful trace : all_named trace = true → truthful trace.
Proof.
  induction trace as [|[c r] trace IH]; [done|]. simpl. intros [Ha Ht]%andb_prop.
  split; [|by apply IH]. destruct c; try done. destruct r as [pods|e]; [|done].
  intros name labels Hn _. simpl in Ha. rewrite forallb_forall in Ha.
  specialize (Ha name). rewrite bool_decide_eq_true in Ha.
  apply Ha, list_elem_of_In, list_elem_of_fmap. exists (name, labels). split; [done|]. by apply elem_of_map_to_list.
Qed.

(** The history of the recovered run around the creation of its pod, and around its environment. *)
Definition around (f : answered → bool) (w : world Executor thread kres) :
    list answered * list answered :=
  match list_find (λ a, f a = true) (k_trace (w_state w)) with
  | Some (n, _) => (take n (k_trace (w_state w)), drop (S n) (k_trace (w_state w)))
  | None => ([], []) end.
Definition fx_spec : PodSpec :=
  pod_spec (fx_kube 1) "ex1" "t1" "team" fx_command "repo:v1" "task" (pod_env "" fx_values).
Definition at_pod : list answered * list answered := around (creates "t1") recovered_run.
Definition at_open : list answered * list answered :=
  around (λ a, match an_call a with KOpenEnvironment _ _ => true | _ => false end) recovered_run.

Lemma pod_history :
  k_trace (sys recovered_run) =
  at_pod.1 ++ mkAnswered (KCreatePod fx_spec) (Ok (mkPodRef "oh-t1" "uid-t1")) :: at_pod.2.
Proof. vm_compute. reflexivity. Qed.

Lemma open_history :
  k_trace (sys recovered_run) =
  at_open.1 ++ mkAnswered (KOpenEnvironment "t1" "token") (Ok fx_values) :: at_open.2.
Proof. vm_compute. reflexivity. Qed.

Lemma pod_authorised_witness :
  ∃ command claim later e middle earlier,
    at_pod.2 = later ++ mkAnswered (KAppendTaskEvent e) None :: middle ++
               mkAnswered (KClaimTask "t1" command) (Ok claim) :: earlier ∧
    Docker.cl_claim claim = "claimed" ∧ ke_task e = "t1" ∧ ke_type e = "running" ∧
    no_pod "t1" later ∧ no_pod "t1" middle ∧
    claim_image claim = Some (sp_image fx_spec) ∧
    sp_labels fx_spec !! LabelCommandID = Some command.
Proof.
  apply (pod_authorised (fx_kube 1) recovered_run "t1" fx_spec _ _ _ ltac:(done)
    (fx_go_run_reachable _ _) pod_history). reflexivity.
Defined.

Lemma environment_authorised_witness :
  ∃ command claim later earlier,
    at_open.2 = later ++ mkAnswered (KClaimTask "t1" command) (Ok claim) :: earlier ∧
    Docker.cl_claim claim = "claimed" ∧ Docker.cl_launch claim = true ∧
    Docker.cl_token claim = Some "token" ∧ no_pod "t1" later.
Proof.
  apply (environment_authorised (fx_kube 1) recovered_run "t1" "token" _ _ _ ltac:(done)
    (fx_go_run_reachable _ _) open_history).
Defined.

(** Two tasks of one executor. *)
Definition two_run : world Executor thread kres :=
  fx_run (fx_kube 2) [Steps 60 0 (fx_out "t1" []); Steps 60 0 (fx_out "t2" [pod1]); Crash].

Lemma max_pods_respected_witness :
  size (alive (k_trace (sys two_run))) = 2%nat ∧
  Z.of_nat (size (alive (k_trace (sys two_run)))) ≤ 2.
Proof.
  split; [vm_compute; reflexivity|].
  apply (max_pods_respected (fx_kube 2) two_run); [done|apply fx_go_run_reachable|].
  apply all_named_truthful. vm_compute. reflexivity.
Defined.

Lemma distinct_of tr : bool_decide (NoDup (drawn tr)) = true → distinct tr.
Proof. by rewrite bool_decide_eq_true. Qed.

(** The report that the registry refused twice, from two processes, still pending. *)
Definition fx_report : TaskEvent :=
  mkEvent "evt-38" "team" "t1" "ex1" "running" (format_rfc3339 7) running_payload.

Lemma outbox_contract_witness :
  ∃ r, mm_outbox (k_cache (sys refused_run)) !! "evt-38" = Some r ∧ ob_state r = "pending" ∧
    event_of r = fx_report ∧
    ∀ e, sent e (k_trace (sys refused_run)) → ke_id e = "evt-38" → e = event_of r.
Proof.
  assert (Hd : distinct (k_trace (sys refused_run))).
  { apply distinct_of. vm_compute. reflexivity. }
  pose proof (outbox_contract (fx_kube 1) refused_run ltac:(done) (fx_go_run_reachable _ _) Hd) as [Hc _].
  exists (outbox_record fx_report 7). assert (Hi : mm_outbox (k_cache (sys refused_run)) !! "evt-38" =
    Some (outbox_record fx_report 7)) by (vm_compute; reflexivity).
  split; [exact Hi|]. split; [reflexivity|]. split; [reflexivity|]. apply (Hc _ _ Hi).
Defined.

(** The slot of a process that took up the pod of another. *)
Definition taken_up_run : world Executor thread kres :=
  fx_run (fx_kube 1)
    [Steps 60 0 (fx_out "t1" []); Crash; Steps 60 0 (fx_out "t1" [pod1])].

Lemma slots_name_own_pods_witness :
  ∃ s, k_heap (sys taken_up_run) !! 0%nat = Some s ∧
  ∃ spec ref, mkAnswered (KCreatePod spec) (Ok ref) ∈ k_trace (sys taken_up_run) ∧
    sp_name spec = ps_name s ∧ pr_uid ref = ps_uid s ∧
    sp_labels spec !! LabelTaskID = Some (ps_task s) ∧
    sp_labels spec !! LabelCommandID = Some (ps_command s).
Proof.
  destruct (k_heap (sys taken_up_run) !! 0%nat) as [s|] eqn:E; [|vm_compute in E; discriminate E].
  exists s. split; [done|].
  apply (slots_name_own_pods (fx_kube 1) taken_up_run 0%nat s ltac:(done) (fx_go_run_reachable _ _) E).
Defined.
