(* ===== verification/JwtClaims.v ===== *)
(** * Token claims (svc/api-gateway/internal/jwtverify, oidc/team_claims.go, adminauth)

    What the gateway reads out of the tokens of the identity providers: the pointers into their
    claims, the team claim and its adapters, the registered claims with their time window, the
    public keys, and the administrator's role. *)

From stdpp Require Import base gmap strings list.
From Stdlib Require Import Ascii.
From S2P Require Import Prelude Platform GoStrings Base64.
#[local] Open Scope Z_scope.

(** A map[string]any: the entries of a decoded object. *)
Abbreviation claims_map := (list (string * json)).

(** ** JSON pointers *)

Definition tilde : ascii := "~"%char.
Definition slash : ascii := "/"%char.

(** The loop of parsePointer over one token: ~0 and ~1 are the only escapes. *)
Fixpoint unescape (l : list ascii) : option (list ascii) :=
  match l with
  | [] => Some []
  | c :: l' =>
      if bool_decide (c ≠ tilde) then cons c <$> unescape l'
      else
        match l' with
        | d :: l'' =>
            if bool_decide (d = "0"%char) then cons tilde <$> unescape l''
            else if bool_decide (d = "1"%char) then cons slash <$> unescape l''
            else None
        | [] => None
        end
  end.

Definition unescape_token (token : string) : option string := of_chars <$> unescape (chars token).

Definition parsePointer (pointer : string) : result string (list string) :=
  match pointer with
  | String c rest =>
      if bool_decide (c = slash) then
        match mapM unescape_token (split slash rest) with
        | Some tokens => Ok tokens
        | None => Err "contains an invalid escape"
        end
      else Err "must be a non-empty RFC 6901 JSON pointer"
  | EmptyString => Err "must be a non-empty RFC 6901 JSON pointer"
  end.

(** The walk of resolvePointer: a missing member or a null one ends it. *)
Fixpoint walk_pointer (current : json) (tokens : list string) : result string json :=
  match tokens with
  | [] => Ok current
  | token :: tokens' =>
      match current with
      | JObj object =>
          match obj_lookup token object with
          | None | Some JNull => Err "claim pointer target is missing or null"
          | Some v => walk_pointer v tokens'
          end
      | _ => Err "claim pointer traverses a non-object"
      end
  end.

Definition resolvePointer (document : claims_map) (pointer : string) : result string json :=
  match parsePointer pointer with
  | Err e => Err e
  | Ok tokens => walk_pointer (JObj document) tokens
  end.

(** strings.ReplaceAll of a pattern of two characters by one. *)
Fixpoint replace_pair (a b r : ascii) (l : list ascii) : list ascii :=
  match l with
  | [] => []
  | c :: l' =>
      match l' with
      | d :: l'' =>
          if bool_decide (c = a ∧ d = b) then r :: replace_pair a b r l''
          else c :: replace_pair a b r l'
      | [] => [c]
      end
  end.

(** The token of a raw segment in ValuesAtPointer. *)
Definition replace_escapes (raw : string) : string :=
  of_chars (replace_pair tilde "0" tilde (replace_pair tilde "1" slash (chars raw))).

Inductive token_error : Type := ErrInvalidToken | ErrClaimMissing | ErrPointer.

(** The walk and the values of ValuesAtPointer. *)
Fixpoint walk_values (current : json) (raws : list string) : result token_error json :=
  match raws with
  | [] => Ok current
  | raw :: raws' =>
      match current with
      | JObj object =>
          match obj_lookup (replace_escapes raw) object with
          | None => Err ErrClaimMissing
          | Some v => walk_values v raws'
          end
      | _ => Err ErrInvalidToken
      end
  end.

Definition non_empty_string (v : json) : option string :=
  match v with JStr s => if bool_decide (s = "") then None else Some s | _ => None end.

Definition ValuesAtPointer (claims : claims_map) (pointer : string) :
    result token_error (list string) :=
  match pointer with
  | String c rest =>
      if bool_decide (c = slash) then
        match walk_values (JObj claims) (split slash rest) with
        | Ok (JArr values) =>
            match mapM non_empty_string values with
            | Some l => Ok l
            | None => Err ErrInvalidToken
            end
        | Ok _ => Err ErrInvalidToken
        | Err e => Err e
        end
      else Err ErrPointer
  | EmptyString => Err ErrPointer
  end.

(** ** The team claim (oidc/team_claims.go) *)

Definition StringArray : string := "string_array".
Definition ObjectArray : string := "object_array".

Record TeamClaimAdapter : Type := mkAdapter {
  ad_kind : string; ad_pointer : string; ad_id_field : string; ad_name_field : string }.

Definition adapter_Validate (a : TeamClaimAdapter) : option string :=
  if bool_decide (ad_kind a ≠ StringArray ∧ ad_kind a ≠ ObjectArray)
  then Some "unsupported team claim adapter"
  else
    match parsePointer (ad_pointer a) with
    | Err e => Some ("claim pointer: " +:+ e)
    | Ok _ =>
        if bool_decide (ad_kind a = StringArray ∧ (ad_id_field a ≠ "" ∨ ad_name_field a ≠ ""))
        then Some "string_array does not accept object fields"
        else if bool_decide (ad_kind a = ObjectArray ∧ trim_space (ad_id_field a) = "")
        then Some "object_array requires id_field"
        else None
    end.

(** The identifier of an element; none when it is empty or of another type. *)
Definition item_id (a : TeamClaimAdapter) (item : json) : option string :=
  if bool_decide (ad_kind a = StringArray) then non_empty_string item
  else
    match item with
    | JObj object => obj_lookup (ad_id_field a) object ≫= non_empty_string
    | _ => None
    end.

(** The loop of Normalize: duplicates are skipped, an element without an identifier ends it. *)
Fixpoint normalize_items (a : TeamClaimAdapter) (items : list json) (seen : gset string) :
    option (list string) :=
  match items with
  | [] => Some []
  | item :: items' =>
      match item_id a item with
      | None => None
      | Some id =>
          if bool_decide (id ∈ seen) then normalize_items a items' seen
          else cons id <$> normalize_items a items' ({[id]} ∪ seen)
      end
  end.

Definition Normalize (a : TeamClaimAdapter) (claims : claims_map) : result string (list string) :=
  match adapter_Validate a with
  | Some e => Err e
  | None =>
      match resolvePointer claims (ad_pointer a) with
      | Err e => Err e
      | Ok (JArr items) =>
          match normalize_items a items ∅ with
          | Some ids => Ok ids
          | None => Err "team claim element has no non-empty identifier"
          end
      | Ok _ => Err "team claim must be an array"
      end
  end.

(** The scopes: openid first, then the configured ones, trimmed and each once. *)
Definition blank (c : ascii) : bool :=
  bool_decide (c ∈ [" "%char; "009"%char; "013"%char; "010"%char]).

Fixpoint normalize_scopes (additional : list string) (seen : gset string) :
    option (list string) :=
  match additional with
  | [] => Some []
  | raw :: additional' =>
      let scope := trim_space raw in
      if bool_decide (scope = "") || existsb blank (chars scope) then None
      else if bool_decide (scope ∈ seen) then normalize_scopes additional' seen
      else cons scope <$> normalize_scopes additional' ({[scope]} ∪ seen)
  end.

Definition NormalizeScopes (additional : list string) : result string (list string) :=
  match normalize_scopes additional {["openid"]} with
  | Some l => Ok ("openid" :: l)
  | None => Err "invalid OIDC scope"
  end.

(** ** Keys and registered claims (jwtverify/verifier.go) *)

Definition second : Z := 10 ^ 9.

(** Durations in nanoseconds. *)
Record VerifierConfig : Type := mkVerifier {
  vc_issuer : string; vc_audience : string; vc_jwks_url : string; vc_algorithms : list string;
  vc_skew : Z; vc_max_age : Z; vc_timeout : Z }.

Record jwk : Type := mkJwk {
  jwk_kid : string; jwk_kty : string; jwk_alg : string; jwk_use : string; jwk_n : string;
  jwk_e : string }.

Record jwt_header : Type := mkJwtHeader { jh_alg : string; jh_kid : string; jh_typ : string }.

Inductive hash : Type := SHA256 | SHA384 | SHA512.

Definition hashFor (algorithm : string) : option hash :=
  if bool_decide (algorithm = "RS256") then Some SHA256
  else if bool_decide (algorithm = "RS384") then Some SHA384
  else if bool_decide (algorithm = "RS512") then Some SHA512
  else None.

Definition contains (values : list string) (target : string) : bool := bool_decide (target ∈ values).

(** The checks of New on the settings; [absolute] is the parsed form of the two URLs. *)
Definition verifier_New (absolute : string → bool) (cfg : VerifierConfig) : option string :=
  if negb (absolute (vc_issuer cfg)) then Some "JWT issuer must be absolute"
  else if negb (absolute (vc_jwks_url cfg)) then Some "JWKS URL must be absolute"
  else if bool_decide (vc_audience cfg = "") || (vc_timeout cfg <=? 0) || (vc_max_age cfg <=? 0) ||
          (vc_skew cfg <? 0) then Some "invalid JWT trust timing or audience"
  else if bool_decide (vc_algorithms cfg = []) then Some "JWT algorithm allowlist is required"
  else if existsb (λ a, bool_decide (hashFor a = None)) (vc_algorithms cfg)
  then Some "algorithm is not an allowed asymmetric RSA algorithm"
  else None.

(** numericDate: a float64 that converts to an int64 and back; a value that no int64 holds does
    not survive the conversion. *)
Definition numericDate (value : option json) : option Z :=
  match value with
  | Some (JNum m e) =>
      let integral := (0 <=? e) || (m mod 2 ^ (- e) =? 0) in
      let z := float_to_int m e in
      if integral && (- 2 ^ 63 <=? z) && (z <? 2 ^ 63) then Some z else None
  | _ => None
  end.

Definition is_string (expected : string) (v : json) : bool :=
  match v with JStr s => bool_decide (s = expected) | _ => false end.

Definition audienceContains (value : option json) (expected : string) : bool :=
  match value with
  | Some (JStr s) => bool_decide (s = expected)
  | Some (JArr values) => existsb (is_string expected) values
  | _ => false
  end.

(** time.Time.Unix. *)
Definition unix (t : Z) : Z := t / second.

(** The window, in int64 arithmetic. *)
Definition in_window (cfg : VerifierConfig) (now iat exp : Z) : bool :=
  let nowUnix := unix now in
  let skew := Z.quot (vc_skew cfg) second in
  negb (wrap64 (nowUnix + skew) <? iat) && negb (exp <? wrap64 (nowUnix - skew)) &&
  negb (wrap64 (Z.quot (vc_max_age cfg) second + skew) <? wrap64 (nowUnix - iat)).

Definition validRegisteredClaims (cfg : VerifierConfig) (claims : claims_map) (now : Z) : bool :=
  match obj_lookup "iss" claims with
  | Some (JStr issuer) =>
      if bool_decide (issuer ≠ vc_issuer cfg) then false
      else if negb (audienceContains (obj_lookup "aud" claims) (vc_audience cfg)) then false
      else
        match numericDate (obj_lookup "iat" claims), numericDate (obj_lookup "exp" claims) with
        | Some iat, Some exp => in_window cfg now iat exp
        | _, _ => false
        end
  | _ => false
  end.

(** big.Int.SetBytes and the loop over the exponent. *)
Definition bytes_value (s : string) : Z := fold_left (λ e b, e * 256 + byte_of b) (chars s) 0.

(** rsaKey: the modulus and the exponent. *)
Definition rsaKey (key : jwk) : option (Z * Z) :=
  match decode (jwk_n key), decode (jwk_e key) with
  | Some n, Some e =>
      if Nat.eqb (String.length n) 0 then None
      else if Nat.eqb (String.length e) 0 || Nat.ltb 4 (String.length e) then None
      else if bytes_value e <? 3 then None
      else Some (bytes_value n, bytes_value e)
  | _, _ => None
  end.

(** refresh: the keys of a document that have an identifier; a later one wins. *)
Definition index_keys (keys : list jwk) : gmap string jwk :=
  fold_left (λ m key, if bool_decide (jwk_kid key = "") then m else <[jwk_kid key := key]> m) keys ∅.

(** The JSON forms of the tokens' segments and of the key document, and RSA PKCS#1 v1.5. A
    signature verifies under the public half of the key that made it; a decoded object is a map. *)
Class Jose := {
  jwt_header_decode : string → option jwt_header;
  jwt_claims_decode : string → option claims_map;
  jwks_decode : string → option (list jwk);
  rsa_verify : Z * Z → hash → string → string → bool;
  rsa_public : string → Z * Z;
  rsa_sign : string → hash → string → option string;
  rsa_sign_verify k h m s : rsa_sign k h m = Some s → rsa_verify (rsa_public k) h m s = true;
}.

Section verify.
Context `{Jose}.

(** The header of a token: Verify up to the choice of the key. *)
Definition token_header (cfg : VerifierConfig) (part : string) : option jwt_header :=
  match decode part ≫= jwt_header_decode with
  | Some h =>
      if bool_decide (jh_kid h = "") || negb (contains (vc_algorithms cfg) (jh_alg h)) then None
      else Some h
  | None => None
  end.

(** The rest of Verify, under the key the header names. *)
Definition verify_with (cfg : VerifierConfig) (now : Z) (h : jwt_header) (key : jwk)
    (p0 p1 p2 : string) : option claims_map :=
  if bool_decide (jwk_kty key ≠ "RSA") || bool_decide (jwk_alg key ≠ "" ∧ jwk_alg key ≠ jh_alg h) ||
     bool_decide (jwk_use key ≠ "" ∧ jwk_use key ≠ "sig") then None
  else
    match rsaKey key, decode p2, hashFor (jh_alg h) with
    | Some public, Some signature, Some hashID =>
        if negb (rsa_verify public hashID (p0 +:+ String "." p1) signature) then None
        else
          match decode p1 ≫= jwt_claims_decode with
          | Some claims => if validRegisteredClaims cfg claims now then Some claims else None
          | None => None
          end
    | _, _, _ => None
    end.
End verify.

(** ** The administrator (adminauth/authenticator.go) *)

Inductive admin_error : Type := AdminInvalidToken | AdminInsufficientRole | AdminProviderUnavailable.

(** The subject of an authorization header's token. *)
Definition subject_of (claims : claims_map) : option string :=
  obj_lookup "sub" claims ≫= non_empty_string.

(** Authenticate after the token is verified. *)
Definition authorize_claims (rolePointer requiredRole : string) (claims : claims_map) :
    result admin_error string :=
  match subject_of claims with
  | None => Err AdminInvalidToken
  | Some subject =>
      match ValuesAtPointer claims rolePointer with
      | Err ErrClaimMissing => Err AdminInsufficientRole
      | Err _ => Err AdminInvalidToken
      | Ok roles => if contains roles requiredRole then Ok subject else Err AdminInsufficientRole
      end
  end.

(** strings.TrimPrefix and TrimSpace on an Authorization header. *)
Definition bearer_of (authorization : string) : option string :=
  if has_prefix "Bearer " authorization
  then Some (trim_space (trim_prefix "Bearer " authorization)) else None.

(** ** Pointers: the two readers of a segment agree *)

(** The RFC's escaping of a member name. *)
Fixpoint escape (l : list ascii) : list ascii :=
  match l with
  | [] => []
  | c :: l' =>
      if bool_decide (c = tilde) then tilde :: "0"%char :: escape l'
      else if bool_decide (c = slash) then tilde :: "1"%char :: escape l'
      else c :: escape l'
  end.

Lemma escape_cons c l : escape (c :: l) = escape [c] ++ escape l.
Proof. simpl. repeat case_bool_decide; done. Qed.

Lemma unescape_escape l : unescape (escape l) = Some l.
Proof.
  induction l as [|c l IH]; [done|]. simpl. case_bool_decide as Ht; subst; simpl; [by rewrite IH|].
  case_bool_decide as Hs; subst; simpl; [by rewrite IH|].
  rewrite bool_decide_eq_true_2 by done. by rewrite IH.
Qed.

Lemma escape_no_slash l : slash ∉ escape l.
Proof.
  induction l as [|c l IH]; [apply not_elem_of_nil|]. simpl.
  repeat case_bool_decide; rewrite ?elem_of_cons; intros Hin; destruct_or?; done || congruence.
Qed.

(** The pointer to the member at the end of a path. *)
Definition pointer_of (tokens : list string) : string :=
  of_chars (concat ((λ t, slash :: escape (chars t)) <$> tokens)).

Lemma split_escaped t tokens :
  split_chars slash (escape (chars t) ++ concat ((λ t, slash :: escape (chars t)) <$> tokens))
  = escape (chars t) :: ((λ t, escape (chars t)) <$> tokens).
Proof.
  revert t. induction tokens as [|t' tokens IH]; intros t; simpl.
  - rewrite app_nil_r. by rewrite split_chars_none by apply escape_no_slash.
  - rewrite split_chars_app by apply escape_no_slash. by rewrite IH.
Qed.

Lemma unescape_token_escape t : unescape_token (of_chars (escape (chars t))) = Some t.
Proof. unfold unescape_token. rewrite chars_of_chars, unescape_escape. simpl. by rewrite of_chars_chars. Qed.

(** Every path has a pointer: parsing the RFC 6901 form of a path gives the path back. *)
Theorem pointer_roundtrip t tokens : parsePointer (pointer_of (t :: tokens)) = Ok (t :: tokens).
Proof.
  assert (Hs : split slash (of_chars (escape (chars t) ++
                 concat ((λ t, slash :: escape (chars t)) <$> tokens)))
               = (λ t, of_chars (escape (chars t))) <$> (t :: tokens)).
  { unfold split. rewrite chars_of_chars, split_escaped. simpl. by rewrite <- list_fmap_compose. }
  change (pointer_of (t :: tokens))
    with (String slash (of_chars (escape (chars t) ++
            concat ((λ t, slash :: escape (chars t)) <$> tokens)))).
  unfold parsePointer. rewrite bool_decide_eq_true_2 by done. rewrite Hs.
  assert (mapM unescape_token ((λ t, of_chars (escape (chars t))) <$> (t :: tokens))
          = Some (t :: tokens)) as ->; [|done].
  apply mapM_Some. clear Hs. generalize (t :: tokens) as us.
  induction us as [|u us IH]; constructor; [apply unescape_token_escape|done].
Qed.

(** Induction two characters at a time. *)
Lemma list_ind2 {A} (P : list A → Prop) :
  P [] → (∀ a, P [a]) → (∀ a b l, P l → P (b :: l) → P (a :: b :: l)) → ∀ l, P l.
Proof.
  intros H0 H1 H2 l. cut (P l ∧ ∀ a, P (a :: l)); [by intros [? _]|].
  induction l as [|b l [IH1 IH2]]; [done|]. split; [done|]. intros a. by apply H2.
Qed.

Lemma replace_pair_other a b r c l : c ≠ a → replace_pair a b r (c :: l) = c :: replace_pair a b r l.
Proof.
  intros Hc. destruct l as [|d l]; [done|]. cbn [replace_pair].
  rewrite bool_decide_eq_false_2; [done|]. by intros [? _].
Qed.

Lemma replace_pair_apart a b r d l : d ≠ b → replace_pair a b r (a :: d :: l) = a :: replace_pair a b r (d :: l).
Proof. intros Hd. cbn [replace_pair]. rewrite bool_decide_eq_false_2; [done|]. by intros [_ ?]. Qed.

Lemma replace_pair_hit a b r l : replace_pair a b r (a :: b :: l) = r :: replace_pair a b r l.
Proof. cbn [replace_pair]. by rewrite bool_decide_eq_true_2. Qed.

(** On a segment without stray tildes the two replacements do what the loop of parsePointer does. *)
Lemma replace_unescape l t :
  unescape l = Some t → replace_pair tilde "0" tilde (replace_pair tilde "1" slash l) = t.
Proof.
  revert t. induction l as [|c|c d l IH2 IH1] using list_ind2; intros t; [by intros [= <-]|..];
    cbn [unescape]; case_bool_decide as Hc; try done.
  - by intros [= <-].
  - intros (u & Hu & ->)%fmap_Some. rewrite !replace_pair_other by done. by rewrite (IH1 u).
  - subst c.
    case_bool_decide as H0; [subst d|case_bool_decide as H1; [subst d|done]];
      intros (u & Hu & ->)%fmap_Some; pose proof (IH2 u Hu) as IHu.
    + rewrite replace_pair_apart by done. rewrite (replace_pair_other tilde "1" slash "0") by done.
      rewrite replace_pair_hit. by rewrite IHu.
    + rewrite replace_pair_hit. rewrite (replace_pair_other _ _ _ slash) by done. by rewrite IHu.
Qed.

Lemma replace_unescape_token raw t : unescape_token raw = Some t → replace_escapes raw = t.
Proof.
  unfold unescape_token, replace_escapes. intros (l & Hl & ->)%fmap_Some.
  by rewrite (replace_unescape _ _ Hl).
Qed.

Lemma walks_agree raws tokens current l :
  mapM unescape_token raws = Some tokens → l ≠ JNull →
  walk_values current raws = Ok l ↔ walk_pointer current tokens = Ok l.
Proof.
  intros Hm%mapM_Some Hl. revert current.
  induction Hm as [|raw t raws tokens Ht Hm IH]; intros current; simpl; [split; congruence|].
  destruct current; try (split; discriminate). rewrite (replace_unescape_token _ _ Ht).
  destruct (obj_lookup t _) as [[]|]; try (split; discriminate); try apply IH.
  split; [|discriminate]. intros H. exfalso. clear IH. destruct Hm; simpl in H; congruence.
Qed.

(** The two readers of pointers agree on well formed ones: the roles that the administrator's
    check reads are the array of non-empty strings that the team claim's resolver finds there. *)
Theorem pointers_agree claims pointer tokens l :
  parsePointer pointer = Ok tokens →
  ValuesAtPointer claims pointer = Ok l ↔
  ∃ values, resolvePointer claims pointer = Ok (JArr values) ∧ mapM non_empty_string values = Some l.
Proof.
  unfold resolvePointer. intros Hp. rewrite Hp. unfold parsePointer in Hp.
  unfold ValuesAtPointer. destruct pointer as [|c rest]; [done|].
  case_bool_decide as Hc; [|done].
  destruct (mapM unescape_token (split slash rest)) as [ts|] eqn:Hm; [|done]. injection Hp as ->.
  pose proof (λ v, walks_agree _ _ (JObj claims) v Hm) as Hw.
  split.
  - intros H. destruct (walk_values _ _) as [v|] eqn:E; [|done].
    assert (v ≠ JNull) as Hn by by intros ->. pose proof (proj1 (Hw v Hn) eq_refl) as Ep.
    destruct v as [| | | |values|]; try done. exists values. split; [done|]. destruct (mapM _ values); [congruence|done].
  - intros (values & E & Hv). apply Hw in E as ->; [|done]. by rewrite Hv.
Qed.

(** ** The team claim *)

Lemma normalize_items_spec a items seen ids :
  normalize_items a items seen = Some ids →
  Forall (λ item, is_Some (item_id a item)) items ∧ NoDup ids ∧
  ∀ id, id ∈ ids ↔ id ∉ seen ∧ ∃ item, item ∈ items ∧ item_id a item = Some id.
Proof.
  revert seen ids. induction items as [|item items IH]; intros seen ids; simpl.
  - intros [= <-]. split_and!; [constructor..|]. intros id. split; [by intros ?%not_elem_of_nil|].
    by intros (_ & item & ?%not_elem_of_nil & _).
  - destruct (item_id a item) as [id0|] eqn:Hi; [|done]. case_bool_decide as Hs.
    + intros Hn. destruct (IH _ _ Hn) as (Hall & Hnd & Hin). split_and!; [by constructor|done|].
      intros id. rewrite Hin. split; intros (? & it & Hit & He).
      * split; [done|]. exists it. split; [by right|done].
      * split; [done|]. apply elem_of_cons in Hit as [->|Hit]; [congruence|eauto].
    + intros (l & Hl & ->)%fmap_Some. destruct (IH _ _ Hl) as (Hall & Hnd & Hin).
      split_and!; [by constructor|constructor; [rewrite Hin; set_solver|done]|].
      intros id. rewrite elem_of_cons, Hin. split.
      * intros [->|(? & it & Hit & He)]; [split; [done|]; exists item; split; [by left|done]|].
        split; [set_solver|]. exists it. split; [by right|done].
      * intros (? & it & Hit & He). apply elem_of_cons in Hit as [->|Hit]; [left; congruence|].
        destruct (decide (id = id0)) as [->|]; [by left|]. right. split; [set_solver|eauto].
Qed.

Lemma normalize_items_none a items seen :
  normalize_items a items seen = None ↔ ∃ item, item ∈ items ∧ item_id a item = None.
Proof.
  revert seen. induction items as [|item items IH]; intros seen; simpl.
  - split; [done|]. by intros (it & ?%not_elem_of_nil & _).
  - destruct (item_id a item) as [id0|] eqn:Hi.
    + assert (∃ s, (if bool_decide (id0 ∈ seen) then normalize_items a items seen
          else cons id0 <$> normalize_items a items ({[id0]} ∪ seen)) = None
          ↔ normalize_items a items s = None) as [s ->].
      { case_bool_decide; [by exists seen|]. exists ({[id0]} ∪ seen). by rewrite fmap_None. }
      rewrite IH. split; intros (it & Hit & He).
      * exists it. split; [by right|done].
      * apply elem_of_cons in Hit as [->|Hit]; [congruence|eauto].
    + split; [|done]. intros _. exists item. split; [by left|done].
Qed.

Lemma item_id_nonempty a item id : item_id a item = Some id → id ≠ "".
Proof.
  assert (Hn : ∀ v, non_empty_string v = Some id → id ≠ "").
  { intros v. unfold non_empty_string. destruct v; try done. case_bool_decide; [done|].
    by intros [= <-]. }
  unfold item_id. case_bool_decide; [apply Hn|]. destruct item; try done.
  intros (v & _ & Hv)%bind_Some. by eapply Hn.
Qed.

(** What a login takes from the team claim: the identifiers of the elements of the array that the
    pointer names, all of them, each once and none empty; an element without an identifier, and
    anything that is not an array, is refused. *)
Theorem Normalize_spec a claims :
  (∀ ids, Normalize a claims = Ok ids →
     adapter_Validate a = None ∧ NoDup ids ∧ "" ∉ ids ∧
     ∃ items, resolvePointer claims (ad_pointer a) = Ok (JArr items) ∧
       (∀ item, item ∈ items → is_Some (item_id a item)) ∧
       ∀ id, id ∈ ids ↔ ∃ item, item ∈ items ∧ item_id a item = Some id) ∧
  (∀ items, adapter_Validate a = None → resolvePointer claims (ad_pointer a) = Ok (JArr items) →
     is_ok (Normalize a claims) = bool_decide (Forall (λ item, is_Some (item_id a item)) items)).
Proof.
  unfold Normalize. split.
  - intros ids. destruct (adapter_Validate a); [done|].
    destruct (resolvePointer _ _) as [v|]; [|done]. destruct v as [| | | |items|]; try done.
    destruct (normalize_items a items ∅) as [l|] eqn:Hn; [|done]. intros [= <-].
    destruct (normalize_items_spec _ _ _ _ Hn) as (Hall & Hnd & Hin).
    assert (Hin' : ∀ id, id ∈ l ↔ ∃ item, item ∈ items ∧ item_id a item = Some id)
      by (intros id; rewrite Hin; set_solver).
    split_and!; [done|done| |].
    + intros (item & _ & Hi)%Hin'. by apply item_id_nonempty in Hi.
    + exists items. split_and!; [done| |done]. intros item Hitem. by apply (proj1 (Forall_forall _ _) Hall).
  - intros items -> ->. destruct (normalize_items a items ∅) as [l|] eqn:Hn.
    + destruct (normalize_items_spec _ _ _ _ Hn) as (Hall & _). by rewrite bool_decide_eq_true_2.
    + apply normalize_items_none in Hn as (item & Hitem & Hi). rewrite bool_decide_eq_false_2; [done|].
      intros Hall. pose proof (proj1 (Forall_forall _ _) Hall item Hitem) as [? ?]. congruence.
Qed.

(** ** The window of a token *)

(** C39. The times of an accepted token. Outside an overflow, a token is accepted only when it is
    issued no later than now, not yet expired and no older than the configured age, give or take
    the skew; a token whose issue time is so far in the past that the age overflows an int64 has
    any age. *)
Theorem in_window_spec cfg now iat exp :
  0 ≤ unix now < 2 ^ 61 → 0 ≤ vc_skew cfg < 2 ^ 61 → 0 < vc_max_age cfg < 2 ^ 61 → in_int64 iat →
  let skew := vc_skew cfg / second in
  in_window cfg now iat exp = true ↔
  iat ≤ unix now + skew ∧ unix now - skew ≤ exp ∧
  (unix now - iat ≤ vc_max_age cfg / second + skew ∨ 2 ^ 63 ≤ unix now - iat).
Proof.
  intros Hn Hs Ha Hi skew. unfold in_window, in_int64 in *.
  rewrite !Z.quot_div_nonneg by (unfold second in *; lia). fold skew.
  assert (0 ≤ skew < 2 ^ 61) as Hskew.
  { unfold skew, second. split; [apply Z.div_pos; lia|]. apply Z.div_lt_upper_bound; lia. }
  assert (0 ≤ vc_max_age cfg / second < 2 ^ 61) as Hage.
  { unfold second. split; [apply Z.div_pos; lia|]. apply Z.div_lt_upper_bound; lia. }
  set (age := vc_max_age cfg / second) in *. clearbody skew age. generalize dependent (unix now). intros n Hn.
  rewrite !(wrap64_id) with (z := n + skew), (wrap64_id (n - skew)), (wrap64_id (age + skew))
    by (unfold in_int64; lia).
  rewrite !andb_true_iff, !negb_true_iff, !Z.ltb_ge.
  assert ((wrap64 (n - iat) ≤ age + skew) ↔ (n - iat ≤ age + skew ∨ 2 ^ 63 ≤ n - iat)) as ->; [|tauto].
  destruct (Z.le_gt_cases (2 ^ 63) (n - iat)) as [Hbig|Hsmall].
  - assert (wrap64 (n - iat) = n - iat - 2 ^ 64) as ->; [|lia].
    unfold wrap64. rewrite <- (Z.mod_unique (n - iat + 2 ^ 63) (2 ^ 64) 1 (n - iat - 2 ^ 63)); lia.
  - rewrite wrap64_id by (unfold in_int64; lia). lia.
Qed.

(** The smallest int64 as the issue time: such a token is not too old. *)
Example ancient_token_accepted :
  in_window (mkVerifier "iss" "aud" "url" ["RS256"] 0 (300 * second) second)
    (1700000000 * second) (- 2 ^ 63) 1700000001 = true ∧
  in_window (mkVerifier "iss" "aud" "url" ["RS256"] 0 (300 * second) second)
    (1700000000 * second) 1600000000 1700000001 = false.
Proof. split; reflexivity. Qed.
