(* ===== verification/WorkingToken.v ===== *)
(** * Working tokens and session envelopes (svc/api-gateway/internal/workingtoken, sessioncrypto)

    The bearer tokens the gateway signs for one operator and one team and verifies on every
    forwarded request, and the encryption of a provider's credentials under the identifier of the
    session they belong to. *)

From stdpp Require Import base strings list.
From Stdlib Require Import Ascii.
From S2P Require Import Prelude Platform GoStrings Base64 ScopeToken JwtClaims.
#[local] Open Scope Z_scope.

(** ** Tokens *)

Record WorkingClaims : Type := mkWorkingClaims {
  wc_issuer : string; wc_audience : string; wc_subject : string; wc_operator : string;
  wc_team : string; wc_team_name : option string; wc_issued : Z; wc_expires : Z; wc_jti : string }.

(** A [Signer]: the private key and the settings; the lifetime in nanoseconds. *)
Record Signer : Type := mkSigner {
  sg_key : string; sg_key_id : string; sg_issuer : string; sg_audience : string; sg_ttl : Z }.

Record Token : Type := mkToken {
  tk_access : string; tk_expires_in : Z; tk_jti : string; tk_issued : Z; tk_expires : Z }.

(** The JSON of the two segments; documents of text that JSON can carry decode to what was
    encoded. *)
Class WorkingCodec `{Jose} := {
  working_header_json : jwt_header → string;
  working_claims_json : WorkingClaims → string;
  working_claims_decode : string → option WorkingClaims;
  plain_text : string → Prop;
  plain_encode s : plain_text (encode s);
  working_header_roundtrip h :
    plain_text (jh_kid h) → jwt_header_decode (working_header_json h) = Some h;
  working_claims_roundtrip c :
    plain_text (wc_issuer c) → plain_text (wc_audience c) → plain_text (wc_operator c) →
    plain_text (wc_subject c) → plain_text (wc_team c) →
    (∀ n, wc_team_name c = Some n → plain_text n) → plain_text (wc_jti c) →
    in_int64 (wc_issued c) → in_int64 (wc_expires c) →
    working_claims_decode (working_claims_json c) = Some c;
}.

Section tokens.
Context `{WorkingCodec}.

(** The checks of New on a parsed key: [bits] is the length of its modulus. *)
Definition signer_New (bits : Z) (key keyID issuer audience : string) (ttl : Z) : option Signer :=
  if (bits <? 2048) || bool_decide (keyID = "" ∨ issuer = "" ∨ audience = "") || (ttl <=? 0) then None
  else Some (mkSigner key keyID issuer audience ttl).

(** Sign, with the bytes it draws and its clock. *)
Definition Sign (s : Signer) (operator team : string) (teamName : option string)
    (jtiBytes : option string) (clock : Z) : option Token :=
  if bool_decide (operator = "" ∨ team = "") then None
  else
    match jtiBytes with
    | None => None
    | Some bytes =>
        let jti := encode bytes in
        let now := clock - clock mod second in
        let expires := now + sg_ttl s in
        let header := working_header_json (mkJwtHeader "RS256" (sg_key_id s) "JWT") in
        let payload := working_claims_json
          (mkWorkingClaims (sg_issuer s) (sg_audience s) operator operator team teamName
             (unix now) (unix expires) jti) in
        let input := join2 (encode header) (encode payload) in
        match rsa_sign (sg_key s) SHA256 input with
        | None => None
        | Some signature =>
            Some (mkToken (join2 input (encode signature)) (sg_ttl s / second) jti now expires)
        end
    end.

(** The checks of Verify on the claims. *)
Definition working_claims_ok (s : Signer) (now : Z) (c : WorkingClaims) : bool :=
  let nowUnix := unix now in
  negb (bool_decide (wc_issuer c ≠ sg_issuer s ∨ wc_audience c ≠ sg_audience s ∨ wc_subject c = "" ∨
                     wc_subject c ≠ wc_operator c ∨ wc_team c = "" ∨ wc_jti c = "")) &&
  negb (nowUnix + 30 <? wc_issued c) && negb (wc_expires c <=? nowUnix) &&
  negb (wc_expires c <=? wc_issued c).

(** Verify; every refusal is the same error. *)
Definition working_Verify (s : Signer) (token : string) (now : Z) : option WorkingClaims :=
  match split dot token with
  | [p0; p1; p2] =>
      match decode p0 ≫= jwt_header_decode with
      | Some h =>
          if bool_decide (jh_alg h ≠ "RS256" ∨ jh_kid h ≠ sg_key_id s ∨ jh_typ h ≠ "JWT") then None
          else
            match decode p2 with
            | Some signature =>
                if negb (rsa_verify (rsa_public (sg_key s)) SHA256 (join2 p0 p1) signature)
                then None
                else
                  match decode p1 ≫= working_claims_decode with
                  | Some c => if working_claims_ok s now c then Some c else None
                  | None => None
                  end
            | None => None
            end
      | None => None
      end
  | _ => None
  end.

Lemma unix_truncate clock : unix (clock - clock mod second) = unix clock.
Proof using. unfold unix, second. Z.to_euclidean_division_equations. lia. Qed.

Lemma unix_expiry clock ttl :
  unix (clock - clock mod second + ttl) = unix clock + ttl / second.
Proof using.
  unfold unix, second. replace (clock - clock mod 10 ^ 9) with (clock / 10 ^ 9 * 10 ^ 9)
    by (pose proof (Z.div_mod clock (10 ^ 9)); lia).
  by rewrite Z.div_add_l by lia.
Qed.

(** Verify on a token of three segments that carry these documents. *)
Lemma working_Verify_segments s h c signature now :
  plain_text (jh_kid h) → working_claims_decode (working_claims_json c) = Some c →
  rsa_verify (rsa_public (sg_key s)) SHA256
    (join2 (encode (working_header_json h)) (encode (working_claims_json c))) signature = true →
  jh_alg h = "RS256" → jh_kid h = sg_key_id s → jh_typ h = "JWT" →
  working_Verify s (join2 (join2 (encode (working_header_json h)) (encode (working_claims_json c)))
                      (encode signature)) now
  = if working_claims_ok s now c then Some c else None.
Proof using.
  intros Hh Hc Hs Ha Hk Ht. unfold working_Verify.
  rewrite join2_join2_split by apply encode_no_dot. rewrite !decode_encode. simpl.
  rewrite working_header_roundtrip by done. simpl.
  rewrite bool_decide_eq_false_2 by (intros [?|[?|?]]; done). by rewrite Hs, Hc.
Qed.

(** C20. The life of a working token: what Sign issues, Verify accepts for exactly its operator, team
    and display name from thirty seconds before its issue to its expiry, provided that it lives for a
    second at least; a token with a shorter life is never accepted. *)
Theorem working_token_lifetime s operator team teamName bytes clock now token :
  Sign s operator team teamName (Some bytes) clock = Some token →
  bytes ≠ "" → 0 ≤ clock < 2 ^ 62 → 0 ≤ sg_ttl s < 2 ^ 62 →
  plain_text (sg_key_id s) → plain_text (sg_issuer s) → plain_text (sg_audience s) →
  plain_text operator → plain_text team → (∀ n, teamName = Some n → plain_text n) →
  working_Verify s (tk_access token) now =
    if (unix clock <=? unix now + 30) && (unix now <? unix clock + sg_ttl s / second) &&
       (second <=? sg_ttl s)
    then Some (mkWorkingClaims (sg_issuer s) (sg_audience s) operator operator team teamName
                 (unix clock) (unix clock + sg_ttl s / second) (tk_jti token))
    else None.
Proof using.
  unfold Sign. case_bool_decide as Hne; [done|]. intros Hs Hb Hc Ht Hk Hi Ha Ho Htm Hn.
  rewrite unix_truncate, unix_expiry in Hs.
  set (c := mkWorkingClaims _ _ _ _ _ _ _ _ _) in Hs.
  destruct (rsa_sign _ _ _) as [signature|] eqn:Hsig; [|done]. injection Hs as <-.
  assert (Hj0 : encode bytes ≠ "") by by apply encode_nonempty.
  assert (Hr : 0 ≤ unix clock < 2 ^ 62 ∧ 0 ≤ sg_ttl s / second < 2 ^ 62).
  { unfold unix, second. split; Z.to_euclidean_division_equations; lia. }
  cbn [tk_access tk_jti]. rewrite working_Verify_segments; [|done| |by eapply rsa_sign_verify|done..].
  - fold c. assert (working_claims_ok s now c = (unix clock <=? unix now + 30) &&
       (unix now <? unix clock + sg_ttl s / second) && (second <=? sg_ttl s)) as ->; [|done].
    unfold working_claims_ok, c. cbn [wc_issuer wc_audience wc_subject wc_operator wc_team wc_jti
      wc_issued wc_expires].
    rewrite bool_decide_eq_false_2 by (intros [?|[?|[?|[?|[?|?]]]]]; tauto). cbn [negb andb].
    rewrite <- !Z.ltb_antisym, <- Z.leb_antisym || rewrite !Z.leb_antisym, !negb_involutive.
    assert ((second <=? sg_ttl s) = negb (unix clock + sg_ttl s / second <=? unix clock)) as ->; [|].
    { apply eq_true_iff_eq. rewrite negb_true_iff, Z.leb_le, Z.leb_gt. unfold second.
      Z.to_euclidean_division_equations. lia. }
    repeat f_equal.
    all: apply eq_true_iff_eq; rewrite ?negb_true_iff, ?Z.leb_le, ?Z.ltb_lt, ?Z.leb_gt, ?Z.ltb_ge; lia.
  - unfold c. apply working_claims_roundtrip; simpl; try done; [apply plain_encode|..];
      unfold in_int64; lia.
Qed.

(** What an accepted token proves: a signature of the gateway's own key on these claims. *)
Definition signed_by (s : Signer) (token : string) (c : WorkingClaims) : Prop :=
  ∃ p0 p1 p2 signature document,
    split dot token = [p0; p1; p2] ∧ decode p2 = Some signature ∧
    rsa_verify (rsa_public (sg_key s)) SHA256 (join2 p0 p1) signature = true ∧
    decode p1 = Some document ∧ working_claims_decode document = Some c.

Lemma working_Verify_sound s token now c :
  working_Verify s token now = Some c → signed_by s token c ∧ working_claims_ok s now c = true.
Proof using.
  unfold working_Verify. destruct (split dot token) as [|p0 [|p1 [|p2 [|]]]] eqn:Hs; try done.
  destruct (decode p0 ≫= jwt_header_decode) as [h|]; [|done]. case_bool_decide; [done|].
  destruct (decode p2) as [signature|] eqn:Hsig; [|done].
  destruct (rsa_verify _ _ _ _) eqn:Hv; [|done]. simpl.
  destruct (decode p1) as [document|] eqn:Hd; [|done]. simpl.
  destruct (working_claims_decode document) as [c'|] eqn:Hc; [|done].
  destruct (working_claims_ok s now c') eqn:Hok; [|done]. intros [= ->].
  split; [|done]. by exists p0, p1, p2, signature, document.
Qed.
End tokens.

(** ** Session envelopes (sessioncrypto/cipher.go) *)

Section cipher.
Context `{Aead}.

(** New: the key is the cipher. *)
Definition cipher_New (key : string) : option string :=
  if Nat.eqb (String.length key) 32 then Some key else None.

Definition nonce_size : nat := 12.
Definition overhead : nat := 16.

(** Encrypt: the nonce, the ciphertext and the tag in one envelope. *)
Definition Encrypt (key : string) (nonce : option string) (plaintext associated : string) :
    option string :=
  match nonce with
  | None => None
  | Some nonce =>
      let '(ciphertext, tag) := gcm_seal key nonce associated plaintext in
      Some (nonce +:+ (ciphertext +:+ tag))
  end.

(** Decrypt: the tag is the end of the envelope. *)
Definition Decrypt (key envelope associated : string) : option string :=
  let l := chars envelope in
  if Nat.ltb (length l) (nonce_size + overhead) then None
  else
    let nonce := of_chars (take nonce_size l) in
    let sealed := drop nonce_size l in
    let cut := (length sealed - overhead)%nat in
    gcm_open key nonce associated (of_chars (take cut sealed)) (of_chars (drop cut sealed)).

Lemma Decrypt_envelope key associated nonce ciphertext tag :
  String.length nonce = nonce_size → String.length tag = overhead →
  Decrypt key (nonce +:+ (ciphertext +:+ tag)) associated
  = gcm_open key nonce associated ciphertext tag.
Proof using.
  intros Hn Ht. rewrite <- length_chars in Hn, Ht. unfold Decrypt. rewrite !chars_app, !length_app, Hn, Ht.
  assert (Nat.ltb (nonce_size + (length (chars ciphertext) + overhead)) (nonce_size + overhead) = false)
    as -> by (apply Nat.ltb_ge; lia).
  rewrite take_app_length', drop_app_length' by done. rewrite length_app, Ht, Nat.add_sub.
  rewrite take_app_length', drop_app_length' by done. by rewrite !of_chars_chars.
Qed.

(** A session's provider credentials: Decrypt gives back what Encrypt was given for the same
    session, and whatever Decrypt accepts for a session was sealed under the gateway's key for that
    session; a changed or truncated envelope, or one of another session, is refused unless it is
    itself such a seal. *)
Theorem envelope_bound_to_session key session :
  (∀ nonce plaintext envelope,
     String.length nonce = nonce_size → Encrypt key (Some nonce) plaintext session = Some envelope →
     Decrypt key envelope session = Some plaintext) ∧
  (∀ envelope plaintext, Decrypt key envelope session = Some plaintext →
     ∃ nonce, String.length nonce = nonce_size ∧ Encrypt key (Some nonce) plaintext session = Some envelope).
Proof using.
  split.
  - intros nonce plaintext envelope Hn. unfold Encrypt.
    pose proof (gcm_open_seal key nonce session plaintext) as Ho.
    pose proof (gcm_tag_length key nonce session plaintext) as Ht.
    destruct (gcm_seal _ _ _ _) as [ct tag]. simpl in *. intros [= <-].
    by rewrite Decrypt_envelope.
  - intros envelope plaintext. unfold Decrypt.
    destruct (Nat.ltb _ _) eqn:Hl; [done|]. apply Nat.ltb_ge in Hl.
    set (l := chars envelope) in *. set (cut := (length (drop nonce_size l) - overhead)%nat).
    intros Ho%gcm_open_sound. exists (of_chars (take nonce_size l)). split.
    + rewrite <- length_chars, chars_of_chars, length_take. unfold nonce_size, overhead in *. lia.
    + unfold Encrypt. rewrite Ho. f_equal. apply chars_inj.
      rewrite !chars_app, !chars_of_chars, take_drop, take_drop. done.
Qed.
End cipher.
