(* ===== verification/GatewayStore.v ===== *)
(** * The gateway's database (svc/api-gateway/internal/store, internal/migrations)

    The mappings of external teams, the browser sessions, what the identity provider said about
    their teams, the access derived from it and the records of issued tokens; sessions.go and
    mappings.go over them. Sessions and tokens are stored under the SHA-256 of their identifiers. *)

From stdpp Require Import base gmap strings list sorting.
From S2P Require Import Prelude Platform Tx Schema Store.
#[local] Open Scope Z_scope.

(** crypto/sha256; nothing is assumed of it. *)
Class Sha256 := { sha256 : string → string }.

(** ** Tables (00001_initial_schema.sql) *)

Record MappingRow : Type := mkMappingRow {
  mr_team : string; mr_name : option string; mr_archived : option Z; mr_created : Z; mr_updated : Z }.

Record SessionRow : Type := mkSessionRow {
  sn_operator : string; sn_issuer : string; sn_subject : string; sn_state : string;
  sn_observed : Z; sn_expires : Z; sn_created : Z }.

Record AccessRow : Type := mkAccessRow {
  ac_operator : string; ac_issuer : string; ac_oidc_team : string; ac_observed : Z }.

Record TokenRow : Type := mkTokenRow {
  tr_session : string; tr_operator : string; tr_team : string; tr_issued : Z; tr_expires : Z }.

Record GateDB : Type := mkGateDB {
  gd_mappings : gmap (string * string) MappingRow;
  gd_sessions : gmap string SessionRow;
  gd_observations : gmap (string * string) Z;
  gd_access : gmap (string * string) AccessRow;
  gd_tokens : gmap string TokenRow }.

Definition empty_gate : GateDB := mkGateDB ∅ ∅ ∅ ∅ ∅.

Definition put_mappings m d :=
  mkGateDB m (gd_sessions d) (gd_observations d) (gd_access d) (gd_tokens d).
Definition put_sessions m d :=
  mkGateDB (gd_mappings d) m (gd_observations d) (gd_access d) (gd_tokens d).
Definition put_observations m d :=
  mkGateDB (gd_mappings d) (gd_sessions d) m (gd_access d) (gd_tokens d).
Definition put_access m d :=
  mkGateDB (gd_mappings d) (gd_sessions d) (gd_observations d) m (gd_tokens d).
Definition put_tokens m d :=
  mkGateDB (gd_mappings d) (gd_sessions d) (gd_observations d) (gd_access d) m.

Section statements.
Context `{PgTime}.

Definition session_exists (h : string) (d : GateDB) : bool := bool_decide (is_Some (gd_sessions d !! h)).

Definition insert_session (now : Z) (h : string) (s : SessionRow) (d : GateDB) : result sql_error GateDB :=
  check (bool_decide (gd_sessions d !! h = None)) unique_violation "oidc_sessions_pkey"
  (check (bool_decide (sn_operator s ≠ "" ∧ sn_subject s ≠ "")) check_violation "oidc_sessions_check"
  (check (pg_ts now <? sn_expires s) check_violation "oidc_sessions_expires_at_check"
  (Ok (put_sessions (<[h := s]> (gd_sessions d)) d)))).

Definition insert_observation (h oidc_team : string) (observed : Z) (d : GateDB) :
    result sql_error GateDB :=
  check (bool_decide (gd_observations d !! (h, oidc_team) = None)) unique_violation
    "membership_observations_pkey"
  (check (bool_decide (oidc_team ≠ "")) check_violation "membership_observations_oidc_team_id_check"
  (check (session_exists h d) foreign_key_violation "membership_observations_session_id_hash_fkey"
  (Ok (put_observations (<[(h, oidc_team) := pg_ts observed]> (gd_observations d)) d)))).

Definition insert_access (h team : string) (r : AccessRow) (d : GateDB) : result sql_error GateDB :=
  check (bool_decide (gd_access d !! (h, team) = None)) unique_violation
    "derived_operator_team_access_pkey"
  (check (bool_decide (ac_operator r ≠ "" ∧ team ≠ "")) check_violation
    "derived_operator_team_access_check"
  (check (session_exists h d) foreign_key_violation "derived_operator_team_access_session_id_hash_fkey"
  (check (bool_decide (is_Some (gd_mappings d !! (ac_issuer r, ac_oidc_team r)))) foreign_key_violation
    "derived_operator_team_access_mapping_fkey"
  (Ok (put_access (<[(h, team) := r]> (gd_access d)) d))))).

Fixpoint insert_access_rows (h : string) (rows : list (string * AccessRow)) (d : GateDB) :
    result sql_error GateDB :=
  match rows with
  | [] => Ok d
  | (team, r) :: rows' =>
      match insert_access h team r d with
      | Ok d' => insert_access_rows h rows' d'
      | Err e => Err e
      end
  end.

(** The SELECT of the derivation: the issuer's mappings whose external team the session was
    observed in. *)
Definition derived_rows (h operator issuer : string) (observed : Z) (d : GateDB) :
    list (string * AccessRow) :=
  omap (λ '((i, oidc), m),
    if bool_decide (i = issuer ∧ is_Some (gd_observations d !! (h, oidc)))
    then Some (mr_team m, mkAccessRow operator i oidc (pg_ts observed)) else None)
    (map_to_list (gd_mappings d)).

Definition derive_access (h operator issuer : string) (observed : Z) (d : GateDB) :
    result sql_error GateDB :=
  insert_access_rows h (derived_rows h operator issuer observed d) d.

(** INSERT ... ON CONFLICT (issuer, oidc_team_id) DO NOTHING RETURNING. *)
Definition team_mapped (team : string) (d : GateDB) : bool :=
  bool_decide (map_Exists (λ _ m, mr_team m = team) (gd_mappings d)).

Definition insert_mapping (k : string * string) (m : MappingRow) (d : GateDB) :
    result sql_error (GateDB * option MappingRow) :=
  check (bool_decide (k.2 ≠ "" ∧ mr_team m ≠ "")) check_violation "oidc_team_mappings_check"
  (match gd_mappings d !! k with
   | Some _ => Ok (d, None)
   | None =>
       check (negb (team_mapped (mr_team m) d)) unique_violation "oidc_team_mappings_team_unique"
       (Ok (put_mappings (<[k := m]> (gd_mappings d)) d, Some m))
   end).

Definition insert_token (jti : string) (t : TokenRow) (d : GateDB) : result sql_error GateDB :=
  check (bool_decide (gd_tokens d !! jti = None)) unique_violation "working_token_records_pkey"
  (check (tr_issued t <? tr_expires t) check_violation "working_token_records_check"
  (check (session_exists (tr_session t) d) foreign_key_violation "working_token_records_session_id_hash_fkey"
  (Ok (put_tokens (<[jti := t]> (gd_tokens d)) d)))).

(** DELETE FROM oidc_sessions, with its cascades. *)
Definition delete_session (h : string) (d : GateDB) : GateDB :=
  mkGateDB (gd_mappings d) (delete h (gd_sessions d))
    (filter (λ kv, kv.1.1 ≠ h) (gd_observations d)) (filter (λ kv, kv.1.1 ≠ h) (gd_access d))
    (filter (λ kv, tr_session kv.2 ≠ h) (gd_tokens d)).

Definition clear_membership (h : string) (d : GateDB) : GateDB :=
  put_observations (filter (λ kv, kv.1.1 ≠ h) (gd_observations d)) d.
Definition clear_access (h : string) (d : GateDB) : GateDB :=
  put_access (filter (λ kv, kv.1.1 ≠ h) (gd_access d)) d.
End statements.

(** ** Errors and types *)

Inductive GateError : Type :=
| ErrSessionNotFound
| ErrTeamNotAccessible
| ErrMappingConflict
| GErrText (text : string)
| GErrSql (context : string) (cause : sql_error).

Abbreviation TxG := (Tx GateDB GateError).

Record SessionInput : Type := mkSessionInput {
  si_session : string; si_operator : string; si_issuer : string; si_subject : string;
  si_state : string; si_teams : list string; si_observed : Z; si_expires : Z }.

Record AccessibleTeam : Type := mkTeamEntry {
  at_team : string; at_name : option string; at_archived : option Z }.

Record TokenContext : Type := mkTokenContext {
  tx_session : string; tx_operator : string; tx_team : string; tx_name : option string }.

Record MembershipState : Type := mkMembership {
  ms_state : string; ms_issuer : string; ms_subject : string; ms_observed : Z }.

Record Mapping : Type := mkMapping {
  mp_issuer : string; mp_oidc_team : string; mp_team : string; mp_name : option string;
  mp_archived : option Z }.

(** A statement outside a transaction takes effect by itself, and it can have done so when its
    answer does not arrive. *)
Definition autocommit (wrap : sql_error → GateError) : TxG unit := commit wrap.

(** ORDER BY team_name ASC NULLS LAST, team_id ASC. *)
Section presentation.
Context `{Collation}.

Definition name_le (a b : option string * string) : Prop :=
  match a, b with
  | (Some x, i), (Some y, j) => (x ≠ y ∧ coll_le x y) ∨ (x = y ∧ coll_le i j)
  | (Some _, _), (None, _) => True
  | (None, _), (Some _, _) => False
  | (None, i), (None, j) => coll_le i j
  end.

#[export] Instance name_le_dec : RelDecision name_le.
Proof using. intros [[x|] i] [[y|] j]; simpl; apply _. Defined.

#[export] Instance name_le_trans : Transitive name_le.
Proof using.
  intros [[x|] i] [[y|] j] [[z|] k]; simpl; try done; [|by etrans].
  intros [[Hn Hxy]|[-> Hij]] [[Hn' Hyz]|[-> Hjk]]; eauto.
  - left. split; [|by etrans]. intros ->. apply Hn. by apply (anti_symm coll_le).
  - right. split; [done|]. by etrans.
Qed.

#[export] Instance name_le_total : Total name_le.
Proof using.
  intros [[x|] i] [[y|] j]; simpl; auto; [|apply total, _].
  destruct (decide (x = y)) as [->|Hn].
  - destruct (total coll_le i j); auto.
  - destruct (total coll_le x y); eauto.
Qed.
End presentation.

(** ** Sessions (store/sessions.go) *)

Section sessions.
Context `{Collation, PgTime, Sha256}.

Definition sessionHash (session : string) : string := sha256 session.

(** WHERE session_id_hash=$1 AND expires_at>$2. *)
Definition live_session (h : string) (now : Z) (d : GateDB) : option SessionRow :=
  s ← gd_sessions d !! h; if pg_ts now <? sn_expires s then Some s else None.

(** The loop of Create and of ReplaceMembership. *)
Fixpoint insert_memberships (context h : string) (observed : Z) (ids : list string) : TxG unit :=
  match ids with
  | [] => ret ()
  | id :: ids' =>
      guard bool_decide (id ≠ "") else GErrText "empty OIDC team ID" ;;
      exec (GErrSql context) (λ _ d, insert_observation h id observed d) ;;;
      insert_memberships context h observed ids'
  end.

Definition Create (input : SessionInput) : TxG unit :=
  guard negb (bool_decide (si_session input = "" ∨ si_operator input = "" ∨ si_issuer input = "" ∨
                           si_subject input = "" ∨ si_state input = "")) &&
        (si_observed input <? si_expires input)
    else GErrText "invalid session input" ;;
  let h := sessionHash (si_session input) in
  begin_tx (GErrSql "begin session") ;;;
  exec (GErrSql "insert session") (λ now d,
    insert_session now h (mkSessionRow (si_operator input) (si_issuer input) (si_subject input)
      (si_state input) (pg_ts (si_observed input)) (pg_ts (si_expires input)) (pg_ts now)) d) ;;;
  insert_memberships "insert membership" h (si_observed input) (si_teams input) ;;;
  exec (GErrSql "derive access") (λ _ d,
    derive_access h (si_operator input) (si_issuer input) (si_observed input) d) ;;;
  commit (GErrSql "commit session").

(** The mapping of an access row. *)
Definition access_mapping (d : GateDB) (r : AccessRow) : option MappingRow :=
  gd_mappings d !! (ac_issuer r, ac_oidc_team r).

(** The access rows of a session with their mappings. *)
Definition session_access (h : string) (d : GateDB) : list (string * AccessRow * MappingRow) :=
  omap (λ '((h', team), r),
    if bool_decide (h' = h) then (λ m, (team, r, m)) <$> access_mapping d r else None)
    (map_to_list (gd_access d)).

Definition team_entry (m : MappingRow) : AccessibleTeam :=
  mkTeamEntry (mr_team m) (mr_name m) (mr_archived m).

Definition entry_le (a b : AccessibleTeam) : Prop :=
  name_le (at_name a, at_team a) (at_name b, at_team b).
#[export] Instance entry_le_dec : RelDecision entry_le.
Proof using. intros a b. unfold entry_le. apply _. Defined.

Definition select_teams (h : string) (now : Z) (d : GateDB) : list AccessibleTeam :=
  match live_session h now d with
  | Some _ => order_by entry_le ((λ x, team_entry x.2) <$> session_access h d)
  | None => []
  end.

Definition AccessibleTeams (session : string) (now : Z) : TxG (list AccessibleTeam) :=
  let h := sessionHash session in
  teams <- query (GErrSql "list accessible teams") (select_teams h now) ;;
  if bool_decide (teams = []) then
    exists_ <- query (GErrSql "") (λ d, bool_decide (is_Some (live_session h now d))) ;;
    guard (exists_ : bool) else ErrSessionNotFound ;;
    ret teams
  else ret teams.

Definition Delete (session : string) : TxG unit :=
  let h := sessionHash session in
  affected <- exec_returning (GErrSql "") (λ _ d, Ok (delete_session h d, session_exists h d)) ;;
  autocommit (GErrSql "") ;;;
  guard (affected : bool) else ErrSessionNotFound ;;
  ret ().

Definition select_context (h team : string) (now : Z) (d : GateDB) : option TokenContext :=
  s ← live_session h now d;
  x ← head (filter (λ x, mr_team x.2 = team) (session_access h d));
  Some (mkTokenContext h (sn_operator s) (mr_team x.2) (mr_name x.2)).

(** (SessionStore).TokenContext. *)
Definition SessionTokenContext (session team : string) (now : Z) : TxG TokenContext :=
  let h := sessionHash session in
  row <- query (GErrSql "read token context") (select_context h team now) ;;
  match row with
  | Some c => ret c
  | None =>
      exists_ <- query (GErrSql "") (λ d, bool_decide (is_Some (live_session h now d))) ;;
      if exists_ : bool then throw ErrTeamNotAccessible else throw ErrSessionNotFound
  end.

(** (SessionStore).MembershipState. *)
Definition SessionMembershipState (session : string) (now : Z) : TxG MembershipState :=
  row <- query (GErrSql "read membership state") (live_session (sessionHash session) now) ;;
  match row with
  | Some s => ret (mkMembership (sn_state s) (sn_issuer s) (sn_subject s) (sn_observed s))
  | None => throw ErrSessionNotFound
  end.

Definition update_state (h encrypted : string) (observed : Z) (d : GateDB) : GateDB :=
  put_sessions (alter (λ s, mkSessionRow (sn_operator s) (sn_issuer s) (sn_subject s) encrypted
                              (pg_ts observed) (sn_expires s) (sn_created s)) h (gd_sessions d)) d.

Definition ReplaceMembership (session encrypted : string) (ids : list string) (observed : Z) :
    TxG unit :=
  let h := sessionHash session in
  begin_tx (GErrSql "") ;;;
  row <- query (GErrSql "") (λ d, gd_sessions d !! h) ;;
  match row with
  | None => throw ErrSessionNotFound
  | Some s =>
      exec (GErrSql "") (λ _ d, Ok (update_state h encrypted observed d)) ;;;
      exec (GErrSql "") (λ _ d, Ok (clear_membership h d)) ;;;
      exec (GErrSql "") (λ _ d, Ok (clear_access h d)) ;;;
      insert_memberships "" h observed ids ;;;
      exec (GErrSql "") (λ _ d, derive_access h (sn_operator s) (sn_issuer s) observed d) ;;;
      commit (GErrSql "")
  end.

Definition RecordToken (context : TokenContext) (jti : string) (issued expires : Z) : TxG unit :=
  exec (GErrSql "") (λ _ d,
    insert_token (sha256 jti) (mkTokenRow (tx_session context) (tx_operator context) (tx_team context)
      (pg_ts issued) (pg_ts expires)) d) ;;;
  autocommit (GErrSql "").

(** The joins of ValidateTokenAccess. *)
Definition token_valid (operator team jti_hash : string) (now : Z) (d : GateDB) : bool :=
  match gd_tokens d !! jti_hash with
  | None => false
  | Some t =>
      match gd_sessions d !! tr_session t with
      | None => false
      | Some s =>
          bool_decide (is_Some (gd_access d !! (tr_session t, tr_team t)) ∧
                       tr_operator t = operator ∧ tr_team t = team) &&
          (pg_ts now <? tr_expires t) && (pg_ts now <? sn_expires s)
      end
  end.

Definition ValidateTokenAccess (operator team jti : string) (now : Z) : TxG unit :=
  ok <- query (GErrSql "") (token_valid operator team (sha256 jti) now) ;;
  guard (ok : bool) else ErrTeamNotAccessible ;;
  ret ().

(** ** Mappings (store/mappings.go) *)

Definition uniqueViolation (e : sql_error) : bool :=
  match e with SqlState code _ => bool_decide (code = unique_violation) | _ => false end.

Definition scanMapping (k : string * string) (m : MappingRow) : Mapping :=
  mkMapping k.1 k.2 (mr_team m) (mr_name m) (mr_archived m).

Definition insert_failed (e : sql_error) : GateError :=
  if uniqueViolation e then ErrMappingConflict else GErrSql "insert mapping" e.

Definition Register (m : Mapping) : TxG (Mapping * bool) :=
  guard negb (bool_decide (mp_issuer m = "" ∨ mp_oidc_team m = "" ∨ mp_team m = ""))
    else GErrText "mapping fields must be non-empty" ;;
  let k := (mp_issuer m, mp_oidc_team m) in
  created <- exec_returning insert_failed (λ now d,
    insert_mapping k (mkMappingRow (mp_team m) (mp_name m) (pg_ts <$> mp_archived m)
                        (pg_ts now) (pg_ts now)) d) ;;
  autocommit insert_failed ;;;
  match created with
  | Some row => ret (scanMapping k row, true)
  | None =>
      row <- query (GErrSql "read conflicting mapping") (λ d, gd_mappings d !! k) ;;
      match row with
      | None => throw (GErrText "read conflicting mapping")
      | Some existing =>
          guard bool_decide (mr_team existing = mp_team m) else ErrMappingConflict ;;
          ret (scanMapping k existing, false)
      end
  end.

Definition mapping_le (a b : Mapping) : Prop :=
  name_le (mp_name a, mp_team a) (mp_name b, mp_team b).
#[export] Instance mapping_le_dec : RelDecision mapping_le.
Proof using. intros a b. unfold mapping_le. apply _. Defined.

Definition Resolve (issuer : string) (ids : list string) : TxG (list Mapping) :=
  if bool_decide (ids = []) then ret []
  else
    query (GErrSql "resolve mappings") (λ d,
      order_by mapping_le
        (filter (λ m, mp_issuer m = issuer ∧ mp_oidc_team m ∈ ids)
           ((λ '(k, m), scanMapping k m) <$> map_to_list (gd_mappings d)))).

Definition refresh_row (name : string) (archived : option Z) (now : Z) (m : MappingRow) : MappingRow :=
  mkMappingRow (mr_team m) (Some name) (pg_ts <$> archived) (mr_created m) (pg_ts now).

Definition refresh_mappings (team name : string) (archived : option Z) (now : Z) (d : GateDB) : GateDB :=
  put_mappings ((λ m, if bool_decide (mr_team m = team) then refresh_row name archived now m else m)
                  <$> gd_mappings d) d.

Definition RefreshPresentation (team name : string) (archived : option Z) : TxG unit :=
  affected <- exec_returning (GErrSql "refresh mapping presentation") (λ now d,
    Ok (refresh_mappings team name archived now d,
        size (filter (λ kv, mr_team kv.2 = team) (gd_mappings d)))) ;;
  autocommit (GErrSql "refresh mapping presentation") ;;;
  guard Nat.eqb affected 1 else ErrMappingConflict ;;
  ret ().
End sessions.

(** ** What the statements do *)

Section effects.
Context `{Collation, PgTime, Sha256}.

Lemma gate_check_ok {A} b code con (k : result sql_error A) a :
  check b code con k = Ok a → b = true ∧ k = Ok a.
Proof using. unfold check. by destruct b. Qed.

Lemma insert_session_ok now h s d d' :
  insert_session now h s d = Ok d' →
  gd_sessions d !! h = None ∧ sn_operator s ≠ "" ∧ pg_ts now < sn_expires s ∧
  d' = put_sessions (<[h := s]> (gd_sessions d)) d.
Proof using.
  unfold insert_session. intros (Hn & (Ho & (He & [= <-])%gate_check_ok)%gate_check_ok)%gate_check_ok.
  to_prop. by apply Z.ltb_lt in He.
Qed.

Lemma insert_memberships_ok context h observed ids env st u st' :
  insert_memberships context h observed ids env st = (Ok u, st') →
  ts_durable st' = ts_durable st ∧
  (∃ obs, ts_db st' = put_observations obs (ts_db st) ∧
     (∀ h' i, obs !! (h', i) = if bool_decide (h' = h ∧ i ∈ ids) then Some (pg_ts observed)
                               else gd_observations (ts_db st) !! (h', i))) ∧
  NoDup ids ∧ (∀ i, i ∈ ids → i ≠ "" ∧ gd_observations (ts_db st) !! (h, i) = None).
Proof using.
  revert st. induction ids as [|id ids IH]; intros st; simpl; intros Hrun.
  - apply ret_ok in Hrun as [_ ->]. split_and!; [done| |constructor|by intros i ?%not_elem_of_nil].
    exists (gd_observations (ts_db st)). split; [by destruct (ts_db st)|].
    intros h' i. rewrite bool_decide_eq_false_2; [done|]. intros [_ ?%not_elem_of_nil]. done.
  - case_bool_decide as Hid; [|done].
    apply bind_ok in Hrun as (a & st1 & Hm & Hk). apply exec_ok in Hm as (Hm & Hd & _).
    unfold insert_observation in Hm. apply gate_check_ok in Hm as [Hn Hm].
    apply gate_check_ok in Hm as [_ Hm]. apply gate_check_ok in Hm as [_ [= Hdb]]. to_prop.
    destruct (IH _ Hk) as (Hd2 & (obs & Hdb' & Hobs) & Hnd & Hnew). rewrite <- Hdb in *. simpl in *.
    assert (Hid' : id ∉ ids).
    { intros Hin. destruct (Hnew id Hin) as [_ He]. by rewrite lookup_insert_eq in He. }
    split_and!; [congruence| |by constructor|].
    + exists obs. rewrite Hdb'. split; [done|]. intros h' i. rewrite Hobs.
      repeat case_bool_decide; rewrite ?elem_of_cons in *; try tauto.
      * destruct H3 as [-> [->|?]]; [by rewrite lookup_insert_eq|tauto].
      * rewrite lookup_insert_ne; [done|]. intros [= <- <-]. tauto.
    + intros i [->|Hi]%elem_of_cons; [done|]. destruct (Hnew i Hi) as [? He]. split; [done|].
      rewrite lookup_insert_ne in He; [done|]. intros [= <-]. done.
Qed.

Lemma insert_access_rows_ok h rows d d' :
  insert_access_rows h rows d = Ok d' →
  (∃ acc, d' = put_access acc d ∧
     ∀ h' t r, acc !! (h', t) = Some r ↔ gd_access d !! (h', t) = Some r ∨ h' = h ∧ (t, r) ∈ rows) ∧
  (∀ t r, (t, r) ∈ rows → ac_operator r ≠ "" ∧ t ≠ "" ∧ gd_access d !! (h, t) = None).
Proof using.
  revert d. induction rows as [|[t0 r0] rows IH]; intros d; simpl.
  - intros [= <-]. split; [|by intros t r ?%not_elem_of_nil]. exists (gd_access d).
    split; [by destruct d|]. intros h' t r. split; [by left|]. by intros [?|[_ ?%not_elem_of_nil]].
  - destruct (insert_access h t0 r0 d) as [d1|] eqn:Hi; [|done]. intros Hrun.
    unfold insert_access in Hi. apply gate_check_ok in Hi as [Hn Hi]. apply gate_check_ok in Hi as [Ho Hi].
    apply gate_check_ok in Hi as [_ Hi]. apply gate_check_ok in Hi as [_ [= <-]]. to_prop.
    destruct (IH _ Hrun) as ((acc & -> & Hacc) & Hnew). simpl in *.
    assert (Ht0 : ∀ r, (t0, r) ∉ rows).
    { intros r Hin. destruct (Hnew _ _ Hin) as (_ & _ & He). by rewrite lookup_insert_eq in He. }
    split.
    + exists acc. split; [done|]. intros h' t r. rewrite Hacc, elem_of_cons, lookup_insert_Some.
      split.
      * intros [[[[= <- <-] <-]|[? ?]]|[-> ?]]; auto.
      * intros [Hold|[-> [[= -> ->]|Hin]]]; auto. left. right. split; [congruence|done].
    + intros t r [[= -> ->]|Hin]%elem_of_cons; [tauto|].
      destruct (Hnew _ _ Hin) as (? & ? & He). split_and!; [done..|].
      rewrite lookup_insert_ne in He; [done|]. intros [= <-]. by destruct (Ht0 r).
Qed.

Lemma elem_of_derived_rows h operator issuer observed d t r :
  (t, r) ∈ derived_rows h operator issuer observed d ↔
  ∃ oidc m, gd_mappings d !! (issuer, oidc) = Some m ∧ is_Some (gd_observations d !! (h, oidc)) ∧
    t = mr_team m ∧ r = mkAccessRow operator issuer oidc (pg_ts observed).
Proof using.
  unfold derived_rows. rewrite list_elem_of_omap. split.
  - intros ([[i oidc] m] & Hin%elem_of_map_to_list & He). case_bool_decide as Hb; [|done].
    destruct Hb as [-> Hb]. injection He as <- <-. by exists oidc, m.
  - intros (oidc & m & Hm & Hb & -> & ->). exists ((issuer, oidc), m).
    split; [by apply elem_of_map_to_list|]. by rewrite bool_decide_eq_true_2.
Qed.

(** ** The invariant of the tables *)

Record gate_ok (d : GateDB) : Prop := mkGateOk {
  go_mapping k m : gd_mappings d !! k = Some m → k.2 ≠ "" ∧ mr_team m ≠ "";
  go_unique k k' m m' : gd_mappings d !! k = Some m → gd_mappings d !! k' = Some m' →
    mr_team m = mr_team m' → k = k';
  go_observation h i o : gd_observations d !! (h, i) = Some o → is_Some (gd_sessions d !! h);
  go_access h t r : gd_access d !! (h, t) = Some r → ∃ s m,
    gd_sessions d !! h = Some s ∧ ac_operator r = sn_operator s ∧ ac_issuer r = sn_issuer s ∧
    gd_mappings d !! (ac_issuer r, ac_oidc_team r) = Some m ∧ mr_team m = t ∧
    is_Some (gd_observations d !! (h, ac_oidc_team r));
  go_token j t : gd_tokens d !! j = Some t → is_Some (gd_sessions d !! tr_session t);
  go_session h s : gd_sessions d !! h = Some s → sn_operator s ≠ "";
}.

Lemma empty_gate_ok : gate_ok empty_gate.
Proof using. by split; intros; simplify_map_eq. Qed.

(** The observations that the loop adds keep it, whatever the session. *)
Lemma gate_ok_observations d h (ids : list string) observed obs :
  gate_ok d → is_Some (gd_sessions d !! h) →
  (∀ h' i, obs !! (h', i) = if bool_decide (h' = h ∧ i ∈ ids) then Some (pg_ts observed)
                            else gd_observations d !! (h', i)) →
  gate_ok (put_observations obs d).
Proof using.
  intros [G1 G2 G3 G4 G5 G6] Hs Hobs. split; simpl; try done.
  - intros h' i o. rewrite Hobs. case_bool_decide as Hb; [by destruct Hb as [-> _]|]. apply G3.
  - intros h' t r Hr. destruct (G4 _ _ _ Hr) as (s & m & ? & ? & ? & ? & ? & ?).
    exists s, m. split_and!; try done. rewrite Hobs. by case_bool_decide.
Qed.

Lemma gate_ok_derive d h s observed d' :
  gate_ok d → gd_sessions d !! h = Some s →
  derive_access h (sn_operator s) (sn_issuer s) observed d = Ok d' → gate_ok d'.
Proof using.
  intros [G1 G2 G3 G4 G5 G6] Hs Hd. apply insert_access_rows_ok in Hd as ((acc & -> & Hacc) & Hnew).
  split; simpl; try done. intros h' t r [Hr|[-> Hin]]%Hacc; [by apply G4|].
  apply elem_of_derived_rows in Hin as (oidc & m & Hm & Ho & -> & ->). by exists s, m.
Qed.

Lemma gate_ok_delete d h : gate_ok d → gate_ok (delete_session h d).
Proof using.
  intros [G1 G2 G3 G4 G5 G6]. split; simpl; try done.
  - intros h' i o [Ho Hn]%map_lookup_filter_Some. simpl in Hn. rewrite lookup_delete_ne by done. eauto.
  - intros h' t r [Hr Hn]%map_lookup_filter_Some. simpl in Hn.
    destruct (G4 _ _ _ Hr) as (s & m & Hs & ? & ? & ? & ? & [o Ho]).
    exists s, m. rewrite lookup_delete_ne by done. split_and!; try done. exists o.
    by apply map_lookup_filter_Some.
  - intros j t [Ht Hn]%map_lookup_filter_Some. simpl in Hn. rewrite lookup_delete_ne by done. eauto.
  - intros h' s [_ Hs]%lookup_delete_Some. eauto.
Qed.

(** The session of ReplaceMembership without its observations and its access. *)
Lemma gate_ok_cleared d h encrypted observed :
  gate_ok d → gate_ok (clear_access h (clear_membership h (update_state h encrypted observed d))).
Proof using.
  intros [G1 G2 G3 G4 G5 G6].
  assert (Hsome : ∀ h', is_Some (gd_sessions d !! h') →
    is_Some (gd_sessions (update_state h encrypted observed d) !! h')).
  { intros h' Hs. simpl. destruct (decide (h' = h)) as [->|].
    - rewrite lookup_alter_eq. by apply fmap_is_Some.
    - by rewrite lookup_alter_ne. }
  split; simpl in *; try done.
  - intros h' i o [Ho _]%map_lookup_filter_Some. eauto.
  - intros h' t r [Hr Hn]%map_lookup_filter_Some. simpl in Hn.
    destruct (G4 _ _ _ Hr) as (s & m & Hs & ? & ? & ? & ? & [o Ho]).
    exists s, m. rewrite lookup_alter_ne by done. split_and!; try done. exists o.
    by apply map_lookup_filter_Some.
  - intros j t Ht. eauto.
  - intros h' s. destruct (decide (h' = h)) as [->|].
    + rewrite lookup_alter_eq. intros (s0 & Hs & ->)%fmap_Some. simpl. eauto.
    + rewrite lookup_alter_ne by done. eauto.
Qed.
End effects.

(** ** Operations *)

Inductive gop : Type :=
| OpCreate (input : SessionInput)
| OpAccessibleTeams (session : string) (now : Z)
| OpDelete (session : string)
| OpTokenContext (session team : string) (now : Z)
| OpMembershipState (session : string) (now : Z)
| OpReplaceMembership (session encrypted : string) (ids : list string) (observed : Z)
| OpRecordToken (context : TokenContext) (jti : string) (issued expires : Z)
| OpValidateTokenAccess (operator team jti : string) (now : Z)
| OpRegister (m : Mapping)
| OpRefreshPresentation (team name : string) (archived : option Z).

Definition gop_result (o : gop) : Type :=
  match o with
  | OpAccessibleTeams _ _ => list AccessibleTeam
  | OpTokenContext _ _ _ => TokenContext
  | OpMembershipState _ _ => MembershipState
  | OpRegister _ => Mapping * bool
  | _ => unit
  end.

Section operations.
Context `{Collation, PgTime, Sha256}.

Definition gate_op (o : gop) : TxG (gop_result o) :=
  match o return TxG (gop_result o) with
  | OpCreate input => Create input
  | OpAccessibleTeams s now => AccessibleTeams s now
  | OpDelete s => Delete s
  | OpTokenContext s team now => SessionTokenContext s team now
  | OpMembershipState s now => SessionMembershipState s now
  | OpReplaceMembership s encrypted ids observed => ReplaceMembership s encrypted ids observed
  | OpRecordToken c jti issued expires => RecordToken c jti issued expires
  | OpValidateTokenAccess operator team jti now => ValidateTokenAccess operator team jti now
  | OpRegister m => Register m
  | OpRefreshPresentation team name archived => RefreshPresentation team name archived
  end.

Definition perform_gate (o : gop) (env : TxEnv) (d : GateDB) : result GateError (gop_result o) * GateDB :=
  run_tx (gate_op o) env d.

(** *** Reads leave the database alone *)

Definition reads (o : gop) : bool :=
  match o with
  | OpAccessibleTeams _ _ | OpTokenContext _ _ _ | OpMembershipState _ _
  | OpValidateTokenAccess _ _ _ _ => true
  | _ => false
  end.

Lemma reads_keep o env d : reads o = true → (perform_gate o env d).2 = d.
Proof using.
  intros Ho. unfold perform_gate. destruct (run_tx (gate_op o) env d) as [r d'] eqn:E. simpl.
  eapply run_tx_never_commits; [|exact E]. destruct o; try done; simpl.
  all: unfold AccessibleTeams, SessionTokenContext, SessionMembershipState, ValidateTokenAccess; tx_atomic.
Qed.

Lemma reads_keep_run o env d r d' : reads o = true → perform_gate o env d = (r, d') → d' = d.
Proof using. intros Ho Hrun. change d' with (r, d').2. rewrite <- Hrun. by apply reads_keep. Qed.

(** *** Writes *)

Lemma insert_memberships_never_commits context h observed ids :
  never_commits (insert_memberships context h observed ids).
Proof using. induction ids as [|id ids IH]; simpl; tx_atomic. Qed.
#[local] Hint Resolve insert_memberships_never_commits : flow.

Lemma Create_error_keeps input : error_keeps (Create input).
Proof using. unfold Create. tx_atomic. Qed.

Lemma ReplaceMembership_error_keeps s encrypted ids observed :
  error_keeps (ReplaceMembership s encrypted ids observed).
Proof using. unfold ReplaceMembership. tx_atomic. Qed.

(** What a session is left with: the observations are exactly the given identifiers, the access
    exactly the teams they are mapped to. *)
Definition membership_is (h operator issuer : string) (ids : list string) (observed : Z)
    (d : GateDB) : Prop :=
  (∀ i, gd_observations d !! (h, i) = if bool_decide (i ∈ ids) then Some (pg_ts observed) else None) ∧
  (∀ t r, gd_access d !! (h, t) = Some r ↔ ∃ oidc m,
     gd_mappings d !! (issuer, oidc) = Some m ∧ oidc ∈ ids ∧ t = mr_team m ∧
     r = mkAccessRow operator issuer oidc (pg_ts observed)).

(** The rows of the other sessions. *)
Definition others_keep (h : string) (d d' : GateDB) : Prop :=
  gd_mappings d' = gd_mappings d ∧ gd_tokens d' = gd_tokens d ∧
  ∀ h', h' ≠ h → gd_sessions d' !! h' = gd_sessions d !! h' ∧
    (∀ i, gd_observations d' !! (h', i) = gd_observations d !! (h', i)) ∧
    (∀ t, gd_access d' !! (h', t) = gd_access d !! (h', t)).

(** The common end of Create and ReplaceMembership, on a session without rows. *)
Lemma membership_installed context h s ids observed env st u1 st1 d' :
  gate_ok (ts_db st) → gd_sessions (ts_db st) !! h = Some s →
  (∀ i, gd_observations (ts_db st) !! (h, i) = None) →
  (∀ t, gd_access (ts_db st) !! (h, t) = None) →
  insert_memberships context h observed ids env st = (Ok u1, st1) →
  derive_access h (sn_operator s) (sn_issuer s) observed (ts_db st1) = Ok d' →
  gate_ok d' ∧ gd_sessions d' = gd_sessions (ts_db st) ∧ NoDup ids ∧ "" ∉ ids ∧
  membership_is h (sn_operator s) (sn_issuer s) ids observed d' ∧ others_keep h (ts_db st) d'.
Proof using.
  intros Hok Hs Ho Ha Hm Hd. apply insert_memberships_ok in Hm as (_ & (obs & Hdb & Hobs) & Hnd & Hnew).
  assert (Hok1 : gate_ok (ts_db st1)).
  { rewrite Hdb. apply (gate_ok_observations _ h ids observed); [done|by eexists|exact Hobs]. }
  assert (Hs1 : gd_sessions (ts_db st1) !! h = Some s) by (rewrite Hdb; exact Hs).
  pose proof (gate_ok_derive _ _ _ _ _ Hok1 Hs1 Hd) as Hok'.
  apply insert_access_rows_ok in Hd as ((acc & -> & Hacc) & _). rewrite Hdb in Hacc, Hok' |- *.
  split_and!; simpl; try done.
  - intros Hin. by destruct (Hnew _ Hin).
  - split; simpl.
    + intros i. rewrite Hobs, Ho. repeat case_bool_decide; tauto.
    + intros t r. rewrite Hacc. simpl. rewrite Ha, elem_of_derived_rows. simpl. split.
      * intros [?|(_ & oidc & m & Hmp & [o Hob] & -> & ->)]; [done|]. exists oidc, m.
        rewrite Hobs, Ho in Hob. case_bool_decide as Hin; [|done]. by destruct Hin.
      * intros (oidc & m & Hmp & Hin & -> & ->). right. split; [done|]. exists oidc, m.
        split_and!; try done. rewrite Hobs. by rewrite bool_decide_eq_true_2.
  - split_and!; simpl; [done..|]. intros h' Hne. split_and!; [done| |].
    + intros i. rewrite Hobs. rewrite bool_decide_eq_false_2; [done|]. by intros [? _].
    + intros t. apply option_eq. intros r. rewrite Hacc. simpl. naive_solver.
Qed.

(** Login. A successful Create adds the one session, observed in exactly the given external teams,
    with access to exactly the teams these are mapped to, and touches no other row. *)
Lemma Create_effect input env d u d' :
  gate_ok d → perform_gate (OpCreate input) env d = (Ok u, d') →
  let h := sessionHash (si_session input) in
  gd_sessions d !! h = None ∧
  gd_sessions d' = <[h := mkSessionRow (si_operator input) (si_issuer input) (si_subject input)
    (si_state input) (pg_ts (si_observed input)) (pg_ts (si_expires input)) (pg_ts (env_db_now env))]>
    (gd_sessions d) ∧
  membership_is h (si_operator input) (si_issuer input) (si_teams input) (si_observed input) d' ∧
  others_keep h d d' ∧ gate_ok d'.
Proof using.
  intros Hok Hrun. cbn zeta.
  apply run_tx_ok in Hrun as (st & Hrun & ->). unfold gate_op, Create in Hrun.
  destruct (negb _ && _); [|done]. tx_inv. tx_states.
  set (h := sessionHash (si_session input)) in *.
  match goal with Hi : insert_session _ _ _ _ = Ok _ |- _ =>
    apply insert_session_ok in Hi as (Hnew & Hop & _ & Hdb) end.
  simpl in *.
  assert (Hno : ∀ i, gd_observations d !! (h, i) = None).
  { intros i. destruct (gd_observations d !! (h, i)) eqn:E; [|done].
    destruct (go_observation _ Hok _ _ _ E). congruence. }
  assert (Hna : ∀ t, gd_access d !! (h, t) = None).
  { intros t. destruct (gd_access d !! (h, t)) eqn:E; [|done].
    destruct (go_access _ Hok _ _ _ E) as (? & ? & ? & _). congruence. }
  set (s := mkSessionRow _ _ _ _ _ _ _) in *.
  assert (Hok1 : gate_ok (put_sessions (<[h:=s]> (gd_sessions d)) d)).
  { destruct Hok as [G1 G2 G3 G4 G5 G6].
    assert (Hsome : ∀ h', is_Some (gd_sessions d !! h') → is_Some (<[h:=s]> (gd_sessions d) !! h'))
      by (intros; rewrite lookup_insert_is_Some'; auto).
    split; simpl; eauto.
    - intros h' t r Hr. destruct (G4 _ _ _ Hr) as (s' & m & Hs' & ?).
      exists s', m. split; [|done]. rewrite lookup_insert_ne; [done|]. intros <-. congruence.
    - intros h' s'. rewrite lookup_insert_Some. intros [[<- <-]|[? ?]]; eauto. }
  match goal with Hm : insert_memberships _ _ _ _ _ ?st0 = (Ok _, ?st1), Hd : derive_access _ _ _ _ _ = Ok _ |- _ =>
    assert (Hst0 : ts_db st0 = put_sessions (<[h:=s]> (gd_sessions d)) d) by congruence;
    destruct (membership_installed _ h s _ _ _ _ _ _ _
      ltac:(rewrite Hst0; exact Hok1) ltac:(rewrite Hst0; simpl; by rewrite lookup_insert_eq)
      ltac:(rewrite Hst0; exact Hno) ltac:(rewrite Hst0; exact Hna) Hm Hd)
      as (Hok' & Hss & _ & _ & Hmem & Hoth) end.
  rewrite Hst0 in Hss, Hoth. split_and!; try done.
  destruct Hoth as (? & ? & Hoth). split_and!; [done..|]. intros h' Hne.
  destruct (Hoth h' Hne) as (Hs' & ? & ?). split_and!; try done.
  rewrite Hs'. simpl. by rewrite lookup_insert_ne.
Qed.

(** Refresh. A successful ReplaceMembership leaves its session observed in exactly the new external
    teams with access to exactly the teams these are mapped to: access that is not confirmed is
    gone at once, and with it the validity of every working token for such a team. Nothing else changes
    but the session's state. *)
Lemma ReplaceMembership_effect session encrypted ids observed env d u d' :
  gate_ok d → perform_gate (OpReplaceMembership session encrypted ids observed) env d = (Ok u, d') →
  let h := sessionHash session in
  ∃ s, gd_sessions d !! h = Some s ∧ gate_ok d' ∧ "" ∉ ids ∧
    gd_sessions d' !! h = Some (mkSessionRow (sn_operator s) (sn_issuer s) (sn_subject s) encrypted
      (pg_ts observed) (sn_expires s) (sn_created s)) ∧
    membership_is h (sn_operator s) (sn_issuer s) ids observed d' ∧ others_keep h d d' ∧
    ∀ j t operator now, gd_tokens d !! j = Some t → tr_session t = h →
      (∀ oidc m, gd_mappings d !! (sn_issuer s, oidc) = Some m → mr_team m = tr_team t → oidc ∉ ids) →
      token_valid operator (tr_team t) j now d' = false.
Proof using.
  intros Hok Hrun. cbn zeta.
  apply run_tx_ok in Hrun as (st & Hrun & ->). unfold gate_op, ReplaceMembership in Hrun.
  set (h := sessionHash session) in *. tx_inv. tx_states.
  match goal with Hs : Some _ = gd_sessions _ !! _ |- _ => rename Hs into Hs0; symmetry in Hs0 end.
  repeat match goal with E : Ok _ = Ok (ts_db _) |- _ => injection E as E end.
  simpl in *.
  set (d1 := clear_access h (clear_membership h (update_state h encrypted observed d))).
  set (s' := mkSessionRow (sn_operator s) (sn_issuer s) (sn_subject s) encrypted (pg_ts observed)
    (sn_expires s) (sn_created s)).
  match goal with Hm : insert_memberships _ _ _ _ _ ?st0 = (Ok _, _), Hd : derive_access _ _ _ _ _ = Ok _ |- _ =>
    assert (Hst0 : ts_db st0 = d1) by (unfold d1; congruence);
    destruct (membership_installed _ h s' _ _ _ _ _ _ _
      ltac:(rewrite Hst0; apply gate_ok_cleared; exact Hok)
      ltac:(rewrite Hst0; simpl; by rewrite lookup_alter_eq, Hs0)
      ltac:(rewrite Hst0; intros i; apply map_lookup_filter_None; right; intros ? _ Hne; by apply Hne)
      ltac:(rewrite Hst0; intros t; apply map_lookup_filter_None; right; intros ? _ Hne; by apply Hne) Hm Hd)
      as (Hok' & Hss & _ & Hempty & Hmem & Hoth) end.
  rewrite Hst0 in Hss, Hoth. exists s. split_and!; try done.
  - rewrite Hss. simpl. by rewrite lookup_alter_eq, Hs0.
  - destruct Hoth as (Hmp & Htk & Hoth). split_and!; [done..|]. intros h' Hne.
    destruct (Hoth h' Hne) as (Hs' & Ho' & Ha'). simpl in *. split_and!.
    + rewrite Hs'. by rewrite lookup_alter_ne.
    + intros i. rewrite Ho'. apply option_eq. intros o. rewrite map_lookup_filter_Some. naive_solver.
    + intros t. rewrite Ha'. apply option_eq. intros o. rewrite map_lookup_filter_Some. naive_solver.
  - intros j t operator now Ht Hsess Hno. unfold token_valid.
    destruct Hoth as (Hmp & Htk & Hoth). rewrite Htk. simpl. rewrite Ht, Hsess.
    destr_goal; [|done]. case_bool_decide as Hb; simpl; [exfalso|reflexivity].
    destruct Hb as ([acc Ha] & _ & _). apply (proj2 Hmem) in Ha as (oidc & m & Hm & Hin & Hteam & _).
    rewrite Hmp in Hm. by apply (Hno oidc m).
Qed.

(** No row refers to a session that is not there. *)
Lemma delete_missing h d : gate_ok d → session_exists h d = false → delete_session h d = d.
Proof using.
  intros Hok Hn. unfold session_exists in Hn. to_prop. apply eq_None_not_Some in Hn.
  destruct d as [mp ss ob ac tk]; unfold delete_session; simpl in *. f_equal.
  - by apply delete_id.
  - apply map_filter_id. intros [h' i] o Ho Heq. simpl in Heq. subst h'.
    destruct (go_observation _ Hok _ _ _ Ho). simpl in *. congruence.
  - apply map_filter_id. intros [h' t] a Ha Heq. simpl in Heq. subst h'.
    destruct (go_access _ Hok _ _ _ Ha) as (? & ? & ? & _). simpl in *. congruence.
  - apply map_filter_id. intros j t Ht Heq. simpl in Heq.
    destruct (go_token _ Hok _ _ Ht). simpl in *. congruence.
Qed.

(** Logout. A successful Delete leaves no row of the session: it can list no teams and be
    given no token, and every working token issued to it is refused from then on; no other session's
    row, token or mapping changes. *)
Lemma Delete_effect session env d u d' :
  perform_gate (OpDelete session) env d = (Ok u, d') →
  let h := sessionHash session in
  is_Some (gd_sessions d !! h) ∧ d' = delete_session h d ∧
  (∀ now, live_session h now d' = None ∧ select_teams h now d' = [] ∧
     ∀ team, select_context h team now d' = None) ∧
  (∀ j t, gd_tokens d !! j = Some t →
     (tr_session t = h → ∀ operator team now, token_valid operator team j now d' = false) ∧
     (tr_session t ≠ h → ∀ operator team now,
        token_valid operator team j now d' = token_valid operator team j now d)).
Proof using.
  intros Hrun h. apply run_tx_ok in Hrun as (st & Hrun & ->). unfold gate_op, Delete, autocommit in Hrun.
  fold h in Hrun. tx_inv. tx_states. simplify_eq/=. unfold session_exists in *. to_prop.
  match goal with E : delete_session h ?x = ts_db _, Hs : is_Some _ |- _ =>
    rewrite <- E; clear -Hs; revert Hs; generalize x; intros d Hs end.
  split_and!; [done|done| |].
  - intros now. assert (Hl : live_session h now (delete_session h d) = None)
      by (unfold live_session; simpl; by rewrite lookup_delete_eq).
    unfold select_teams, select_context. rewrite Hl. done.
  - intros j t Ht. unfold token_valid. simpl. split; intros Hsess operator team now.
    + assert (filter (λ kv : string * TokenRow, tr_session kv.2 ≠ h) (gd_tokens d) !! j = None) as ->; [|done].
      apply map_lookup_filter_None. right. intros t' Ht' Hne. simpl in Hne. congruence.
    + assert (filter (λ kv : string * TokenRow, tr_session kv.2 ≠ h) (gd_tokens d) !! j = Some t) as ->
        by by apply map_lookup_filter_Some.
      rewrite Ht. rewrite lookup_delete_ne by done.
      assert (filter (λ kv : string * string * AccessRow, kv.1.1 ≠ h) (gd_access d) !! (tr_session t, tr_team t)
        = gd_access d !! (tr_session t, tr_team t)) as ->; [|done].
      apply option_eq. intros a. rewrite map_lookup_filter_Some. naive_solver.
Qed.

(** *** Mappings *)

Lemma insert_mapping_ok k m d d' o :
  insert_mapping k m d = Ok (d', o) →
  k.2 ≠ "" ∧ mr_team m ≠ "" ∧
  ((d' = d ∧ o = None ∧ is_Some (gd_mappings d !! k)) ∨
   (o = Some m ∧ d' = put_mappings (<[k := m]> (gd_mappings d)) d ∧ gd_mappings d !! k = None ∧
    ∀ k' m', gd_mappings d !! k' = Some m' → mr_team m' ≠ mr_team m)).
Proof using.
  unfold insert_mapping. intros [Hc Hi]%gate_check_ok. to_prop. split_and!; [done..|].
  destruct (gd_mappings d !! k) eqn:Hk; [injection Hi as <- <-; left; eauto|].
  apply gate_check_ok in Hi as [Hm [= <- <-]]. right. split_and!; [done..|].
  intros k' m' Hk' Heq. unfold team_mapped in Hm. to_prop. apply Hm. by exists k', m'.
Qed.

Lemma gate_ok_mapping k m d :
  gate_ok d → k.2 ≠ "" → mr_team m ≠ "" → gd_mappings d !! k = None →
  (∀ k' m', gd_mappings d !! k' = Some m' → mr_team m' ≠ mr_team m) →
  gate_ok (put_mappings (<[k := m]> (gd_mappings d)) d).
Proof using.
  intros [G1 G2 G3 G4 G5 G6] Hk Hm Hn Hf. split; simpl; try done.
  - intros k' m'. rewrite lookup_insert_Some. intros [[<- <-]|[? ?]]; eauto.
  - intros k1 k2 m1 m2. rewrite !lookup_insert_Some.
    intros [[<- <-]|[? H1']] [[<- <-]|[? H2']] Heq; eauto; exfalso; by eapply Hf.
  - intros h t r Hr. destruct (G4 _ _ _ Hr) as (s & m' & ? & ? & ? & Hm' & ? & ?).
    exists s, m'. split_and!; try done. rewrite lookup_insert_ne; [done|]. congruence.
Qed.

(** Registration. A mapping is created only when neither its external team nor its canonical team
    has one; a retry of an identical registration returns the mapping that is there. No
    existing mapping is changed. *)
Lemma Register_effect m env d result created d' :
  perform_gate (OpRegister m) env d = (Ok (result, created), d') →
  let k := (mp_issuer m, mp_oidc_team m) in
  if created then
    k.2 ≠ "" ∧ mp_team m ≠ "" ∧ gd_mappings d !! k = None ∧
    (∀ k' m', gd_mappings d !! k' = Some m' → mr_team m' ≠ mp_team m) ∧
    (∃ row, d' = put_mappings (<[k := row]> (gd_mappings d)) d ∧ mr_team row = mp_team m ∧
            result = scanMapping k row)
  else d' = d ∧ ∃ row, gd_mappings d !! k = Some row ∧ mr_team row = mp_team m ∧ result = scanMapping k row.
Proof using.
  intros Hrun k. unfold perform_gate, run_tx in Hrun. simpl in Hrun. unfold Register in Hrun.
  fold k in Hrun.
  destruct (negb _); [|by simplify_eq/=].
  unfold bind, exec_returning, autocommit, commit, query, stmt in Hrun.
  simpl in Hrun. destruct (env_fault env 0); [by simplify_eq/=|].
  set (row := mkMappingRow (mp_team m) _ _ _ _) in *.
  destruct (insert_mapping k row d) as [[d1 o]|e] eqn:Hi; simpl in Hrun; [|done].
  destruct (env_fault env 1); [done|].
  apply insert_mapping_ok in Hi as (Hk & Hm & [(-> & -> & [old Hold])|(-> & -> & Hnew & Hfree)]); simpl in Hrun.
  - rewrite Hold in Hrun. destruct (env_fault env 2); [by simplify_eq/=|]. simpl in Hrun.
    case_bool_decide as Ht; simplify_eq/=. eauto.
  - simplify_eq/=. split_and!; [done..|]. by exists row.
Qed.

(** Any other registration for a mapped external team or a mapped canonical team is a conflict. *)
Lemma Register_refused m env d e d' :
  perform_gate (OpRegister m) env d = (Err e, d') →
  let k := (mp_issuer m, mp_oidc_team m) in
  match e with
  | ErrMappingConflict =>
      (∃ row, gd_mappings d !! k = Some row ∧ mr_team row ≠ mp_team m) ∨
      gd_mappings d !! k = None ∧ ∃ k' m', gd_mappings d !! k' = Some m' ∧ mr_team m' = mp_team m
  | GErrText _ => mp_issuer m = "" ∨ mp_oidc_team m = "" ∨ mp_team m = ""
  | _ => ∃ n, env_fault env n = true
  end.
Proof using.
  intros Hrun k. unfold perform_gate, run_tx in Hrun. simpl in Hrun. unfold Register in Hrun.
  fold k in Hrun.
  destruct (negb _) eqn:Hneg; [|simplify_eq/=; by to_prop].
  unfold bind, exec_returning, autocommit, commit, query, stmt in Hrun.
  simpl in Hrun. destruct (env_fault env 0) eqn:Hf0; [simplify_eq/=; by exists 0%nat|].
  set (row := mkMappingRow (mp_team m) _ _ _ _) in *.
  destruct (insert_mapping k row d) as [[d1 o]|e'] eqn:Hi; simpl in Hrun.
  - destruct (env_fault env 1) eqn:Hf1; [simplify_eq/=; by exists 1%nat|].
    apply insert_mapping_ok in Hi as (_ & _ & [(-> & -> & [old Hold])|(-> & _)]); simpl in Hrun; [|done].
    rewrite Hold in Hrun. destruct (env_fault env 2) eqn:Hf2; [simplify_eq/=; by exists 2%nat|].
    simpl in Hrun. case_bool_decide; simplify_eq/=. left. by exists old.
  - injection Hrun as <- _. to_prop. unfold insert_mapping, check in Hi.
    rewrite bool_decide_eq_true_2 in Hi by (simpl; tauto).
    destruct (gd_mappings d !! k) eqn:Hk; [done|].
    destruct (team_mapped (mr_team row) d) eqn:Htm; [|done]. injection Hi as <-. right. split; [done|].
    unfold team_mapped in Htm. to_prop. destruct Htm as (k' & m' & ? & ?). by exists k', m'.
Qed.

Lemma refresh_mappings_lookup team name archived now d k :
  gd_mappings (refresh_mappings team name archived now d) !! k =
  (λ m, if bool_decide (mr_team m = team) then refresh_row name archived now m else m) <$> gd_mappings d !! k.
Proof using. simpl. apply lookup_fmap. Qed.

Lemma gate_ok_refresh team name archived now d : gate_ok d → gate_ok (refresh_mappings team name archived now d).
Proof using.
  intros [G1 G2 G3 G4 G5 G6].
  assert (Hteam : ∀ m, mr_team (if bool_decide (mr_team m = team) then refresh_row name archived now m else m)
                       = mr_team m) by (intros m; by case_bool_decide).
  split; try done.
  - intros k m'. rewrite refresh_mappings_lookup. intros (m & Hm & ->)%fmap_Some. rewrite Hteam. eauto.
  - intros k1 k2 m1' m2'. rewrite !refresh_mappings_lookup.
    intros (m1 & Hm1 & ->)%fmap_Some (m2 & Hm2 & ->)%fmap_Some. rewrite !Hteam. eauto.
  - intros h t r Hr. destruct (G4 _ _ _ Hr) as (s & m & ? & ? & ? & Hm & ? & ?).
    exists s, (if bool_decide (mr_team m = team) then refresh_row name archived now m else m).
    rewrite refresh_mappings_lookup, Hm, Hteam. done.
Qed.

Lemma refresh_missing team name archived now d :
  (∀ k m, gd_mappings d !! k = Some m → mr_team m ≠ team) → refresh_mappings team name archived now d = d.
Proof using.
  intros Hno. unfold refresh_mappings. destruct d as [mp ss ob ac tk]. unfold put_mappings. simpl in *. f_equal.
  apply map_eq. intros k. rewrite lookup_fmap. destruct (mp !! k) as [m|] eqn:E; [|done]. simpl.
  rewrite bool_decide_eq_false_2; [done|]. eauto.
Qed.

Lemma refreshed_row team name archived now d k m :
  gate_ok d → gd_mappings d !! k = Some m → mr_team m = team →
  refresh_mappings team name archived now d =
    put_mappings (<[k := mkMappingRow team (Some name) (pg_ts <$> archived) (mr_created m) (pg_ts now)]>
      (gd_mappings d)) d.
Proof using.
  intros Hok Hm <-. unfold refresh_mappings. f_equal. apply map_eq. intros k'. rewrite lookup_fmap.
  destruct (decide (k' = k)) as [->|Hne].
  - rewrite Hm, lookup_insert_eq. simpl. by rewrite bool_decide_eq_true_2.
  - rewrite lookup_insert_ne by done. destruct (gd_mappings d !! k') as [m'|] eqn:E; [|done]. simpl.
    rewrite bool_decide_eq_false_2; [done|]. intros He. apply Hne. by apply (go_unique _ Hok _ _ m' m).
Qed.

(** Whether the UPDATE finds a row. *)
Lemma affected_rows team d :
  gate_ok d →
  let n := size (filter (λ kv : (string * string) * MappingRow, mr_team kv.2 = team) (gd_mappings d)) in
  (n = 1%nat ∧ ∃ k m, gd_mappings d !! k = Some m ∧ mr_team m = team) ∨
  (n ≠ 1%nat ∧ ∀ k m, gd_mappings d !! k = Some m → mr_team m ≠ team).
Proof using.
  intros Hok n. set (f := filter _ _) in n.
  destruct (decide (f = ∅)) as [He|(k & m & Hk)%map_choose].
  - right. split; [by unfold n; rewrite He|]. intros k m Hm Ht.
    assert (f !! k = Some m) as Hf by by apply map_lookup_filter_Some. by rewrite He in Hf.
  - left. apply map_lookup_filter_Some in Hk as [Hk Ht]. simpl in Ht. split; [|by exists k, m].
    assert (f = {[ k := m ]}) as ->; [|by apply map_size_singleton].
    apply map_eq. intros k'. apply option_eq. intros m'. unfold f. rewrite map_lookup_filter_Some. split.
    + intros [Hm' Ht']. simpl in Ht'.
      assert (k' = k) as -> by (apply (go_unique _ Hok _ _ m' m); congruence).
      rewrite lookup_singleton_eq. congruence.
    + intros [<- <-]%lookup_singleton_Some. done.
Qed.

(** A successful refresh names the one mapping of the team anew; without one it is a conflict. *)
Lemma RefreshPresentation_effect team name archived env d u d' :
  gate_ok d → perform_gate (OpRefreshPresentation team name archived) env d = (Ok u, d') →
  d' = refresh_mappings team name archived (env_db_now env) d ∧
  ∃ k m, gd_mappings d !! k = Some m ∧ mr_team m = team.
Proof using.
  intros Hok. unfold perform_gate, run_tx. simpl.
  unfold RefreshPresentation, bind, exec_returning, autocommit, commit, stmt.
  simpl. destruct (env_fault env 0); [done|]. simpl. destruct (env_fault env 1); [done|].
  destruct (affected_rows team d Hok) as [[-> Hm]|[Hn _]]; simpl; [by intros [= _ <-]|].
  by apply Nat.eqb_neq in Hn as ->.
Qed.

Lemma RefreshPresentation_refused team name archived env d e d' :
  gate_ok d → perform_gate (OpRefreshPresentation team name archived) env d = (Err e, d') →
  match e with
  | ErrMappingConflict => ∀ k m, gd_mappings d !! k = Some m → mr_team m ≠ team
  | _ => ∃ n, env_fault env n = true
  end.
Proof using.
  intros Hok. unfold perform_gate, run_tx. simpl.
  unfold RefreshPresentation, bind, exec_returning, autocommit, commit, stmt. simpl.
  destruct (env_fault env 0) eqn:Hf0; [intros [= <- _]; by exists 0%nat|]. simpl.
  destruct (env_fault env 1) eqn:Hf1; [intros [= <- _]; by exists 1%nat|].
  destruct (affected_rows team d Hok) as [[-> _]|[Hn Hno]]; [done|].
  apply Nat.eqb_neq in Hn as ->. by intros [= <- _].
Qed.

(** *** Tokens *)

Lemma RecordToken_effect context jti issued expires env d u d' :
  perform_gate (OpRecordToken context jti issued expires) env d = (Ok u, d') →
  gd_tokens d !! sha256 jti = None ∧ is_Some (gd_sessions d !! tx_session context) ∧
  pg_ts issued < pg_ts expires ∧
  d' = put_tokens (<[sha256 jti := mkTokenRow (tx_session context) (tx_operator context)
         (tx_team context) (pg_ts issued) (pg_ts expires)]> (gd_tokens d)) d.
Proof using.
  unfold perform_gate, run_tx. simpl. unfold RecordToken, bind, exec, autocommit, commit, stmt. simpl.
  destruct (env_fault env 0); [done|].
  destruct (insert_token _ _ _) as [d1|] eqn:Hi; [|done]. simpl. destruct (env_fault env 1); [done|].
  intros [= _ <-]. unfold insert_token in Hi.
  apply gate_check_ok in Hi as [Hn Hi]. apply gate_check_ok in Hi as [Hl Hi]. apply gate_check_ok in Hi as [Hs [= <-]].
  to_prop. apply Z.ltb_lt in Hl. unfold session_exists in Hs. to_prop. done.
Qed.

(** *** Failures *)

(** The acknowledgement of the statement that an operation outside a transaction begins with. *)
Lemma acknowledged {B C} wrap wrap' (f : TxEnv → GateDB → result sql_error (GateDB * B))
    (k : B → TxG C) env d e d' :
  (∀ n env, f (answered n env) = f env) → (∀ b, never_commits (k b)) →
  (∀ d1 b, f env d = Ok (d1, b) → d1 = d ∨ never_fails (k b)) →
  run_tx (bind (stmt wrap f) (λ b, bind (autocommit wrap') (λ _, k b))) env d = (Err e, d') →
  d' = d ∨ ∃ env' a, unacknowledged env env' ∧
    run_tx (bind (stmt wrap f) (λ b, bind (autocommit wrap') (λ _, k b))) env' d = (Ok a, d').
Proof using.
  intros Hf Hk Hb. unfold run_tx, bind at 1 2, stmt at 1, autocommit at 1, commit at 1, begin_st. simpl.
  destruct (env_fault env 0) eqn:Hf0; [intros [= _ <-]; by left|].
  destruct (f env d) as [[d1 b]|e'] eqn:Ef; [|intros [= _ <-]; by left]. simpl. unfold bind at 1.
  destruct (Hb _ _ eq_refl) as [->|Hnf].
  { destruct (env_fault env 1); [intros [= _ <-]; left; by destruct (env_lost env)|].
    destruct (k b env _) as [r st] eqn:Ek. apply (nc_durable _ (Hk b)) in Ek. intros [= _ <-]. by left. }
  destruct (env_fault env 1) eqn:Hf1.
  - destruct (env_lost env) eqn:Hl; [|intros [= _ <-]; by left]. intros [= _ <-]. right.
    set (env' := answered 1 env). set (st1 := mkTxSt d1 d1 2 0).
    destruct (k b env' st1) as [[c|e2] st] eqn:Ek; [|by apply Hnf in Ek]. exists env', c.
    split; [split; [done|]; by exists 1%nat|].
    unfold bind, stmt, autocommit, commit. unfold env' at 2. rewrite Hf. simpl. rewrite Hf0, Ef. simpl.
    fold st1. rewrite Ek.
    apply (nc_durable _ (Hk b)) in Ek. by rewrite Ek.
  - destruct (k b env _) as [[c|e2] st] eqn:Ek; [done|by apply Hnf in Ek].
Qed.

(** An operation that fails leaves the tables alone, or its success lost its acknowledgement. *)
Lemma perform_gate_error o env d e d' :
  gate_ok d → perform_gate o env d = (Err e, d') →
  d' = d ∨ ∃ env' a, unacknowledged env env' ∧ perform_gate o env' d = (Ok a, d').
Proof using.
  intros Hok Hrun. destruct (reads o) eqn:Hr.
  { left. by eapply reads_keep_run. }
  unfold perform_gate in *. destruct o; try done; simpl in *.
  - apply run_tx_error in Hrun; [done|apply Create_error_keeps].
  - eapply acknowledged in Hrun; [exact Hrun|done|intros b; tx_atomic|].
    intros d1 b [= <- <-]. destruct (session_exists _ d) eqn:Hs; [by right|left; by apply delete_missing].
  - apply run_tx_error in Hrun; [done|apply ReplaceMembership_error_keeps].
  - apply run_tx_error in Hrun; [done|unfold RecordToken, autocommit; tx_atomic].
  - unfold Register in *. destruct (negb _); [|left; by injection Hrun].
    eapply acknowledged in Hrun; [exact Hrun|done|intros b; tx_atomic|].
    intros d1 b [= Hi]. apply insert_mapping_ok in Hi as (_ & _ & [(-> & _)|(-> & _)]); [by left|by right].
  - eapply acknowledged in Hrun; [exact Hrun|done|intros b; tx_atomic|].
    intros d1 b [= <- <-]. destruct (affected_rows team d Hok) as [[-> _]|[_ Hno]]; [by right|].
    left. by apply refresh_missing.
Qed.

(** So whatever it answers, it leaves the tables alone or does what a success does. *)
Lemma perform_gate_cases o env d r d' :
  gate_ok d → perform_gate o env d = (r, d') →
  d' = d ∨ ∃ env' a, perform_gate o env' d = (Ok a, d').
Proof using.
  intros Hok Hrun. destruct r as [a|e]; [right; eauto|].
  apply perform_gate_error in Hrun as [?|(env' & a & _ & ?)]; [by left|right; eauto|done].
Qed.

(** Every operation keeps the invariant. *)
Lemma perform_gate_ok o env d : gate_ok d → gate_ok (perform_gate o env d).2.
Proof using.
  intros Hok. destruct (perform_gate o env d) as [r d'] eqn:E. simpl.
  apply perform_gate_cases in E as [->|(env' & a & E)]; [done| |done]. destruct (reads o) eqn:Hr.
  { by apply reads_keep_run in E as ->. }
  destruct o; try done.
  - apply Create_effect in E; [|done]. by destruct E as (_ & _ & _ & _ & ?).
  - apply Delete_effect in E as (_ & -> & _). by apply gate_ok_delete.
  - apply ReplaceMembership_effect in E; [|done]. by destruct E as (s & _ & ? & _).
  - apply RecordToken_effect in E as (_ & Hs & _ & ->).
    destruct Hok as [G1 G2 G3 G4 G5 G6]. split; simpl; eauto.
    intros j t. rewrite lookup_insert_Some. intros [[_ <-]|[_ ?]]; eauto.
  - destruct a as [result created]. apply Register_effect in E. destruct created; [|by destruct E as [-> _]].
    destruct E as (Hk & Hm & Hn & Hfree & row & -> & Ht & _). rewrite <- Ht in *. by apply gate_ok_mapping.
  - apply RefreshPresentation_effect in E as [-> _]; [|done]. by apply gate_ok_refresh.
Qed.

(** *** What the reads find *)

Lemma elem_of_session_access h d x :
  x ∈ session_access h d ↔
  gd_access d !! (h, x.1.1) = Some x.1.2 ∧ access_mapping d x.1.2 = Some x.2.
Proof using.
  unfold session_access. rewrite list_elem_of_omap. split.
  - intros ([[h' team] r] & Hin%elem_of_map_to_list & He). case_bool_decide; [subst|done].
    apply fmap_Some in He as (m & ? & ->). done.
  - destruct x as [[team r] m]. simpl. intros [Hr Hm]. exists ((h, team), r).
    split; [by apply elem_of_map_to_list|]. rewrite bool_decide_eq_true_2 by done. by rewrite Hm.
Qed.

(** The team of an access row is that of its mapping. *)
Lemma session_access_team h d x : gate_ok d → x ∈ session_access h d → mr_team x.2 = x.1.1.
Proof using.
  intros Hok [Ha Hm]%elem_of_session_access.
  destruct (go_access _ Hok _ _ _ Ha) as (s & m & _ & _ & _ & Hm' & Ht & _).
  unfold access_mapping in Hm. congruence.
Qed.

Lemma session_access_NoDup h d : NoDup ((λ x, x.1.1) <$> session_access h d).
Proof using.
  unfold session_access. pose proof (NoDup_fst_map_to_list (gd_access d)) as Hnd.
  induction (map_to_list (gd_access d)) as [|[[h' team] r] l IH]; [constructor|].
  apply NoDup_cons in Hnd as [Hk Hnd]. cbn [omap list_omap]. simpl.
  case_bool_decide as Hh; [subst h'|by apply IH].
  destruct (access_mapping d r) as [m|]; [|by apply IH]. simpl. constructor; [|by apply IH].
  intros (x & Hx & Hin)%list_elem_of_fmap. apply list_elem_of_omap in Hin as ([[h' t'] r'] & Hin & He).
  case_bool_decide; [subst h'|done]. apply fmap_Some in He as (m' & _ & ->). simpl in Hx. subst t'.
  apply Hk. apply list_elem_of_fmap. by exists ((h, team), r').
Qed.

(** What a session may see of a team. *)
Definition accessible (h team : string) (d : GateDB) (r : AccessRow) (m : MappingRow) : Prop :=
  gd_access d !! (h, team) = Some r ∧ access_mapping d r = Some m ∧ mr_team m = team.

Lemma access_accessible h team d :
  gate_ok d → is_Some (gd_access d !! (h, team)) ↔ ∃ r m, accessible h team d r m.
Proof using.
  intros Hok. split.
  - intros [r Hr]. destruct (go_access _ Hok _ _ _ Hr) as (s & m & _ & _ & _ & Hm & Ht & _).
    by exists r, m.
  - intros (r & m & Hr & _). by eexists.
Qed.

Lemma select_context_spec h team now d c :
  gate_ok d →
  select_context h team now d = Some c ↔
  ∃ s r m, live_session h now d = Some s ∧ accessible h team d r m ∧
    c = mkTokenContext h (sn_operator s) team (mr_name m).
Proof using.
  intros Hok. unfold select_context.
  assert (Hin : ∀ x, x ∈ filter (λ x, mr_team x.2 = team) (session_access h d) ↔
    accessible h team d x.1.2 x.2 ∧ x.1.1 = team).
  { intros x. rewrite list_elem_of_filter. split.
    - intros [Ht Hx]. pose proof (session_access_team _ _ _ Hok Hx) as Htm.
      apply elem_of_session_access in Hx as [Ha Hm]. unfold accessible. split_and!; congruence.
    - intros [(Ha & Hm & Ht) Hteam]. split; [done|]. apply elem_of_session_access. by rewrite Hteam. }
  split.
  - intros (s & Hs & Hk)%bind_Some. apply bind_Some in Hk as (x & Hx & [= <-]).
    apply head_Some_elem_of in Hx. pose proof (proj1 (Hin x) Hx) as [Hacc _].
    exists s, x.1.2, x.2. split_and!; [done..|]. by destruct Hacc as (_ & _ & ->).
  - intros (s & r & m & Hs & Hacc & ->). rewrite Hs. simpl.
    assert (Hx : ((team, r), m) ∈ filter (λ x, mr_team x.2 = team) (session_access h d)) by by apply Hin.
    destruct (filter _ _) as [|y l] eqn:E; [by apply not_elem_of_nil in Hx|]. simpl.
    assert (Hy : y ∈ y :: l) by by left. apply Hin in Hy as [(Hr & Hm & Ht) _]. destruct Hacc as (Hr' & Hm' & Ht'). congruence.
Qed.

(** The token context of a session and a team: given exactly while the session is alive and the
    team is among the ones its membership is mapped to, and then for the operator of the session and
    for that team; the refusals tell an unusable session from an inaccessible team. *)
Lemma TokenContext_spec session team now env d r d' :
  gate_ok d → perform_gate (OpTokenContext session team now) env d = (r, d') →
  let h := sessionHash session in
  d' = d ∧
  match r with
  | Ok c => ∃ s row m, live_session h now d = Some s ∧ accessible h team d row m ∧
              ac_operator row = sn_operator s ∧ c = mkTokenContext h (sn_operator s) team (mr_name m)
  | Err ErrTeamNotAccessible => is_Some (live_session h now d) ∧ gd_access d !! (h, team) = None
  | Err ErrSessionNotFound => live_session h now d = None
  | Err _ => ∃ n, env_fault env n = true
  end.
Proof using.
  intros Hok Hrun h. split.
  { by refine (reads_keep_run _ _ _ _ _ _ Hrun). }
  unfold perform_gate, run_tx in Hrun. simpl in Hrun. unfold SessionTokenContext, bind, query, stmt in Hrun.
  simpl in Hrun. fold h in Hrun. destruct (env_fault env 0) eqn:Hf0; [simplify_eq/=; by exists 0%nat|].
  pose proof (select_context_spec h team now d) as Hspec.
  destruct (select_context h team now d) as [c|] eqn:Hc; simpl in Hrun; [simplify_eq/=|].
  - destruct (proj1 (Hspec c Hok) eq_refl) as (s & row & m & Hs & Ha & ->).
    destruct Ha as (Ha & Hm & Ht). destruct (go_access _ Hok _ _ _ Ha) as (s' & ? & Hs' & Ho & _).
    assert (s' = s) as ->.
    { unfold live_session in Hs. rewrite Hs' in Hs. simpl in Hs. destruct (_ <? _); [congruence|done]. }
    by exists s, row, m.
  - destruct (env_fault env 1) eqn:Hf1; [simplify_eq/=; by exists 1%nat|]. simpl in Hrun.
    case_bool_decide as Hl; simplify_eq/=.
    + split; [done|]. apply eq_None_not_Some. intros (row & m & Ha)%access_accessible; [|done].
      destruct Hl as [s Hs]. destruct (Hspec (mkTokenContext h (sn_operator s) team (mr_name m)) Hok)
        as [_ Hno]. discriminate Hno. by exists s, row, m.
    + by apply eq_None_not_Some.
Qed.

Lemma select_teams_spec h now d :
  gate_ok d → ∀ s, live_session h now d = Some s →
  let teams := select_teams h now d in
  StronglySorted entry_le teams ∧ NoDup (at_team <$> teams) ∧
  ∀ e, e ∈ teams ↔ ∃ row m, accessible h (at_team e) d row m ∧ e = team_entry m.
Proof using.
  intros Hok s Hs teams. unfold teams, select_teams. rewrite Hs.
  assert (Hteam : ∀ x, x ∈ session_access h d → mr_team x.2 = x.1.1)
    by (intros x; by apply session_access_team).
  split_and!.
  - apply order_by_sorted; [intros a b c; unfold entry_le; by apply name_le_trans|].
    intros a b. unfold entry_le. apply name_le_total.
  - rewrite order_by_perm, <- list_fmap_compose.
    assert ((at_team ∘ (λ x : string * AccessRow * MappingRow, team_entry x.2)) <$> session_access h d
            = (λ x, x.1.1) <$> session_access h d) as ->; [|apply session_access_NoDup].
    apply list_fmap_ext. intros i x Hx. apply (Hteam x). by eapply list_elem_of_lookup_2.
  - intros e. rewrite elem_of_order_by, list_elem_of_fmap. split.
    + intros (x & -> & Hx). pose proof (Hteam x Hx) as Ht. apply elem_of_session_access in Hx as [Ha Hm].
      exists x.1.2, x.2. unfold accessible. simpl. rewrite Ht. done.
    + intros (row & m & (Ha & Hm & Ht) & ->). simpl in *. exists ((mr_team m, row), m). split; [done|].
      by apply elem_of_session_access.
Qed.

(** The teams of a session: the list is sorted by name, teams without a name last, has each team
    once, and has exactly the teams the session may get a token for; a session that is gone or has
    expired gets an error instead. *)
Lemma AccessibleTeams_spec session now env d r d' :
  gate_ok d → perform_gate (OpAccessibleTeams session now) env d = (r, d') →
  let h := sessionHash session in
  d' = d ∧
  match r with
  | Ok teams =>
      is_Some (live_session h now d) ∧ StronglySorted entry_le teams ∧ NoDup (at_team <$> teams) ∧
      ∀ e, e ∈ teams ↔ ∃ row m, accessible h (at_team e) d row m ∧ e = team_entry m
  | Err ErrSessionNotFound => live_session h now d = None
  | Err _ => ∃ n, env_fault env n = true
  end.
Proof using.
  intros Hok Hrun h. split.
  { by refine (reads_keep_run _ _ _ _ _ _ Hrun). }
  unfold perform_gate, run_tx in Hrun. simpl in Hrun. unfold AccessibleTeams, bind, query, stmt in Hrun.
  simpl in Hrun. fold h in Hrun. destruct (env_fault env 0) eqn:Hf0; [simplify_eq/=; by exists 0%nat|].
  pose proof (select_teams_spec h now d Hok) as Hspec. set (teams := select_teams h now d) in *.
  case_bool_decide as Hnil; simpl in Hrun.
  - destruct (env_fault env 1) eqn:Hf1; [simplify_eq/=; by exists 1%nat|]. simpl in Hrun.
    case_bool_decide as Hl; injection Hrun as <- <-; [|by apply eq_None_not_Some].
    destruct Hl as [s Hs]. split; [by eexists|]. by apply (Hspec s).
  - injection Hrun as <- <-. destruct (live_session h now d) as [s|] eqn:Hs.
    + split; [by eexists|]. by apply (Hspec s).
    + destruct Hnil. unfold teams, select_teams. by rewrite Hs.
Qed.

Lemma ValidateTokenAccess_ok operator team jti now env d d' :
  perform_gate (OpValidateTokenAccess operator team jti now) env d = (Ok (), d') →
  token_valid operator team (sha256 jti) now d = true.
Proof using.
  unfold perform_gate, run_tx. simpl. unfold ValidateTokenAccess, bind, query, stmt. simpl.
  destruct (env_fault env 0); [done|]. simpl. by destruct (token_valid _ _ _ _ _).
Qed.

(** A context is that of the session and the team it was asked for. *)
Lemma TokenContext_of session team now env d c d' :
  perform_gate (OpTokenContext session team now) env d = (Ok c, d') →
  tx_team c = team ∧ select_context (sessionHash session) team now d = Some c.
Proof using.
  unfold perform_gate, run_tx. simpl. unfold SessionTokenContext, bind, query, stmt. simpl.
  destruct (env_fault env 0); [done|]. simpl.
  destruct (select_context _ team now d) as [x|] eqn:Hc; simpl.
  - intros [= <- _]. split; [|done]. unfold select_context in Hc.
    apply bind_Some in Hc as (s & _ & Hc). apply bind_Some in Hc as (y & Hy & [= <-]).
    by apply head_Some_elem_of, list_elem_of_filter in Hy as [? _].
  - by destruct (env_fault env 1); [|simpl; case_bool_decide].
Qed.

(** What a valid token was checked against. *)
Lemma token_valid_spec operator team j now d :
  gate_ok d → token_valid operator team j now d = true →
  ∃ t s row m, gd_tokens d !! j = Some t ∧ tr_operator t = operator ∧ tr_team t = team ∧
    pg_ts now < tr_expires t ∧ live_session (tr_session t) now d = Some s ∧
    accessible (tr_session t) team d row m ∧ ac_issuer row = sn_issuer s ∧
    is_Some (gd_observations d !! (tr_session t, ac_oidc_team row)).
Proof using.
  intros Hok. unfold token_valid. destruct (gd_tokens d !! j) as [t|] eqn:Ht; [|done].
  destruct (gd_sessions d !! tr_session t) as [s|] eqn:Hs; [|done]. intros Hv. to_prop. subst.
  match goal with Hx : is_Some (gd_access _ !! _) |- _ => destruct Hx as [row Ha] end.
  repeat match goal with He : (_ <? _) = true |- _ => apply Z.ltb_lt in He end.
  destruct (go_access _ Hok _ _ _ Ha) as (s' & m & Hs' & _ & Hi & Hm & Hteam & Ho).
  assert (s' = s) as -> by congruence. exists t, s, row, m. split_and!; try done.
  unfold live_session. rewrite Hs. simpl. by rewrite (proj2 (Z.ltb_lt _ _)).
Qed.

(** *** Availability *)

Lemma stmt_runs {A} wrap (f : TxEnv → GateDB → result sql_error (GateDB * A)) env st d a :
  (∀ n, env_fault env n = false) → f env (ts_db st) = Ok (d, a) →
  @stmt GateDB GateError A wrap f env st
  = (Ok a, mkTxSt d (ts_durable st) (S (ts_stmt st)) (ts_uuid st)).
Proof using. intros Hf He. unfold stmt. by rewrite Hf, He. Qed.

Lemma insert_memberships_runs context h observed ids env st :
  (∀ n, env_fault env n = false) → NoDup ids → "" ∉ ids → is_Some (gd_sessions (ts_db st) !! h) →
  (∀ i, i ∈ ids → gd_observations (ts_db st) !! (h, i) = None) →
  ∃ st', insert_memberships context h observed ids env st = (Ok (), st').
Proof using.
  intros Hf Hnd. revert st. induction Hnd as [|id ids Hid Hnd IH]; intros st Hne Hs Hobs; [by eexists|].
  apply not_elem_of_cons in Hne as [Hne0 Hne]. cbn [insert_memberships].
  rewrite bool_decide_eq_true_2 by congruence. unfold bind, exec.
  rewrite (stmt_runs _ _ _ _ (put_observations (<[(h, id) := pg_ts observed]> (gd_observations (ts_db st))) (ts_db st)) ());
    [|done|].
  - apply IH; [done|done|]. simpl. intros i Hi. rewrite lookup_insert_ne; [apply Hobs; by right|].
    intros [= <-]. done.
  - unfold insert_observation, session_exists. rewrite Hobs by by left.
    unfold check. rewrite !bool_decide_eq_true_2 by (done || congruence). done.
Qed.

Lemma insert_access_rows_runs h rows d :
  NoDup rows.*1 → is_Some (gd_sessions d !! h) →
  (∀ t r, (t, r) ∈ rows → gd_access d !! (h, t) = None ∧ ac_operator r ≠ "" ∧ t ≠ "" ∧
     is_Some (gd_mappings d !! (ac_issuer r, ac_oidc_team r))) →
  ∃ d', insert_access_rows h rows d = Ok d'.
Proof using.
  revert d. induction rows as [|[t r] rows IH]; intros d Hnd Hs Hr; [by eexists|].
  apply NoDup_cons in Hnd as [Ht Hnd]. cbn [insert_access_rows].
  destruct (Hr t r) as (Ha & Ho & Htn & Hm); [by left|].
  assert (insert_access h t r d = Ok (put_access (<[(h, t) := r]> (gd_access d)) d)) as ->.
  { unfold insert_access, check, session_exists. rewrite Ha. by rewrite !bool_decide_eq_true_2. }
  apply IH; [done|done|]. intros t' r' Hin. destruct (Hr t' r') as (Ha' & ? & ? & ?); [by right|].
  split_and!; try done. simpl. rewrite lookup_insert_ne; [done|]. intros [= <-].
  apply Ht, list_elem_of_fmap. by exists (t, r').
Qed.

Lemma derived_rows_NoDup h operator issuer observed d :
  (∀ k k' m m', gd_mappings d !! k = Some m → gd_mappings d !! k' = Some m' →
     mr_team m = mr_team m' → k = k') →
  NoDup (derived_rows h operator issuer observed d).*1.
Proof using.
  intros Hok. unfold derived_rows.
  assert (Hin : ∀ k m, (k, m) ∈ map_to_list (gd_mappings d) → gd_mappings d !! k = Some m)
    by (intros k m; apply elem_of_map_to_list).
  pose proof (NoDup_fst_map_to_list (gd_mappings d)) as Hnd.
  induction (map_to_list (gd_mappings d)) as [|[[i oidc] m] l IH]; [constructor|].
  apply NoDup_cons in Hnd as [Hk Hnd].
  assert (IH' := IH (λ k m Hl, Hin k m (list_elem_of_further _ _ _ Hl)) Hnd). clear IH.
  cbn [omap list_omap]. case_bool_decide as Hb; simpl; [|exact IH']. constructor; [|exact IH'].
  intros ([t r] & Ht & Hx)%list_elem_of_fmap. simpl in Ht. subst t.
  apply list_elem_of_omap in Hx as ([[i' oidc'] m'] & Hm' & He). case_bool_decide; [|done].
  injection He as Hteam _.
  assert ((i, oidc) = (i', oidc')) as Heq.
  { apply (Hok _ _ m m'); [apply Hin; by left|apply Hin; by right|done]. }
  apply Hk, list_elem_of_fmap. exists ((i', oidc'), m'). by split.
Qed.

(** A login gets its session: with a working database Create succeeds for every well formed input
    whose identifier is new and whose expiry the database's clock has not reached, whatever teams the
    provider named, as long as it names each once. *)
Theorem Create_available input env d :
  gate_ok d → (∀ n, env_fault env n = false) →
  si_session input ≠ "" → si_operator input ≠ "" → si_issuer input ≠ "" → si_subject input ≠ "" →
  si_state input ≠ "" → si_observed input < si_expires input →
  pg_ts (env_db_now env) < pg_ts (si_expires input) →
  gd_sessions d !! sessionHash (si_session input) = None → NoDup (si_teams input) → "" ∉ si_teams input →
  (perform_gate (OpCreate input) env d).1 = Ok ().
Proof using.
  intros Hok Hf H1' H2' H3' H4' H5' Hlt Hnow Hnew Hnd Hne. unfold perform_gate, run_tx, gate_op, Create.
  rewrite bool_decide_eq_false_2 by tauto. rewrite (proj2 (Z.ltb_lt _ _) Hlt). cbn [negb andb].
  set (h := sessionHash (si_session input)) in *.
  set (s := mkSessionRow (si_operator input) (si_issuer input) (si_subject input) (si_state input)
    (pg_ts (si_observed input)) (pg_ts (si_expires input)) (pg_ts (env_db_now env))).
  unfold bind at 1, begin_tx. rewrite (stmt_runs _ _ _ _ d ()) by done.
  unfold bind at 1, exec at 1. rewrite (stmt_runs _ _ _ _ (put_sessions (<[h := s]> (gd_sessions d)) d) ()); [|done|].
  2: { simpl. unfold insert_session, check. rewrite Hnew, bool_decide_eq_true_2 by done.
       rewrite bool_decide_eq_true_2 by done.
       cbn [sn_expires]. by rewrite (proj2 (Z.ltb_lt _ _) Hnow). }
  simpl. unfold bind at 1.
  assert (Hno : ∀ i, gd_observations d !! (h, i) = None).
  { intros i. destruct (gd_observations d !! (h, i)) eqn:E; [|done].
    destruct (go_observation _ Hok _ _ _ E). congruence. }
  set (st1 := mkTxSt _ _ _ _).
  destruct (insert_memberships_runs "insert membership" h (si_observed input) (si_teams input) env st1)
    as [st2 Hm]; [done..|simpl; by rewrite lookup_insert_eq; eexists|by intros|].
  rewrite Hm. apply insert_memberships_ok in Hm as (_ & (obs & Hdb & Hobs) & _).
  assert (Hrows : ∃ d2, derive_access h (si_operator input) (si_issuer input) (si_observed input) (ts_db st2) = Ok d2).
  { apply insert_access_rows_runs.
    - apply derived_rows_NoDup. rewrite Hdb. exact (go_unique _ Hok).
    - rewrite Hdb. simpl. by rewrite lookup_insert_eq.
    - intros t r (oidc & m & Hm & _ & -> & ->)%elem_of_derived_rows. rewrite Hdb in Hm |- *. simpl in *.
      split_and!; [|done|by apply (go_mapping _ Hok) in Hm as [_ ?]|by eexists].
      destruct (gd_access d !! (h, mr_team m)) eqn:E; [|done].
      destruct (go_access _ Hok _ _ _ E) as (? & ? & ? & _). congruence. }
  destruct Hrows as [d2 Hd2]. unfold bind, exec. rewrite (stmt_runs _ _ _ _ d2 ()); [|done|by rewrite Hd2].
  unfold commit. by rewrite Hf.
Qed.

(** A refresh of a session that is there succeeds too, whatever it was observed in before. *)
Lemma ReplaceMembership_available session encrypted ids observed env d :
  gate_ok d → (∀ n, env_fault env n = false) → is_Some (gd_sessions d !! sessionHash session) →
  NoDup ids → "" ∉ ids →
  (perform_gate (OpReplaceMembership session encrypted ids observed) env d).1 = Ok ().
Proof using.
  intros Hok Hf [s Hs] Hnd Hne. unfold perform_gate, run_tx, gate_op, ReplaceMembership.
  set (h := sessionHash session) in *.
  unfold bind at 1, begin_tx. rewrite (stmt_runs _ _ _ _ d ()) by done.
  unfold bind at 1, query. rewrite (stmt_runs _ _ _ _ d (Some s)) by (simpl; by rewrite ?Hs).
  unfold bind at 1, exec at 1. rewrite (stmt_runs _ _ _ _ (update_state h encrypted observed d) ()) by done.
  unfold bind at 1, exec at 1. rewrite (stmt_runs _ _ _ _ (clear_membership h (update_state h encrypted observed d)) ()) by done.
  set (d1 := clear_access h (clear_membership h (update_state h encrypted observed d))).
  unfold bind at 1, exec at 1. rewrite (stmt_runs _ _ _ _ d1 ()) by done.
  simpl. unfold bind at 1. set (st1 := mkTxSt _ _ _ _).
  assert (Hok1 : gate_ok d1) by by apply gate_ok_cleared.
  assert (Hs1 : gd_sessions d1 !! h = Some (mkSessionRow (sn_operator s) (sn_issuer s) (sn_subject s) encrypted
    (pg_ts observed) (sn_expires s) (sn_created s))) by (simpl; by rewrite lookup_alter_eq, Hs).
  destruct (insert_memberships_runs "" h observed ids env st1) as [st2 Hm]; [done..|simpl; by rewrite lookup_alter_eq, Hs| |].
  { intros i _. simpl. apply map_lookup_filter_None. right. intros o _ Hx. by apply Hx. }
  rewrite Hm. apply insert_memberships_ok in Hm as (_ & (obs & Hdb & Hobs) & _).
  assert (Hrows : ∃ d2, derive_access h (sn_operator s) (sn_issuer s) observed (ts_db st2) = Ok d2).
  { apply insert_access_rows_runs.
    - apply derived_rows_NoDup. rewrite Hdb. exact (go_unique _ Hok1).
    - rewrite Hdb. cbn [put_observations gd_sessions]. unfold st1. cbn [ts_db]. rewrite Hs1. by eexists.
    - intros t r (oidc & m & Hm & _ & -> & ->)%elem_of_derived_rows. rewrite Hdb in Hm |- *. simpl in *.
      split_and!; [|by apply (go_session _ Hok _ _ Hs)|by apply (go_mapping _ Hok) in Hm as [_ ?]|by eexists].
      apply map_lookup_filter_None. right. intros a _ Hx. by apply Hx. }
  destruct Hrows as [d2 Hd2]. unfold bind, exec. rewrite (stmt_runs _ _ _ _ d2 ()); [|done|by rewrite Hd2].
  unfold commit. by rewrite Hf.
Qed.

(** Why an operation refuses. *)
Lemma ReplaceMembership_refused session encrypted ids observed env d d' :
  perform_gate (OpReplaceMembership session encrypted ids observed) env d = (Err ErrSessionNotFound, d') →
  gd_sessions d !! sessionHash session = None.
Proof using.
  unfold perform_gate, run_tx. simpl. unfold ReplaceMembership, begin_tx, query, bind at 1 2, stmt at 1 2. simpl.
  destruct (env_fault env 0); [done|]. simpl. destruct (env_fault env 1); [done|]. simpl.
  destruct (gd_sessions d !! sessionHash session) as [s|]; [|done]. intros Hrun. exfalso.
  revert Hrun. unfold exec, bind at 1 2 3, stmt at 1 2 3. simpl.
  destruct (env_fault env 2); [done|]. simpl. destruct (env_fault env 3); [done|]. simpl.
  destruct (env_fault env 4); [done|]. simpl. set (st := mkTxSt _ _ _ _). clearbody st. unfold bind at 1.
  assert (Hm : ∀ st' e, insert_memberships "" (sessionHash session) observed ids env st = (Err e, st') →
    e ≠ ErrSessionNotFound).
  { clear. revert st. induction ids as [|i ids IH]; intros st st' e; [done|]. cbn [insert_memberships].
    destruct (bool_decide _); [|by intros [= <- _]]. unfold bind, exec, stmt.
    destruct (env_fault _ _); [by intros [= <- _]|].
    destruct (insert_observation _ _ _ _); [|by intros [= <- _]]. apply IH. }
  destruct (insert_memberships _ _ _ _ _ _) as [[u|e] st1]; [|intros [= -> _]; by eapply Hm].
  unfold bind, commit, stmt. simpl. destruct (env_fault _ _); [done|].
  destruct (derive_access _ _ _ _ _); [|done]. simpl. by destruct (env_fault _ _).
Qed.

Lemma Delete_refused session env d e d' :
  perform_gate (OpDelete session) env d = (Err e, d') →
  match e with
  | ErrSessionNotFound => gd_sessions d !! sessionHash session = None
  | _ => ∃ n, env_fault env n = true
  end.
Proof using.
  unfold perform_gate, run_tx. simpl. unfold Delete, bind, exec_returning, autocommit, commit, stmt. simpl.
  destruct (env_fault env 0) eqn:Hf0; [intros [= <- _]; by exists 0%nat|]. simpl.
  destruct (env_fault env 1) eqn:Hf1; [intros [= <- _]; by exists 1%nat|].
  destruct (session_exists _ d) eqn:Hs; [done|]. intros [= <- _]. unfold session_exists in Hs. to_prop.
  by apply eq_None_not_Some.
Qed.

Lemma RecordToken_refused context jti issued expires env d e d' :
  perform_gate (OpRecordToken context jti issued expires) env d = (Err e, d') →
  (∃ n, env_fault env n = true) ∨ is_Some (gd_tokens d !! sha256 jti) ∨
  gd_sessions d !! tx_session context = None ∨ pg_ts expires ≤ pg_ts issued.
Proof using.
  unfold perform_gate, run_tx. simpl. unfold RecordToken, bind, exec, autocommit, commit, stmt. simpl.
  destruct (env_fault env 0) eqn:Hf0; [left; by exists 0%nat|].
  destruct (insert_token _ _ _) as [d1|] eqn:Hi; simpl.
  { destruct (env_fault env 1) eqn:Hf1; [left; by exists 1%nat|done]. }
  intros _. right. unfold insert_token, check in Hi. case_bool_decide as Hn; [|left; by apply not_eq_None_Some].
  destruct (_ <? _) eqn:Hl; [|right; right; by apply Z.ltb_ge in Hl].
  destruct (session_exists _ d) eqn:Hs; [done|]. unfold session_exists in Hs. to_prop.
  right. left. by apply eq_None_not_Some.
Qed.

(** What a session tells of its membership. *)
Lemma MembershipState_spec session now env d r d' :
  perform_gate (OpMembershipState session now) env d = (r, d') →
  match r with
  | Ok m => ∃ s, live_session (sessionHash session) now d = Some s ∧
              m = mkMembership (sn_state s) (sn_issuer s) (sn_subject s) (sn_observed s)
  | Err ErrSessionNotFound => live_session (sessionHash session) now d = None
  | Err _ => ∃ n, env_fault env n = true
  end.
Proof using.
  unfold perform_gate, run_tx. simpl. unfold SessionMembershipState, bind, query, stmt. simpl.
  destruct (env_fault env 0) eqn:Hf0; [intros [= <- _]; by exists 0%nat|]. simpl.
  destruct (live_session _ now d) as [s|] eqn:Hs; intros [= <- _]; [by exists s|done].
Qed.

Lemma ValidateTokenAccess_refused operator team jti now env d e d' :
  perform_gate (OpValidateTokenAccess operator team jti now) env d = (Err e, d') →
  match e with
  | ErrTeamNotAccessible => token_valid operator team (sha256 jti) now d = false
  | _ => ∃ n, env_fault env n = true
  end.
Proof using.
  unfold perform_gate, run_tx. simpl. unfold ValidateTokenAccess, bind, query, stmt. simpl.
  destruct (env_fault env 0) eqn:Hf0; [intros [= <- _]; by exists 0%nat|]. simpl.
  destruct (token_valid _ _ _ _ _) eqn:Hv; [done|]. by intros [= <- _].
Qed.
End operations.
