(* ===== verification/Gateway.v ===== *)
(** * The API gateway (svc/api-gateway: oidc/flow.go, httpapi/server.go, adminauth)

    The login flow and the HTTP handlers as goroutines over the gateway's state: its database,
    the pending authorizations, and the key caches of its two token verifiers. A store operation
    is one atomic step in an environment that is drawn before it; requests to the identity
    providers and to the State Registry, clocks, random bytes and responses are calls. The record
    [g_trace] has every call with its answer and every store operation; the code does not read
    it. Whatever the handlers of net/http do before ours is in the [request]. *)

From stdpp Require Import base gmap sets strings list.
From Stdlib Require Import Ascii.
From S2P Require Import Prelude Platform Tx GoStrings Base64 ScopeToken JwtClaims WorkingToken GatewayStore Conc.
#[local] Open Scope Z_scope.

(** ** Documents and requests *)

Record TokenResponse : Type := mkTokenResponse {
  to_access : string; to_refresh : string; to_id : string; to_type : string; to_expires_in : Z }.

Record ProviderState : Type := mkProviderState {
  ps_access : string; ps_refresh : string; ps_expires_in : option Z }.

Record Discovery : Type := mkDiscovery {
  dc_issuer : string; dc_authorization : string; dc_token : string; dc_userinfo : string;
  dc_jwks : string }.

Record Team : Type := mkTeam { tm_id : string; tm_name : string; tm_archived : option Z }.

Abbreviation header := (list (string * list string)).

Record http_response : Type := mkResponse {
  hr_status : Z; hr_headers : header; hr_body : string }.

(** The JSON of these documents, within the limit that the readers put on a body, and what Go's
    decoder makes of the first value of a body; net/url, with the address of the registry for a
    path and a query, over HTTP and over a WebSocket. *)
Class GatewayCodec := {
  json_first : string → option json;
  token_response_decode : string → option TokenResponse;
  discovery_decode : string → option Discovery;
  team_decode : string → option Team;
  provider_state_json : ProviderState → string;
  provider_state_decode : string → option ProviderState;
  token_request_decode : string → option string;
  mapping_request_decode : string → option (string * string * string);
  url_absolute : string → bool;
  url_with_query : string → list (string * string) → string;
  url_resolve : string → string → string → option string;
  url_websocket : string → string → string → option string;
}.

(** A request as a handler sees it: the cookie is that of flowai_session, the form values those
    of the query; [rq_protocols] are the offered WebSocket subprotocols. *)
Record request : Type := mkRequest {
  rq_method : string; rq_path : string; rq_raw_query : string; rq_query : list (string * string);
  rq_headers : header; rq_cookie : option string; rq_body : string;
  rq_upgrade : bool; rq_protocols : list string }.

(** The first value of a canonical header name, [r.Header.Get]. *)
Fixpoint header_get (name : string) (hs : header) : string :=
  match hs with
  | [] => ""
  | (n, vs) :: hs' => if bool_decide (n = name) then default "" (head vs) else header_get name hs'
  end.

Fixpoint query_get (name : string) (q : list (string * string)) : string :=
  match q with
  | [] => ""
  | (n, v) :: q' => if bool_decide (n = name) then v else query_get name q'
  end.

Inductive response : Type :=
| RError (status : Z) (code message request : string)
| RHealthy
| RNotImplemented
| RRedirect (location : string) (cookie : option (string * Z))
| RLoggedOut
| RTeams (teams : list AccessibleTeam)
| RToken (access : string) (expires_in : Z)
| RMapping (status : Z) (m : Mapping)
| RProxied (status : Z) (headers : header) (body : string).

(** ** Headers of forwarded requests *)

Definition lower_char (c : ascii) : ascii :=
  let n := nat_of_ascii c in
  if Nat.leb 65 n && Nat.leb n 90 then ascii_of_nat (n + 32) else c.
Definition upper_char (c : ascii) : ascii :=
  let n := nat_of_ascii c in
  if Nat.leb 97 n && Nat.leb n 122 then ascii_of_nat (n - 32) else c.
Definition lower (s : string) : string := of_chars (lower_char <$> chars s).

(** http.CanonicalHeaderKey: a name with a byte that no field name has is kept. *)
Definition field_char (c : ascii) : bool :=
  let n := nat_of_ascii c in
  (Nat.leb 48 n && Nat.leb n 57) || (Nat.leb 65 n && Nat.leb n 90) || (Nat.leb 97 n && Nat.leb n 122) ||
  bool_decide (c ∈ chars "!#$%&'*+-.^_`|~").

Fixpoint capitalize (up : bool) (l : list ascii) : list ascii :=
  match l with
  | [] => []
  | c :: l' => (if up then upper_char c else lower_char c) :: capitalize (bool_decide (c = "-"%char)) l'
  end.

Definition canonical (name : string) : string :=
  if forallb field_char (chars name) then of_chars (capitalize true (chars name)) else name.

Definition isHopHeader (name : string) : bool :=
  bool_decide (name ∈ ["connection"; "keep-alive"; "proxy-authenticate"; "proxy-authorization"; "te";
                       "trailer"; "transfer-encoding"; "upgrade"]).

(** What is not copied from the browser's request. *)
Definition rest_skipped (name : string) : bool :=
  let l := lower name in
  bool_decide (l = "authorization" ∨ l = "cookie") || has_prefix "x-flowai-" l || isHopHeader l.
Definition websocket_skipped (name : string) : bool :=
  let l := lower name in
  bool_decide (l = "authorization" ∨ l = "cookie" ∨ l = "sec-websocket-protocol") ||
  has_prefix "x-flowai-" l || isHopHeader l || has_prefix "sec-websocket-" l.

(** http.Header: canonical names with their values; Add and Set. *)
Abbreviation header_map := (gmap string (list string)).
Definition header_add (name value : string) (h : header_map) : header_map :=
  <[canonical name := default [] (h !! canonical name) ++ [value]]> h.
Definition header_set (name value : string) (h : header_map) : header_map :=
  <[canonical name := [value]]> h.

Fixpoint copy_headers (skipped : string → bool) (hs : header) (h : header_map) : header_map :=
  match hs with
  | [] => h
  | (name, values) :: hs' =>
      copy_headers skipped hs'
        (if skipped name then h else fold_left (λ h v, header_add name v h) values h)
  end.

(** The trusted context of a forwarded request. *)
Definition set_context (c : WorkingClaims) (request : string) (h : header_map) : header_map :=
  let h := header_set "X-FlowAI-Request-ID" request
             (header_set "X-FlowAI-Team-ID" (wc_team c)
                (header_set "X-FlowAI-Operator-ID" (wc_operator c) h)) in
  match wc_team_name c with Some n => header_set "X-FlowAI-Team-Name" n h | None => h end.

(** ** Configuration *)

Record FlowConfig : Type := mkFlowConfig {
  fc_issuer : string; fc_client : string; fc_redirect : string; fc_scopes : list string;
  fc_timeout : Z; fc_state_ttl : Z; fc_skew : Z; fc_max_age : Z; fc_teams : TeamClaimAdapter;
  fc_source : string }.

(** The immutable part of a Flow. *)
Record Flow : Type := mkFlow { fl_cfg : FlowConfig; fl_discovery : Discovery; fl_verifier : VerifierConfig }.

Record Authenticator : Type := mkAuthenticator {
  au_verifier : VerifierConfig; au_pointer : string; au_role : string }.

(** Dependencies: an absent interface is [None] or [false]. *)
Record Dependencies : Type := mkDependencies {
  d_issuer : string; d_admin : option Authenticator; d_mappings : bool; d_presentation : bool;
  d_teams : bool; d_login : option Flow; d_oidc : option Flow; d_sessions : bool;
  d_cipher : option string; d_session_ttl : Z; d_max_age : Z; d_membership : option Flow;
  d_web_ui : string; d_working : option Signer; d_proxy : string }.

Record PendingAuthorization : Type := mkPending {
  pn_state : string; pn_nonce : string; pn_verifier : string; pn_expires : Z }.

Record Identity : Type := mkIdentity {
  id_issuer : string; id_subject : string; id_operator : string; id_teams : list string;
  id_state : string }.

(** Errors of the flow, the verifiers and the registry client. *)
Inductive auth_error : Type := InvalidToken | JWKSUnavailable | ProviderUnavailable | FlowText (s : string).
Inductive team_error : Type := TeamNotFound | TeamUnavailable.

(** ** Calls and state *)

(** What goes over a WebSocket connection, and the end it came from. *)
Inductive side : Type := Browser | Registry.
#[export] Instance side_eq_dec : EqDecision side.
Proof. solve_decision. Defined.

Inductive gcall : Type :=
| GAccept
| GNow
| GRandom (size : Z)
| GRequestID
| GTxEnv
| GGet (url : string) (bearer : option string)
| GPostForm (url : string) (form : list (string * string))
| GReadTeam (team request : string)
| GForward (method target : string) (headers : header_map) (body : string)
| GDial (target : string) (headers : header_map)
| GUpgrade (protocol : string)
| GSelect (conn : nat)
| GTimer (conn : nat) (expires : Z)
| GCloseFrame (conn : nat) (code : Z) (reason : string)
| GRead (conn : nat) (from : side)
| GWrite (conn : nat) (from : side) (message : Z * string)
| GClose (conn : nat)
| GRespond (r : response).

(** [None] is a request that failed without a response; a connection has a number. *)
Definition gres (c : gcall) : Type :=
  match c with
  | GAccept => request
  | GNow => Z
  | GRandom _ => option string
  | GRequestID => string
  | GTxEnv => TxEnv
  | GGet _ _ | GPostForm _ _ | GReadTeam _ _ | GForward _ _ _ _ => option http_response
  | GDial _ _ => option nat
  | GUpgrade _ | GTimer _ _ | GWrite _ _ _ => bool
  | GRead _ _ => option (Z * string)
  | GSelect _ | GCloseFrame _ _ _ | GClose _ | GRespond _ => ()
  end.

Inductive gevent : Type :=
| Asked (c : gcall) (r : gres c)
| Stored (o : gop) (env : TxEnv).

(** The two verifiers: of the operators' provider and of the administrators'. *)
Inductive realm : Type := Operators | Administrators.
#[export] Instance realm_eq_dec : EqDecision realm.
Proof. solve_decision. Defined.

Record Gate : Type := mkGate {
  g_db : GateDB; g_pending : gmap string PendingAuthorization;
  g_keys : realm → gmap string jwk; g_cancelled : gset nat; g_trace : list gevent }.

Definition put_pending m σ := mkGate (g_db σ) m (g_keys σ) (g_cancelled σ) (g_trace σ).
Definition put_keys w m σ :=
  mkGate (g_db σ) (g_pending σ) (λ w', if bool_decide (w' = w) then m else g_keys σ w')
    (g_cancelled σ) (g_trace σ).
Definition put_cancelled m σ := mkGate (g_db σ) (g_pending σ) (g_keys σ) m (g_trace σ).
Definition record_gate (c : gcall) (r : gres c) (σ : Gate) : Gate :=
  mkGate (g_db σ) (g_pending σ) (g_keys σ) (g_cancelled σ) (Asked c r :: g_trace σ).
Definition sane_gate (c : gcall) (r : gres c) : Prop := True.

Inductive gthread : Type :=
| TAccept
| TServe (r : request)
| TExpiry (conn : nat) (expires : Z)
| TCopy (conn : nat) (from : side).

Abbreviation go := (prog Gate gthread gres).

Section gateway.
Context `{Collation, PgTime, Sha256, Jose, !WorkingCodec, Aead, GatewayCodec}.

Definition gcall_ (c : gcall) : go (gres c) := call c.

(** A store operation, in the environment it meets. *)
Definition store_step (o : gop) (env : TxEnv) (σ : Gate) : Gate * result GateError (gop_result o) :=
  let '(r, d) := perform_gate o env (g_db σ) in
  (mkGate d (g_pending σ) (g_keys σ) (g_cancelled σ) (Stored o env :: g_trace σ), r).
Definition store (o : gop) : go (result GateError (gop_result o)) :=
  env ← gcall_ GTxEnv; atomic (store_step o env).

(** ** Verification of provider tokens (jwtverify/verifier.go) *)

Definition cachedKey (w : realm) (kid : string) : go (option jwk) := read (λ σ, g_keys σ w !! kid).

Definition refresh (w : realm) (v : VerifierConfig) : go (option auth_error) :=
  answer ← gcall_ (GGet (vc_jwks_url v) None);
  match answer with
  | None => mret (Some JWKSUnavailable)
  | Some response =>
      if bool_decide (hr_status response ≠ 200) then mret (Some JWKSUnavailable)
      else
        match jwks_decode (hr_body response) with
        | None => mret (Some JWKSUnavailable)
        | Some keys => _ ← update (put_keys w (index_keys keys)); mret None
        end
  end.

Definition verified (v : VerifierConfig) (now : Z) (h : jwt_header) (p0 p1 p2 : string) (key : option jwk) :
    go (result auth_error claims_map) :=
  match key with
  | None => mret (Err InvalidToken)
  | Some key =>
      match verify_with v now h key p0 p1 p2 with
      | Some claims => mret (Ok claims)
      | None => mret (Err InvalidToken)
      end
  end.

(** (Verifier).Verify. *)
Definition jwt_Verify (w : realm) (v : VerifierConfig) (token : string) (now : Z) :
    go (result auth_error claims_map) :=
  match split dot token with
  | [p0; p1; p2] =>
      match token_header v p0 with
      | None => mret (Err InvalidToken)
      | Some h =>
          key ← cachedKey w (jh_kid h);
          match key with
          | Some key => verified v now h p0 p1 p2 (Some key)
          | None =>
              failed ← refresh w v;
              match failed with
              | Some e => mret (Err e)
              | None =>
                  key ← cachedKey w (jh_kid h);
                  verified v now h p0 p1 p2 key
              end
          end
      end
  | _ => mret (Err InvalidToken)
  end.

(** (Authenticator).Authenticate. *)
Definition Authenticate (a : Authenticator) (authorization : string) : go (result admin_error string) :=
  match bearer_of authorization with
  | None => mret (Err AdminInvalidToken)
  | Some token =>
      if bool_decide (token = "") then mret (Err AdminInvalidToken)
      else
        now ← gcall_ GNow;
        r ← jwt_Verify Administrators (au_verifier a) token now;
        match r with
        | Err JWKSUnavailable => mret (Err AdminProviderUnavailable)
        | Err _ => mret (Err AdminInvalidToken)
        | Ok claims => mret (authorize_claims (au_pointer a) (au_role a) claims)
        end
  end.

(** ** The login flow (oidc/flow.go) *)

(** Start: the states that have expired are dropped; the new one is remembered until it expires
    or is used. *)
Definition Start (f : Flow) : go (option string) :=
  state ← gcall_ (GRandom 32);
  match state with
  | None => mret None
  | Some state =>
      nonce ← gcall_ (GRandom 32);
      match nonce with
      | None => mret None
      | Some nonce =>
          verifier ← gcall_ (GRandom 48);
          match verifier with
          | None => mret None
          | Some verifier =>
              let state := encode state in
              let nonce := encode nonce in
              let verifier := encode verifier in
              now ← gcall_ GNow;
              _ ← update (λ σ, put_pending
                (<[state := mkPending state nonce verifier (now + fc_state_ttl (fl_cfg f))]>
                   (filter (λ kv, now < pn_expires kv.2) (g_pending σ))) σ);
              mret (Some (url_with_query (dc_authorization (fl_discovery f))
                [("client_id", fc_client (fl_cfg f)); ("redirect_uri", fc_redirect (fl_cfg f));
                 ("response_type", "code"); ("scope", String.concat " " (fc_scopes (fl_cfg f)));
                 ("state", state); ("nonce", nonce); ("code_challenge", encode (sha256 verifier));
                 ("code_challenge_method", "S256")]))
          end
      end
  end.

(** Consume: a state is used at most once. *)
Definition Consume (state : string) : go (option PendingAuthorization) :=
  now ← gcall_ GNow;
  atomic (λ σ,
    (put_pending (delete state (g_pending σ)) σ,
     match g_pending σ !! state with
     | Some p => if now <? pn_expires p then Some p else None
     | None => None
     end)).

(** Decoding an object into a map that has entries already: its members replace them, the others
    stay; null empties the map. *)
Definition decode_into (base : claims_map) (body : string) : option claims_map :=
  match json_first body with
  | Some (JObj o) => Some (o ++ filter (λ kv, obj_lookup kv.1 o = None) base)
  | Some JNull => Some []
  | _ => None
  end.

(** claims["sub"].(string). *)
Definition sub_of (claims : claims_map) : option string :=
  match obj_lookup "sub" claims with Some (JStr s) => Some s | _ => None end.

(** The UserInfo request of Complete and of Refresh: its answer is decoded into the claims. *)
Definition userinfo (f : Flow) (access : string) (base : claims_map) : go (result auth_error claims_map) :=
  answer ← gcall_ (GGet (dc_userinfo (fl_discovery f)) (Some access));
  match answer with
  | None => mret (Err ProviderUnavailable)
  | Some response =>
      if bool_decide (hr_status response ≠ 200) then mret (Err ProviderUnavailable)
      else
        match decode_into base (hr_body response) with
        | Some claims => mret (Ok claims)
        | None => mret (Err InvalidToken)
        end
  end.

(** A token request and the tokens of its answer. *)
Definition token_request (f : Flow) (form : list (string * string)) (ok : TokenResponse → bool) :
    go (result auth_error TokenResponse) :=
  answer ← gcall_ (GPostForm (dc_token (fl_discovery f)) form);
  match answer with
  | None => mret (Err ProviderUnavailable)
  | Some response =>
      if bool_decide (hr_status response ≠ 200) then mret (Err ProviderUnavailable)
      else
        match token_response_decode (hr_body response) with
        | Some tokens =>
            if bool_decide (to_access tokens = "" ∨ to_id tokens = "") || negb (ok tokens)
            then mret (Err ProviderUnavailable) else mret (Ok tokens)
        | None => mret (Err ProviderUnavailable)
        end
  end.

Definition nul : ascii := "000"%char.
Definition operator_id (issuer subject : string) : string :=
  "oidc_" +:+ encode (sha256 (issuer +:+ String nul subject)).

(** The end of Complete: the teams of the claims and the identity. *)
Definition identity_of (f : Flow) (subject : string) (tokens : TokenResponse) (claims : claims_map) :
    result auth_error Identity :=
  if bool_decide (ad_kind (fc_teams (fl_cfg f)) ≠ "" ∧ ad_pointer (fc_teams (fl_cfg f)) = "")
  then Err InvalidToken
  else
    match Normalize (fc_teams (fl_cfg f)) claims with
    | Err _ => Err InvalidToken
    | Ok teams =>
        Ok (mkIdentity (fc_issuer (fl_cfg f)) subject (operator_id (fc_issuer (fl_cfg f)) subject) teams
              (provider_state_json (mkProviderState (to_access tokens) (to_refresh tokens)
                                      (Some (to_expires_in tokens)))))
    end.

Definition Complete (f : Flow) (code state : string) : go (result auth_error Identity) :=
  if bool_decide (code = "" ∨ state = "") then mret (Err (FlowText "authorization code and state are required"))
  else
    pending ← Consume state;
    match pending with
    | None => mret (Err InvalidToken)
    | Some pending =>
        r ← token_request f
          [("grant_type", "authorization_code"); ("client_id", fc_client (fl_cfg f));
           ("redirect_uri", fc_redirect (fl_cfg f)); ("code", code); ("code_verifier", pn_verifier pending)]
          (λ t, bool_decide (lower (to_type t) = "bearer"));
        match r with
        | Err e => mret (Err e)
        | Ok tokens =>
            now ← gcall_ GNow;
            r ← jwt_Verify Operators (fl_verifier f) (to_id tokens) now;
            match r with
            | Err e => mret (Err e)
            | Ok claims =>
                if negb (match obj_lookup "nonce" claims with
                         | Some (JStr nonce) => bool_decide (nonce = pn_nonce pending) | _ => false end)
                then mret (Err InvalidToken)
                else
                  match subject_of claims with
                  | None => mret (Err InvalidToken)
                  | Some subject =>
                      if bool_decide (fc_source (fl_cfg f) = "userinfo") then
                        r ← userinfo f (to_access tokens) claims;
                        match r with
                        | Err e => mret (Err e)
                        | Ok document =>
                            if bool_decide (sub_of document = Some subject)
                            then mret (identity_of f subject tokens document)
                            else mret (Err InvalidToken)
                        end
                      else mret (identity_of f subject tokens claims)
                  end
            end
        end
    end.

(** The teams of the refreshed claims and the new provider state. *)
Definition refreshed (f : Flow) (access refresh_token : string) (claims : claims_map) :
    result auth_error (list string * string) :=
  match Normalize (fc_teams (fl_cfg f)) claims with
  | Err _ => Err InvalidToken
  | Ok teams => Ok (teams, provider_state_json (mkProviderState access refresh_token None))
  end.

(** The last part of Refresh: [claims] are those of the new ID token, if one was asked for. *)
Definition refresh_claims (f : Flow) (subject access refresh_token : string) (claims : option claims_map) :
    go (result auth_error (list string * string)) :=
  if bool_decide (fc_source (fl_cfg f) = "userinfo") then
    r ← userinfo f access (default [] claims);
    match r with
    | Err e => mret (Err e)
    | Ok document =>
        if bool_decide (default "" (sub_of document) = subject)
        then mret (refreshed f access refresh_token document) else mret (Err InvalidToken)
    end
  else
    match claims with
    | None => mret (Err ProviderUnavailable)
    | Some claims => mret (refreshed f access refresh_token claims)
    end.

(** (Flow).Refresh. *)
Definition flow_Refresh (f : Flow) (encoded subject : string) :
    go (result auth_error (list string * string)) :=
  match provider_state_decode encoded with
  | None => mret (Err InvalidToken)
  | Some state =>
      if bool_decide (subject = "") then mret (Err InvalidToken)
      else if bool_decide (ps_refresh state = "")
      then refresh_claims f subject (ps_access state) (ps_refresh state) None
      else
        r ← token_request f
          [("grant_type", "refresh_token"); ("client_id", fc_client (fl_cfg f));
           ("refresh_token", ps_refresh state)] (λ _, true);
        match r with
        | Err e => mret (Err e)
        | Ok tokens =>
            now ← gcall_ GNow;
            r ← jwt_Verify Operators (fl_verifier f) (to_id tokens) now;
            match r with
            | Err e => mret (Err e)
            | Ok claims =>
                if bool_decide (default "" (sub_of claims) ≠ subject) then mret (Err InvalidToken)
                else
                  refresh_claims f subject (to_access tokens)
                    (if bool_decide (to_refresh tokens = "") then ps_refresh state else to_refresh tokens)
                    (Some claims)
            end
        end
  end.

(** ** Handlers (httpapi/server.go) *)

Definition respond (r : response) : go () := gcall_ (GRespond r).
Definition writeErrorWithID (status : Z) (code message request : string) : go () :=
  respond (RError status code message request).
Definition writeError (status : Z) (code message : string) : go () :=
  request ← gcall_ GRequestID; writeErrorWithID status code message request.

Definition invalidSession : go () := writeError 401 "invalid_session" "browser session is invalid".
Definition invalidAdminToken : go () := writeError 401 "invalid_admin_token" "administrator token is invalid".
Definition sessionsUnavailable : go () :=
  writeError 503 "state_registry_unavailable" "session persistence is unavailable".
Definition registryUnavailable (status : Z) : go () :=
  writeError status "state_registry_unavailable" "State Registry is unavailable".

Definition requestID (r : request) : go string :=
  let value := header_get "X-Flowai-Request-Id" (rq_headers r) in
  if bool_decide (value = "") then gcall_ GRequestID else mret value.

(** (Client).GetTeam of internal/stateregistry. *)
Definition GetTeam (team request : string) : go (result team_error Team) :=
  if bool_decide (team = "") then mret (Err TeamUnavailable)
  else
    answer ← gcall_ (GReadTeam team request);
    match answer with
    | None => mret (Err TeamUnavailable)
    | Some response =>
        if bool_decide (hr_status response = 200) then
          match team_decode (hr_body response) with
          | Some t => if bool_decide (tm_id t ≠ team ∨ tm_name t = "") then mret (Err TeamUnavailable)
                      else mret (Ok t)
          | None => mret (Err TeamUnavailable)
          end
        else if bool_decide (hr_status response = 404) then mret (Err TeamNotFound)
        else mret (Err TeamUnavailable)
    end.

(** The refresh of a team's presentation before it is shown; [None] when the answer has been sent. *)
Definition presented (d : Dependencies) (r : request) (team : string) : go (option (option Team)) :=
  if d_teams d && d_presentation d then
    request ← requestID r;
    canonical ← GetTeam team request;
    match canonical with
    | Err _ => _ ← registryUnavailable 503; mret None
    | Ok t =>
        stored ← store (OpRefreshPresentation (tm_id t) (tm_name t) (tm_archived t));
        match stored with
        | Err _ =>
            _ ← writeError 503 "state_registry_unavailable" "team presentation persistence is unavailable";
            mret None
        | Ok _ => mret (Some (Some t))
        end
    end
  else mret (Some None).

(** The session cookie of a request, when the stores are there. *)
Definition session_cookie (d : Dependencies) (r : request) : option string :=
  match rq_cookie r with
  | Some value => if bool_decide (value = "") || negb (d_sessions d) then None else Some value
  | None => None
  end.

Definition startLogin (login : option Flow) : go () :=
  match login with
  | None => respond RNotImplemented
  | Some f =>
      location ← Start f;
      match location with
      | None => writeError 502 "oidc_provider_unavailable" "OIDC provider is unavailable"
      | Some location => respond (RRedirect location None)
      end
  end.

(** What callback does with a verified identity. *)
Definition create_session (d : Dependencies) (cipher : string) (identity : Identity) : go () :=
  let failed := writeError 500 "invalid_session" "session could not be created" in
  session ← gcall_ (GRandom 32);
  match session with
  | None => failed
  | Some session =>
      let session := encode session in
      nonce ← gcall_ (GRandom 12);
      match Encrypt cipher nonce (id_state identity) session with
      | None => failed
      | Some encrypted =>
          now ← gcall_ GNow;
          let ttl := if d_session_ttl d <=? 0 then 3600 * second else d_session_ttl d in
          created ← store (OpCreate (mkSessionInput session (id_operator identity) (id_issuer identity)
            (id_subject identity) encrypted (id_teams identity) now (now + ttl)));
          match created with
          | Err _ => failed
          | Ok _ =>
              respond (RRedirect (if bool_decide (d_web_ui d = "") then "/" else d_web_ui d)
                         (Some (session, Z.quot ttl second)))
          end
      end
  end.

Definition callback (d : Dependencies) (r : request) : go () :=
  let code := query_get "code" (rq_query r) in
  let error := query_get "error" (rq_query r) in
  let state := query_get "state" (rq_query r) in
  let invalid := writeError 401 "invalid_oidc_identity" "OIDC identity is invalid" in
  if bool_decide (state = "") || Bool.eqb (bool_decide (code ≠ "")) (bool_decide (error ≠ ""))
  then writeError 400 "invalid_request" "callback must contain exactly one result"
  else
    match d_oidc d, d_cipher d with
    | Some f, Some cipher =>
        if bool_decide (error ≠ "") || negb (d_sessions d) then invalid
        else
          r ← Complete f code state;
          match r with
          | Err ProviderUnavailable | Err JWKSUnavailable =>
              writeError 502 "oidc_provider_unavailable" "OIDC provider is unavailable"
          | Err _ => invalid
          | Ok identity => create_session d cipher identity
          end
    | _, _ => invalid
    end.

Fixpoint present_teams (d : Dependencies) (r : request) (teams : list AccessibleTeam) :
    go (option (list AccessibleTeam)) :=
  match teams with
  | [] => mret (Some [])
  | t :: teams' =>
      canonical ← presented d r (at_team t);
      match canonical with
      | None => mret None
      | Some c =>
          let t' := match c with Some c => mkTeamEntry (at_team t) (Some (tm_name c)) (tm_archived c) | None => t end in
          rest ← present_teams d r teams';
          mret (cons t' <$> rest)
      end
  end.

Definition listTeams (d : Dependencies) (r : request) : go () :=
  match session_cookie d r with
  | None => invalidSession
  | Some session =>
      now ← gcall_ GNow;
      teams ← store (OpAccessibleTeams session now);
      match teams with
      | Err ErrSessionNotFound => invalidSession
      | Err _ => sessionsUnavailable
      | Ok teams =>
          shown ← present_teams d r teams;
          match shown with Some l => respond (RTeams l) | None => mret () end
      end
  end.

Definition logout (d : Dependencies) (r : request) : go () :=
  match session_cookie d r with
  | None => invalidSession
  | Some session =>
      deleted ← store (OpDelete session);
      match deleted with
      | Err ErrSessionNotFound => invalidSession
      | Err _ => sessionsUnavailable
      | Ok _ => respond RLoggedOut
      end
  end.

(** The provider is asked again and its answer replaces the session's membership. *)
Definition refresh_now (session : string) (cipher : string) (f : Flow) (now : Z) (m : MembershipState) :
    go bool :=
  match Decrypt cipher (ms_state m) session with
  | None => _ ← invalidSession; mret false
  | Some plaintext =>
      r ← flow_Refresh f plaintext (ms_subject m);
      match r with
      | Err _ => _ ← writeError 502 "oidc_provider_unavailable" "OIDC provider is unavailable"; mret false
      | Ok (teams, state) =>
          nonce ← gcall_ (GRandom 12);
          match Encrypt cipher nonce state session with
          | None => _ ← writeError 500 "invalid_session" "session could not be refreshed"; mret false
          | Some encrypted =>
              replaced ← store (OpReplaceMembership session encrypted teams now);
              match replaced with
              | Err _ => _ ← sessionsUnavailable; mret false
              | Ok _ => mret true
              end
          end
      end
  end.

(** refreshMembership: whether the handler may go on. *)
Definition refreshMembership (d : Dependencies) (session : string) : go bool :=
  match d_membership d, d_cipher d with
  | Some f, Some cipher =>
      now ← gcall_ GNow;
      m ← store (OpMembershipState session now);
      match m with
      | Err ErrSessionNotFound => _ ← invalidSession; mret false
      | Err _ => _ ← sessionsUnavailable; mret false
      | Ok m =>
          if (0 <? d_max_age d) && (now - ms_observed m <=? d_max_age d) then mret true
          else refresh_now session cipher f now m
      end
  | _, _ => mret true
  end.

(** The signature and the record of a token for a context. *)
Definition sign_token (s : Signer) (c : TokenContext) (name : option string) : go () :=
  jti ← gcall_ (GRandom 16);
  clock ← gcall_ GNow;
  match Sign s (tx_operator c) (tx_team c) name jti clock with
  | None => writeError 500 "invalid_session" "working token could not be issued"
  | Some token =>
      recorded ← store (OpRecordToken c (tk_jti token) (tk_issued token) (tk_expires token));
      match recorded with
      | Err _ => writeError 500 "invalid_session" "working token could not be recorded"
      | Ok _ => respond (RToken (tk_access token) (tk_expires_in token))
      end
  end.

Definition issueToken (d : Dependencies) (r : request) : go () :=
  match session_cookie d r, d_working d with
  | Some session, Some s =>
      match token_request_decode (rq_body r) with
      | None => writeError 400 "invalid_request" "token request is invalid"
      | Some team =>
          if bool_decide (team = "") then writeError 400 "invalid_request" "token request is invalid"
          else
            fresh_enough ← refreshMembership d session;
            if negb fresh_enough then mret ()
            else
              now ← gcall_ GNow;
              c ← store (OpTokenContext session team now);
              match c with
              | Err ErrSessionNotFound => invalidSession
              | Err ErrTeamNotAccessible => writeError 403 "team_not_accessible" "team is not accessible"
              | Err _ => sessionsUnavailable
              | Ok c =>
                  canonical ← presented d r (tx_team c);
                  match canonical with
                  | None => mret ()
                  | Some t =>
                      sign_token s c (match t with Some t => Some (tm_name t) | None => tx_name c end)
                  end
              end
      end
  | _, _ => invalidSession
  end.

(** The registration of a mapping for an administrator. *)
Definition register_mapping (d : Dependencies) (r : request) (issuer oidc_team team : string) : go () :=
  request ← requestID r;
  canonical ← GetTeam team request;
  match canonical with
  | Err TeamNotFound => writeErrorWithID 404 "canonical_team_not_found" "canonical team was not found" request
  | Err _ => writeErrorWithID 503 "state_registry_unavailable" "State Registry is unavailable" request
  | Ok t =>
      registered ← store (OpRegister (mkMapping issuer oidc_team (tm_id t) (Some (tm_name t)) (tm_archived t)));
      match registered with
      | Err ErrMappingConflict =>
          writeErrorWithID 409 "mapping_conflict" "mapping conflicts with an existing mapping" request
      | Err _ => writeErrorWithID 503 "state_registry_unavailable" "mapping persistence is unavailable" request
      | Ok (m, created) => respond (RMapping (if created : bool then 201 else 200) m)
      end
  end.

Definition registerMapping (d : Dependencies) (r : request) : go () :=
  match d_admin d with
  | Some a =>
      if negb (d_mappings d && d_teams d) then invalidAdminToken
      else
        admin ← Authenticate a (header_get "Authorization" (rq_headers r));
        match admin with
        | Err AdminProviderUnavailable =>
            writeError 502 "admin_identity_provider_unavailable" "administrator identity provider is unavailable"
        | Err AdminInsufficientRole => writeError 403 "insufficient_admin_role" "administrator role is required"
        | Err AdminInvalidToken => writeError 401 "invalid_admin_token" "administrator token is invalid"
        | Ok _ =>
            match mapping_request_decode (rq_body r) with
            | Some (issuer, oidc_team, team) =>
                if bool_decide (issuer = "" ∨ oidc_team = "" ∨ team = "")
                then writeError 400 "invalid_request" "mapping request is invalid"
                else if bool_decide (issuer ≠ d_issuer d)
                then writeError 400 "invalid_request" "issuer is not configured"
                else register_mapping d r issuer oidc_team team
            | None => writeError 400 "invalid_request" "mapping request is invalid"
            end
        end
  | None => invalidAdminToken
  end.

(** *** The proxy *)

Definition authenticateWorkingToken (d : Dependencies) (token : string) : go (option WorkingClaims) :=
  let invalid := writeError 401 "invalid_working_token" "working token is invalid" in
  match d_working d with
  | Some s =>
      if bool_decide (token = "") || negb (d_sessions d) then _ ← invalid; mret None
      else
        now ← gcall_ GNow;
        match working_Verify s token now with
        | None => _ ← invalid; mret None
        | Some claims =>
            now ← gcall_ GNow;
            valid ← store (OpValidateTokenAccess (wc_operator claims) (wc_team claims) (wc_jti claims) now);
            match valid with
            | Err _ => _ ← writeError 403 "team_not_accessible" "team is not accessible"; mret None
            | Ok _ => mret (Some claims)
            end
        end
  | None => _ ← invalid; mret None
  end.

Definition proxyREST (d : Dependencies) (r : request) : go () :=
  let invalid := writeError 401 "invalid_working_token" "working token is invalid" in
  match bearer_of (header_get "Authorization" (rq_headers r)) with
  | None => invalid
  | Some token =>
      if bool_decide (d_proxy d = "") then invalid
      else
        claims ← authenticateWorkingToken d token;
        match claims with
        | None => mret ()
        | Some claims =>
            match url_resolve (d_proxy d) (rq_path r) (rq_raw_query r) with
            | None => registryUnavailable 502
            | Some target =>
                request ← gcall_ GRequestID;
                answer ← gcall_ (GForward (rq_method r) target
                  (set_context claims request (copy_headers rest_skipped (rq_headers r) ∅)) (rq_body r));
                match answer with
                | None => registryUnavailable 502
                | Some response =>
                    respond (RProxied (hr_status response)
                      (filter (λ kv, isHopHeader (lower kv.1) = false) (hr_headers response)) (hr_body response))
                end
            end
        end
  end.

(** websocketBearer: the token and the subprotocol that carried it. *)
Definition browserBearerProtocolPrefix : string := "flowai.bearer.".

Fixpoint protocol_bearer (protocols : list string) : string * string :=
  match protocols with
  | [] => ("", "")
  | p :: protocols' =>
      if has_prefix browserBearerProtocolPrefix p then
        match decode (trim_prefix browserBearerProtocolPrefix p) with
        | Some token => if bool_decide (token = "") then protocol_bearer protocols' else (token, p)
        | None => protocol_bearer protocols'
        end
      else protocol_bearer protocols'
  end.

Definition websocketBearer (r : request) : string * string :=
  match bearer_of (header_get "Authorization" (rq_headers r)) with
  | Some token => (token, "")
  | None => protocol_bearer (rq_protocols r)
  end.

(** The end of proxyWebSocket, once the registry has been reached: three goroutines serve the
    connection until one of them ends it. *)
Definition serve_connection (conn : nat) (protocol : string) (expires : Z) : go () :=
  upgraded ← gcall_ (GUpgrade protocol);
  if negb upgraded then gcall_ (GClose conn)
  else
    _ ← spawn (TExpiry conn expires);
    _ ← spawn (TCopy conn Registry);
    _ ← spawn (TCopy conn Browser);
    _ ← gcall_ (GSelect conn);
    _ ← update (λ σ, put_cancelled ({[conn]} ∪ g_cancelled σ) σ);
    gcall_ (GClose conn).

Definition proxyWebSocket (d : Dependencies) (r : request) : go () :=
  let '(token, protocol) := websocketBearer r in
  claims ← authenticateWorkingToken d token;
  match claims with
  | None => mret ()
  | Some claims =>
      if bool_decide (d_proxy d = "") then registryUnavailable 502
      else
        match url_websocket (d_proxy d) (rq_path r) (rq_raw_query r) with
        | None => registryUnavailable 502
        | Some target =>
            request ← gcall_ GRequestID;
            conn ← gcall_ (GDial target
              (set_context claims request (copy_headers websocket_skipped (rq_headers r) ∅)));
            match conn with
            | None => registryUnavailable 502
            | Some conn => serve_connection conn protocol (wc_expires claims)
            end
        end
  end.

(** The goroutine that closes a connection when its token expires. *)
Definition expire_connection (conn : nat) (expires : Z) : go () :=
  fired ← gcall_ (GTimer conn expires);
  if negb fired then mret ()
  else
    _ ← gcall_ (GCloseFrame conn 4401 "working_token_expired");
    update (λ σ, put_cancelled ({[conn]} ∪ g_cancelled σ) σ).

(** copyWebSocket: one message. *)
Definition copy_round (conn : nat) (from : side) : go () :=
  message ← gcall_ (GRead conn from);
  match message with
  | None => mret ()
  | Some m =>
      written ← gcall_ (GWrite conn from m);
      if negb written then mret ()
      else
        cancelled ← read (λ σ, bool_decide (conn ∈ g_cancelled σ));
        if cancelled : bool then mret () else Goto (TCopy conn from)
  end.

(** The routes of NewWithDependencies; other paths are answered by net/http. A pattern for GET
    serves HEAD too. *)
Definition serve (d : Dependencies) (r : request) : go () :=
  let at_ method path :=
    bool_decide (rq_path r = path ∧ (rq_method r = method ∨ rq_method r = "HEAD" ∧ method = "GET")) in
  if at_ "GET" "/healthz" then respond RHealthy
  else if at_ "GET" "/auth/v1/login" then startLogin (d_login d)
  else if at_ "GET" "/auth/v1/callback" then callback d r
  else if at_ "GET" "/auth/v1/teams" then listTeams d r
  else if at_ "POST" "/auth/v1/token" then issueToken d r
  else if at_ "DELETE" "/auth/v1/session" then logout d r
  else if at_ "POST" "/admin/v1/oidc-team-mappings" then registerMapping d r
  else if has_prefix "/ui/" (rq_path r) then
    if rq_upgrade r then proxyWebSocket d r else proxyREST d r
  else mret ().

Definition gate_thread (d : Dependencies) (t : gthread) : go () :=
  match t with
  | TAccept => r ← gcall_ GAccept; _ ← spawn (TServe r); Goto TAccept
  | TServe r => serve d r
  | TExpiry conn expires => expire_connection conn expires
  | TCopy conn from => copy_round conn from
  end.

(** A process: it starts on the database that the ones before it left. *)
Definition gate_process (db : GateDB) (trace : list gevent) : world Gate gthread gres :=
  mkWorld (mkGate db ∅ (λ _, ∅) ∅ trace) {[0%nat := Goto TAccept]}.

(** A step of a goroutine, or the end of the process at any point and a new one. *)
Inductive gate_step (d : Dependencies) (w : world Gate gthread gres) : world Gate gthread gres → Prop :=
| gate_go w' : world_step record_gate sane_gate (gate_thread d) w w' → gate_step d w w'
| gate_restart : gate_step d w (gate_process (g_db (w_state w)) (g_trace (w_state w))).
Definition reachable_gate (d : Dependencies) (w : world Gate gthread gres) : Prop :=
  rtc (gate_step d) (gate_process empty_gate []) w.
End gateway.
