(* ===== verification/GatewaySafe.v ===== *)
(** * The gateway's discipline

    What a history of the gateway must have shown before it forwards a request, records a token,
    changes a membership or registers a mapping, and the verification that every goroutine keeps
    to it, under any interleaving, any answers and any restarts. *)

From stdpp Require Import base gmap sets strings list.
From Stdlib Require Import Ascii.
From S2P Require Import Prelude Platform Tx GoStrings Base64 ScopeToken JwtClaims WorkingToken GatewayStore Conc Gateway.
#[local] Open Scope Z_scope.

(** A history that is past in another one. *)
Abbreviation past := (suffix (A := gevent)).

Section discipline.
Context `{Collation, PgTime, Sha256, Jose, !WorkingCodec, Aead, GatewayCodec}.
Context (d : Dependencies).

(** ** What a history says *)

(** The database a history leads to; the last event is the first one of the list. *)
Fixpoint replay (tr : list gevent) : GateDB :=
  match tr with
  | [] => empty_gate
  | Asked _ _ :: tr' => replay tr'
  | Stored o env :: tr' => (perform_gate o env (replay tr')).2
  end.

(** A store operation was done and returned [r]. *)
Definition did (tr : list gevent) (o : gop) (r : result GateError (gop_result o)) : Prop :=
  ∃ later earlier env, tr = later ++ Stored o env :: earlier ∧ (perform_gate o env (replay earlier)).1 = r.

(** The settings of the verifiers of a realm. *)
Definition realm_verifiers (w : realm) : list VerifierConfig :=
  match w with
  | Operators => (fl_verifier <$> option_list (d_oidc d)) ++ (fl_verifier <$> option_list (d_membership d))
  | Administrators => au_verifier <$> option_list (d_admin d)
  end.

(** A key that a provider of the realm published. *)
Definition key_from (tr : list gevent) (w : realm) (key : jwk) : Prop :=
  ∃ v response keys, v ∈ realm_verifiers w ∧
    Asked (GGet (vc_jwks_url v) None) (Some response) ∈ tr ∧ hr_status response = 200 ∧
    jwks_decode (hr_body response) = Some keys ∧ key ∈ keys.

(** A token of the realm whose signature and claims were verified, at an instant of the clock. *)
Definition jwt_proved (tr : list gevent) (w : realm) (v : VerifierConfig) (token : string)
    (claims : claims_map) : Prop :=
  ∃ p0 p1 p2 h key now,
    split dot token = [p0; p1; p2] ∧ token_header v p0 = Some h ∧ Asked GNow now ∈ tr ∧
    key_from tr w key ∧ jwk_kid key = jh_kid h ∧ verify_with v now h key p0 p1 p2 = Some claims.

(** Claims of an ID token that the provider gave out for a subject, in answer to [form]. *)
Definition id_claims (tr : list gevent) (f : Flow) (form : list (string * string)) (subject : string)
    (claims : claims_map) : Prop :=
  ∃ response tokens, Asked (GPostForm (dc_token (fl_discovery f)) form) (Some response) ∈ tr ∧
    hr_status response = 200 ∧ token_response_decode (hr_body response) = Some tokens ∧
    jwt_proved tr Operators (fl_verifier f) (to_id tokens) claims ∧ sub_of claims = Some subject.

(** The document a subject's teams were read from: the ID token's claims, or a UserInfo answer
    decoded over them, or over nothing. *)
Definition document_from (tr : list gevent) (f : Flow) (subject : string) (document : claims_map) : Prop :=
  if bool_decide (fc_source (fl_cfg f) = "userinfo") then
    ∃ access base response,
      Asked (GGet (dc_userinfo (fl_discovery f)) (Some access)) (Some response) ∈ tr ∧
      hr_status response = 200 ∧ (base = [] ∨ ∃ form, id_claims tr f form subject base) ∧
      decode_into base (hr_body response) = Some document ∧ sub_of document = Some subject
  else ∃ form, id_claims tr f form subject document.

Definition team_evidence (tr : list gevent) (f : Flow) (subject : string) (ids : list string) : Prop :=
  ∃ document, document_from tr f subject document ∧ Normalize (fc_teams (fl_cfg f)) document = Ok ids.

(** A pending authorization whose secrets this gateway drew. *)
Definition pending_drawn (tr : list gevent) (p : PendingAuthorization) : Prop :=
  ∃ s n v, Asked (GRandom 32) (Some s) ∈ tr ∧ Asked (GRandom 32) (Some n) ∈ tr ∧
    Asked (GRandom 48) (Some v) ∈ tr ∧
    pn_state p = encode s ∧ pn_nonce p = encode n ∧ pn_verifier p = encode v.

(** A login: the code was redeemed with the verifier of a pending authorization, and the ID token
    carries its nonce. *)
Definition login_evidence (tr : list gevent) (f : Flow) (subject : string) : Prop :=
  ∃ p code claims, pending_drawn tr p ∧ obj_lookup "nonce" claims = Some (JStr (pn_nonce p)) ∧
    id_claims tr f
      [("grant_type", "authorization_code"); ("client_id", fc_client (fl_cfg f));
       ("redirect_uri", fc_redirect (fl_cfg f)); ("code", code); ("code_verifier", pn_verifier p)]
      subject claims.

(** A request with a token of this gateway that its database confirms. *)
Definition request_valid (tr : list gevent) (c : WorkingClaims) : Prop :=
  ∃ s token now now', d_working d = Some s ∧ Asked GNow now ∈ tr ∧ working_Verify s token now = Some c ∧
    Asked GNow now' ∈ tr ∧ did tr (OpValidateTokenAccess (wc_operator c) (wc_team c) (wc_jti c) now') (Ok ()).

Definition dialled (tr : list gevent) (conn : nat) : Prop :=
  ∃ target hs, Asked (GDial target hs) (Some conn) ∈ tr.

(** An administrator with the role asked for a mapping of a team the registry has. *)
Definition admin_evidence (tr : list gevent) (m : Mapping) : Prop :=
  ∃ a token claims subject request response t,
    d_admin d = Some a ∧ jwt_proved tr Administrators (au_verifier a) token claims ∧
    authorize_claims (au_pointer a) (au_role a) claims = Ok subject ∧ mp_issuer m = d_issuer d ∧
    Asked (GReadTeam (mp_team m) request) (Some response) ∈ tr ∧ hr_status response = 200 ∧
    team_decode (hr_body response) = Some t ∧ tm_id t = mp_team m.

(** What may happen after a history. *)
Definition allowed (tr : list gevent) (e : gevent) : Prop :=
  match e with
  | Asked (GForward method target hs body) _ =>
      ∃ q c request, Asked GAccept q ∈ tr ∧ request_valid tr c ∧
        method = rq_method q ∧ body = rq_body q ∧
        url_resolve (d_proxy d) (rq_path q) (rq_raw_query q) = Some target ∧
        hs = set_context c request (copy_headers rest_skipped (rq_headers q) ∅)
  | Asked (GDial target hs) _ =>
      ∃ q c request, Asked GAccept q ∈ tr ∧ request_valid tr c ∧
        url_websocket (d_proxy d) (rq_path q) (rq_raw_query q) = Some target ∧
        hs = set_context c request (copy_headers websocket_skipped (rq_headers q) ∅)
  | Asked (GWrite conn from m) _ => Asked (GRead conn from) (Some m) ∈ tr ∧ dialled tr conn
  | Asked (GRespond (RToken access _)) _ =>
      ∃ s c name bytes clock token, d_working d = Some s ∧
        Sign s (tx_operator c) (tx_team c) name (Some bytes) clock = Some token ∧ tk_access token = access ∧
        did tr (OpRecordToken c (tk_jti token) (tk_issued token) (tk_expires token)) (Ok ())
  | Asked (GRespond (RRedirect _ (Some (session, _)))) _ =>
      ∃ input, did tr (OpCreate input) (Ok ()) ∧ si_session input = session
  | Stored (OpCreate input) _ =>
      ∃ f bytes, d_oidc d = Some f ∧ Asked (GRandom 32) (Some bytes) ∈ tr ∧
        si_session input = encode bytes ∧ si_issuer input = fc_issuer (fl_cfg f) ∧
        si_operator input = operator_id (si_issuer input) (si_subject input) ∧
        login_evidence tr f (si_subject input) ∧ team_evidence tr f (si_subject input) (si_teams input)
  | Stored (OpReplaceMembership session _ ids _) _ =>
      ∃ f now m, d_membership d = Some f ∧ did tr (OpMembershipState session now) (Ok m) ∧
        team_evidence tr f (ms_subject m) ids
  | Stored (OpRecordToken c _ _ _) _ =>
      ∃ session now, Asked GNow now ∈ tr ∧ did tr (OpTokenContext session (tx_team c) now) (Ok c)
  | Stored (OpRegister m) _ => admin_evidence tr m
  | _ => True
  end.

Fixpoint disciplined (tr : list gevent) : Prop :=
  match tr with [] => True | e :: tr' => allowed tr' e ∧ disciplined tr' end.

Record gate_inv (σ : Gate) : Prop := mkGateInv {
  gi_db : g_db σ = replay (g_trace σ);
  gi_disciplined : disciplined (g_trace σ);
  gi_keys w kid key : g_keys σ w !! kid = Some key → key_from (g_trace σ) w key ∧ jwk_kid key = kid;
  gi_pending s p : g_pending σ !! s = Some p → pending_drawn (g_trace σ) p;
}.

(** ** What a history has shown stays shown *)

Lemma past_asked t t' e : past t t' → e ∈ t → e ∈ t'.
Proof using. clear. intros [k ->] Hin. apply elem_of_app. by right. Qed.

Lemma past_did t t' o r : past t t' → did t o r → did t' o r.
Proof using. intros [k ->] (l & e & env & -> & Hr). exists (k ++ l), e, env. by rewrite <- app_assoc. Qed.

Lemma past_key t t' w key : past t t' → key_from t w key → key_from t' w key.
Proof using. intros Ht (v & r & ks & ? & Ha & ?). exists v, r, ks. eauto using past_asked. Qed.

Lemma past_jwt t t' w v token claims : past t t' → jwt_proved t w v token claims → jwt_proved t' w v token claims.
Proof using.
  intros Ht (p0 & p1 & p2 & h & key & now & ? & ? & Hn & Hk & ?). exists p0, p1, p2, h, key, now.
  split_and!; try tauto; eauto using past_asked, past_key.
Qed.

Lemma past_id t t' f form s c : past t t' → id_claims t f form s c → id_claims t' f form s c.
Proof using.
  intros Ht (r & tk & ? & ? & ? & ? & ?). exists r, tk. split_and!; eauto using past_asked, past_jwt.
Qed.

Lemma past_document t t' f s c : past t t' → document_from t f s c → document_from t' f s c.
Proof using.
  intros Ht. unfold document_from. case_bool_decide.
  - intros (a & b & r & ? & ? & Hb & ? & ?). exists a, b, r. split_and!; eauto using past_asked.
    destruct Hb as [->|[form Hb]]; [by left|]. right. eauto using past_id.
  - intros [form Hf]. eauto using past_id.
Qed.

Lemma past_team t t' f s ids : past t t' → team_evidence t f s ids → team_evidence t' f s ids.
Proof using. intros Ht (c & ? & ?). exists c. eauto using past_document. Qed.

Lemma past_pending t t' p : past t t' → pending_drawn t p → pending_drawn t' p.
Proof using. intros Ht (s & n & v & ? & ? & ? & ?). exists s, n, v. split_and!; try tauto; eauto using past_asked. Qed.

Lemma past_login t t' f s : past t t' → login_evidence t f s → login_evidence t' f s.
Proof using. intros Ht (p & c & cl & ? & ? & ?). exists p, c, cl. eauto using past_pending, past_id. Qed.

Lemma past_valid t t' c : past t t' → request_valid t c → request_valid t' c.
Proof using.
  intros Ht (s & tk & n & n' & ? & ? & ? & ? & ?). exists s, tk, n, n'. eauto 10 using past_asked, past_did.
Qed.

Lemma past_dialled t t' conn : past t t' → dialled t conn → dialled t' conn.
Proof using. intros Ht (a & b & ?). exists a, b. eauto using past_asked. Qed.
End discipline.

Lemma past_trans (t1 t2 t3 : list gevent) : past t1 t2 → past t2 t3 → past t1 t3.
Proof. intros. by etrans. Qed.
Ltac later := solve [reflexivity | eauto 6 using past_trans].

(** Carries everything known of a history over to a later one. *)
Ltac carry :=
  repeat match goal with
  | Ht : suffix ?t ?t', Hx : _ ∈ ?t |- _ => apply (past_asked _ _ _ Ht) in Hx
  | Ht : suffix ?t ?t', Hx : did ?t _ _ |- _ => apply (past_did _ _ _ _ Ht) in Hx
  | Ht : suffix ?t ?t', Hx : key_from _ ?t _ _ |- _ => apply (past_key _ _ _ _ _ Ht) in Hx
  | Ht : suffix ?t ?t', Hx : jwt_proved _ ?t _ _ _ _ |- _ => apply (past_jwt _ _ _ _ _ _ _ Ht) in Hx
  | Ht : suffix ?t ?t', Hx : id_claims _ ?t _ _ _ _ |- _ => apply (past_id _ _ _ _ _ _ _ Ht) in Hx
  | Ht : suffix ?t ?t', Hx : team_evidence _ ?t _ _ _ |- _ => apply (past_team _ _ _ _ _ _ Ht) in Hx
  | Ht : suffix ?t ?t', Hx : pending_drawn ?t _ |- _ => apply (past_pending _ _ _ Ht) in Hx
  | Ht : suffix ?t ?t', Hx : login_evidence _ ?t _ _ |- _ => apply (past_login _ _ _ _ _ Ht) in Hx
  | Ht : suffix ?t ?t', Hx : request_valid _ ?t _ |- _ => apply (past_valid _ _ _ _ Ht) in Hx
  | Ht : suffix ?t ?t', Hx : dialled ?t _ |- _ => apply (past_dialled _ _ _ Ht) in Hx
  end.

(** ** Verification of the goroutines *)

Section logic.
Context `{Collation, PgTime, Sha256, Jose, !WorkingCodec, Aead, GatewayCodec}.
Context (d : Dependencies).

Definition trace_extends (σ σ' : Gate) : Prop := past (g_trace σ) (g_trace σ').
#[local] Instance trace_extends_preorder : PreOrder trace_extends.
Proof using.
  split; [intros σ; unfold trace_extends; reflexivity|].
  intros σ1 σ2 σ3. unfold trace_extends. intros ? ?. by etrans.
Qed.

(** Nothing is owned: goroutines share by the history only. *)
#[export] Instance gate_protocol : Protocol Gate Empty_set.
Proof using All.
  refine {| inv := gate_inv d; evolves := trace_extends; own r σ := True; keep r σ σ' := True;
            due r σ := False |}; done.
Defined.

(** What a goroutine starts with. *)
Definition gate_pre (t : gthread) (O : gset Empty_set) (σ : Gate) : Prop :=
  match t with
  | TServe r => Asked GAccept r ∈ g_trace σ
  | TCopy conn _ => dialled (g_trace σ) conn
  | _ => True
  end.

#[local] Notation gwp := (wp record_gate sane_gate gate_pre).

(** [safe t p Q]: whenever the history [t] is past, [p] keeps the discipline and ends with [Q] of its
    result and the history. *)
Definition safe {A} (t : list gevent) (p : go A) (Q : A → list gevent → Prop) : Prop :=
  ∀ σ O, past t (g_trace σ) → gwp O p (λ a _ σ, Q a (g_trace σ)) σ.

Lemma guar_extends O σ σ' : gate_inv d σ' → trace_extends σ σ' → guar O O σ σ'.
Proof using. intros Hi He. split_and!; [done|done|done|done|]. by intros []. Qed.

Lemma safe_ret {A} t (a : A) (Q : A → list gevent → Prop) :
  (∀ t', past t t' → Q a t') → safe t (mret a) Q.
Proof using. intros HQ σ O Ht σ1 [He _] _ _. apply HQ. etrans; [exact Ht|exact He]. Qed.

Lemma safe_bind {A B} t (p : go A) (k : A → go B) Q :
  safe t p (λ a t', safe t' (k a) Q) → safe t (p ≫= k) Q.
Proof using.
  intros Hp σ O Ht. apply wp_bind. eapply wp_mono; [|apply (Hp σ O Ht)].
  intros a O' σ' Hk. by apply Hk.
Qed.

Lemma safe_mono {A} t (p : go A) (Q Q' : A → list gevent → Prop) :
  safe t p Q → (∀ a t', Q a t' → Q' a t') → safe t p Q'.
Proof using. intros Hp HQ σ O Ht. eapply wp_mono; [|by apply Hp]. intros a O' σ' HQa. by apply HQ. Qed.

(** What holds of every later history may be used in the proof of the rest. *)
Lemma safe_past {A} t t' (p : go A) Q : past t t' → safe t p Q → safe t' p Q.
Proof using. intros Ht Hp σ O Ht'. apply Hp. by etrans. Qed.

Lemma safe_extend {A} t (p : go A) (Q : A → list gevent → Prop) :
  safe t p Q → safe t p (λ a t', past t t' ∧ Q a t').
Proof using.
  intros Hp σ O Ht. pose proof (wp_evolves record_gate sane_gate gate_pre O p _ σ σ ltac:(reflexivity) (Hp σ O Ht)) as Hw.
  eapply wp_mono; [|exact Hw]. intros a O' σ' [HQ He]. split; [|done]. etrans; [exact Ht|exact He].
Qed.

Lemma inv_record σ c r : gate_inv d σ → allowed d (g_trace σ) (Asked c r) → gate_inv d (record_gate c r σ).
Proof using.
  intros [G1 G2 G3 G4] Ha. assert (Ht : past (g_trace σ) (g_trace (record_gate c r σ))) by by eexists [_].
  split; simpl; try done.
  - intros w kid key Hk. destruct (G3 w kid key Hk). eauto using past_key.
  - intros s p Hp. eauto using past_pending.
Qed.

Lemma safe_call t c (Q : gres c → list gevent → Prop) :
  (∀ r t', past t t' → allowed d t' (Asked c r)) →
  (∀ r t', past t t' → Asked c r ∈ t' → Q r t') → safe t (gcall_ c) Q.
Proof using.
  intros Ha HQ σ O Ht r σ1 _ [He _] Hi _.
  assert (Ht1 : past t (g_trace σ1)) by (etrans; [exact Ht|exact He]).
  assert (Hext : trace_extends σ1 (record_gate c r σ1)) by by eexists [_].
  exists O. split; [apply guar_extends; [by apply inv_record; [|apply Ha]|done]|].
  intros σ2 [He2 _] _ _. assert (Ht2 : past t (g_trace σ2)).
  { etrans; [exact Ht1|]. etrans; [exact Hext|exact He2]. }
  apply HQ; [done|]. eapply past_asked; [exact He2|]. by left.
Qed.

Lemma safe_atomic {A} t (f : Gate → Gate * A) (Q : A → list gevent → Prop) :
  (∀ σ, gate_inv d σ → past t (g_trace σ) →
     gate_inv d (f σ).1 ∧ trace_extends σ (f σ).1 ∧ ∀ t', past (g_trace (f σ).1) t' → Q (f σ).2 t') →
  safe t (atomic f) Q.
Proof using.
  intros Hf σ O Ht σ1 [He _] Hi _. assert (Ht1 : past t (g_trace σ1)) by (etrans; [exact Ht|exact He]).
  destruct (Hf σ1 Hi Ht1) as (Hi' & He' & HQ). exists O. split; [by apply guar_extends|].
  intros σ2 [He2 _] _ _. by apply HQ.
Qed.

Lemma safe_update t (f : Gate → Gate) (Q : () → list gevent → Prop) :
  (∀ σ, gate_inv d σ → past t (g_trace σ) → gate_inv d (f σ) ∧ g_trace (f σ) = g_trace σ) →
  (∀ t', past t t' → Q () t') → safe t (update f) Q.
Proof using.
  intros Hf HQ. apply (safe_atomic t (λ σ, (f σ, ()))). intros σ Hi Ht. simpl.
  destruct (Hf σ Hi Ht) as [Hi' He]. split_and!; [done|by unfold trace_extends; rewrite He|].
  rewrite He. intros t' Ht'. apply HQ. by etrans.
Qed.

Lemma safe_read {A} t (f : Gate → A) (Q : A → list gevent → Prop) :
  (∀ σ t', gate_inv d σ → past t (g_trace σ) → past (g_trace σ) t' → Q (f σ) t') → safe t (read f) Q.
Proof using.
  intros HQ. apply (safe_atomic t (λ σ, (σ, f σ))). intros σ Hi Ht. split_and!; [done|done|]. simpl. eauto.
Qed.

Lemma safe_store t o (Q : result GateError (gop_result o) → list gevent → Prop) :
  (∀ env t', past t t' → allowed d t' (Stored o env)) →
  (∀ r t', past t t' → did t' o r → Q r t') → safe t (store o) Q.
Proof using.
  intros Ha HQ. apply safe_bind, safe_call; [done|]. intros env t1 Ht1 _.
  apply safe_atomic. intros σ Hi Ht. unfold store_step.
  destruct (perform_gate o env (g_db σ)) as [r db] eqn:E. simpl.
  assert (Hp : past t (g_trace σ)) by by etrans.
  destruct Hi as [G1 G2 G3 G4].
  assert (Hext : past (g_trace σ) (Stored o env :: g_trace σ)) by by eexists [_].
  split_and!; [|done|].
  - split; simpl.
    + by rewrite <- G1, E.
    + by split; [apply Ha|].
    + intros w kid key Hk. destruct (G3 w kid key Hk). eauto using past_key.
    + intros s p Hps. eauto using past_pending.
  - intros t' Ht'. apply HQ; [by do 2 etrans|]. eapply past_did; [exact Ht'|].
    exists [], (g_trace σ), env. split; [done|]. by rewrite <- G1, E.
Qed.

Lemma safe_spawn t th (k : go ()) Q :
  (∀ σ, past t (g_trace σ) → gate_pre th ∅ σ) → safe t k Q → safe t (spawn th ≫= λ _, k) Q.
Proof using.
  intros Hpre Hk. apply safe_bind. intros σ O Ht σ1 [He _] Hi _.
  assert (Ht1 : past t (g_trace σ1)) by (etrans; [exact Ht|exact He]).
  exists O, ∅. split_and!; [set_solver|set_solver|by apply Hpre|].
  intros σ2 [He2 _] _ _. intros σ3 O3 Ht3. apply Hk. etrans; [exact Ht1|]. etrans; [exact He2|done].
Qed.

Lemma safe_goto t th (Q : () → list gevent → Prop) :
  (∀ σ O, past t (g_trace σ) → gate_pre th O σ) → safe t (Goto th) Q.
Proof using. intros Hpre σ O Ht σ1 [He _] Hi _. apply Hpre. etrans; [exact Ht|exact He]. Qed.
End logic.

(** One step of a program: a case of its text, a call that is always allowed, or the end. *)
Ltac safe_case :=
  match goal with
  | |- safe _ _ (match ?x with _ => _ end) _ =>
      lazymatch x with
      | context [match _ with _ => _ end] => fail
      | _ => let E := fresh "E" in destruct x eqn:E
      end
  | |- safe _ _ (if ?x then _ else _) _ => let E := fresh "E" in destruct x eqn:E
  end.
Ltac safe_quiet := apply safe_call; [by intros|intros ? ? ? ?; carry].
Ltac safe_end := apply safe_ret; intros ? ?; carry.

Section programs.
Context `{Collation, PgTime, Sha256, Jose, !WorkingCodec, Aead, GatewayCodec}.
Context (d : Dependencies).

Lemma index_keys_lookup keys kid key :
  index_keys keys !! kid = Some key → key ∈ keys ∧ jwk_kid key = kid.
Proof using.
  unfold index_keys.
  assert (Hgen : ∀ (l : list jwk) (m : gmap string jwk),
    (∀ kid key, m !! kid = Some key → key ∈ keys ∧ jwk_kid key = kid) → l ⊆ keys →
    ∀ kid key, fold_left (λ m key, if bool_decide (jwk_kid key = "") then m else <[jwk_kid key := key]> m) l m
      !! kid = Some key → key ∈ keys ∧ jwk_kid key = kid).
  { intros l. induction l as [|k l IH]; intros m Hm Hl; [done|]. simpl. apply IH; [|set_solver].
    case_bool_decide; [done|]. intros kid' key'. rewrite lookup_insert_Some.
    intros [[<- <-]|[_ ?]]; [split; [set_solver|done]|auto]. }
  by apply Hgen.
Qed.

Lemma safe_writeError t status code message (Q : () → list gevent → Prop) :
  (∀ t', past t t' → Q () t') → safe d t (writeError status code message) Q.
Proof using.
  intros HQ. apply safe_bind. safe_quiet. safe_quiet. destruct r0. apply HQ. later.
Qed.

Lemma safe_refresh t w v (Q : option auth_error → list gevent → Prop) :
  v ∈ realm_verifiers d w → (∀ r t', past t t' → Q r t') → safe d t (refresh w v) Q.
Proof using.
  intros Hv HQ. apply safe_bind. safe_quiet. rename t' into t1.
  destruct r as [response|]; [|safe_end; apply HQ; later].
  safe_case; [safe_end; apply HQ; later|].
  destruct (jwks_decode (hr_body response)) as [keys|] eqn:Hk; [|safe_end; apply HQ; later].
  to_prop. apply safe_bind, safe_update.
  - intros σ [G1 G2 G3 G4] Ht. split; [|done]. split; simpl; try done.
    intros w' kid key. case_bool_decide as Hw; [subst w'|apply G3].
    intros [Hin Hkid]%index_keys_lookup. split; [|done]. carry. exists v, response, keys. done.
  - intros t2 Ht2. safe_end. apply HQ. later.
Qed.

Lemma safe_verified t w v now h p0 p1 p2 token key (Q : result auth_error claims_map → list gevent → Prop) :
  split dot token = [p0; p1; p2] → token_header v p0 = Some h → Asked GNow now ∈ t →
  (∀ k, key = Some k → key_from d t w k ∧ jwk_kid k = jh_kid h) →
  (∀ r t', past t t' → (∀ claims, r = Ok claims → jwt_proved d t' w v token claims) → Q r t') →
  safe d t (verified v now h p0 p1 p2 key) Q.
Proof using.
  intros Hs Hh Hn Hk HQ. unfold verified. destruct key as [key|]; [|safe_end; by apply HQ].
  destruct (Hk key eq_refl) as [Hf Hkid].
  destruct (verify_with v now h key p0 p1 p2) as [claims|] eqn:Hv; [|safe_end; by apply HQ].
  safe_end. apply HQ; [done|]. intros ? [= <-]. by exists p0, p1, p2, h, key, now.
Qed.

Lemma safe_Verify t w v token now (Q : result auth_error claims_map → list gevent → Prop) :
  v ∈ realm_verifiers d w → Asked GNow now ∈ t →
  (∀ r t', past t t' → (∀ claims, r = Ok claims → jwt_proved d t' w v token claims) → Q r t') →
  safe d t (jwt_Verify w v token now) Q.
Proof using.
  intros Hv Hn HQ. unfold jwt_Verify.
  destruct (split dot token) as [|p0 [|p1 [|p2 [|]]]] eqn:Hs; try (safe_end; by apply HQ).
  destruct (token_header v p0) as [h|] eqn:Hh; [|safe_end; by apply HQ].
  apply safe_bind, safe_read. intros σ t1 [_ _ G3 _] Ht Ht1. assert (Htt : past t t1) by later.
  destruct (g_keys σ w !! jh_kid h) as [key|] eqn:Hk.
  - destruct (G3 _ _ _ Hk) as [Hf Hkid]. carry.
    apply (safe_verified t1 w v now h p0 p1 p2 token (Some key)); try done; [by intros k [= <-]|].
    intros r t2 Ht2. apply HQ. later.
  - clear G3. carry. apply safe_bind, (safe_refresh t1 w v); [done|]. intros failed t2 Ht2.
    destruct failed; [safe_end; apply HQ; [|done]; later|].
    apply safe_bind, safe_read. intros σ' t3 [_ _ G3 _] Ht' Ht3. assert (Htt3 : past t2 t3) by later.
    carry. apply (safe_verified t3 w v now h p0 p1 p2 token); try done.
    + intros k Hk'. destruct (G3 _ _ _ Hk') as [Hf Hkid]. split; [by apply (past_key _ _ _ _ _ Ht3)|done].
    + intros r t4 Ht4. apply HQ. later.
Qed.

Lemma safe_store_any t o (Q : result GateError (gop_result o) → list gevent → Prop) :
  (∀ env t', allowed d t' (Stored o env)) → (∀ r t', past t t' → did t' o r → Q r t') → safe d t (store o) Q.
Proof using. intros Ha HQ. apply safe_store; [by intros|done]. Qed.

(** *** The provider *)

Lemma safe_userinfo t f access base (Q : result auth_error claims_map → list gevent → Prop) :
  (∀ r t', past t t' →
     (∀ document, r = Ok document → ∃ response,
        Asked (GGet (dc_userinfo (fl_discovery f)) (Some access)) (Some response) ∈ t' ∧
        hr_status response = 200 ∧ decode_into base (hr_body response) = Some document) → Q r t') →
  safe d t (userinfo f access base) Q.
Proof using.
  intros HQ. apply safe_bind. safe_quiet. destruct r as [response|]; [|safe_end; apply HQ; [later|done]].
  safe_case; [safe_end; apply HQ; [later|done]|]. to_prop.
  destruct (decode_into base (hr_body response)) as [c|] eqn:Hc; safe_end; apply HQ; try solve [later|done].
  intros ? [= <-]. by exists response.
Qed.

Lemma safe_token_request t f form ok (Q : result auth_error TokenResponse → list gevent → Prop) :
  (∀ r t', past t t' →
     (∀ tokens, r = Ok tokens → ∃ response,
        Asked (GPostForm (dc_token (fl_discovery f)) form) (Some response) ∈ t' ∧
        hr_status response = 200 ∧ token_response_decode (hr_body response) = Some tokens) → Q r t') →
  safe d t (token_request f form ok) Q.
Proof using.
  intros HQ. apply safe_bind. safe_quiet. destruct r as [response|]; [|safe_end; apply HQ; [later|done]].
  safe_case; [safe_end; apply HQ; [later|done]|]. to_prop.
  destruct (token_response_decode (hr_body response)) as [c|] eqn:Hc;
    [|safe_end; apply HQ; [later|done]].
  safe_case; safe_end; apply HQ; try solve [later|done]. intros ? [= <-]. by exists response.
Qed.

Lemma safe_Consume t state (Q : option PendingAuthorization → list gevent → Prop) :
  (∀ r t', past t t' → (∀ p, r = Some p → pending_drawn t' p) → Q r t') → safe d t (Consume state) Q.
Proof using.
  intros HQ. apply safe_bind. safe_quiet. rename t' into t1. apply safe_atomic.
  intros σ [G1 G2 G3 G4] Ht. simpl. split_and!; [|unfold trace_extends; reflexivity|].
  - split; simpl; try done. intros s p [_ Hp]%lookup_delete_Some. eauto.
  - intros t2 Ht2. apply HQ; [later|]. intros p Hp.
    destruct (g_pending σ !! state) as [p'|] eqn:E; [|done]. destruct (_ <? _); [|done].
    injection Hp as <-. eapply past_pending; [done|]. by eapply G4.
Qed.

(** The end of a branch that fails. *)
#[local] Ltac fails HQ := safe_end; apply HQ; solve [later | done].

Lemma safe_Start t f (Q : option string → list gevent → Prop) :
  (∀ r t', past t t' → Q r t') → safe d t (Start f) Q.
Proof using.
  intros HQ. apply safe_bind. safe_quiet. destruct r as [state|]; [|fails HQ].
  apply safe_bind. safe_quiet. destruct r as [nonce|]; [|fails HQ].
  apply safe_bind. safe_quiet. destruct r as [verifier|]; [|fails HQ].
  apply safe_bind. safe_quiet. rename t'2 into t4.
  apply safe_bind, safe_update; [|intros; fails HQ].
  intros σ [G1 G2 G3 G4] Ht. carry. split; [|done]. split; simpl; try done.
  intros s p. rewrite lookup_insert_Some. intros [[<- <-]|[_ Hp]].
  - exists state, nonce, verifier. split_and!; done.
  - apply map_lookup_filter_Some in Hp as [Hp _]. eauto.
Qed.

Lemma subject_of_sub claims s : subject_of claims = Some s → sub_of claims = Some s.
Proof using.
  unfold subject_of, sub_of. destruct (obj_lookup "sub" claims) as [[]|]; try done. simpl.
  unfold non_empty_string. by case_bool_decide; intros [= <-].
Qed.

(** The document of an identity is evidence of its teams. *)
Lemma teams_shown t f subject document ids :
  document_from d t f subject document → Normalize (fc_teams (fl_cfg f)) document = Ok ids →
  team_evidence d t f subject ids.
Proof using. by exists document. Qed.

Definition identity_shown (t : list gevent) (f : Flow) (i : Identity) : Prop :=
  id_issuer i = fc_issuer (fl_cfg f) ∧ id_operator i = operator_id (id_issuer i) (id_subject i) ∧
  login_evidence d t f (id_subject i) ∧ team_evidence d t f (id_subject i) (id_teams i).

Lemma identity_of_shown t f subject tokens document i :
  document_from d t f subject document → login_evidence d t f subject →
  identity_of f subject tokens document = Ok i → identity_shown t f i.
Proof using.
  intros Hd Hl. unfold identity_of. case_bool_decide; [done|].
  destruct (Normalize _ document) as [ids|] eqn:Hn; [|done]. intros [= <-].
  split_and!; simpl; try done. by eapply teams_shown.
Qed.

Lemma safe_Complete t f code state (Q : result auth_error Identity → list gevent → Prop) :
  fl_verifier f ∈ realm_verifiers d Operators →
  (∀ r t', past t t' → (∀ i, r = Ok i → identity_shown t' f i) → Q r t') →
  safe d t (Complete f code state) Q.
Proof using.
  intros Hv HQ. unfold Complete. safe_case; [fails HQ|].
  apply safe_bind, safe_Consume. intros pending t1 Ht1 Hp. destruct pending as [p|]; [|fails HQ].
  specialize (Hp p eq_refl). apply safe_bind, safe_token_request. intros r t2 Ht2 Htok. carry.
  destruct r as [tokens|]; [|fails HQ]. destruct (Htok tokens eq_refl) as (resp & Hans & Hst & Hdec). clear Htok.
  apply safe_bind. safe_quiet. rename r into now, t' into t3.
  apply safe_bind, (safe_Verify t3 Operators (fl_verifier f)); [done..|]. intros r t4 Ht4 Hjwt. carry.
  destruct r as [claims|]; [|fails HQ]. specialize (Hjwt claims eq_refl).
  safe_case; [fails HQ|]. rename E0 into Hnonce.
  destruct (subject_of claims) as [subject|] eqn:Hs; [|fails HQ].
  apply negb_false_iff in Hnonce.
  assert (Hn : obj_lookup "nonce" claims = Some (JStr (pn_nonce p))).
  { destruct (obj_lookup "nonce" claims) as [[]|]; try done. to_prop. by subst. }
  assert (Hid : ∃ form, id_claims d t4 f form subject claims ∧ login_evidence d t4 f subject).
  { eexists. split; [|exists p, code, claims; split_and!; try done];
      (exists resp, tokens; split_and!; try done; by apply subject_of_sub). }
  destruct Hid as (form & Hid & Hlogin).
  destruct (bool_decide (fc_source (fl_cfg f) = "userinfo")) eqn:Hsrc.
  - apply safe_bind, safe_userinfo. intros r t5 Ht5 Hdoc. destruct r as [document|]; [|fails HQ].
    destruct (Hdoc document eq_refl) as (resp' & Hask & Hst' & Hdec'). clear Hdoc.
    safe_case; [|fails HQ]. to_prop. carry. safe_end. apply HQ; [later|]. intros i.
    apply identity_of_shown; [|done]. unfold document_from. rewrite Hsrc.
    exists (to_access tokens), claims, resp'. split_and!; eauto.
  - safe_end. apply HQ; [later|]. intros i. apply identity_of_shown; [|done].
    unfold document_from. rewrite Hsrc. eauto.
Qed.

(** What a refresh leaves: teams with evidence for the subject. *)
Definition teams_refreshed (t : list gevent) (f : Flow) (subject : string)
    (r : result auth_error (list string * string)) : Prop :=
  ∀ ids state, r = Ok (ids, state) → team_evidence d t f subject ids.

Lemma refreshed_shown t f subject access token document :
  document_from d t f subject document → teams_refreshed t f subject (refreshed f access token document).
Proof using.
  intros Hd ids state. unfold refreshed. destruct (Normalize _ document) eqn:Hn; [|done].
  intros [= <- _]. by eapply teams_shown.
Qed.

Lemma safe_refresh_claims t f subject access token claims
    (Q : result auth_error (list string * string) → list gevent → Prop) :
  subject ≠ "" → (∀ c, claims = Some c → ∃ form, id_claims d t f form subject c) →
  (∀ r t', past t t' → teams_refreshed t' f subject r → Q r t') →
  safe d t (refresh_claims f subject access token claims) Q.
Proof using.
  intros Hne Hc HQ. unfold refresh_claims.
  destruct (bool_decide (fc_source (fl_cfg f) = "userinfo")) eqn:Hsrc.
  - apply safe_bind, safe_userinfo. intros r t1 Ht1 Hdoc. destruct r as [document|]; [|fails HQ].
    destruct (Hdoc document eq_refl) as (resp & Hask & Hst & Hdec). clear Hdoc.
    safe_case; [|fails HQ]. to_prop. carry. safe_end. apply HQ; [later|]. apply refreshed_shown.
    unfold document_from. rewrite Hsrc. exists access, (default [] claims), resp. split_and!; try done.
    + destruct claims as [c|]; [right|by left]. destruct (Hc c eq_refl) as [form Hid]. exists form.
      eapply past_id; [|exact Hid]. later.
    + destruct (sub_of document); simpl in *; congruence.
  - destruct claims as [c|]; [|fails HQ]. destruct (Hc c eq_refl) as [form Hid]. safe_end.
    apply HQ; [done|]. apply refreshed_shown. unfold document_from. rewrite Hsrc. eauto.
Qed.

Lemma safe_flow_Refresh t f encoded subject
    (Q : result auth_error (list string * string) → list gevent → Prop) :
  fl_verifier f ∈ realm_verifiers d Operators →
  (∀ r t', past t t' → teams_refreshed t' f subject r → Q r t') →
  safe d t (flow_Refresh f encoded subject) Q.
Proof using.
  intros Hv HQ. unfold flow_Refresh. destruct (provider_state_decode encoded) as [state|]; [|fails HQ].
  safe_case; [fails HQ|]. safe_case; to_prop.
  { apply safe_refresh_claims; [done|done|done]. }
  apply safe_bind, safe_token_request. intros r t1 Ht1 Htok.
  destruct r as [tokens|]; [|fails HQ]. destruct (Htok tokens eq_refl) as (resp & Hans & Hst & Hdec). clear Htok.
  apply safe_bind. safe_quiet. rename r into now, t' into t2.
  apply safe_bind, (safe_Verify t2 Operators (fl_verifier f)); [done..|]. intros r t3 Ht3 Hjwt. carry.
  destruct r as [claims|]; [|fails HQ]. specialize (Hjwt claims eq_refl).
  safe_case; [fails HQ|]. to_prop. apply safe_refresh_claims; [done| |].
  - intros c [= <-]. eexists. exists resp, tokens. split_and!; try done.
    destruct (sub_of claims); simpl in *; congruence.
  - intros r t4 Ht4. apply HQ. later.
Qed.

Lemma safe_Authenticate t a authorization (Q : result admin_error string → list gevent → Prop) :
  au_verifier a ∈ realm_verifiers d Administrators →
  (∀ r t', past t t' →
     (∀ subject, r = Ok subject → ∃ token claims, jwt_proved d t' Administrators (au_verifier a) token claims ∧
        authorize_claims (au_pointer a) (au_role a) claims = Ok subject) → Q r t') →
  safe d t (Authenticate a authorization) Q.
Proof using.
  intros Hv HQ. unfold Authenticate. destruct (bearer_of authorization) as [token|]; [|fails HQ].
  safe_case; [fails HQ|]. apply safe_bind. safe_quiet. rename r into now, t' into t1.
  apply safe_bind, (safe_Verify t1 Administrators (au_verifier a)); [done..|]. intros r t2 Ht2 Hjwt.
  destruct r as [claims|[]]; [|fails HQ..]. specialize (Hjwt claims eq_refl).
  safe_end. apply HQ; [later|]. eauto.
Qed.

(** *** The State Registry *)

Lemma safe_GetTeam t team request (Q : result team_error Team → list gevent → Prop) :
  (∀ r t', past t t' →
     (∀ tm, r = Ok tm → tm_id tm = team ∧ ∃ response,
        Asked (GReadTeam team request) (Some response) ∈ t' ∧ hr_status response = 200 ∧
        team_decode (hr_body response) = Some tm) → Q r t') →
  safe d t (GetTeam team request) Q.
Proof using.
  intros HQ. unfold GetTeam. safe_case; [fails HQ|]. apply safe_bind. safe_quiet.
  destruct r as [response|]; [|fails HQ]. safe_case; [|safe_case; fails HQ]. to_prop.
  destruct (team_decode (hr_body response)) as [tm|] eqn:Hd; [|fails HQ].
  safe_case; [fails HQ|]. to_prop. safe_end. apply HQ; [later|]. intros ? [= <-]. split; [|by exists response].
  apply dec_stable. naive_solver.
Qed.

Lemma safe_requestID t r (Q : string → list gevent → Prop) :
  (∀ x t', past t t' → Q x t') → safe d t (requestID r) Q.
Proof using. intros HQ. unfold requestID. safe_case; [safe_quiet; apply HQ; later|fails HQ]. Qed.

Lemma safe_presented t r team (Q : option (option Team) → list gevent → Prop) :
  (∀ x t', past t t' → Q x t') → safe d t (presented d r team) Q.
Proof using.
  intros HQ. unfold presented. safe_case; [|fails HQ].
  apply safe_bind, safe_requestID. intros request t1 Ht1.
  apply safe_bind, safe_GetTeam. intros c t2 Ht2 _. destruct c as [tm|].
  - apply safe_bind, safe_store_any; [done|]. intros stored t3 Ht3 _. destruct stored.
    + fails HQ.
    + apply safe_bind, safe_writeError. intros t4 Ht4. fails HQ.
  - apply safe_bind, safe_writeError. intros t3 Ht3. fails HQ.
Qed.

(** *** Handlers *)

#[local] Notation keeps t p := (safe d t p (λ _ _, True)).
#[local] Ltac done_quietly := solve [safe_end; done | safe_quiet; done | apply safe_writeError; done].

Lemma keeps_startLogin t login : keeps t (startLogin login).
Proof using.
  unfold startLogin. destruct login as [f|]; [|done_quietly].
  apply safe_bind, safe_Start. intros location t1 Ht1. destruct location; done_quietly.
Qed.

Lemma keeps_create_session t f cipher i :
  d_oidc d = Some f → identity_shown t f i → keeps t (create_session d cipher i).
Proof using.
  intros Hf (Hi & Ho & Hl & Hg). unfold create_session.
  apply safe_bind. safe_quiet. rename t' into t1. destruct r as [bytes|]; [|done_quietly].
  apply safe_bind. safe_quiet. rename t' into t2.
  destruct (Encrypt cipher r _ _) as [encrypted|]; [|done_quietly].
  apply safe_bind. safe_quiet. rename t' into t3, r0 into now.
  apply safe_bind, safe_store.
  - intros env t4 Ht4. carry. simpl. exists f, bytes. done.
  - intros created t4 Ht4 Hdid. destruct created as [[]|]; [|done_quietly].
    apply safe_call; [|done]. intros r' t5 Ht5. carry. simpl. eexists. split; [exact Hdid|done].
Qed.

Lemma keeps_callback t r : keeps t (callback d r).
Proof using.
  unfold callback. safe_case; [done_quietly|].
  destruct (d_oidc d) as [f|] eqn:Hf; [|done_quietly]. destruct (d_cipher d) as [cipher|]; [|done_quietly].
  safe_case; [done_quietly|]. apply safe_bind, safe_Complete.
  - simpl. rewrite Hf. set_solver.
  - intros i t1 Ht1 Hi. destruct i as [i|[]]; try done_quietly. by eapply keeps_create_session; [|apply Hi].
Qed.

Lemma safe_present_teams t r teams (Q : option (list AccessibleTeam) → list gevent → Prop) :
  (∀ x t', past t t' → Q x t') → safe d t (present_teams d r teams) Q.
Proof using.
  revert t Q. induction teams as [|tm teams IH]; intros t Q HQ; simpl; [fails HQ|].
  apply safe_bind, safe_presented. intros c t1 Ht1. destruct c as [c|]; [|fails HQ].
  apply safe_bind, IH. intros rest t2 Ht2. fails HQ.
Qed.

Lemma keeps_listTeams t r : keeps t (listTeams d r).
Proof using.
  unfold listTeams. destruct (session_cookie d r) as [session|]; [|done_quietly].
  apply safe_bind. safe_quiet. apply safe_bind, safe_store_any; [done|]. intros teams t2 Ht2 _.
  destruct teams as [teams|[]]; try done_quietly.
  apply safe_bind, safe_present_teams. intros [] ? ?; done_quietly.
Qed.

Lemma keeps_logout t r : keeps t (logout d r).
Proof using.
  unfold logout. destruct (session_cookie d r) as [session|]; [|done_quietly].
  apply safe_bind, safe_store_any; [done|]. intros x t2 Ht2 _. destruct x as [[]|[]]; done_quietly.
Qed.

Lemma keeps_answer {A} t (a : A) (p : go ()) : keeps t p → keeps t (_ ← p; mret a).
Proof using. intros Hp. apply safe_bind. eapply safe_mono; [exact Hp|]. intros. done_quietly. Qed.
#[local] Ltac answers := solve [apply keeps_answer; done_quietly].

Lemma keeps_refresh_now t session cipher f now m asked :
  d_membership d = Some f → did t (OpMembershipState session asked) (Ok m) →
  keeps t (refresh_now session cipher f now m).
Proof using.
  intros Hf Hdid. unfold refresh_now. destruct (Decrypt _ _ _) as [plaintext|]; [|answers].
  apply safe_bind, safe_flow_Refresh; [simpl; rewrite Hf; set_solver|]. intros r t1 Ht1 Hr.
  destruct r as [[ids state]|]; [|answers]. specialize (Hr ids state eq_refl).
  apply safe_bind. safe_quiet. destruct (Encrypt _ _ _ _) as [encrypted|]; [|answers].
  apply safe_bind, safe_store.
  - intros env t3 Ht3. carry. simpl. by exists f, asked, m.
  - intros replaced t3 Ht3 _. destruct replaced as [[]|]; [done_quietly|answers].
Qed.

Lemma keeps_refreshMembership t session : keeps t (refreshMembership d session).
Proof using.
  unfold refreshMembership. destruct (d_membership d) as [f|] eqn:Hf; [|done_quietly].
  destruct (d_cipher d) as [cipher|]; [|done_quietly].
  apply safe_bind. safe_quiet. rename r into now. apply safe_bind, safe_store_any; [done|].
  intros m t2 Ht2 Hdid. destruct m as [m|[]]; try answers. safe_case; [done_quietly|].
  by eapply keeps_refresh_now.
Qed.

Lemma keeps_sign_token t s session c name asked :
  d_working d = Some s → Asked GNow asked ∈ t → did t (OpTokenContext session (tx_team c) asked) (Ok c) →
  keeps t (sign_token s c name).
Proof using.
  intros Hs Hn Hc. unfold sign_token. apply safe_bind. safe_quiet. rename r into jti.
  apply safe_bind. safe_quiet. rename r into clock.
  destruct (Sign s _ _ name jti clock) as [token|] eqn:Hsign; [|done_quietly].
  apply safe_bind, safe_store.
  - intros env t3 Ht3. carry. simpl. by exists session, asked.
  - intros recorded t3 Ht3 Hrec. destruct recorded as [[]|]; [|done_quietly].
    apply safe_call; [|done]. intros r' t4 Ht4. carry. simpl.
    destruct jti as [bytes|]; [|by unfold Sign in Hsign; case_bool_decide].
    exists s, c, name, bytes, clock, token. done.
Qed.

Lemma did_context t session team now c :
  did t (OpTokenContext session team now) (Ok c) → tx_team c = team.
Proof using.
  intros (later & earlier & env & _ & Hc). destruct (perform_gate _ env (replay earlier)) as [r db] eqn:E.
  simpl in Hc. subst r. by apply TokenContext_of in E as [? _].
Qed.

Lemma keeps_issueToken t r : keeps t (issueToken d r).
Proof using.
  unfold issueToken. destruct (session_cookie d r) as [session|]; [|done_quietly].
  destruct (d_working d) as [s|] eqn:Hs; [|done_quietly].
  destruct (token_request_decode (rq_body r)) as [team|]; [|done_quietly]. safe_case; [done_quietly|].
  apply safe_bind. eapply safe_mono; [apply keeps_refreshMembership|]. intros enough t1 _.
  safe_case; [done_quietly|]. apply safe_bind. safe_quiet. rename r0 into now.
  apply safe_bind, safe_store_any; [done|]. intros c t3 Ht3 Hc. carry.
  destruct c as [c|[]]; try done_quietly. pose proof (did_context _ _ _ _ _ Hc) as Hteam. rewrite <- Hteam in Hc.
  apply safe_bind, safe_presented. intros x t4 Ht4. carry. destruct x as [x|]; [|done_quietly].
  by eapply keeps_sign_token.
Qed.

Lemma keeps_register t r a issuer oidc_team team token claims subject :
  d_admin d = Some a → issuer = d_issuer d → jwt_proved d t Administrators (au_verifier a) token claims →
  authorize_claims (au_pointer a) (au_role a) claims = Ok subject →
  keeps t (register_mapping d r issuer oidc_team team).
Proof using.
  intros Ha Hi Hj Hc. unfold register_mapping. apply safe_bind, safe_requestID. intros request t1 Ht1.
  apply safe_bind, safe_GetTeam. intros tm t2 Ht2 Htm. destruct tm as [tm|[]]; try done_quietly.
  destruct (Htm tm eq_refl) as (Hid & resp & Hask & Hst & Hdec). clear Htm. apply safe_bind, safe_store.
  - intros env t3 Ht3. carry. simpl. exists a, token, claims, subject, request, resp, tm. simpl.
    rewrite Hid. done.
  - intros m t3 Ht3 _. destruct m as [[m created]|[]]; done_quietly.
Qed.

Lemma keeps_registerMapping t r : keeps t (registerMapping d r).
Proof using.
  unfold registerMapping. destruct (d_admin d) as [a|] eqn:Ha; [|done_quietly].
  safe_case; [done_quietly|]. apply safe_bind, safe_Authenticate.
  { simpl. rewrite Ha. set_solver. }
  intros admin t1 Ht1 Hadmin. destruct admin as [subject|[]]; try done_quietly.
  destruct (Hadmin subject eq_refl) as (token & claims & Hj & Hc).
  destruct (mapping_request_decode _) as [[[issuer oidc_team] team]|]; [|done_quietly].
  safe_case; [done_quietly|]. safe_case; [done_quietly|]. to_prop. by eapply keeps_register.
Qed.

(** *** The proxies *)

Lemma safe_authenticate t token (Q : option WorkingClaims → list gevent → Prop) :
  (∀ x t', past t t' → (∀ c, x = Some c → request_valid d t' c) → Q x t') →
  safe d t (authenticateWorkingToken d token) Q.
Proof using.
  intros HQ. assert (Hfail : ∀ t1 status code message, past t t1 →
    safe d t1 (_ ← writeError status code message; mret None) Q).
  { intros. apply safe_bind, safe_writeError. intros. fails HQ. }
  unfold authenticateWorkingToken. destruct (d_working d) as [s|] eqn:Hs; [|by apply Hfail].
  safe_case; [by apply Hfail|]. apply safe_bind. safe_quiet. rename r into now.
  destruct (working_Verify s token now) as [c|] eqn:Hv; [|by apply Hfail].
  apply safe_bind. safe_quiet. rename r into now'. apply safe_bind, safe_store_any; [done|].
  intros valid t3 Ht3 Hdid. carry. destruct valid as [[]|]; [|apply Hfail; later].
  safe_end. apply HQ; [later|]. intros ? [= <-]. by exists s, token, now, now'.
Qed.

Lemma keeps_proxyREST t r : Asked GAccept r ∈ t → keeps t (proxyREST d r).
Proof using.
  intros Hr. unfold proxyREST. destruct (bearer_of _) as [token|]; [|done_quietly].
  safe_case; [done_quietly|]. apply safe_bind, safe_authenticate. intros x t1 Ht1 Hx.
  destruct x as [c|]; [|done_quietly]. specialize (Hx c eq_refl).
  destruct (url_resolve _ _ _) as [target|] eqn:Hurl; [|done_quietly].
  apply safe_bind. safe_quiet. rename r0 into request. apply safe_bind, safe_call.
  - intros answer t3 Ht3. carry. simpl. by exists r, c, request.
  - intros answer t3 Ht3 _. destruct answer; done_quietly.
Qed.

Lemma keeps_serve_connection t conn protocol expires :
  dialled t conn → keeps t (serve_connection conn protocol expires).
Proof using.
  intros Hd. unfold serve_connection. apply safe_bind. safe_quiet. safe_case; [done_quietly|].
  assert (Hpre : ∀ from σ, past t' (g_trace σ) → gate_pre (TCopy conn from) ∅ σ).
  { intros from σ Hσ. carry. done. }
  do 3 (apply safe_spawn; [by intros; auto|]).
  apply safe_bind. safe_quiet. apply safe_bind, safe_update; [|intros; done_quietly].
  intros σ [G1 G2 G3 G4] _. split; [|done]. by split.
Qed.

Lemma keeps_proxyWebSocket t r : Asked GAccept r ∈ t → keeps t (proxyWebSocket d r).
Proof using.
  intros Hr. unfold proxyWebSocket. destruct (websocketBearer r) as [token protocol].
  apply safe_bind, safe_authenticate. intros x t1 Ht1 Hx.
  destruct x as [c|]; [|done_quietly]. specialize (Hx c eq_refl). safe_case; [done_quietly|].
  destruct (url_websocket _ _ _) as [target|] eqn:Hurl; [|done_quietly].
  apply safe_bind. safe_quiet. rename r0 into request. apply safe_bind, safe_call.
  - intros answer t3 Ht3. carry. simpl. by exists r, c, request.
  - intros conn t3 Ht3 Hdial. destruct conn as [conn|]; [|done_quietly].
    apply keeps_serve_connection. by do 2 eexists.
Qed.

Lemma keeps_serve t r : Asked GAccept r ∈ t → keeps t (serve d r).
Proof using.
  intros Hr. unfold serve.
  repeat match goal with |- safe _ _ (if ?b then _ else _) _ => destruct b end;
    auto using keeps_startLogin, keeps_callback, keeps_listTeams, keeps_issueToken, keeps_logout,
      keeps_registerMapping, keeps_proxyWebSocket, keeps_proxyREST; done_quietly.
Qed.

(** *** Every goroutine *)

#[local] Instance the_protocol : Protocol Gate Empty_set := gate_protocol d.

Lemma keeps_thread t th :
  match th with
  | TServe r => Asked GAccept r ∈ t
  | TCopy conn _ => dialled t conn
  | _ => True
  end → keeps t (gate_thread d th).
Proof using.
  destruct th as [|r|conn expires|conn from]; intros Hpre; cbn [gate_thread].
  - apply safe_bind. safe_quiet. apply safe_spawn; [intros; carry; done|]. by apply safe_goto.
  - by apply keeps_serve.
  - unfold expire_connection. apply safe_bind. safe_quiet. safe_case; [done_quietly|].
    apply safe_bind. safe_quiet. apply safe_update; [|done].
    intros σ [G1 G2 G3 G4] _. split; [|done]. by split.
  - unfold copy_round. apply safe_bind. safe_quiet. destruct r as [m|]; [|done_quietly].
    apply safe_bind, safe_call.
    { intros written t2 Ht2. carry. by simpl. }
    intros written t2 Ht2 _. safe_case; [done_quietly|]. carry.
    apply safe_bind, safe_read. intros σ t3 _ Ht Ht3. safe_case; [done_quietly|].
    apply safe_goto. intros. carry. done.
Qed.

Lemma gate_verified : Conc.verified record_gate sane_gate (gate_thread d) gate_pre.
Proof using.
  intros th O σ _ _ Hpre. eapply wp_mono; [|apply (keeps_thread (g_trace σ) th); [|done]].
  - intros a O' σ' _ r. by destruct r.
  - by destruct th.
Qed.

Lemma gate_process_ok σ :
  gate_inv d σ → world_ok record_gate sane_gate gate_pre (gate_process (g_db σ) (g_trace σ)) (λ _, ∅).
Proof using.
  intros [G1 G2 _ _]. split; simpl.
  - split; try done; simpl; intros; simplify_map_eq.
  - intros i p [<- <-]%lookup_singleton_Some. by intros σ1 _ _ _.
  - intros i p _ r Hr. by apply elem_of_empty in Hr.
  - intros i j r _ _ Hr. by apply elem_of_empty in Hr.
  - by intros [].
Qed.

(** The invariant of every reachable state. *)
Lemma gate_invariant w : reachable_gate d w → gate_inv d (w_state w).
Proof using.
  intros Hw. assert (∃ Os, world_ok record_gate sane_gate gate_pre w Os) as [Os Hok]; [|apply Hok].
  assert (Hstart : world_ok record_gate sane_gate gate_pre (gate_process empty_gate []) (λ _, ∅)).
  { apply (gate_process_ok (mkGate empty_gate ∅ (λ _, ∅) ∅ [])). split; simpl; intros; simplify_map_eq; done. }
  unfold reachable_gate in Hw. revert Hw Hstart. generalize (gate_process empty_gate []) as w0.
  intros w0 Hw. generalize (λ _ : nat, ∅ : gset Empty_set) as Os0.
  induction Hw as [w|w0 w1 w Hs _ IH]; intros Os0 Hok; [by exists Os0|].
  destruct Hs as [w1 Hs|].
  - destruct (world_ok_step _ _ _ _ w0 w1 Os0 gate_verified Hok Hs) as [Os1 Hok1]. by apply (IH Os1).
  - eapply IH, gate_process_ok, Hok.
Qed.
End programs.
