(* ===== verification/GatewayProps.v ===== *)
(** * What the gateway guarantees

    The headers of forwarded requests, why a request is forwarded at all, and what stands behind
    the sessions, accesses and mappings of its database, across goroutines and restarts. *)

From stdpp Require Import base gmap sets strings list sorting.
From Stdlib Require Import Ascii.
From S2P Require Import Prelude Platform Tx GoStrings Base64 ScopeToken JwtClaims WorkingToken GatewayStore Conc.
From S2P Require Import Gateway GatewaySafe.
#[local] Open Scope Z_scope.

(** ** Headers *)

(** What the client sends under a canonical name, of the headers that are copied. *)
Definition client_values (skipped : string → bool) (name : string) (hs : header) : list string :=
  flat_map (λ '(n, vs), if bool_decide (canonical n = name) && negb (skipped n) then vs else []) hs.
Definition nonempty {A} (l : list A) : option (list A) := match l with [] => None | _ => Some l end.

Lemma lower_upper c : lower_char (upper_char c) = lower_char c.
Proof. by destruct c as [[] [] [] [] [] [] [] []]. Qed.
Lemma lower_lower c : lower_char (lower_char c) = lower_char c.
Proof. by destruct c as [[] [] [] [] [] [] [] []]. Qed.

Lemma lower_capitalize up l : lower_char <$> capitalize up l = lower_char <$> l.
Proof.
  revert up. induction l as [|c l IH]; intros up; [done|]. simpl. rewrite IH. f_equal.
  destruct up; [apply lower_upper|apply lower_lower].
Qed.

Lemma lower_canonical n : lower (canonical n) = lower n.
Proof.
  unfold lower, canonical. destruct (forallb _ _); [|done].
  by rewrite chars_of_chars, lower_capitalize.
Qed.

Lemma rest_skipped_canonical n : rest_skipped (canonical n) = rest_skipped n.
Proof. unfold rest_skipped. by rewrite lower_canonical. Qed.
Lemma websocket_skipped_canonical n : websocket_skipped (canonical n) = websocket_skipped n.
Proof. unfold websocket_skipped. by rewrite lower_canonical. Qed.

Lemma add_values name vs (h : header_map) n :
  h !! n ≠ Some [] →
  fold_left (λ h v, header_add name v h) vs h !! n =
    nonempty (default [] (h !! n) ++ (if bool_decide (canonical name = n) then vs else [])).
Proof.
  revert h. induction vs as [|v vs IH]; intros h Hh; simpl.
  - assert (∀ b : bool, (if b then [] else []) = @nil string) as -> by by intros [].
    rewrite app_nil_r. destruct (h !! n) as [[]|]; simpl; done || by destruct Hh.
  - unfold header_add at 2. rewrite IH.
    + case_bool_decide as Hn; [subst n|by rewrite lookup_insert_ne].
      rewrite lookup_insert_eq. simpl. by rewrite <- app_assoc.
    + unfold header_add. destruct (decide (canonical name = n)) as [<-|].
      * rewrite lookup_insert_eq. intros [= He]. by destruct (default [] _).
      * by rewrite lookup_insert_ne.
Qed.

Lemma copy_headers_lookup skipped hs h n :
  h !! n ≠ Some [] →
  copy_headers skipped hs h !! n = nonempty (default [] (h !! n) ++ client_values skipped n hs).
Proof.
  revert h. induction hs as [|[name vs] hs IH]; intros h Hh; simpl.
  - rewrite app_nil_r. destruct (h !! n) as [[]|]; simpl; done || by destruct Hh.
  - destruct (skipped name); rewrite IH; rewrite ?andb_false_r, ?andb_true_r; simpl; try done.
    + rewrite add_values by done. rewrite app_assoc. f_equal. f_equal.
      by destruct (_ ++ _).
    + rewrite add_values by done. by destruct (_ ++ _).
Qed.

(** Nothing that is skipped under its canonical name arrives. *)
Lemma client_values_skipped skipped n hs :
  (∀ m, skipped (canonical m) = skipped m) → skipped n = true → client_values skipped n hs = [].
Proof.
  intros Hc Hn. induction hs as [|[m vs] hs IH]; [done|]. simpl. rewrite IH, app_nil_r.
  case_bool_decide as Hm; [|done]. subst n. rewrite Hc in Hn. by rewrite Hn.
Qed.

Lemma set_context_lookup c request h n :
  set_context c request h !! n =
    if bool_decide (n = "X-Flowai-Operator-Id") then Some [wc_operator c]
    else if bool_decide (n = "X-Flowai-Team-Id") then Some [wc_team c]
    else if bool_decide (n = "X-Flowai-Request-Id") then Some [request]
    else if bool_decide (n = "X-Flowai-Team-Name") then
      match wc_team_name c with Some name => Some [name] | None => h !! n end
    else h !! n.
Proof.
  unfold set_context, header_set.
  change (canonical "X-FlowAI-Operator-ID") with "X-Flowai-Operator-Id".
  change (canonical "X-FlowAI-Team-ID") with "X-Flowai-Team-Id".
  change (canonical "X-FlowAI-Request-ID") with "X-Flowai-Request-Id".
  change (canonical "X-FlowAI-Team-Name") with "X-Flowai-Team-Name".
  repeat case_bool_decide; subst; destruct (wc_team_name c); simplify_map_eq; done.
Qed.

(** C17. The headers of a forwarded request, over HTTP and over a WebSocket. The operator, the team, the
    request identifier and the display name of the team are those of the verified token and of the
    gateway, whatever the client sent under any spelling of those names; no other header of the
    X-FlowAI- family, no credentials of the client, no hop-by-hop header and, over a WebSocket, none of the
    handshake, which may carry the token, arrive; every other header arrives with the client's values in
    their order. *)
Theorem forwarded_headers (websocket : bool) c request hs name :
  let skipped := if websocket then websocket_skipped else rest_skipped in
  set_context c request (copy_headers skipped hs ∅) !! name =
    if bool_decide (name = "X-Flowai-Operator-Id") then Some [wc_operator c]
    else if bool_decide (name = "X-Flowai-Team-Id") then Some [wc_team c]
    else if bool_decide (name = "X-Flowai-Request-Id") then Some [request]
    else if bool_decide (name = "X-Flowai-Team-Name") then (λ n, [n]) <$> wc_team_name c
    else if has_prefix "x-flowai-" (lower name) || bool_decide (lower name ∈ ["authorization"; "cookie"]) ||
            isHopHeader (lower name) || websocket && has_prefix "sec-websocket-" (lower name) then None
    else nonempty (client_values skipped name hs).
Proof.
  intros skipped. rewrite set_context_lookup, copy_headers_lookup by by rewrite lookup_empty.
  rewrite lookup_empty. simpl.
  assert (Hskip : ∀ n, skipped n = true → client_values skipped n hs = []).
  { intros n. apply client_values_skipped. intros m. unfold skipped.
    destruct websocket; [apply websocket_skipped_canonical|apply rest_skipped_canonical]. }
  do 3 (case_bool_decide; [done|]). case_bool_decide.
  - subst. destruct (wc_team_name c); [done|]. rewrite Hskip; [done|]. by destruct websocket; vm_compute.
  - destruct (has_prefix _ _ || _ || _ || _) eqn:Hb; [|done]. rewrite Hskip; [done|].
    apply orb_true_iff in Hb as [Hb|Hb]; [apply orb_true_iff in Hb as [Hb|Hb];
      [apply orb_true_iff in Hb as [Hb|Hb]|]|].
    all: unfold skipped; destruct websocket; unfold rest_skipped, websocket_skipped; cbn zeta; cbn [andb] in Hb.
    all: rewrite ?Hb, ?orb_true_r; try done.
    all: apply bool_decide_eq_true in Hb; rewrite bool_decide_eq_true_2; [done|set_solver].
Qed.

(** ** The store and its specification *)

Section store.
Context `{Collation, PgTime, Sha256}.

(** A token that may be used: its record, its live session and an access of that session. *)
Definition token_stands (operator team jti_hash : string) (now : Z) (d : GateDB) : Prop :=
  ∃ t s row m, gd_tokens d !! jti_hash = Some t ∧ tr_operator t = operator ∧ tr_team t = team ∧
    pg_ts now < tr_expires t ∧ live_session (tr_session t) now d = Some s ∧
    accessible (tr_session t) team d row m.

Lemma token_stands_valid operator team j now d :
  gate_ok d → token_valid operator team j now d = true ↔ token_stands operator team j now d.
Proof using.
  intros Hok. split.
  - intros Hv. apply token_valid_spec in Hv; [|done].
    destruct Hv as (t & s & row & m & ? & ? & ? & ? & ? & ? & _). by exists t, s, row, m.
  - intros (t & s & row & m & Ht & <- & <- & He & Hs & Ha & _). unfold token_valid. rewrite Ht.
    unfold live_session in Hs. apply bind_Some in Hs as (s' & -> & Hs). destruct (_ <? sn_expires s') eqn:E; [|done].
    apply Z.ltb_lt in He as ->. rewrite bool_decide_eq_true_2 by (split_and!; [by eexists|done..]). done.
Qed.

(** A session with all its rows is taken away, and nothing else. *)
Definition session_gone (h : string) (d d' : GateDB) : Prop :=
  gd_mappings d' = gd_mappings d ∧ gd_sessions d' = delete h (gd_sessions d) ∧
  (∀ h' i o, gd_observations d' !! (h', i) = Some o ↔ h' ≠ h ∧ gd_observations d !! (h', i) = Some o) ∧
  (∀ h' t r, gd_access d' !! (h', t) = Some r ↔ h' ≠ h ∧ gd_access d !! (h', t) = Some r) ∧
  (∀ j t, gd_tokens d' !! j = Some t ↔ tr_session t ≠ h ∧ gd_tokens d !! j = Some t).

Lemma delete_session_gone h d : session_gone h d (delete_session h d).
Proof using.
  split_and!; [done..| | |]; intros; simpl; rewrite map_lookup_filter_Some; simpl; tauto.
Qed.

(** What a successful operation has done to the tables and what its answer says of them. *)
Definition store_done (o : gop) (env : TxEnv) (d d' : GateDB) : gop_result o → Prop :=
  match o return gop_result o → Prop with
  | OpCreate input => λ _,
      let h := sessionHash (si_session input) in
      gd_sessions d !! h = None ∧
      gd_sessions d' = <[h := mkSessionRow (si_operator input) (si_issuer input) (si_subject input)
        (si_state input) (pg_ts (si_observed input)) (pg_ts (si_expires input)) (pg_ts (env_db_now env))]>
        (gd_sessions d) ∧
      membership_is h (si_operator input) (si_issuer input) (si_teams input) (si_observed input) d' ∧
      others_keep h d d'
  | OpReplaceMembership session encrypted ids observed => λ _,
      let h := sessionHash session in
      ∃ s, gd_sessions d !! h = Some s ∧
        gd_sessions d' !! h = Some (mkSessionRow (sn_operator s) (sn_issuer s) (sn_subject s) encrypted
          (pg_ts observed) (sn_expires s) (sn_created s)) ∧
        membership_is h (sn_operator s) (sn_issuer s) ids observed d' ∧ others_keep h d d'
  | OpDelete session => λ _,
      is_Some (gd_sessions d !! sessionHash session) ∧ session_gone (sessionHash session) d d'
  | OpTokenContext session team now => λ c,
      d' = d ∧
      ∃ s row m, live_session (sessionHash session) now d = Some s ∧
        accessible (sessionHash session) team d row m ∧ ac_operator row = sn_operator s ∧
        c = mkTokenContext (sessionHash session) (sn_operator s) team (mr_name m)
  | OpAccessibleTeams session now => λ teams,
      d' = d ∧
      is_Some (live_session (sessionHash session) now d) ∧ StronglySorted entry_le teams ∧
      NoDup (at_team <$> teams) ∧
      ∀ e, e ∈ teams ↔ ∃ row m, accessible (sessionHash session) (at_team e) d row m ∧ e = team_entry m
  | OpMembershipState session now => λ state,
      d' = d ∧
      ∃ s, live_session (sessionHash session) now d = Some s ∧
        state = mkMembership (sn_state s) (sn_issuer s) (sn_subject s) (sn_observed s)
  | OpRecordToken c jti issued expires => λ _,
      gd_tokens d !! sha256 jti = None ∧ is_Some (gd_sessions d !! tx_session c) ∧
      d' = put_tokens (<[sha256 jti := mkTokenRow (tx_session c) (tx_operator c) (tx_team c)
             (pg_ts issued) (pg_ts expires)]> (gd_tokens d)) d
  | OpValidateTokenAccess operator team jti now => λ _,
      d' = d ∧ token_stands operator team (sha256 jti) now d
  | OpRegister m => λ '(result, created),
      let k := (mp_issuer m, mp_oidc_team m) in
      if created then
        gd_mappings d !! k = None ∧ (∀ k' m', gd_mappings d !! k' = Some m' → mr_team m' ≠ mp_team m) ∧
        ∃ row, d' = put_mappings (<[k := row]> (gd_mappings d)) d ∧ mr_team row = mp_team m ∧
               result = scanMapping k row
      else
        d' = d ∧ ∃ row, gd_mappings d !! k = Some row ∧ mr_team row = mp_team m ∧ result = scanMapping k row
  | OpRefreshPresentation team name archived => λ _,
      ∃ k m, gd_mappings d !! k = Some m ∧ mr_team m = team ∧
        d' = put_mappings (<[k := mkMappingRow team (Some name) (pg_ts <$> archived) (mr_created m)
               (pg_ts (env_db_now env))]> (gd_mappings d)) d
  end.

(** Why an operation may refuse. *)
Definition store_refused (o : gop) (env : TxEnv) (d : GateDB) (e : GateError) : Prop :=
  let failed := ∃ n, env_fault env n = true in
  match o with
  | OpCreate input =>
      ¬ ((∀ n, env_fault env n = false) ∧ si_session input ≠ "" ∧ si_operator input ≠ "" ∧
         si_issuer input ≠ "" ∧ si_subject input ≠ "" ∧ si_state input ≠ "" ∧
         si_observed input < si_expires input ∧ pg_ts (env_db_now env) < pg_ts (si_expires input) ∧
         gd_sessions d !! sessionHash (si_session input) = None ∧
         NoDup (si_teams input) ∧ "" ∉ si_teams input)
  | OpReplaceMembership session _ ids _ =>
      match e with
      | ErrSessionNotFound => gd_sessions d !! sessionHash session = None
      | _ => ¬ ((∀ n, env_fault env n = false) ∧ is_Some (gd_sessions d !! sessionHash session) ∧
                NoDup ids ∧ "" ∉ ids)
      end
  | OpDelete session =>
      match e with ErrSessionNotFound => gd_sessions d !! sessionHash session = None | _ => failed end
  | OpTokenContext session team now =>
      match e with
      | ErrTeamNotAccessible => is_Some (live_session (sessionHash session) now d) ∧
                                gd_access d !! (sessionHash session, team) = None
      | ErrSessionNotFound => live_session (sessionHash session) now d = None
      | _ => failed
      end
  | OpAccessibleTeams session now | OpMembershipState session now =>
      match e with
      | ErrSessionNotFound => live_session (sessionHash session) now d = None
      | _ => failed
      end
  | OpRecordToken c jti issued expires =>
      failed ∨ is_Some (gd_tokens d !! sha256 jti) ∨ gd_sessions d !! tx_session c = None ∨
      pg_ts expires ≤ pg_ts issued
  | OpValidateTokenAccess operator team jti now =>
      match e with ErrTeamNotAccessible => ¬ token_stands operator team (sha256 jti) now d | _ => failed end
  | OpRegister m =>
      let k := (mp_issuer m, mp_oidc_team m) in
      match e with
      | ErrMappingConflict =>
          (∃ row, gd_mappings d !! k = Some row ∧ mr_team row ≠ mp_team m) ∨
          gd_mappings d !! k = None ∧ ∃ k' m', gd_mappings d !! k' = Some m' ∧ mr_team m' = mp_team m
      | GErrText _ => mp_issuer m = "" ∨ mp_oidc_team m = "" ∨ mp_team m = ""
      | _ => failed
      end
  | OpRefreshPresentation team _ _ =>
      match e with
      | ErrMappingConflict => ∀ k m, gd_mappings d !! k = Some m → mr_team m ≠ team
      | _ => failed
      end
  end.

(** A success has done what was asked. A refusal has its reason, and it leaves the tables as they
    were, unless the answer to the statement that takes effect was lost: then it was done. *)
Definition store_spec (o : gop) (env : TxEnv) (d d' : GateDB) (r : result GateError (gop_result o)) : Prop :=
  match r with
  | Ok a => store_done o env d d' a
  | Err e =>
      store_refused o env d e ∧
      (d' = d ∨ env_lost env = true ∧ (∃ n, env_fault env n = true) ∧ ∃ a, store_done o env d d' a)
  end.

Lemma store_done_ok o env d a d' :
  gate_ok d → perform_gate o env d = (Ok a, d') → store_done o env d d' a.
Proof using.
  intros Hok Hrun. destruct o; cbn [store_done].
  - apply Create_effect in Hrun; [|done]. by destruct Hrun as (? & ? & ? & ? & _).
  - by apply AccessibleTeams_spec in Hrun.
  - apply Delete_effect in Hrun as (? & -> & _). split; [done|]. by apply delete_session_gone.
  - by apply TokenContext_spec in Hrun.
  - split; [by eapply reads_keep_run in Hrun|].
    by apply MembershipState_spec in Hrun.
  - apply ReplaceMembership_effect in Hrun; [|done].
    destruct Hrun as (s & ? & _ & _ & ? & ? & ? & _). by exists s.
  - apply RecordToken_effect in Hrun. by destruct Hrun as (? & ? & _ & ?).
  - split; [by eapply reads_keep_run in Hrun|].
    destruct a. apply ValidateTokenAccess_ok in Hrun. by apply token_stands_valid.
  - destruct a as [result created]. apply Register_effect in Hrun. destruct created; [|done].
    by destruct Hrun as (_ & _ & ? & ? & ?).
  - apply RefreshPresentation_effect in Hrun as (-> & k & m & Hm & Ht); [|done]. exists k, m.
    split_and!; [done..|]. by apply refreshed_row.
Qed.

Lemma store_refused_ok o env d e d' :
  gate_ok d → perform_gate o env d = (Err e, d') → store_refused o env d e.
Proof using.
  intros Hok Hrun. destruct o; cbn [store_refused].
  - intros Hall. destruct_and! Hall. pose proof (Create_available input env d) as Ha. rewrite Hrun in Ha.
    discriminate Ha; done.
  - apply AccessibleTeams_spec in Hrun; [|done]. tauto.
  - by apply Delete_refused in Hrun.
  - apply TokenContext_spec in Hrun; [|done]. tauto.
  - by apply MembershipState_spec in Hrun.
  - pose proof (ReplaceMembership_available session encrypted ids observed env d Hok) as Ha. rewrite Hrun in Ha.
    assert (Hno : ¬ ((∀ n, env_fault env n = false) ∧ is_Some (gd_sessions d !! sessionHash session) ∧
              NoDup ids ∧ "" ∉ ids)) by (intros (? & ? & ? & ?); discriminate Ha; done).
    destruct e; try done. by apply ReplaceMembership_refused in Hrun.
  - by apply RecordToken_refused in Hrun.
  - apply ValidateTokenAccess_refused in Hrun. destruct e; try done.
    intros Hs. apply token_stands_valid in Hs; [congruence|done].
  - by apply Register_refused in Hrun.
  - by apply RefreshPresentation_refused in Hrun.
Qed.

(** What an operation does depends on the environment only through the clock of the database. *)
Lemma store_done_env o env env' d d' a :
  env_db_now env' = env_db_now env → store_done o env' d d' a → store_done o env d d' a.
Proof using. intros He. destruct o; cbn [store_done]; by rewrite ?He. Qed.

(** C15. The store of the gateway does what its operations promise, on every branch and under every
    failure of the database, and keeps the invariant of its tables: a login or a refresh installs
    exactly the observed memberships and the accesses they are mapped to; a logout takes all rows of its
    session away; a token context is given exactly for a live session and an accessible team; a
    mapping is created only when neither side has one, and only its presentation is ever renewed, that of
    the team that was asked for. Every refusal has one of the reasons it may have; it leaves the tables
    as they were, unless it was the acknowledgement that failed, when all of the operation was done. *)
Theorem store_refines o env d r d' :
  gate_ok d → perform_gate o env d = (r, d') → store_spec o env d d' r ∧ gate_ok d'.
Proof using.
  intros Hok Hrun. split; [|by pose proof (perform_gate_ok o env d Hok) as Ho; rewrite Hrun in Ho].
  destruct r as [a|e]; simpl; [by apply store_done_ok|].
  split; [by eapply store_refused_ok|].
  apply perform_gate_error in Hrun as [?|(env' & a & (Hl & n & Hn & ->) & Hrun)]; [by left| |done].
  right. split_and!; [done|by exists n|]. exists a. apply store_done_ok in Hrun; [|done].
  by eapply store_done_env in Hrun.
Qed.

(** *** Where rows come from *)

(** The operations that change sessions and their observations. *)
Definition touches_sessions (o : gop) : bool :=
  match o with OpCreate _ | OpDelete _ | OpReplaceMembership _ _ _ _ => true | _ => false end.

Lemma sessions_untouched o env d r d' :
  gate_ok d → perform_gate o env d = (r, d') → touches_sessions o = false →
  gd_sessions d' = gd_sessions d ∧ gd_observations d' = gd_observations d.
Proof using.
  intros Hok Hrun Ho. apply perform_gate_cases in Hrun as [->|(env' & a & Hrun)]; [done| |done].
  apply store_done_ok in Hrun; [|done].
  destruct o; try done; cbn [store_done] in Hrun; try (by destruct Hrun as [-> _]).
  - by destruct Hrun as (_ & _ & ->).
  - destruct a as [result []]; [by destruct Hrun as (_ & _ & row & -> & _)|by destruct Hrun as [-> _]].
  - by destruct Hrun as (k & m & _ & _ & ->).
Qed.

(** The identity of a session is the one it was created with. *)
Definition same_identity (s s0 : SessionRow) : Prop :=
  sn_operator s = sn_operator s0 ∧ sn_issuer s = sn_issuer s0 ∧ sn_subject s = sn_subject s0.

Lemma session_from o env d r d' h s :
  gate_ok d → perform_gate o env d = (r, d') → gd_sessions d' !! h = Some s →
  (∃ s0, gd_sessions d !! h = Some s0 ∧ same_identity s s0) ∨
  ∃ input, o = OpCreate input ∧ h = sessionHash (si_session input) ∧ sn_operator s = si_operator input ∧
    sn_issuer s = si_issuer input ∧ sn_subject s = si_subject input.
Proof using.
  intros Hok Hrun Hs. destruct (touches_sessions o) eqn:Ht.
  2: { destruct (sessions_untouched _ _ _ _ _ Hok Hrun Ht) as [He _]. rewrite He in Hs. left. by exists s. }
  apply perform_gate_cases in Hrun as [->|(env' & a & Hrun)]; [left; by exists s| |done].
  destruct o; try done.
  - apply Create_effect in Hrun as (_ & He & _); [|done]. rewrite He in Hs.
    apply lookup_insert_Some in Hs as [[<- <-]|[_ Hs]]; [right; by eexists|left; by exists s].
  - left. apply Delete_effect in Hrun as (_ & -> & _).
    simpl in Hs. apply lookup_delete_Some in Hs as [_ Hs]. by exists s.
  - left. apply ReplaceMembership_effect in Hrun; [|done].
    destruct Hrun as (s0 & Hs0 & _ & _ & Hs' & _ & (_ & _ & Hoth) & _).
    destruct (decide (h = sessionHash session)) as [->|Hne].
    + exists s0. rewrite Hs' in Hs. injection Hs as <-. done.
    + destruct (Hoth h Hne) as (He & _). rewrite He in Hs. by exists s.
Qed.

Lemma mapping_from o env d r d' k m :
  gate_ok d → perform_gate o env d = (r, d') → gd_mappings d' !! k = Some m →
  (∃ m0, gd_mappings d !! k = Some m0 ∧ mr_team m = mr_team m0) ∨
  ∃ mp, o = OpRegister mp ∧ k = (mp_issuer mp, mp_oidc_team mp) ∧ mr_team m = mp_team mp.
Proof using.
  intros Hok Hrun Hm.
  assert (Hsame : gd_mappings d' = gd_mappings d → ∃ m0, gd_mappings d !! k = Some m0 ∧ mr_team m = mr_team m0).
  { intros He. rewrite He in Hm. by exists m. }
  apply perform_gate_cases in Hrun as [->|(env' & a & Hrun)]; [left; by apply Hsame| |done].
  apply store_done_ok in Hrun; [|done].
  destruct o; cbn [store_done] in Hrun; try (left; apply Hsame; by destruct Hrun as [-> _]).
  - left. apply Hsame. by destruct Hrun as (_ & _ & _ & He & _).
  - left. apply Hsame. by destruct Hrun as (_ & He & _).
  - left. apply Hsame. by destruct Hrun as (s0 & _ & _ & _ & He & _).
  - left. apply Hsame. by destruct Hrun as (_ & _ & ->).
  - destruct a as [result []]; [|left; apply Hsame; by destruct Hrun as [-> _]].
    destruct Hrun as (_ & _ & row & -> & Ht & _). simpl in Hm.
    apply lookup_insert_Some in Hm as [[<- <-]|[_ Hm]]; [right; by eexists|left; eauto].
  - left. destruct Hrun as (k' & m' & Hk' & Ht & ->). simpl in Hm.
    apply lookup_insert_Some in Hm as [[<- <-]|[_ Hm]]; [by exists m'|by exists m].
Qed.

Lemma observation_from o env d r d' h i x :
  gate_ok d → perform_gate o env d = (r, d') → gd_observations d' !! (h, i) = Some x →
  is_Some (gd_observations d !! (h, i)) ∨
  (∃ input, o = OpCreate input ∧ h = sessionHash (si_session input) ∧ i ∈ si_teams input) ∨
  ∃ session encrypted ids observed, o = OpReplaceMembership session encrypted ids observed ∧
    h = sessionHash session ∧ i ∈ ids.
Proof using.
  intros Hok Hrun Hx. destruct (touches_sessions o) eqn:Ht.
  2: { destruct (sessions_untouched _ _ _ _ _ Hok Hrun Ht) as [_ He]. rewrite He in Hx. left. by exists x. }
  apply perform_gate_cases in Hrun as [->|(env' & a & Hrun)]; [left; by exists x| |done].
  destruct o; try done.
  - apply Create_effect in Hrun; [|done].
    destruct Hrun as (_ & _ & [Hobs _] & (_ & _ & Hoth) & _).
    destruct (decide (h = sessionHash (si_session input))) as [->|Hne].
    + right. left. exists input. split_and!; [done..|]. rewrite Hobs in Hx. by case_bool_decide.
    + left. destruct (Hoth h Hne) as (_ & He & _). rewrite He in Hx. by exists x.
  - left. apply Delete_effect in Hrun as (_ & -> & _).
    simpl in Hx. apply map_lookup_filter_Some in Hx as [Hx _]. by exists x.
  - apply ReplaceMembership_effect in Hrun; [|done].
    destruct Hrun as (s0 & _ & _ & _ & _ & [Hobs _] & (_ & _ & Hoth) & _).
    destruct (decide (h = sessionHash session)) as [->|Hne].
    + right. right. exists session, encrypted, ids, observed. split_and!; [done..|].
      rewrite Hobs in Hx. by case_bool_decide.
    + left. destruct (Hoth h Hne) as (_ & He & _). rewrite He in Hx. by exists x.
Qed.
Lemma token_from o env d r d' j t :
  gate_ok d → perform_gate o env d = (r, d') → gd_tokens d' !! j = Some t →
  gd_tokens d !! j = Some t ∨
  ∃ c jti issued expires, o = OpRecordToken c jti issued expires ∧ j = sha256 jti ∧
    t = mkTokenRow (tx_session c) (tx_operator c) (tx_team c) (pg_ts issued) (pg_ts expires).
Proof using.
  intros Hok Hrun Ht. apply perform_gate_cases in Hrun as [->|(env' & a & Hrun)]; [by left| |done].
  apply store_done_ok in Hrun; [|done].
  destruct o; cbn [store_done] in Hrun; try (left; by destruct Hrun as [-> _]).
  - left. destruct Hrun as (_ & _ & _ & _ & He & _). by rewrite <- He.
  - left. destruct Hrun as (_ & _ & _ & _ & _ & He). by apply He in Ht as [_ ?].
  - left. destruct Hrun as (s0 & _ & _ & _ & _ & He & _). by rewrite <- He.
  - destruct Hrun as (_ & _ & ->).
    simpl in Ht. apply lookup_insert_Some in Ht as [[<- <-]|[_ Ht]]; [right; by do 4 eexists|by left].
  - left. destruct a as [result []]; [by destruct Hrun as (_ & _ & row & -> & _)|by destruct Hrun as [-> _]].
  - left. by destruct Hrun as (k & m & _ & _ & ->).
Qed.
End store.

(** ** What stands behind an access *)

Section evidence.
Context `{Collation, PgTime, Sha256, Jose, !WorkingCodec, Aead, GatewayCodec}.
Context (d : Dependencies).

Lemma replay_ok tr : gate_ok (replay tr).
Proof using.
  induction tr as [|[c r|o env] tr IH]; simpl; [apply empty_gate_ok|done|by apply perform_gate_ok].
Qed.

Lemma disciplined_past tr e : disciplined d tr → e ∈ tr → ∃ earlier, past (e :: earlier) tr ∧ allowed d earlier e.
Proof using.
  induction tr as [|e' tr IH]; [by intros _ ?%not_elem_of_nil|]. intros [Ha Hd] [->|Hin]%elem_of_cons.
  - exists tr. done.
  - destruct (IH Hd Hin) as (earlier & Hp & Hal). exists earlier. split; [|done]. by apply suffix_cons_r.
Qed.

Lemma disciplined_suffix t t' : past t t' → disciplined d t' → disciplined d t.
Proof using. intros [k ->]. induction k as [|e k IH]; [done|]. intros [_ Hd]. by apply IH. Qed.

(** The identifiers of sessions are drawn once: no two logins of a history meet in one. *)
Definition sessions_distinct (tr : list gevent) : Prop :=
  ∀ i i' env env', Stored (OpCreate i) env ∈ tr → Stored (OpCreate i') env' ∈ tr →
    sessionHash (si_session i) = sessionHash (si_session i') → i = i'.

Lemma sessions_distinct_past t t' : past t t' → sessions_distinct t' → sessions_distinct t.
Proof using. intros Ht Hs i i' env env' ? ?. eapply Hs; eauto using past_asked. Qed.

(** The login a session comes from. *)
Lemma session_origin tr h s :
  gd_sessions (replay tr) !! h = Some s → ∃ input env, Stored (OpCreate input) env ∈ tr ∧
    h = sessionHash (si_session input) ∧ sn_operator s = si_operator input ∧
    sn_issuer s = si_issuer input ∧ sn_subject s = si_subject input.
Proof using.
  revert s. induction tr as [|[c r|o env] tr IH]; intros s; simpl; [by intros; simplify_map_eq|..].
  - intros (input & env & Hin & ?)%IH. exists input, env. split; [by right|done].
  - intros Hs. destruct (perform_gate o env (replay tr)) as [r d'] eqn:E.
    destruct (session_from _ _ _ _ _ _ _ (replay_ok tr) E Hs) as [(s0 & Hs0 & Hsame)|(input & -> & ?)].
    + destruct (IH _ Hs0) as (input & env' & Hin & ? & ? & ? & ?). exists input, env'.
      destruct Hsame as (-> & -> & ->). split; [by right|done].
    + exists input, env. split; [by left|done].
Qed.

(** A session keeps its identity as long as its identifier is not drawn again. *)
Lemma identity_stable t t' h s s' :
  past t t' → sessions_distinct t' → gd_sessions (replay t) !! h = Some s →
  gd_sessions (replay t') !! h = Some s' → same_identity s s'.
Proof using.
  intros Ht Hd (i & env & Hin & -> & Ho & Hi & Hs)%session_origin
    (i' & env' & Hin' & He & Ho' & Hi' & Hs')%session_origin.
  assert (i = i') as <- by (eapply Hd; [eapply past_asked; [exact Ht|exact Hin]|exact Hin'|done]).
  split_and!; congruence.
Qed.

Lemma subject_stable t t' h s s' :
  past t t' → sessions_distinct t' → gd_sessions (replay t) !! h = Some s →
  gd_sessions (replay t') !! h = Some s' → sn_subject s = sn_subject s'.
Proof using. intros. by eapply identity_stable. Qed.

(** The history up to an operation that was done. *)
Lemma did_past t o r : did t o r → ∃ before env, past before t ∧ (perform_gate o env (replay before)).1 = r.
Proof using.
  intros (later & earlier & env & -> & Hr). exists earlier, env. split; [|done].
  exists (later ++ [Stored o env]). by rewrite <- app_assoc.
Qed.

Lemma past_admin t t' m : past t t' → admin_evidence d t m → admin_evidence d t' m.
Proof using.
  intros Ht (a & token & claims & subject & request & response & tm & ? & ? & ? & ? & ? & ? & ? & ?).
  exists a, token, claims, subject, request, response, tm. split_and!; eauto using past_asked, past_jwt.
Qed.

(** *** Mappings *)

Definition mapping_proved (tr : list gevent) (k : string * string) (team : string) : Prop :=
  ∃ mp, k = (mp_issuer mp, mp_oidc_team mp) ∧ team = mp_team mp ∧ admin_evidence d tr mp.

Lemma mapping_has_proof tr k m :
  disciplined d tr → gd_mappings (replay tr) !! k = Some m → mapping_proved tr k (mr_team m).
Proof using.
  revert m. induction tr as [|[c r|o env] tr IH]; intros m; simpl; [by intros; simplify_map_eq|..].
  - intros [_ Hd] Hm. destruct (IH _ Hd Hm) as (mp & ? & ? & ?). exists mp. split_and!; try done.
    eapply past_admin; [|done]. by apply suffix_cons_r.
  - intros [Ha Hd] Hm. destruct (perform_gate o env (replay tr)) as [r d'] eqn:E.
    assert (Hp : past tr (Stored o env :: tr)) by by apply suffix_cons_r.
    destruct (mapping_from _ _ _ _ _ _ _ (replay_ok tr) E Hm) as [(m0 & Hm0 & ->)|(mp & -> & -> & ->)].
    + destruct (IH _ Hd Hm0) as (mp & ? & ? & ?). exists mp. split_and!; try done. by eapply past_admin.
    + exists mp. split_and!; [done..|]. by eapply past_admin.
Qed.

(** *** Memberships *)

(** The identity provider named the external team for the subject of the session. *)
Definition membership_proved (tr : list gevent) (h i : string) : Prop :=
  ∃ s f ids, gd_sessions (replay tr) !! h = Some s ∧ (d_oidc d = Some f ∨ d_membership d = Some f) ∧
    team_evidence d tr f (sn_subject s) ids ∧ i ∈ ids.

Lemma MembershipState_of session now env db m d' :
  perform_gate (OpMembershipState session now) env db = (Ok m, d') →
  ∃ s, gd_sessions db !! sessionHash session = Some s ∧ ms_subject m = sn_subject s.
Proof using.
  unfold perform_gate, run_tx. simpl. unfold SessionMembershipState, bind, query, stmt. simpl.
  destruct (env_fault env 0); [done|]. simpl. unfold live_session.
  destruct (gd_sessions db !! sessionHash session) as [s|] eqn:Hs; [|done]. simpl.
  destruct (_ <? _); [|done]. intros [= <- _]. by exists s.
Qed.

Lemma membership_has_proof tr h i x :
  disciplined d tr → sessions_distinct tr → gd_observations (replay tr) !! (h, i) = Some x →
  membership_proved tr h i.
Proof using.
  revert x. induction tr as [|e tr IH]; intros x; [by intros; simplify_map_eq|]. intros [Ha Hd] Hdist Hx.
  assert (Hp : past tr (e :: tr)) by by apply suffix_cons_r.
  pose proof (sessions_distinct_past _ _ Hp Hdist) as Hdist'.
  destruct (go_observation _ (replay_ok (e :: tr)) _ _ _ Hx) as [s Hs].
  assert (Hold : is_Some (gd_observations (replay tr) !! (h, i)) → membership_proved (e :: tr) h i).
  { intros [x0 Hx0]. destruct (IH _ Hd Hdist' Hx0) as (s0 & f & ids & Hs0 & ? & Ht & ?).
    exists s, f, ids. split_and!; try done.
    rewrite <- (subject_stable _ _ _ _ _ Hp Hdist Hs0 Hs). by eapply past_team. }
  destruct e as [c r|o env]; [apply Hold; by exists x|]. simpl in Hx.
  destruct (perform_gate o env (replay tr)) as [r d'] eqn:E.
  destruct (observation_from _ _ _ _ _ _ _ _ (replay_ok tr) E Hx)
    as [Hi|[(input & -> & -> & Hi)|(session & encrypted & ids & observed & -> & -> & Hi)]]; [by apply Hold|..].
  - destruct Ha as (f & bytes & Hf & _ & _ & _ & _ & _ & Ht). exists s, f, (si_teams input).
    split_and!; [done|by left| |done]. apply (past_team _ _ _ _ _ _ Hp) in Ht.
    destruct (session_origin _ _ _ Hs) as (input' & env' & Hin & He & _ & _ & ->).
    assert (input' = input) as ->; [|done]. eapply Hdist; [exact Hin|by left|done].
  - destruct Ha as (f & now & m & Hf & (before & env' & Hb & Hdid)%did_past & Ht). exists s, f, ids.
    split_and!; [done|by right| |done]. apply (past_team _ _ _ _ _ _ Hp) in Ht.
    destruct (perform_gate (OpMembershipState session now) env' (replay before)) as [r0 db0] eqn:E0.
    simpl in Hdid. subst r0. apply MembershipState_of in E0 as (s0 & Hs0 & Hsub). rewrite Hsub in Ht.
    by rewrite <- (subject_stable _ _ _ _ _ (past_trans _ _ _ Hb Hp) Hdist Hs0 Hs).
Qed.

(** *** Accesses *)

(** The identity provider logged the operator in and named an external team for them, which an
    administrator with the required role mapped to the team. *)
Definition access_proved (tr : list gevent) (h operator team : string) : Prop :=
  ∃ s f0 f ids mp,
    gd_sessions (replay tr) !! h = Some s ∧ sn_operator s = operator ∧
    operator = operator_id (sn_issuer s) (sn_subject s) ∧
    d_oidc d = Some f0 ∧ sn_issuer s = fc_issuer (fl_cfg f0) ∧ login_evidence d tr f0 (sn_subject s) ∧
    (d_oidc d = Some f ∨ d_membership d = Some f) ∧ team_evidence d tr f (sn_subject s) ids ∧
    admin_evidence d tr mp ∧ mp_issuer mp = sn_issuer s ∧ mp_oidc_team mp ∈ ids ∧ mp_team mp = team.

Lemma access_has_proof tr h team row :
  disciplined d tr → sessions_distinct tr → gd_access (replay tr) !! (h, team) = Some row →
  access_proved tr h (ac_operator row) team.
Proof using.
  intros Hd Hdist Hr.
  destruct (go_access _ (replay_ok tr) _ _ _ Hr) as (s & m & Hs & Ho & Hi & Hm & Ht & [x Hx]).
  destruct (membership_has_proof _ _ _ _ Hd Hdist Hx) as (s' & f & ids & Hs' & Hf & Hteam & Hin).
  assert (s' = s) as -> by congruence.
  destruct (mapping_has_proof _ _ _ Hd Hm) as (mp & [= Hk1 Hk2] & Hk3 & Hadm).
  destruct (session_origin _ _ _ Hs) as (input & env & Hev & _ & Hop & Hiss & Hsub).
  destruct (disciplined_past _ _ Hd Hev) as (earlier & Hp & Hal).
  destruct Hal as (f0 & bytes & Hf0 & _ & _ & Hi0 & Ho0 & Hlogin & _).
  exists s, f0, f, ids, mp. split_and!; try congruence.
  eapply past_login; [etrans; [|exact Hp]; by apply suffix_cons_r|]. by rewrite Hsub.
Qed.

(** *** Working tokens *)

(** The context a token row comes from was read in its session. *)
Lemma token_has_context tr j t :
  disciplined d tr → gd_tokens (replay tr) !! j = Some t →
  ∃ session now c, did tr (OpTokenContext session (tx_team c) now) (Ok c) ∧
    tr_session t = tx_session c ∧ tr_operator t = tx_operator c ∧ tr_team t = tx_team c.
Proof using.
  induction tr as [|e tr IH]; [by intros; simplify_map_eq|]. intros [Ha Hd] Ht.
  assert (Hp : past tr (e :: tr)) by by apply suffix_cons_r.
  assert (Hold : gd_tokens (replay tr) !! j = Some t → ∃ session now c,
    did (e :: tr) (OpTokenContext session (tx_team c) now) (Ok c) ∧
    tr_session t = tx_session c ∧ tr_operator t = tx_operator c ∧ tr_team t = tx_team c).
  { intros (session & now & c & ? & ?)%IH; [|done]. exists session, now, c. split; [by eapply past_did|done]. }
  destruct e as [c r|o env]; [by apply Hold|]. simpl in Ht.
  destruct (perform_gate o env (replay tr)) as [r d'] eqn:E.
  destruct (token_from _ _ _ _ _ _ _ (replay_ok tr) E Ht) as [?|(c & jti & issued & expires & -> & -> & ->)];
    [by apply Hold|].
  destruct Ha as (session & now & _ & Hc). exists session, now, c. split; [by eapply past_did|done].
Qed.

(** The operator of a token is the one of its session. *)
Lemma token_operator tr j t s :
  disciplined d tr → sessions_distinct tr → gd_tokens (replay tr) !! j = Some t →
  gd_sessions (replay tr) !! tr_session t = Some s → tr_operator t = sn_operator s.
Proof using.
  intros Hd Hdist Ht Hs. destruct (token_has_context _ _ _ Hd Ht) as (session & now & c & Hc & He & -> & _).
  apply did_past in Hc as (before & env & Hb & Hr).
  destruct (perform_gate _ env (replay before)) as [r db] eqn:E. simpl in Hr. subst r.
  apply TokenContext_spec in E as (_ & s0 & row & m & Hs0 & _ & _ & Hce); [|apply replay_ok].
  rewrite Hce in He |- *. simpl in *. rewrite He in Hs. unfold live_session in Hs0.
  apply bind_Some in Hs0 as (s1 & Hs1 & Hs0). destruct (_ <? _); [|done]. injection Hs0 as <-.
  by eapply identity_stable.
Qed.

(** What the database confirmed for a token: it was recorded, it and its session had not expired, and
    the team was accessible to the operator of the session. *)
Definition token_confirmed (tr : list gevent) (c : WorkingClaims) (now : Z) : Prop :=
  ∃ t, gd_tokens (replay tr) !! sha256 (wc_jti c) = Some t ∧ tr_operator t = wc_operator c ∧
    tr_team t = wc_team c ∧ pg_ts now < tr_expires t ∧
    is_Some (live_session (tr_session t) now (replay tr)) ∧
    access_proved tr (tr_session t) (wc_operator c) (wc_team c).

Lemma valid_confirmed tr c :
  disciplined d tr → sessions_distinct tr → request_valid d tr c →
  ∃ s token now now' before, d_working d = Some s ∧ Asked GNow now ∈ tr ∧ signed_by s token c ∧
    working_claims_ok s now c = true ∧ Asked GNow now' ∈ tr ∧ past before tr ∧ token_confirmed before c now'.
Proof using.
  intros Hd Hdist (s & token & now & now' & Hs & Hn & Hv & Hn' & Hc).
  apply working_Verify_sound in Hv as [Hsig Hok]. apply did_past in Hc as (before & env & Hb & Hr).
  destruct (perform_gate _ env (replay before)) as [r db] eqn:E. simpl in Hr. subst r.
  apply ValidateTokenAccess_ok, token_valid_spec in E; [|apply replay_ok].
  destruct E as (t & s0 & row & m & Ht & Ho & Hteam & Hexp & Hl & (Ha & _) & _).
  exists s, token, now, now', before. split_and!; try done. exists t. split_and!; try done.
  pose proof (disciplined_suffix _ _ Hb Hd) as Hd'. pose proof (sessions_distinct_past _ _ Hb Hdist) as Hdist'.
  pose proof (access_has_proof _ _ _ _ Hd' Hdist' Ha) as Hp.
  assert (ac_operator row = wc_operator c) as <-; [|done].
  destruct (go_access _ (replay_ok before) _ _ _ Ha) as (s1 & m1 & Hs1 & -> & _).
  rewrite <- Ho. symmetry. by eapply token_operator.
Qed.

(** The headers of a request that goes to the State Registry. *)
Definition forwards (e : gevent) (hs : header_map) : Prop :=
  match e with
  | Asked (GForward _ _ hs' _) _ | Asked (GDial _ hs') _ => hs' = hs
  | _ => False
  end.

(** C8. Why a request is forwarded. Whenever the gateway sends a request or opens a WebSocket to the State
    Registry, whatever its goroutines, restarts, faults and clients did, the operator and the team in
    the headers are those of a token that its own key signed and that had not expired; at an instant
    before, its database confirmed the token for a live session; and behind the access of that session are
    a login at the identity provider with this gateway's nonce and code verifier, a membership that the
    provider stated for the subject of the session, and a mapping of that external team to the team, made
    by an administrator whose token carried the required role. *)
Theorem forwarded_proved w e earlier hs :
  reachable_gate d w → sessions_distinct (g_trace (w_state w)) →
  past (e :: earlier) (g_trace (w_state w)) → forwards e hs →
  ∃ c s token now now' before,
    hs !! "X-Flowai-Operator-Id" = Some [wc_operator c] ∧ hs !! "X-Flowai-Team-Id" = Some [wc_team c] ∧
    d_working d = Some s ∧ signed_by s token c ∧ Asked GNow now ∈ earlier ∧ working_claims_ok s now c = true ∧
    Asked GNow now' ∈ earlier ∧ past before earlier ∧ token_confirmed before c now'.
Proof using.
  intros Hw Hdist Hp Hf. pose proof (gi_disciplined _ _ (gate_invariant _ _ Hw)) as Hd.
  destruct (disciplined_suffix _ _ Hp Hd) as [Hal Hd'].
  pose proof (sessions_distinct_past _ _ (past_trans _ _ _ (suffix_cons_r _ _ e (reflexivity earlier)) Hp) Hdist)
    as Hdist'.
  assert (Hc : ∃ c q skipped request, request_valid d earlier c ∧
    hs = set_context c request (copy_headers skipped (rq_headers q) ∅)).
  { destruct e as [[] r|]; simpl in Hf; try done; subst.
    - destruct Hal as (q & c & request & _ & Hv & _ & _ & _ & ->). by exists c, q, rest_skipped, request.
    - destruct Hal as (q & c & request & _ & Hv & _ & ->). by exists c, q, websocket_skipped, request. }
  destruct Hc as (c & q & skipped & request & Hv & ->).
  destruct (valid_confirmed _ _ Hd' Hdist' Hv) as (s & token & now & now' & before & ?).
  exists c, s, token, now, now', before. rewrite !set_context_lookup. by destruct_and?.
Qed.

(** C9. Why a team is accessible. At any time, whatever the gateway's goroutines and restarts, each
    row of access in its database belongs to a session whose operator the identity provider
    authenticated, and stands on a membership the provider stated for that very subject and on a
    mapping an administrator registered for a team that the State Registry confirmed. *)
Theorem access_stands w h team row :
  reachable_gate d w → sessions_distinct (g_trace (w_state w)) →
  gd_access (g_db (w_state w)) !! (h, team) = Some row →
  access_proved (g_trace (w_state w)) h (ac_operator row) team.
Proof using.
  intros Hw Hdist Hr. destruct (gate_invariant _ _ Hw) as [Hdb Hd _ _]. rewrite Hdb in Hr.
  by apply access_has_proof.
Qed.

(** C16. Why a token is handed out. Every token the gateway gives a browser is signed by its key for the
    operator of a session that was alive, for a team accessible to it then, and recorded in the
    database under the hash of its identifier for that session, so that a logout or a lost membership
    ends it. *)
Theorem issued_token_proved w earlier access expires_in r :
  reachable_gate d w → sessions_distinct (g_trace (w_state w)) →
  past (Asked (GRespond (RToken access expires_in)) r :: earlier) (g_trace (w_state w)) →
  ∃ s c name bytes clock token recorded,
    d_working d = Some s ∧ Sign s (tx_operator c) (tx_team c) name (Some bytes) clock = Some token ∧
    tk_access token = access ∧
    past recorded earlier ∧
    gd_tokens (replay recorded) !! sha256 (tk_jti token)
      = Some (mkTokenRow (tx_session c) (tx_operator c) (tx_team c) (pg_ts (tk_issued token)) (pg_ts (tk_expires token))) ∧
    ∃ read now, past read recorded ∧ is_Some (live_session (tx_session c) now (replay read)) ∧
      access_proved read (tx_session c) (tx_operator c) (tx_team c).
Proof using.
  intros Hw Hdist Hp. pose proof (gi_disciplined _ _ (gate_invariant _ _ Hw)) as Hd.
  destruct (disciplined_suffix _ _ Hp Hd) as [Hal Hd'].
  destruct Hal as (s & c & name & bytes & clock & token & Hs & Hsign & Hac & (later & before & env & -> & Hr)).
  pose proof (disciplined_suffix _ _ (suffix_app_r _ _ _ (reflexivity _)) Hd') as [Hrec Hdb].
  assert (Hpb : past before (g_trace (w_state w))).
  { etrans; [|exact Hp]. apply suffix_cons_r. exists (later ++ [Stored (OpRecordToken c (tk_jti token) (tk_issued token) (tk_expires token)) env]).
    by rewrite <- app_assoc. }
  destruct Hrec as (session & now & _ & Hctx). apply did_past in Hctx as (read & env' & Hread & Hc).
  destruct (perform_gate _ env' (replay read)) as [r' db'] eqn:E'. simpl in Hc. subst r'.
  pose proof E' as E''. apply TokenContext_spec in E' as (_ & s0 & row & m & Hl & (Ha & _) & Hop & Hce); [|apply replay_ok].
  exists s, c, name, bytes, clock, token, (Stored (OpRecordToken c (tk_jti token) (tk_issued token) (tk_expires token)) env :: before).
  split_and!; try done; [by eexists|..].
  - simpl. destruct (perform_gate _ env (replay before)) as [r0 db0] eqn:E. simpl in Hr. subst r0.
    apply RecordToken_effect in E as (_ & _ & _ & ->). simpl. by rewrite lookup_insert_eq.
  - exists read, now. split_and!; [by apply suffix_cons_r| |].
    + rewrite Hce. by exists s0.
    + pose proof (access_has_proof read _ _ _ (disciplined_suffix _ _ Hread Hdb)
        (sessions_distinct_past _ _ (past_trans _ _ _ Hread Hpb) Hdist) Ha) as Hacc.
      rewrite Hop in Hacc. by rewrite Hce in Hacc |- *.
Qed.
End evidence.

(** ** Service *)

Section service.
Context `{Collation, PgTime, Sha256, Jose, !WorkingCodec, Aead, GatewayCodec}.
Context (d : Dependencies) (answer : ∀ c, gres c).

(** A goroutine that runs without the others, answered by [answer], up to its end. *)
Fixpoint alone {A} (p : go A) (σ : Gate) : option (Gate * A) :=
  match p with
  | Ret a => Some (σ, a)
  | Atomic f k => alone (k (f σ).2) (f σ).1
  | Call c k => alone (k (answer c)) (record_gate c (answer c) σ)
  | Spawn _ _ | Goto _ => None
  end.

Lemma alone_bind {A B} (p : go A) (k : A → go B) σ :
  alone (p ≫= k) σ = '(σ', a) ← alone p σ; alone (k a) σ'.
Proof using.
  unfold mbind at 1, prog_mbind. revert σ.
  induction p as [a|B' f k' IH|c k' IH|t p IH|t]; intros σ; simpl; auto.
Qed.

(** It is one of the schedules of the gateway. *)
Lemma alone_runs w i p σ' :
  w_threads w !! i = Some p → alone p (w_state w) = Some (σ', ()) →
  rtc (gate_step d) w (mkWorld σ' (delete i (w_threads w))).
Proof using.
  assert (Hfree : ∀ w : world Gate gthread gres, w_threads w !! fresh (dom (w_threads w)) = None)
    by (intros; apply not_elem_of_dom, is_fresh).
  assert (Hstep : ∀ w p, w_threads w !! i = Some p → gate_step d w
    (thread_step record_gate (gate_thread d) i (fresh (dom (w_threads w))) answer p w)).
  { intros w0 p0 Hp. constructor. constructor; [done|apply Hfree|by destruct p0]. }
  revert w. induction p as [[]|B f k IH|c k IH|t p IH|t]; intros w Hi Hr; simpl in Hr; try done.
  - injection Hr as <-. apply rtc_once. exact (Hstep _ _ Hi).
  - eapply rtc_l; [exact (Hstep _ _ Hi)|]. simpl.
    pose proof (IH (f (w_state w)).2 (mkWorld (f (w_state w)).1 (<[i := k (f (w_state w)).2]> (w_threads w)))) as Hk.
    simpl in Hk. rewrite lookup_insert_eq, delete_insert_eq in Hk. by apply Hk.
  - eapply rtc_l; [exact (Hstep _ _ Hi)|]. simpl.
    pose proof (IH (answer c) (mkWorld (record_gate c (answer c) (w_state w)) (<[i := k (answer c)]> (w_threads w)))) as Hk.
    simpl in Hk. rewrite lookup_insert_eq, delete_insert_eq in Hk. by apply Hk.
Qed.

(** The verdict of the database in a statement that does not fail. *)
Lemma validate_done operator team jti now env db :
  env_fault env 0 = false → token_valid operator team (sha256 jti) now db = true →
  perform_gate (OpValidateTokenAccess operator team jti now) env db = (Ok (), db).
Proof using.
  intros Hf Hv. unfold perform_gate, run_tx. simpl. unfold ValidateTokenAccess, bind, query, stmt. simpl.
  by rewrite Hf, Hv.
Qed.

Lemma authenticate_alone token s c σ :
  token ≠ "" → d_sessions d = true → d_working d = Some s →
  working_Verify s token (answer GNow) = Some c → env_fault (answer GTxEnv) 0 = false →
  token_valid (wc_operator c) (wc_team c) (sha256 (wc_jti c)) (answer GNow) (g_db σ) = true →
  ∃ σ', alone (authenticateWorkingToken d token) σ = Some (σ', Some c).
Proof using.
  intros Ht Hse Hw Hv Hf Hdb. unfold authenticateWorkingToken.
  rewrite Hw, Hse, bool_decide_eq_false_2 by done. cbn [orb negb].
  simpl. rewrite Hv. simpl. unfold store_step. cbn [record_gate g_db].
  rewrite validate_done by done. simpl. by eexists.
Qed.

(** C18. Service. A request under /ui/ with a token that verifies and that the database confirms is forwarded,
    when the database and the State Registry answer: with its method, path, query and body, in the
    context of the token, and the registry's status, body and headers go back, less the hop-by-hop
    ones. *)
Theorem valid_request_served w i q token s c target response :
  w_threads w !! i = Some (gate_thread d (TServe q)) → rq_upgrade q = false →
  has_prefix "/ui/" (rq_path q) = true → bearer_of (header_get "Authorization" (rq_headers q)) = Some token →
  token ≠ "" → d_proxy d ≠ "" → d_sessions d = true → d_working d = Some s →
  working_Verify s token (answer GNow) = Some c → env_fault (answer GTxEnv) 0 = false →
  token_valid (wc_operator c) (wc_team c) (sha256 (wc_jti c)) (answer GNow) (g_db (w_state w)) = true →
  url_resolve (d_proxy d) (rq_path q) (rq_raw_query q) = Some target →
  let hs := set_context c (answer GRequestID) (copy_headers rest_skipped (rq_headers q) ∅) in
  answer (GForward (rq_method q) target hs (rq_body q)) = Some response →
  ∃ w', rtc (gate_step d) w w' ∧
    take 2 (g_trace (w_state w')) =
      [Asked (GRespond (RProxied (hr_status response)
         (filter (λ kv, isHopHeader (lower kv.1) = false) (hr_headers response)) (hr_body response))) (answer _);
       Asked (GForward (rq_method q) target hs (rq_body q)) (Some response)].
Proof using.
  intros Hi Hu Hpath Hb Ht Hp Hse Hw Hv Hf Hdb Hurl hs Hans.
  assert (Hserve : serve d q = proxyREST d q).
  { assert (Hne : ∀ x, has_prefix "/ui/" x = false → rq_path q ≠ x) by (intros x Hx He; congruence).
    unfold serve. repeat (rewrite bool_decide_eq_false_2 by (intros [He _]; revert He; by apply Hne)).
    by rewrite Hpath, Hu. }
  simpl in Hi. rewrite Hserve in Hi.
  destruct (authenticate_alone token s c (w_state w)) as [σ1 Ha]; [done..|].
  assert (Hrun : ∃ σ', alone (proxyREST d q) (w_state w) = Some (σ', ()) ∧ take 2 (g_trace σ') =
      [Asked (GRespond (RProxied (hr_status response)
         (filter (λ kv, isHopHeader (lower kv.1) = false) (hr_headers response)) (hr_body response))) (answer _);
       Asked (GForward (rq_method q) target hs (rq_body q)) (Some response)]).
  { unfold proxyREST. rewrite Hb, (bool_decide_eq_false_2 (d_proxy d = "")) by done.
    rewrite alone_bind, Ha. simpl. rewrite Hurl. simpl. fold hs. rewrite Hans. unfold respond, gcall_, call. simpl.
    eexists. split; [do 2 f_equal; by destruct (answer (GRespond _))|done]. }
  destruct Hrun as (σ' & Hrun & Htr). exists (mkWorld σ' (delete i (w_threads w))).
  split; [by apply (alone_runs w i _ _ Hi)|done].
Qed.
End service.
