(* ===== verification/GatewayConfig.v ===== *)
(** * The gateway's configuration and start (config/config.go, oidc.NewFlow, cmd/api-gateway)

    What the environment is checked for, the discovery of the identity provider, and the parts
    that a configuration puts together before the listener starts. *)

From stdpp Require Import base gmap strings list pretty.
From Stdlib Require Import Ascii.
From S2P Require Import Prelude Platform Tx GoStrings Base64 ScopeToken Cursor Keyrings JwtClaims WorkingToken.
From S2P Require Import GatewayStore Conc Gateway GatewaySafe GatewayProps.
#[local] Open Scope Z_scope.

(** time.ParseDuration, base64.StdEncoding, the RSA key in a PEM block with the length of its
    modulus, and the address of the discovery document of an issuer. *)
Class StartCodec := {
  parse_duration : string → option Z;
  std_base64_decode : string → option string;
  pem_rsa_key : string → option (Z * string);
  discovery_url : string → string;
}.

Record Config : Type := mkGatewayConfig {
  BindHost : string; BindPort : Z; OIDCIssuer : string; OIDCClientID : string; OIDCRedirectURI : string;
  OIDCEndpointTimeout : Z; OIDCTeamClaimAdapter : string; OIDCTeamClaimPointer : string;
  OIDCTeamClaimSource : string; OIDCTeamClaimIDField : string; OIDCTeamClaimNameField : string;
  OIDCAdditionalScopes : list string; MembershipMaxAge : Z; PostgresURL : string;
  MigrationPostgresURL : string; SessionKey : string; SessionTTL : Z; WebUIURL : string;
  StateRegistryURL : string; AdminIssuer : string; AdminAudience : string; AdminJWKSURL : string;
  AdminRolePointer : string; AdminAlgorithms : list string; AdminJWKSTimeout : Z;
  AdminTokenMaxAge : Z; AdminClockSkew : Z; WorkingTokenPrivateKeyPEM : string;
  WorkingTokenKeyID : string; WorkingTokenIssuer : string; WorkingTokenAudience : string;
  WorkingTokenTTL : Z }.

Definition bind_result {E A B} (m : result E A) (k : A → result E B) : result E B :=
  match m with Ok a => k a | Err e => Err e end.
#[local] Notation "'let!' x := m 'in' k" := (bind_result m (λ x, k))
  (at level 200, x name, m at level 100, k at level 200).

Section config.
Context `{Collation, PgTime, Sha256, Jose, !WorkingCodec, Aead, GatewayCodec, StartCodec}.

(** A duration setting: [zero] says whether it may be zero. *)
Definition duration_setting (raw : string) (fallback : Z) (zero : bool) (message : string) : result string Z :=
  if bool_decide (raw = "") then Ok fallback
  else
    match parse_duration raw with
    | Some value => if (value <? 0) || negb zero && (value =? 0) then Err message else Ok value
    | None => Err message
    end.

Definition minute : Z := 60 * second.
Definition comma : ascii := ","%char.

Definition splitNonEmpty (raw : string) : list string :=
  filter (λ v, v ≠ "") (trim_space <$> split comma raw).

Definition bind_port (raw : string) : result string Z :=
  if bool_decide (raw = "") then Ok 8080
  else
    match signed_Atoi raw with
    | Some port =>
        if (port <? 0) || (65535 <? port)
        then Err "API_GATEWAY_BIND_PORT must be an integer from 0 to 65535" else Ok port
    | None => Err "API_GATEWAY_BIND_PORT must be an integer from 0 to 65535"
    end.

Definition allowed_algorithm (a : string) : bool := bool_decide (a ∈ ["RS256"; "RS384"; "RS512"]).

(** The settings that belong together, and the session key. *)
Definition check_settings (key_hex : string) (cfg : Config) : result string Config :=
  let oidc := [OIDCIssuer cfg; OIDCClientID cfg; OIDCRedirectURI cfg; OIDCTeamClaimAdapter cfg; OIDCTeamClaimPointer cfg] in
  let configured := existsb (λ v, bool_decide (v ≠ "")) (oidc ++ [OIDCTeamClaimSource cfg]) in
  if configured && (existsb (λ v, bool_decide (v = "")) oidc ||
       bool_decide (OIDCTeamClaimSource cfg ≠ "id_token" ∧ OIDCTeamClaimSource cfg ≠ "userinfo"))
  then Err "OIDC issuer, client ID, redirect URI, team adapter, claim pointer, and valid claim source must be configured together"
  else
    let! cfg :=
      if configured then
        if bool_decide (PostgresURL cfg = "") then Err "API_GATEWAY_POSTGRES_URL is required with OIDC"
        else
          match hex_decode key_hex with
          | Some key =>
              if negb (Nat.eqb (String.length key) 32)
              then Err "API_GATEWAY_SESSION_KEY_HEX must decode to exactly 32 bytes"
              else if bool_decide (WorkingTokenPrivateKeyPEM cfg = "" ∨ WorkingTokenKeyID cfg = "" ∨
                                   WorkingTokenIssuer cfg = "" ∨ WorkingTokenAudience cfg = "")
              then Err "working-token private key, key ID, issuer, and audience are required with OIDC"
              else
                Ok (mkGatewayConfig (BindHost cfg) (BindPort cfg) (OIDCIssuer cfg) (OIDCClientID cfg)
                  (OIDCRedirectURI cfg) (OIDCEndpointTimeout cfg) (OIDCTeamClaimAdapter cfg)
                  (OIDCTeamClaimPointer cfg) (OIDCTeamClaimSource cfg) (OIDCTeamClaimIDField cfg)
                  (OIDCTeamClaimNameField cfg) (OIDCAdditionalScopes cfg) (MembershipMaxAge cfg) (PostgresURL cfg)
                  (MigrationPostgresURL cfg) key (SessionTTL cfg) (WebUIURL cfg) (StateRegistryURL cfg)
                  (AdminIssuer cfg) (AdminAudience cfg) (AdminJWKSURL cfg) (AdminRolePointer cfg)
                  (AdminAlgorithms cfg) (AdminJWKSTimeout cfg) (AdminTokenMaxAge cfg) (AdminClockSkew cfg)
                  (WorkingTokenPrivateKeyPEM cfg) (WorkingTokenKeyID cfg) (WorkingTokenIssuer cfg)
                  (WorkingTokenAudience cfg) (WorkingTokenTTL cfg))
          | None => Err "API_GATEWAY_SESSION_KEY_HEX must decode to exactly 32 bytes"
          end
      else Ok cfg in
    let admin := [AdminIssuer cfg; AdminAudience cfg; AdminJWKSURL cfg; AdminRolePointer cfg; StateRegistryURL cfg] in
    if existsb (λ v, bool_decide (v ≠ "")) admin && existsb (λ v, bool_decide (v = "")) admin
    then Err "admin issuer, audience, JWKS URL, role pointer, and State Registry URL must be configured together"
    else if negb (forallb allowed_algorithm (AdminAlgorithms cfg))
    then Err "API_GATEWAY_ADMIN_ALGORITHMS must contain only RS256, RS384, or RS512"
    else Ok cfg.

(** Load, on what os.Getenv gives. *)
Definition Load (getenv : string → string) : result string Config :=
  let host := getenv "API_GATEWAY_BIND_HOST" in
  let! port := bind_port (getenv "API_GATEWAY_BIND_PORT") in
  let! age := duration_setting (getenv "API_GATEWAY_MEMBERSHIP_MAX_AGE") (5 * minute) true
                "API_GATEWAY_MEMBERSHIP_MAX_AGE must be a non-negative duration" in
  let migration := getenv "API_GATEWAY_MIGRATION_POSTGRES_URL" in
  let algorithms := splitNonEmpty (getenv "API_GATEWAY_ADMIN_ALGORITHMS") in
  let! pem :=
    if bool_decide (getenv "API_GATEWAY_WORKING_TOKEN_PRIVATE_KEY_BASE64" = "") then Ok ""
    else
      match std_base64_decode (getenv "API_GATEWAY_WORKING_TOKEN_PRIVATE_KEY_BASE64") with
      | Some value => Ok value
      | None => Err "API_GATEWAY_WORKING_TOKEN_PRIVATE_KEY_BASE64 is invalid"
      end in
  let! token_ttl := duration_setting (getenv "API_GATEWAY_WORKING_TOKEN_TTL") (5 * minute) false
                      "API_GATEWAY_WORKING_TOKEN_TTL must be positive duration" in
  let! jwks_timeout := duration_setting (getenv "API_GATEWAY_ADMIN_JWKS_TIMEOUT") (5 * second) false
                         "API_GATEWAY_ADMIN_JWKS_TIMEOUT must be positive duration" in
  let! token_age := duration_setting (getenv "API_GATEWAY_ADMIN_TOKEN_MAX_AGE") (5 * minute) false
                      "API_GATEWAY_ADMIN_TOKEN_MAX_AGE must be positive duration" in
  let! skew := duration_setting (getenv "API_GATEWAY_ADMIN_CLOCK_SKEW") (30 * second) true
                 "API_GATEWAY_ADMIN_CLOCK_SKEW must be non-negative duration" in
  let! session_ttl := duration_setting (getenv "API_GATEWAY_SESSION_TTL") (60 * minute) false
                        "API_GATEWAY_SESSION_TTL must be positive duration" in
  let! timeout := duration_setting (getenv "API_GATEWAY_OIDC_ENDPOINT_TIMEOUT") (5 * second) false
                    "API_GATEWAY_OIDC_ENDPOINT_TIMEOUT must be positive duration" in
  check_settings (getenv "API_GATEWAY_SESSION_KEY_HEX")
    (mkGatewayConfig (if bool_decide (host = "") then "0.0.0.0" else host) port
      (getenv "API_GATEWAY_OIDC_ISSUER") (getenv "API_GATEWAY_OIDC_CLIENT_ID")
      (getenv "API_GATEWAY_OIDC_REDIRECT_URI") timeout (getenv "API_GATEWAY_OIDC_TEAM_CLAIM_ADAPTER")
      (getenv "API_GATEWAY_OIDC_TEAM_CLAIM_POINTER") (getenv "API_GATEWAY_OIDC_TEAM_CLAIM_SOURCE")
      (getenv "API_GATEWAY_OIDC_TEAM_CLAIM_ID_FIELD") (getenv "API_GATEWAY_OIDC_TEAM_CLAIM_NAME_FIELD")
      (splitNonEmpty (getenv "API_GATEWAY_OIDC_ADDITIONAL_SCOPES")) age (getenv "API_GATEWAY_POSTGRES_URL")
      (if bool_decide (migration = "") then getenv "API_GATEWAY_POSTGRES_URL" else migration) "" session_ttl
      (getenv "API_GATEWAY_WEB_UI_URL") (getenv "API_GATEWAY_STATE_REGISTRY_URL")
      (getenv "API_GATEWAY_ADMIN_ISSUER") (getenv "API_GATEWAY_ADMIN_AUDIENCE")
      (getenv "API_GATEWAY_ADMIN_JWKS_URL") (getenv "API_GATEWAY_ADMIN_ROLE_CLAIM_POINTER")
      (if bool_decide (algorithms = []) then ["RS256"] else algorithms) jwks_timeout token_age skew pem
      (getenv "API_GATEWAY_WORKING_TOKEN_KEY_ID") (getenv "API_GATEWAY_WORKING_TOKEN_ISSUER")
      (getenv "API_GATEWAY_WORKING_TOKEN_AUDIENCE") token_ttl).

(** net.JoinHostPort. *)
Definition BindAddress (cfg : Config) : string :=
  let host := BindHost cfg in
  (if bool_decide (":"%char ∈ chars host ∨ "%"%char ∈ chars host) then "[" +:+ host +:+ "]" else host) +:+
  ":" +:+ pretty (BindPort cfg).

(** ** The start *)

(** NewFlow. *)
Definition NewFlow (cfg : FlowConfig) : go (result auth_error Flow) :=
  let fail (m : string) : go (result auth_error Flow) := mret (Err (FlowText m)) in
  if negb (url_absolute (fc_issuer cfg)) then fail "OIDC issuer"
  else if bool_decide (fc_client cfg = "") then fail "OIDC client ID is required"
  else if negb (url_absolute (fc_redirect cfg)) then fail "OIDC redirect URI"
  else if (fc_timeout cfg <=? 0) || (fc_state_ttl cfg <=? 0)
  then fail "OIDC timeout and state TTL must be positive"
  else
    match NormalizeScopes (fc_scopes cfg) with
    | Err m => fail m
    | Ok scopes =>
        answer ← gcall_ (GGet (discovery_url (fc_issuer cfg)) None);
        match answer with
        | None => mret (Err ProviderUnavailable)
        | Some response =>
            if bool_decide (hr_status response ≠ 200) then mret (Err ProviderUnavailable)
            else
              match discovery_decode (hr_body response) with
              | None => mret (Err ProviderUnavailable)
              | Some dc =>
                  if bool_decide (dc_issuer dc ≠ fc_issuer cfg)
                  then fail "OIDC discovery issuer does not match configured issuer"
                  else if negb (url_absolute (dc_authorization dc) && url_absolute (dc_token dc) &&
                                url_absolute (dc_jwks dc)) then fail "OIDC discovery endpoint"
                  else if bool_decide (fc_source cfg ≠ "id_token" ∧ fc_source cfg ≠ "userinfo")
                  then fail "OIDC claim source must be id_token or userinfo"
                  else if bool_decide (fc_source cfg = "userinfo") && negb (url_absolute (dc_userinfo dc))
                  then fail "OIDC discovery userinfo_endpoint"
                  else
                    match adapter_Validate (fc_teams cfg) with
                    | Some m => fail m
                    | None =>
                        if (fc_max_age cfg <=? 0) || (fc_skew cfg <? 0)
                        then fail "OIDC token max age must be positive and clock skew non-negative"
                        else
                          let v := mkVerifier (fc_issuer cfg) (fc_client cfg) (dc_jwks dc) ["RS256"; "RS384"; "RS512"]
                                     (fc_skew cfg) (fc_max_age cfg) (fc_timeout cfg) in
                          match verifier_New url_absolute v with
                          | Some m => fail m
                          | None =>
                              mret (Ok (mkFlow (mkFlowConfig (fc_issuer cfg) (fc_client cfg) (fc_redirect cfg) scopes
                                (fc_timeout cfg) (fc_state_ttl cfg) (fc_skew cfg) (fc_max_age cfg) (fc_teams cfg)
                                (fc_source cfg)) dc v))
                          end
                    end
              end
        end
    end.

(** adminauth.New. *)
Definition authenticator_New (v : VerifierConfig) (rolePointer requiredRole : string) : result string Authenticator :=
  if bool_decide (rolePointer = "" ∨ requiredRole = "") then Err "administrator trust configuration is incomplete"
  else if negb (has_prefix "/" rolePointer) then Err "invalid role pointer"
  else Ok (mkAuthenticator v rolePointer requiredRole).

(** stateregistry.New: the client of an address. *)
Definition registry_New (url : string) (timeout : Z) : result string unit :=
  if negb (url_absolute url) then Err "state registry URL must be absolute"
  else if timeout <=? 0 then Err "state registry timeout must be positive"
  else Ok ().

Definition nothing : Dependencies :=
  mkDependencies "" None false false false None None false None 0 0 None "" None "".

(** The administrator's part of the dependencies. *)
Definition setup_admin (cfg : Config) (d : Dependencies) : result string Dependencies :=
  if bool_decide (AdminIssuer cfg = "") then Ok d
  else
    let v := mkVerifier (AdminIssuer cfg) (AdminAudience cfg) (AdminJWKSURL cfg) (AdminAlgorithms cfg)
               (AdminClockSkew cfg) (AdminTokenMaxAge cfg) (AdminJWKSTimeout cfg) in
    match verifier_New url_absolute v with
    | Some m => Err m
    | None =>
        let! a := authenticator_New v (AdminRolePointer cfg) "flowai-system-admin" in
        let! _ := registry_New (StateRegistryURL cfg) (OIDCEndpointTimeout cfg) in
        Ok (mkDependencies (OIDCIssuer cfg) (Some a) true true true (d_login d) (d_oidc d) (d_sessions d) (d_cipher d)
              (d_session_ttl d) (d_max_age d) (d_membership d) (d_web_ui d) (d_working d) (d_proxy d))
    end.

(** run, up to the listener; [database] is the first error of opening and migrating the database. *)
Definition setup (cfg : Config) (database : option string) : go (result string Dependencies) :=
  if bool_decide (OIDCIssuer cfg = "") then mret (Ok nothing)
  else
    match database with
    | Some m => mret (Err m)
    | None =>
        match cipher_New (SessionKey cfg) with
        | None => mret (Err "session key must be 32 bytes")
        | Some cipher =>
            flow ← NewFlow (mkFlowConfig (OIDCIssuer cfg) (OIDCClientID cfg) (OIDCRedirectURI cfg)
              (OIDCAdditionalScopes cfg) (OIDCEndpointTimeout cfg) (10 * minute) (30 * second) (10 * minute)
              (mkAdapter (OIDCTeamClaimAdapter cfg) (OIDCTeamClaimPointer cfg) (OIDCTeamClaimIDField cfg)
                 (OIDCTeamClaimNameField cfg)) (OIDCTeamClaimSource cfg));
            match flow with
            | Err _ => mret (Err "initialize OIDC")
            | Ok f =>
                match pem_rsa_key (WorkingTokenPrivateKeyPEM cfg) ≫= (λ '(bits, key),
                  signer_New bits key (WorkingTokenKeyID cfg) (WorkingTokenIssuer cfg) (WorkingTokenAudience cfg)
                    (WorkingTokenTTL cfg)) with
                | None => mret (Err "initialize working-token signer")
                | Some s =>
                    mret (setup_admin cfg (mkDependencies "" None false false false (Some f) (Some f) true (Some cipher)
                      (SessionTTL cfg) (MembershipMaxAge cfg) (Some f) (WebUIURL cfg) (Some s) (StateRegistryURL cfg)))
                end
            end
        end
    end.

(** ** What is accepted *)

Lemma bind_result_ok {E A B} (m : result E A) (k : A → result E B) b :
  bind_result m k = Ok b → ∃ a, m = Ok a ∧ k a = Ok b.
Proof using. destruct m; [by eexists|done]. Qed.

Lemma duration_setting_ok raw fallback zero message v :
  duration_setting raw fallback zero message = Ok v → 0 < fallback → if zero then 0 ≤ v else 0 < v.
Proof using.
  unfold duration_setting. case_bool_decide; [intros [= <-]; destruct zero; lia|].
  destruct (parse_duration raw); [|done]. destruct (_ || _) eqn:E; [done|]. intros [= <-] _.
  apply orb_false_iff in E as [E1 E2]. apply Z.ltb_ge in E1. destruct zero; [done|].
  apply Z.eqb_neq in E2. lia.
Qed.

Lemma bind_port_ok raw port : bind_port raw = Ok port → 0 ≤ port ≤ 65535.
Proof using.
  unfold bind_port. case_bool_decide; [intros [= <-]; lia|]. destruct (signed_Atoi raw); [|done].
  destruct (_ || _) eqn:E; [done|]. intros [= <-]. apply orb_false_iff in E as [E1 E2].
  apply Z.ltb_ge in E1, E2. lia.
Qed.

(** All of the settings of a group, or none. *)
Definition together (l : list string) : Prop := Forall (λ v, v = "") l ∨ Forall (λ v, v ≠ "") l.

Lemma none_empty l : existsb (λ v, bool_decide (v = "")) l = false → Forall (λ v, v ≠ "") l.
Proof using.
  induction l as [|v l IH]; [constructor|]. simpl. intros [Ev El]%orb_false_iff. to_prop. constructor; auto.
Qed.

Lemma all_empty l : existsb (λ v, bool_decide (v ≠ "")) l = false → Forall (λ v, v = "") l.
Proof using.
  induction l as [|v l IH]; [constructor|]. simpl. intros [Ev El]%orb_false_iff. to_prop. constructor; auto.
Qed.

Lemma together_checked l :
  existsb (λ v, bool_decide (v ≠ "")) l && existsb (λ v, bool_decide (v = "")) l = false → together l.
Proof using. intros [?%all_empty|?%none_empty]%andb_false_iff; [by left|by right]. Qed.

(** The groups of a configuration, each complete or absent. *)
Record settings_ok (cfg : Config) : Prop := mkSettingsOk {
  so_oidc : together [OIDCIssuer cfg; OIDCClientID cfg; OIDCRedirectURI cfg; OIDCTeamClaimAdapter cfg;
                      OIDCTeamClaimPointer cfg; OIDCTeamClaimSource cfg];
  so_source : OIDCTeamClaimSource cfg ∈ [""; "id_token"; "userinfo"];
  so_keys : OIDCIssuer cfg ≠ "" → PostgresURL cfg ≠ "" ∧ String.length (SessionKey cfg) = 32%nat ∧
    WorkingTokenPrivateKeyPEM cfg ≠ "" ∧ WorkingTokenKeyID cfg ≠ "" ∧ WorkingTokenIssuer cfg ≠ "" ∧
    WorkingTokenAudience cfg ≠ "";
  so_admin : together [AdminIssuer cfg; AdminAudience cfg; AdminJWKSURL cfg; AdminRolePointer cfg; StateRegistryURL cfg];
  so_algorithms : Forall (λ a, a ∈ ["RS256"; "RS384"; "RS512"]) (AdminAlgorithms cfg);
}.

Lemma check_settings_ok key_hex cfg cfg' :
  check_settings key_hex cfg = Ok cfg' → settings_ok cfg'.
Proof using.
  unfold check_settings. set (oidc := [OIDCIssuer cfg; _; _; _; _]).
  destruct (_ && (_ || _)) eqn:Hg; [done|]. intros (c1 & Hc1 & Hrest)%bind_result_ok.
  destruct (_ && _) eqn:Ha in Hrest; [done|]. destruct (negb _) eqn:Hal in Hrest; [done|].
  injection Hrest as <-. apply together_checked in Ha. apply negb_false_iff in Hal.
  assert (Halg : Forall (λ a, a ∈ ["RS256"; "RS384"; "RS512"]) (AdminAlgorithms c1)).
  { apply Forall_forall. intros a Hin. rewrite forallb_forall in Hal.
    specialize (Hal a (proj1 (list_elem_of_In _ _) Hin)). unfold allowed_algorithm in Hal. by to_prop. }
  destruct (existsb _ (oidc ++ _)) eqn:Hcfg; cbn [andb] in Hg.
  - apply orb_false_iff in Hg as [Hne%none_empty Hsrc]. to_prop.
    case_bool_decide as Hpg; [done|]. destruct (hex_decode key_hex) as [key|]; [|done].
    destruct (Nat.eqb _ 32) eqn:Hlen; [|done]. apply Nat.eqb_eq in Hlen. simpl in Hc1.
    case_bool_decide as Hw; [done|]. injection Hc1 as <-. simpl in *.
    assert (Hs : OIDCTeamClaimSource cfg = "id_token" ∨ OIDCTeamClaimSource cfg = "userinfo").
    { destruct (decide (OIDCTeamClaimSource cfg = "id_token")); [by left|].
      destruct (decide (OIDCTeamClaimSource cfg = "userinfo")); [by right|]. tauto. }
    unfold oidc in Hne. repeat match goal with Hf : Forall _ (_ :: _) |- _ => apply Forall_cons in Hf as [? Hf] end.
    split; simpl; try done.
    + right. repeat constructor; try done. by destruct Hs as [->| ->].
    + destruct Hs as [->| ->]; set_solver.
    + intros _. tauto.
  - injection Hc1 as <-. apply all_empty in Hcfg. unfold oidc in Hcfg. simpl in Hcfg. split; try done.
    + by left.
    + repeat match goal with Hf : Forall _ (_ :: _) |- _ => apply Forall_cons in Hf as [? Hf] end.
      set_solver.
    + apply Forall_cons in Hcfg as [? _]. done.
Qed.

(** The checks change nothing but the session key. *)
Lemma check_settings_keeps key_hex cfg cfg' :
  check_settings key_hex cfg = Ok cfg' →
  BindPort cfg' = BindPort cfg ∧ MembershipMaxAge cfg' = MembershipMaxAge cfg ∧
  WorkingTokenTTL cfg' = WorkingTokenTTL cfg ∧ AdminJWKSTimeout cfg' = AdminJWKSTimeout cfg ∧
  AdminTokenMaxAge cfg' = AdminTokenMaxAge cfg ∧ AdminClockSkew cfg' = AdminClockSkew cfg ∧
  SessionTTL cfg' = SessionTTL cfg ∧ OIDCEndpointTimeout cfg' = OIDCEndpointTimeout cfg.
Proof using.
  unfold check_settings. destruct (_ && (_ || _)); [done|]. intros (c1 & Hc1 & Hrest)%bind_result_ok.
  destruct (_ && _) in Hrest; [done|]. destruct (negb _) in Hrest; [done|]. injection Hrest as <-.
  destruct (existsb _ _) in Hc1; [|by injection Hc1 as <-].
  case_bool_decide; [done|]. destruct (hex_decode key_hex); [|done]. destruct (negb _) in Hc1; [done|].
  case_bool_decide; [done|]. by injection Hc1 as <-.
Qed.

(** C40. The configuration that Load accepts: a port a listener can have, durations that are positive, or
    not negative where zero has a meaning, the settings of the operators' identity provider all
    present or all absent and then with a database, a session key of 32 bytes and a complete
    working-token key, those of the administrators' provider and the State Registry likewise, and only
    RSA signature algorithms. *)
Theorem Load_accepts getenv cfg :
  Load getenv = Ok cfg →
  0 ≤ BindPort cfg ≤ 65535 ∧ 0 ≤ MembershipMaxAge cfg ∧ 0 < WorkingTokenTTL cfg ∧ 0 < AdminJWKSTimeout cfg ∧
  0 < AdminTokenMaxAge cfg ∧ 0 ≤ AdminClockSkew cfg ∧ 0 < SessionTTL cfg ∧ 0 < OIDCEndpointTimeout cfg ∧
  settings_ok cfg.
Proof using.
  unfold Load. intros Hl.
  repeat match goal with Hx : bind_result _ _ = Ok _ |- _ => apply bind_result_ok in Hx as (? & ? & Hx) end.
  match goal with Hp : bind_port _ = Ok _ |- _ => apply bind_port_ok in Hp end.
  repeat match goal with Hd : duration_setting _ _ _ _ = Ok _ |- _ =>
    apply duration_setting_ok in Hd; [|unfold minute, second; lia] end.
  pose proof (check_settings_ok _ _ _ Hl) as Hok. apply check_settings_keeps in Hl.
  destruct Hl as (-> & -> & -> & -> & -> & -> & -> & ->). simpl. tauto.
Qed.

(** ** What a start trusts *)

(** What Verify accepts under a verifier. *)
Lemma verify_with_trust v now h key p0 p1 p2 claims :
  verify_with v now h key p0 p1 p2 = Some claims →
  obj_lookup "iss" claims = Some (JStr (vc_issuer v)) ∧
  audienceContains (obj_lookup "aud" claims) (vc_audience v) = true ∧
  ∃ public hashID signature, rsaKey key = Some public ∧ hashFor (jh_alg h) = Some hashID ∧
    decode p2 = Some signature ∧ rsa_verify public hashID (p0 +:+ String "." p1) signature = true.
Proof using.
  unfold verify_with. destruct (_ || _); [done|].
  destruct (rsaKey key) as [public|]; [|done]. destruct (decode p2) as [signature|]; [|done].
  destruct (hashFor (jh_alg h)) as [hashID|]; [|done]. destruct (rsa_verify _ _ _ _) eqn:Hv; [|done]. simpl.
  destruct (decode p1 ≫= jwt_claims_decode) as [c|]; [|done].
  destruct (validRegisteredClaims v c now) eqn:Hc; [|done]. intros [= <-].
  unfold validRegisteredClaims in Hc. destruct (obj_lookup "iss" c) as [[| | |iss| |]|]; try done.
  case_bool_decide as Hi; [done|]. subst iss.
  destruct (audienceContains _ _) eqn:Ha; [|done]. split_and!; [done|done|]. by exists public, hashID, signature.
Qed.

Lemma token_header_alg v p0 h : token_header v p0 = Some h → jh_alg h ∈ vc_algorithms v.
Proof using.
  unfold token_header. destruct (decode p0 ≫= _) as [h'|]; [|done]. destruct (_ || _) eqn:E; [done|].
  intros [= <-]. apply orb_false_iff in E as [_ E]. apply negb_false_iff in E. unfold contains in E. by to_prop.
Qed.

Lemma NewFlow_ok answer cfg σ σ' f :
  alone answer (NewFlow cfg) σ = Some (σ', Ok f) →
  fc_issuer (fl_cfg f) = fc_issuer cfg ∧ fc_client (fl_cfg f) = fc_client cfg ∧
  vc_issuer (fl_verifier f) = fc_issuer cfg ∧ vc_audience (fl_verifier f) = fc_client cfg ∧
  vc_algorithms (fl_verifier f) = ["RS256"; "RS384"; "RS512"] ∧
  dc_issuer (fl_discovery f) = fc_issuer cfg ∧ vc_jwks_url (fl_verifier f) = dc_jwks (fl_discovery f) ∧
  adapter_Validate (fc_teams (fl_cfg f)) = None.
Proof using.
  unfold NewFlow. destruct (negb (url_absolute (fc_issuer cfg))); [done|]. case_bool_decide; [done|].
  destruct (negb (url_absolute (fc_redirect cfg))); [done|].
  destruct ((fc_timeout cfg <=? 0) || _); [done|].
  destruct (NormalizeScopes _) as [scopes|]; [|done]. simpl.
  destruct (answer _) as [response|]; [|done]. case_bool_decide; [done|].
  destruct (discovery_decode _) as [dc|]; [|done].
  case_bool_decide as Hi; [done|].
  destruct (negb (_ && _)); [done|]. case_bool_decide; [done|]. destruct (_ && _); [done|].
  destruct (adapter_Validate _) eqn:Ha; [done|]. destruct (_ || _); [done|].
  destruct (verifier_New _ _); [done|]. intros [= _ <-]. by simpl.
Qed.

(** The tokens a verifier takes: of one issuer, for one audience, signed by RSA. *)
Definition trusts (v : VerifierConfig) (issuer audience : string) : Prop :=
  ∀ now h key p0 p1 p2 claims, token_header v p0 = Some h → verify_with v now h key p0 p1 p2 = Some claims →
    obj_lookup "iss" claims = Some (JStr issuer) ∧ audienceContains (obj_lookup "aud" claims) audience = true ∧
    jh_alg h ∈ ["RS256"; "RS384"; "RS512"].

Lemma trusts_verifier v issuer audience :
  vc_issuer v = issuer → vc_audience v = audience → vc_algorithms v ⊆ ["RS256"; "RS384"; "RS512"] →
  trusts v issuer audience.
Proof using.
  intros <- <- Ha now h key p0 p1 p2 claims Hh Hv. apply verify_with_trust in Hv as (? & ? & _).
  split_and!; [done|done|]. by apply Ha, (token_header_alg v p0).
Qed.

Lemma setup_admin_ok cfg d d' :
  setup_admin cfg d = Ok d' → Forall (λ a, a ∈ ["RS256"; "RS384"; "RS512"]) (AdminAlgorithms cfg) →
  d_login d' = d_login d ∧ d_oidc d' = d_oidc d ∧ d_membership d' = d_membership d ∧ d_sessions d' = d_sessions d ∧
  d_cipher d' = d_cipher d ∧ d_working d' = d_working d ∧ d_proxy d' = d_proxy d ∧
  (d_admin d = None → AdminIssuer cfg = "" → d_admin d' = None) ∧
  (AdminIssuer cfg ≠ "" → d_issuer d' = OIDCIssuer cfg ∧ ∃ a, d_admin d' = Some a ∧ au_role a = "flowai-system-admin" ∧
     trusts (au_verifier a) (AdminIssuer cfg) (AdminAudience cfg)).
Proof using.
  unfold setup_admin. case_bool_decide as Ha; [by intros [= <-]|].
  destruct (verifier_New _ _); [done|]. unfold authenticator_New. case_bool_decide; [done|].
  destruct (negb _); [done|]. simpl. destruct (registry_New _ _); [|done]. simpl. intros [= <-] Hal. simpl.
  split_and!; try done. intros _. split; [done|]. eexists. split_and!; [done|done|].
  apply trusts_verifier; [done|done|]. simpl. intros x Hx. rewrite Forall_forall in Hal. by apply Hal.
Qed.

(** C19. What a started gateway trusts. Once a configuration that Load accepted and that names an identity
    provider has been set up, all of its handlers have their parts; a login and a refresh accept ID tokens of
    the configured issuer for the configured client only, under RSA signatures, and the discovery document
    that named the keys carried that issuer; an administrator is accepted only with a token of the configured
    administrators' issuer and audience and the role flowai-system-admin, for mappings of the operators'
    issuer, and nobody is when no administrators' provider is configured. *)
Theorem setup_trust getenv cfg database answer σ σ' d :
  Load getenv = Ok cfg → OIDCIssuer cfg ≠ "" → alone answer (setup cfg database) σ = Some (σ', Ok d) →
  ∃ f s, d_login d = Some f ∧ d_oidc d = Some f ∧ d_membership d = Some f ∧ d_working d = Some s ∧
    d_sessions d = true ∧ d_cipher d = Some (SessionKey cfg) ∧ d_proxy d = StateRegistryURL cfg ∧
    0 < sg_ttl s ∧ sg_issuer s = WorkingTokenIssuer cfg ∧ sg_audience s = WorkingTokenAudience cfg ∧
    fc_issuer (fl_cfg f) = OIDCIssuer cfg ∧ dc_issuer (fl_discovery f) = OIDCIssuer cfg ∧
    vc_jwks_url (fl_verifier f) = dc_jwks (fl_discovery f) ∧
    trusts (fl_verifier f) (OIDCIssuer cfg) (OIDCClientID cfg) ∧
    match d_admin d with
    | Some a => AdminIssuer cfg ≠ "" ∧ d_issuer d = OIDCIssuer cfg ∧ au_role a = "flowai-system-admin" ∧
                trusts (au_verifier a) (AdminIssuer cfg) (AdminAudience cfg)
    | None => AdminIssuer cfg = ""
    end.
Proof using.
  intros Hload Hne Hrun. assert (Hset : settings_ok cfg).
  { unfold Load in Hload.
    repeat match goal with Hx : bind_result _ _ = Ok _ |- _ => apply bind_result_ok in Hx as (? & ? & Hx) end.
    by eapply check_settings_ok. }
  unfold setup in Hrun. rewrite bool_decide_eq_false_2 in Hrun by done.
  destruct database; [done|]. unfold cipher_New in Hrun.
  destruct (Nat.eqb _ 32) in Hrun; [|done]. rewrite alone_bind in Hrun.
  destruct (alone answer (NewFlow _) σ) as [[σ1 [f|]]|] eqn:Hf in Hrun; try done.
  apply NewFlow_ok in Hf as (Hf1 & Hf2 & Hf3 & Hf4 & Hf5 & Hf6 & Hf7 & _). simpl in *.
  destruct (pem_rsa_key _) as [[bits key]|]; [|done]. simpl in Hrun. unfold signer_New in Hrun.
  destruct (_ || _) eqn:Hs in Hrun; [done|]. simpl in Hrun. injection Hrun as _ Hd.
  apply orb_false_iff in Hs as [_ Httl]. apply Z.leb_gt in Httl.
  apply setup_admin_ok in Hd as (-> & -> & -> & -> & -> & -> & -> & Hno & Hadm); [|apply Hset].
  eexists f, _. simpl. split_and!; try done.
  - apply trusts_verifier; try done. by rewrite Hf5.
  - destruct (decide (AdminIssuer cfg = "")) as [He|He].
    + by rewrite (Hno eq_refl He).
    + destruct (Hadm He) as (? & a & -> & ? & ?). done.
Qed.
End config.
