(* ===== verification/GatewayRun.v ===== *)
(** * A gateway to run

    Concrete codecs, keys and providers, and one history of the gateway: an administrator maps an
    external team, an operator logs in, is given a working token and sends a request through the
    proxy. The witnesses of the gateway's theorems are taken from it. *)

From stdpp Require Import base gmap sets strings list relations.
From Stdlib Require Import Ascii.
From S2P Require Import Prelude Platform Tx GoStrings Base64 ScopeToken Fixtures JwtClaims WorkingToken.
From S2P Require Import GatewayStore Conc Gateway GatewaySafe GatewayProps GatewayConfig.
#[local] Open Scope Z_scope.
#[local] Existing Instances pg_micros collation_C time_bits toy_aead.

(** ** Codecs *)

Definition sha_mark : Sha256 := {| sha256 s := "#" +:+ s |}.

Definition jose_header_fields (h : jwt_header) : string := fields [jh_alg h; jh_kid h; jh_typ h].
Definition jose_header_unfields (s : string) : option jwt_header :=
  match unfields s [] with Some [a; k; t] => Some (mkJwtHeader a k t) | _ => None end.

(** Claims of the two identity providers, by name. *)
Definition gw_clock : Z := 1000 * second.
Definition gw_draw : string := "draw".
Definition registered_claims (audience subject : string) : claims_map :=
  [("iss", JStr "https://idp"); ("aud", JStr audience); ("sub", JStr subject); ("iat", JNum 990 0);
   ("exp", JNum 2000 0)].
Definition operator_claims : claims_map :=
  registered_claims "web" "alice" ++ [("nonce", JStr (encode gw_draw)); ("groups", JArr [JStr "g1"])].
Definition admin_claims : claims_map :=
  registered_claims "admin-api" "root" ++ [("roles", JArr [JStr "admin"])].

Definition gw_jwk : jwk := mkJwk "k1" "RSA" "" "" "Tg" "AQAB".

(** A signature is the message itself. *)
Definition jose_plain : Jose.
Proof.
  refine {| jwt_header_decode := jose_header_unfields;
            jwt_claims_decode s := if bool_decide (s = "operator") then Some operator_claims
                                   else if bool_decide (s = "admin") then Some admin_claims else None;
            jwks_decode s := if bool_decide (s = "keys") then Some [gw_jwk] else None;
            rsa_verify k h m s := bool_decide (s = m); rsa_public k := (0, 0); rsa_sign k h m := Some m |}.
  intros k h m s [= ->]. by apply bool_decide_eq_true_2.
Defined.
#[local] Existing Instances sha_mark jose_plain.

Definition working_fields (c : WorkingClaims) : string :=
  fields ([wc_issuer c; wc_audience c; wc_subject c; wc_operator c; wc_team c;
           format_rfc3339 (wc_issued c); format_rfc3339 (wc_expires c); wc_jti c] ++ option_list (wc_team_name c)).
Definition working_unfields (s : string) : option WorkingClaims :=
  match unfields s [] with
  | Some (i :: a :: su :: o :: t :: is_ :: ex :: j :: name) =>
      issued ← parse_rfc3339 is_; expires ← parse_rfc3339 ex;
      Some (mkWorkingClaims i a su o t (head name) issued expires j)
  | _ => None
  end.

Definition working_plain : WorkingCodec.
Proof.
  refine {| working_header_json := jose_header_fields; working_claims_json := working_fields;
            working_claims_decode := working_unfields; plain_text _ := True |}; [done|..].
  - intros [a k t] _. simpl. unfold jose_header_unfields, jose_header_fields. by rewrite unfields_fields.
  - intros [i a su o t n is_ ex j] _ _ _ _ _ _ _ _ _. unfold working_unfields, working_fields.
    rewrite unfields_fields. cbn -[parse_rfc3339 format_rfc3339]. rewrite !parse_format. by destruct n.
Defined.
#[local] Existing Instance working_plain.

Definition jwt_of (document : string) : string :=
  let input := join2 (encode (jose_header_fields (mkJwtHeader "RS256" "k1" "JWT"))) (encode document) in
  join2 input (encode input).

Definition gateway_plain : GatewayCodec := {|
  json_first s := if bool_decide (s = "{}") then Some (JObj []) else None;
  token_response_decode s :=
    if bool_decide (s = "tokens") then Some (mkTokenResponse "access" "refresh" (jwt_of "operator") "Bearer" 3600)
    else None;
  discovery_decode s :=
    if bool_decide (s = "discovery") then
      Some (mkDiscovery "https://idp" "https://idp/auth" "https://idp/token" "https://idp/userinfo" "https://idp/keys")
    else None;
  team_decode s := if bool_decide (s = "team") then Some (mkTeam "team1" "Team" None) else None;
  provider_state_json p := ps_refresh p;
  provider_state_decode s := Some (mkProviderState "" s None);
  token_request_decode s := Some s;
  mapping_request_decode s := if bool_decide (s = "map") then Some ("https://idp", "g1", "team1") else None;
  url_absolute s := true;
  url_with_query base q := base;
  url_resolve base path q := Some (base +:+ path);
  url_websocket base path q := Some (base +:+ path);
|}.
#[local] Existing Instance gateway_plain.

(** ** Configuration *)

Definition gw_verifier (audience : string) : VerifierConfig :=
  mkVerifier "https://idp" audience "https://idp/keys" ["RS256"] 0 (300 * second) second.
Definition gw_flow : Flow := mkFlow
  (mkFlowConfig "https://idp" "web" "https://gw/auth/v1/callback" ["openid"] second (300 * second) 0
     (300 * second) (mkAdapter StringArray "/groups" "" "") "id_token")
  (mkDiscovery "https://idp" "https://idp/auth" "https://idp/token" "https://idp/userinfo" "https://idp/keys")
  (gw_verifier "web").
Definition gw_signer : Signer := mkSigner "key" "w1" "gateway" "registry" (300 * second).
Definition gw_cipher_key : string := "0123456789abcdef0123456789abcdef".
Definition gw : Dependencies := mkDependencies "https://idp"
  (Some (mkAuthenticator (gw_verifier "admin-api") "/roles" "admin")) true true true (Some gw_flow) (Some gw_flow)
  true (Some gw_cipher_key) (3600 * second) 0 (Some gw_flow) "https://ui" (Some gw_signer) "https://registry".

(** ** The history *)

Definition gw_request (method path : string) (query : list (string * string)) (hs : header)
    (cookie : option string) (body : string) : request :=
  mkRequest method path "" query hs cookie body false [].

Definition gw_env : TxEnv := mkTxEnv gw_clock gw_clock (λ _, "") (λ _, false) None false (λ _, None).

(** What everything outside answers; [r] is the next request. *)
Definition gw_world (r : request) (c : gcall) : gres c :=
  match c return gres c with
  | GAccept => r
  | GNow => gw_clock
  | GRandom size => Some (if Z.eqb size 12 then "0123456789ab" else gw_draw)
  | GRequestID => "req-1"
  | GTxEnv => gw_env
  | GGet _ _ => Some (mkResponse 200 [] "keys")
  | GPostForm _ _ => Some (mkResponse 200 [] "tokens")
  | GReadTeam _ _ => Some (mkResponse 200 [] "team")
  | GForward _ _ _ _ => Some (mkResponse 200 [("Content-Type", ["application/json"]); ("Connection", ["close"])] "{}")
  | GDial _ _ => Some 0%nat
  | GUpgrade _ | GTimer _ _ | GWrite _ _ _ => true
  | GRead _ _ => None
  | GSelect _ | GCloseFrame _ _ _ | GClose _ | GRespond _ => ()
  end.

(** The listener accepts a request; its goroutine makes [n] steps. *)
Definition gw_serve (r : request) (n : nat) (w : world Gate gthread gres) : world Gate gthread gres :=
  let w := run_schedule record_gate (gate_thread gw) (replicate 3 (0%nat, gw_world r)) w in
  run_schedule record_gate (gate_thread gw) (replicate n (1%nat, gw_world r)) w.

Definition gw_start : world Gate gthread gres := gate_process empty_gate [].
Definition gw_map : request :=
  gw_request "POST" "/admin/v1/oidc-team-mappings" [] [("Authorization", ["Bearer " +:+ jwt_of "admin"])] None "map".
Definition gw_login : request := gw_request "GET" "/auth/v1/login" [] [] None "".
Definition gw_callback : request :=
  gw_request "GET" "/auth/v1/callback" [("code", "c"); ("state", encode gw_draw)] [] None "".
Definition gw_token : request := gw_request "POST" "/auth/v1/token" [] [] (Some (encode gw_draw)) "team1".

(** The token the gateway is going to give out. *)
Definition gw_access : string :=
  default "" (tk_access <$> Sign gw_signer (operator_id "https://idp" "alice") "team1" (Some "Team") (Some gw_draw) gw_clock).
Definition gw_query : request :=
  gw_request "GET" "/ui/v1/tasks" []
    [("Authorization", ["Bearer " +:+ gw_access]); ("X-Flowai-Operator-Id", ["mallory"]); ("Accept", ["*/*"])] None "".

Definition responses (tr : list gevent) : list response :=
  omap (λ e, match e with Asked (GRespond r) _ => Some r | _ => None end) tr.

(** The worlds of the history, each at the end of its last request; two are stopped in the middle:
    as the working token is handed out, and as the request goes to the State Registry. *)
Definition gw_mapped : world Gate gthread gres := gw_serve gw_map 12 gw_start.
Definition gw_session : world Gate gthread gres := gw_serve gw_callback 20 (gw_serve gw_login 10 gw_mapped).
Definition gw_issuing : world Gate gthread gres := gw_serve gw_token 21 gw_session.
Definition gw_issued : world Gate gthread gres := gw_serve gw_token 30 gw_session.
Definition gw_forwarding : world Gate gthread gres := gw_serve gw_query 6 gw_issued.
Definition gw_done : world Gate gthread gres := gw_serve gw_query 12 gw_issued.

Lemma gw_serve_reachable r n w : reachable_gate gw w → reachable_gate gw (gw_serve r n w).
Proof.
  assert (Hrun : ∀ l w, reachable_gate gw w →
    reachable_gate gw (run_schedule record_gate (gate_thread gw) l w)).
  { intros l w0 Hw. unfold reachable_gate. etrans; [exact Hw|].
    eapply rtc_subrel; [|apply (run_schedule_steps record_gate sane_gate (gate_thread gw))].
    - intros x y Hxy. by constructor.
    - done. }
  intros Hw. by apply Hrun, Hrun.
Qed.

Lemma gw_start_reachable : reachable_gate gw gw_start.
Proof. apply rtc_refl. Qed.
#[local] Hint Resolve gw_serve_reachable gw_start_reachable : core.

(** What the browser and the administrator see. *)
Example gw_history :
  responses (g_trace (w_state gw_done)) =
    [RProxied 200 [("Content-Type", ["application/json"])] "{}"; RToken gw_access 300;
     RRedirect "https://ui" (Some (encode gw_draw, 3600)); RRedirect "https://idp/auth" None;
     RMapping 201 (mkMapping "https://idp" "g1" "team1" (Some "Team") None)].
Proof. by vm_compute. Qed.

(** The logins of a history. *)
Definition logins (tr : list gevent) : list SessionInput :=
  omap (λ e, match e with Stored (OpCreate i) _ => Some i | _ => None end) tr.

Lemma logins_distinct tr i : logins tr = [i] → sessions_distinct tr.
Proof.
  intros Hl j j' env env' Hj Hj' _.
  assert (Hin : ∀ j env, Stored (OpCreate j) env ∈ tr → j = i).
  { intros k e Hk. apply list_elem_of_singleton. rewrite <- Hl. apply list_elem_of_omap. eauto. }
  by rewrite (Hin _ _ Hj), (Hin _ _ Hj').
Qed.

Definition gw_login_row : SessionInput :=
  mkSessionInput (encode gw_draw) (operator_id "https://idp" "alice") "https://idp" "alice"
    ("0123456789ab" +:+ ("refresh" +:+ toy_tag (encode gw_draw))) ["g1"] gw_clock (gw_clock + 3600 * second).

(** ** The gateway's theorems on it *)

Lemma past_head (e : gevent) tr : head tr = Some e → past (e :: tail tr) tr.
Proof. destruct tr as [|e' tr]; [done|]. intros [= ->]. done. Qed.

Definition gw_headers : header_map :=
  set_context (mkWorkingClaims "gateway" "registry" (operator_id "https://idp" "alice") (operator_id "https://idp" "alice")
    "team1" (Some "Team") 1000 1300 (encode gw_draw)) "req-1" (copy_headers rest_skipped (rq_headers gw_query) ∅).

Lemma forwarded_proved_witness :
  ∃ c s token now now' before,
    gw_headers !! "X-Flowai-Operator-Id" = Some [wc_operator c] ∧ gw_headers !! "X-Flowai-Team-Id" = Some [wc_team c] ∧
    d_working gw = Some s ∧ signed_by s token c ∧ Asked GNow now ∈ tail (g_trace (w_state gw_forwarding)) ∧
    working_claims_ok s now c = true ∧ Asked GNow now' ∈ tail (g_trace (w_state gw_forwarding)) ∧
    past before (tail (g_trace (w_state gw_forwarding))) ∧ token_confirmed gw before c now'.
Proof.
  apply (forwarded_proved gw gw_forwarding
    (Asked (GForward "GET" "https://registry/ui/v1/tasks" gw_headers "")
       (Some (mkResponse 200 [("Content-Type", ["application/json"]); ("Connection", ["close"])] "{}")))).
  - unfold gw_forwarding, gw_issued, gw_session, gw_mapped. auto 10.
  - apply (logins_distinct _ gw_login_row). by vm_compute.
  - apply past_head. by vm_compute.
  - done.
Defined.

Lemma access_stands_witness :
  access_proved gw (g_trace (w_state gw_session)) (sha256 (encode gw_draw)) (operator_id "https://idp" "alice") "team1".
Proof.
  apply (access_stands gw gw_session (sha256 (encode gw_draw)) "team1"
    (mkAccessRow (operator_id "https://idp" "alice") "https://idp" "g1" gw_clock)).
  - unfold gw_session, gw_mapped. auto 10.
  - apply (logins_distinct _ gw_login_row). by vm_compute.
  - by vm_compute.
Defined.

Lemma issued_token_proved_witness :
  ∃ s c name bytes clock token recorded,
    d_working gw = Some s ∧ Sign s (tx_operator c) (tx_team c) name (Some bytes) clock = Some token ∧
    tk_access token = gw_access ∧ past recorded (tail (g_trace (w_state gw_issuing))) ∧
    gd_tokens (replay recorded) !! sha256 (tk_jti token)
      = Some (mkTokenRow (tx_session c) (tx_operator c) (tx_team c) (pg_ts (tk_issued token)) (pg_ts (tk_expires token))) ∧
    ∃ read now, past read recorded ∧ is_Some (live_session (tx_session c) now (replay read)) ∧
      access_proved gw read (tx_session c) (tx_operator c) (tx_team c).
Proof.
  apply (issued_token_proved gw gw_issuing _ gw_access 300 ()).
  - unfold gw_issuing, gw_session, gw_mapped. auto 10.
  - apply (logins_distinct _ gw_login_row). by vm_compute.
  - apply past_head. by vm_compute.
Defined.

Lemma valid_request_served_witness :
  let w := run_schedule record_gate (gate_thread gw) (replicate 3 (0%nat, gw_world gw_query)) gw_issued in
  ∃ w', rtc (gate_step gw) w w' ∧
    take 2 (g_trace (w_state w')) =
      [Asked (GRespond (RProxied 200 [("Content-Type", ["application/json"])] "{}")) ();
       Asked (GForward "GET" "https://registry/ui/v1/tasks" gw_headers "")
         (Some (mkResponse 200 [("Content-Type", ["application/json"]); ("Connection", ["close"])] "{}"))].
Proof.
  intros w.
  apply (valid_request_served gw (gw_world gw_query) w 1 gw_query gw_access gw_signer
    (mkWorkingClaims "gateway" "registry" (operator_id "https://idp" "alice") (operator_id "https://idp" "alice")
      "team1" (Some "Team") 1000 1300 (encode gw_draw)) "https://registry/ui/v1/tasks"
    (mkResponse 200 [("Content-Type", ["application/json"]); ("Connection", ["close"])] "{}"));
    try done; by vm_compute.
Defined.

Lemma store_refines_witness :
  ∃ d', perform_gate (OpDelete (encode gw_draw)) gw_env (g_db (w_state gw_session)) = (Ok (), d') ∧
    session_gone (sessionHash (encode gw_draw)) (g_db (w_state gw_session)) d' ∧ gate_ok d'.
Proof.
  destruct (perform_gate (OpDelete (encode gw_draw)) gw_env (g_db (w_state gw_session))) as [r d'] eqn:E.
  assert (Hr : r = Ok ()) by (change r with (r, d').1; rewrite <- E; by vm_compute).
  assert (Hok : gate_ok (g_db (w_state gw_session))).
  { assert (reachable_gate gw gw_session) as Hw by (unfold gw_session, gw_mapped; auto 10).
    destruct (gate_invariant _ _ Hw) as [-> _ _ _]. apply replay_ok. }
  destruct (store_refines _ _ _ _ _ Hok E) as [Hs Hd]. exists d'. subst r. split_and!; [done|apply Hs|done].
Defined.

Lemma Create_available_witness :
  (perform_gate (OpCreate gw_login_row) gw_env (g_db (w_state gw_mapped))).1 = Ok ().
Proof.
  apply Create_available.
  - assert (reachable_gate gw gw_mapped) as Hw by (unfold gw_mapped; auto 10).
    destruct (gate_invariant _ _ Hw) as [-> _ _ _]. apply replay_ok.
  - done.
  - vm_compute. discriminate.
  - vm_compute. discriminate.
  - vm_compute. discriminate.
  - vm_compute. discriminate.
  - vm_compute. discriminate.
  - by vm_compute.
  - by vm_compute.
  - by vm_compute.
  - apply NoDup_singleton.
  - cbn. by apply not_elem_of_cons; split; [|apply not_elem_of_nil].
Defined.

Lemma working_token_lifetime_witness :
  is_Some (working_Verify gw_signer gw_access (gw_clock + 299 * second)) ∧
  working_Verify gw_signer gw_access (gw_clock + 300 * second) = None.
Proof.
  destruct (Sign gw_signer (operator_id "https://idp" "alice") "team1" (Some "Team") (Some gw_draw) gw_clock)
    as [token|] eqn:E; [|vm_compute in E; discriminate E].
  assert (gw_access = tk_access token) as -> by (unfold gw_access; rewrite E; done).
  split.
  - rewrite (working_token_lifetime gw_signer (operator_id "https://idp" "alice") "team1" (Some "Team") gw_draw
      gw_clock _ token E); try done; by eexists.
  - rewrite (working_token_lifetime gw_signer (operator_id "https://idp" "alice") "team1" (Some "Team") gw_draw
      gw_clock _ token E); done.
Defined.

Lemma pointers_agree_witness :
  ValuesAtPointer admin_claims "/roles" = Ok ["admin"].
Proof.
  apply (pointers_agree admin_claims "/roles" ["roles"] ["admin"] eq_refl).
  exists [JStr "admin"]. split; reflexivity.
Defined.

Lemma in_window_spec_witness : in_window (gw_verifier "web") gw_clock 990 2000 = true.
Proof. apply in_window_spec; vm_compute; intuition discriminate. Defined.

(** ** Corners *)

(** A UserInfo answer without any claim: the subject and the teams of the ID token stay. *)
Example userinfo_adds_nothing :
  ∃ document, decode_into operator_claims "{}" = Some document ∧ sub_of document = Some "alice" ∧
    Normalize (fc_teams (fl_cfg gw_flow)) document = Ok ["g1"].
Proof. eexists. split_and!; by vm_compute. Qed.

Definition refused (p : go ()) (answer : ∀ c, gres c) (σ : Gate) : option response :=
  '(σ', _) ← alone answer p σ; head (responses (g_trace σ')).

(** Without a registry the token is called invalid. *)
Example no_registry :
  refused (proxyREST (mkDependencies "https://idp" None true true true None None true None 0 0 None "" (Some gw_signer) "")
    gw_query) (gw_world gw_query) (w_state gw_issued)
  = Some (RError 401 "invalid_working_token" "working token is invalid" "req-1").
Proof. by vm_compute. Qed.

(** A database that does not answer makes the team inaccessible. *)
Example database_down :
  refused (proxyREST gw gw_query)
    (λ c, match c return gres c with
          | GTxEnv => mkTxEnv gw_clock gw_clock (λ _, "") (λ _, true) None false (λ _, None)
          | c => gw_world gw_query c end) (w_state gw_issued)
  = Some (RError 403 "team_not_accessible" "team is not accessible" "req-1").
Proof. by vm_compute. Qed.

(** ** A start *)

Definition start_plain : StartCodec := {|
  parse_duration s := if bool_decide (s = "90s") then Some (90 * second) else None;
  std_base64_decode s := Some s;
  pem_rsa_key s := Some (2048, s);
  discovery_url s := s;
|}.
#[local] Existing Instance start_plain.

Definition gw_environment : gmap string string := list_to_map [
  ("API_GATEWAY_OIDC_ISSUER", "https://idp"); ("API_GATEWAY_OIDC_CLIENT_ID", "web");
  ("API_GATEWAY_OIDC_REDIRECT_URI", "https://gw/auth/v1/callback");
  ("API_GATEWAY_OIDC_TEAM_CLAIM_ADAPTER", "string_array"); ("API_GATEWAY_OIDC_TEAM_CLAIM_POINTER", "/groups");
  ("API_GATEWAY_OIDC_TEAM_CLAIM_SOURCE", "id_token"); ("API_GATEWAY_POSTGRES_URL", "postgres://");
  ("API_GATEWAY_SESSION_KEY_HEX", "000102030405060708090a0b0c0d0e0f101112131415161718191a1b1c1d1e1f");
  ("API_GATEWAY_WORKING_TOKEN_PRIVATE_KEY_BASE64", "key"); ("API_GATEWAY_WORKING_TOKEN_KEY_ID", "w1");
  ("API_GATEWAY_WORKING_TOKEN_ISSUER", "gateway"); ("API_GATEWAY_WORKING_TOKEN_AUDIENCE", "registry");
  ("API_GATEWAY_WORKING_TOKEN_TTL", "90s"); ("API_GATEWAY_ADMIN_ISSUER", "https://admin");
  ("API_GATEWAY_ADMIN_AUDIENCE", "admin-api"); ("API_GATEWAY_ADMIN_JWKS_URL", "https://admin/keys");
  ("API_GATEWAY_ADMIN_ROLE_CLAIM_POINTER", "/roles"); ("API_GATEWAY_STATE_REGISTRY_URL", "https://registry")].
Definition gw_getenv (name : string) : string := default "" (gw_environment !! name).

Definition gw_config : Config :=
  match Load gw_getenv with Ok cfg => cfg | Err _ => mkGatewayConfig "" 0 "" "" "" 0 "" "" "" "" "" [] 0 "" "" "" 0 ""
    "" "" "" "" "" [] 0 0 0 "" "" "" "" 0 end.

Lemma Load_accepts_witness : Load gw_getenv = Ok gw_config ∧ settings_ok gw_config.
Proof.
  assert (Load gw_getenv = Ok gw_config) as Hl by by vm_compute.
  destruct (Load_accepts gw_getenv gw_config Hl) as (_ & _ & _ & _ & _ & _ & _ & _ & Hok). by split.
Defined.

Definition gw_discovered (c : gcall) : gres c :=
  match c return gres c with
  | GGet _ _ => Some (mkResponse 200 [] "discovery")
  | c => gw_world gw_login c
  end.

(** The gateway of that configuration. *)
Definition gw_setup : option (Gate * result string Dependencies) :=
  alone gw_discovered (setup gw_config None) (w_state gw_start).
Definition gw_started : Dependencies :=
  match gw_setup with Some (_, Ok d) => d | _ => nothing end.

Lemma setup_trust_witness :
  ∃ f, d_oidc gw_started = Some f ∧ trusts (fl_verifier f) (OIDCIssuer gw_config) (OIDCClientID gw_config).
Proof.
  assert (Load gw_getenv = Ok gw_config) as Hl by by vm_compute.
  assert (OIDCIssuer gw_config ≠ "") as Hi by (vm_compute; discriminate).
  assert (alone gw_discovered (setup gw_config None) (w_state gw_start)
          = Some (default (w_state gw_start) (fst <$> gw_setup), Ok gw_started)) as Hs by by vm_compute.
  destruct (setup_trust gw_getenv gw_config None gw_discovered _ _ gw_started Hl Hi Hs)
    as (f & s & _ & Hf & _ & _ & _ & _ & _ & _ & _ & _ & _ & _ & _ & Ht & _).
  exact (ex_intro _ f (conj Hf Ht)).
Defined.
