(* ===== verification/Calendar.v ===== *)
(** * Civil dates (the functions of package time that the operator reads use)

    An instant is a number of nanoseconds since the start of 1970 in UTC and a day a number of
    days since then. Dates of the proleptic Gregorian calendar, weekdays, ISO weeks, and the
    texts the layouts "2006-01", "2006-01-02" and the format "%04d-W%02d" write and read. *)

From stdpp Require Import base list strings pretty.
From Stdlib Require Import Ascii.
From S2P Require Import Prelude Platform GoStrings Keyrings Cursor.
#[local] Open Scope Z_scope.

(** ** Dates and days *)

Definition leap (y : Z) : bool := (y mod 4 =? 0) && (negb (y mod 100 =? 0) || (y mod 400 =? 0)).

(** Days from the first of January of year zero to that of year [y]. *)
Definition year_days (y : Z) : Z := 365 * y + (y + 3) / 4 - (y + 99) / 100 + (y + 399) / 400.

Definition month_starts (l : bool) : list Z :=
  if l then [0; 31; 60; 91; 121; 152; 182; 213; 244; 274; 305; 335; 366]
  else [0; 31; 59; 90; 120; 151; 181; 212; 243; 273; 304; 334; 365].
Definition month_start (l : bool) (m : Z) : Z := default 0 (month_starts l !! Z.to_nat (m - 1)).
Definition month_length (y m : Z) : Z := month_start (leap y) (m + 1) - month_start (leap y) m.

(** The day number of the first of January 1970. *)
Definition epoch_days : Z := year_days 1970.

(** time.Date at midnight: months outside their range move the year, days outside theirs the
    date. *)
Definition days (y m d : Z) : Z :=
  let y' := y + (m - 1) / 12 in
  year_days y' + month_start (leap y') ((m - 1) mod 12 + 1) + d - 1 - epoch_days.

Definition year_of (z : Z) : Z :=
  let n := z + epoch_days in
  let y := 400 * n / 146097 in
  if year_days (y + 1) <=? n then y + 1 else if year_days y <=? n then y else y - 1.

(** The day in its year, from zero: YearDay less one. *)
Definition yday (z : Z) : Z := z + epoch_days - year_days (year_of z).

(** The month of a day of a year: the number of months that have begun. *)
Definition month_in (l : bool) (k : Z) : Z :=
  Z.of_nat (length (filter (λ s, s ≤ k) (take 12 (month_starts l)))).
Definition month_of (z : Z) : Z := month_in (leap (year_of z)) (yday z).
Definition day_of_month (z : Z) : Z := yday z - month_start (leap (year_of z)) (month_of z) + 1.

(** Sunday is zero. *)
Definition Weekday (z : Z) : Z := (z + 4) mod 7.
Definition since_monday (z : Z) : Z := (Weekday z + 6) mod 7.

(** ISOWeek: the year of the Thursday of the week, and the number of that Thursday in it. *)
Definition ISOWeek (z : Z) : Z * Z :=
  let thursday := z - since_monday z + 3 in (year_of thursday, yday thursday / 7 + 1).

Definition day_ns : Z := 86400 * 10 ^ 9.
Definition day_of (t : Z) : Z := t / day_ns.
Definition midnight (z : Z) : Z := z * day_ns.

(** AddDate by days, and by months, of an instant in UTC. *)
Definition add_days (t n : Z) : Z := t + n * day_ns.
Definition add_months (t n : Z) : Z :=
  let z := day_of t in
  midnight (days (year_of z) (month_of z + n) (day_of_month z)) + (t - midnight z).

(** ** Texts *)

Definition digit (n : Z) : ascii := ascii_of_nat (Z.to_nat (48 + n)).

(** The last [w] decimal digits. *)
Fixpoint digits (w : nat) (n : Z) : list ascii :=
  match w with O => [] | S w' => digits w' (n / 10) ++ [digit (n mod 10)] end.

(** A number of at least [w] digits. *)
Definition zero_pad (w : nat) (n : Z) : list ascii :=
  if n <? 10 ^ Z.of_nat w then digits w n else chars (pretty (Z.to_N n)).

(** fmt's %0wd counts the sign in the width; the year of a layout does not. *)
Definition sprintf_pad (w : nat) (n : Z) : list ascii :=
  if n <? 0 then "-"%char :: zero_pad (w - 1) (- n) else zero_pad w n.
Definition layout_year (y : Z) : list ascii :=
  if y <? 0 then "-"%char :: zero_pad 4 (- y) else zero_pad 4 y.

(** fmt.Sprintf("%04d-W%02d"). *)
Definition week_key (year week : Z) : string :=
  of_chars (sprintf_pad 4 year ++ ["-"; "W"]%char ++ sprintf_pad 2 week).

Definition format_month (z : Z) : string :=
  of_chars (layout_year (year_of z) ++ ["-"%char] ++ zero_pad 2 (month_of z)).
Definition format_date (z : Z) : string :=
  of_chars (layout_year (year_of z) ++ ["-"%char] ++ zero_pad 2 (month_of z)
              ++ ["-"%char] ++ zero_pad 2 (day_of_month z)).

(** Parsing with the layouts: the year and the month of a text that starts with "2006-01", and
    what follows. *)
Definition parse_year_month (l : list ascii) : option (Z * Z * list ascii) :=
  match l with
  | a :: b :: c :: d :: "-"%char :: m :: n :: rest =>
      if forallb is_digit [a; b; c; d; m; n] then
        let month := decimal_value [m; n] in
        if (1 <=? month) && (month <=? 12) then Some (decimal_value [a; b; c; d], month, rest)
        else None
      else None
  | _ => None
  end.

Definition parse_month (s : string) : option Z :=
  match parse_year_month (chars s) with
  | Some (y, m, []) => Some (days y m 1)
  | _ => None
  end.

Definition parse_date (s : string) : option Z :=
  match parse_year_month (chars s) with
  | Some (y, m, ["-"%char; a; b]) =>
      let d := decimal_value [a; b] in
      if forallb is_digit [a; b] && (1 <=? d) && (d <=? month_length y m) then Some (days y m d)
      else None
  | _ => None
  end.

Fixpoint digit_prefix (l : list ascii) : list ascii :=
  match l with
  | c :: l' => if is_digit c then c :: digit_prefix l' else []
  | [] => []
  end.

(** Scanning %0wd: an optional sign and digits, in at most [w] characters. The spaces it skips
    first are left out: a key with one differs from the key made of its numbers. *)
Definition scan_int (w : nat) (l : list ascii) : option (Z * list ascii) :=
  let window := take w l in
  let sign := match window with
              | c :: _ => bool_decide (c = "-"%char) || bool_decide (c = "+"%char)
              | [] => false
              end in
  let negative := bool_decide (head window = Some "-"%char) in
  let ds := digit_prefix (if sign then drop 1 window else window) in
  if bool_decide (ds = []) then None
  else Some (if negative then - decimal_value ds else decimal_value ds,
             drop (length ds + if sign then 1 else 0) l).

(** fmt.Sscanf(s, "%04d-W%02d"); what follows is ignored. *)
Definition scan_week (s : string) : option (Z * Z) :=
  match scan_int 4 (chars s) with
  | Some (year, "-"%char :: "W"%char :: rest) =>
      match scan_int 2 rest with Some (week, _) => Some (year, week) | None => None end
  | _ => None
  end.

(** ** Laws of the calendar *)

Lemma year_days_mono y : year_days y + 365 ≤ year_days (y + 1) ≤ year_days y + 366.
Proof. unfold year_days. Z.to_euclidean_division_equations. lia. Qed.

Lemma year_length y : year_days (y + 1) - year_days y = if leap y then 366 else 365.
Proof.
  unfold year_days, leap.
  destruct (y mod 4 =? 0) eqn:E4, (y mod 100 =? 0) eqn:E100, (y mod 400 =? 0) eqn:E400; cbn [andb orb negb];
    rewrite ?Z.eqb_eq, ?Z.eqb_neq in *; Z.to_euclidean_division_equations; lia.
Qed.

Lemma year_of_spec z :
  year_days (year_of z) ≤ z + epoch_days < year_days (year_of z + 1).
Proof.
  unfold year_of. generalize (z + epoch_days) as n. intros n. cbv zeta.
  set (y := 400 * n / 146097).
  assert (year_days (y - 1) ≤ n < year_days (y + 2)) as [H1 H2].
  { unfold year_days, y. Z.to_euclidean_division_equations. lia. }
  destruct (_ <=? n) eqn:E1; [apply Z.leb_le in E1; replace (y + 1 + 1) with (y + 2) by lia; lia|].
  apply Z.leb_gt in E1. destruct (year_days y <=? n) eqn:E2; [apply Z.leb_le in E2; lia|].
  apply Z.leb_gt in E2. replace (y - 1 + 1) with y by lia. lia.
Qed.

Lemma year_days_le y y' : y ≤ y' → year_days y ≤ year_days y'.
Proof. intros H. unfold year_days. Z.to_euclidean_division_equations. lia. Qed.

Lemma year_of_unique z y :
  year_days y ≤ z + epoch_days < year_days (y + 1) → year_of z = y.
Proof.
  intros H. pose proof (year_of_spec z) as H'.
  destruct (Z.lt_trichotomy (year_of z) y) as [Hl|[?|Hl]]; [|done|].
  - pose proof (year_days_le (year_of z + 1) y). lia.
  - pose proof (year_days_le (y + 1) (year_of z)). lia.
Qed.

Lemma year_of_mono a b : a ≤ b → year_of a ≤ year_of b.
Proof.
  intros Hab. apply Z.nlt_ge. intros Hlt. pose proof (year_of_spec a). pose proof (year_of_spec b).
  pose proof (year_days_le (year_of b + 1) (year_of a)). lia.
Qed.

Lemma yday_range z : 0 ≤ yday z < if leap (year_of z) then 366 else 365.
Proof. unfold yday. pose proof (year_of_spec z). pose proof (year_length (year_of z)). lia. Qed.

(** The months of a year: each day lies in one, the month of its number. *)
Definition month_check (l : bool) (k : Z) : bool :=
  let m := month_in l k in
  (1 <=? m) && (m <=? 12) && (month_start l m <=? k) && (k <? month_start l (m + 1)).
Definition length_check (l : bool) (m : Z) : bool :=
  (28 <=? month_start l (m + 1) - month_start l m) && (month_start l (m + 1) - month_start l m <=? 31) &&
  (0 <=? month_start l m) && (month_start l (m + 1) <=? if l then 366 else 365) &&
  forallb (λ d, month_in l (month_start l m + d) =? m)
    (seqZ 0 (month_start l (m + 1) - month_start l m)).

Lemma calendar_checked (l : bool) :
  forallb (month_check l) (seqZ 0 (if l then 366 else 365)) && forallb (length_check l) (seqZ 1 12) = true.
Proof. destruct l; vm_compute; reflexivity. Qed.

Lemma month_in_spec (l : bool) k :
  0 ≤ k < (if l then 366 else 365) →
  1 ≤ month_in l k ≤ 12 ∧ month_start l (month_in l k) ≤ k < month_start l (month_in l k + 1).
Proof.
  intros Hk. pose proof (calendar_checked l) as [Hc _]%andb_true_iff.
  rewrite forallb_forall in Hc. specialize (Hc k). rewrite <- list_elem_of_In, elem_of_seqZ in Hc.
  assert (month_check l k = true) as Hm by (apply Hc; lia).
  unfold month_check in Hm. rewrite !andb_true_iff, !Z.leb_le, Z.ltb_lt in Hm. lia.
Qed.

Lemma month_length_spec (l : bool) m :
  1 ≤ m ≤ 12 →
  28 ≤ month_start l (m + 1) - month_start l m ≤ 31 ∧ 0 ≤ month_start l m ∧
  month_start l (m + 1) ≤ (if l then 366 else 365) ∧
  ∀ d, 0 ≤ d < month_start l (m + 1) - month_start l m → month_in l (month_start l m + d) = m.
Proof.
  intros Hm. pose proof (calendar_checked l) as [_ Hc]%andb_true_iff.
  rewrite forallb_forall in Hc. specialize (Hc m). rewrite <- list_elem_of_In, elem_of_seqZ in Hc.
  assert (length_check l m = true) as Hl by (apply Hc; lia).
  unfold length_check in Hl. rewrite !andb_true_iff, !Z.leb_le, forallb_forall in Hl.
  destruct Hl as [[[[? ?] ?] ?] Hd]. split_and!; [lia..|].
  intros d Hdr. apply Z.eqb_eq, Hd. rewrite <- list_elem_of_In, elem_of_seqZ. lia.
Qed.

Lemma month_of_range z : 1 ≤ month_of z ≤ 12.
Proof. apply month_in_spec, yday_range. Qed.

Lemma day_of_month_range z : 1 ≤ day_of_month z ≤ month_length (year_of z) (month_of z).
Proof.
  unfold day_of_month, month_length. pose proof (month_in_spec _ _ (yday_range z)). unfold month_of. lia.
Qed.

Lemma days_normal y m d :
  1 ≤ m ≤ 12 → days y m d = year_days y + month_start (leap y) m + d - 1 - epoch_days.
Proof.
  intros Hm. unfold days. rewrite Z.div_small, Z.mod_small by lia.
  rewrite Z.add_0_r. by replace (m - 1 + 1) with m by lia.
Qed.

(** The day of the date of a day is that day. *)
Lemma days_of_date z : days (year_of z) (month_of z) (day_of_month z) = z.
Proof.
  rewrite days_normal by apply month_of_range. unfold day_of_month, yday. lia.
Qed.

(** The date of the day of a date is that date. *)
Lemma date_of_days y m d :
  1 ≤ m ≤ 12 → 1 ≤ d ≤ month_length y m →
  year_of (days y m d) = y ∧ month_of (days y m d) = m ∧ day_of_month (days y m d) = d.
Proof.
  intros Hm Hd. unfold month_length in Hd.
  pose proof (month_length_spec (leap y) m Hm) as (? & ? & ? & Hin).
  pose proof (year_length y) as Hy.
  assert (year_of (days y m d) = y) as Hyear.
  { apply year_of_unique. rewrite days_normal by done. lia. }
  assert (yday (days y m d) = month_start (leap y) m + (d - 1)) as Hyd.
  { unfold yday. rewrite Hyear, days_normal by done. lia. }
  assert (month_of (days y m d) = m) as Hmonth.
  { unfold month_of. rewrite Hyear, Hyd. apply Hin. lia. }
  split_and!; [done..|]. unfold day_of_month. rewrite Hyear, Hmonth, Hyd. lia.
Qed.

(** The first of the month after. *)
Lemma days_next_month y m :
  1 ≤ m ≤ 12 → days y (m + 1) 1 = days y m 1 + month_length y m.
Proof.
  intros Hm. rewrite (days_normal y m 1) by done. unfold month_length.
  destruct (decide (m = 12)) as [->|Hne]; [|rewrite days_normal by lia; lia].
  unfold days. change ((12 + 1 - 1) / 12) with 1. change ((12 + 1 - 1) mod 12 + 1) with 1.
  assert (∀ l, month_start l 1 = 0) as -> by (by intros []).
  assert (∀ l : bool, month_start l (12 + 1) = if l then 366 else 365) as -> by (by intros []).
  pose proof (year_length y). cbv zeta. lia.
Qed.

Lemma month_length_range y m : 1 ≤ m ≤ 12 → 28 ≤ month_length y m ≤ 31.
Proof. intros Hm. apply (month_length_spec (leap y) m Hm). Qed.

(** ** ISO weeks *)

Lemma since_monday_spec z : since_monday z = (z + 3) mod 7.
Proof. unfold since_monday, Weekday. Z.to_euclidean_division_equations. lia. Qed.

Lemma since_monday_range z : 0 ≤ since_monday z < 7.
Proof. rewrite since_monday_spec. apply Z.mod_pos_bound. lia. Qed.

(** Go's remainder of a negative number is that of its opposite, negated. *)
Lemma since_monday_rem z : Z.rem (- (Weekday z + 6)) 7 = - since_monday z.
Proof. unfold since_monday, Weekday. Z.to_euclidean_division_equations. lia. Qed.

(** The Monday of the week with the fourth of January, the first of its ISO year. *)
Definition first_monday (y : Z) : Z := let z := days y 1 4 in z - since_monday z.

Lemma first_monday_spec y :
  first_monday y + epoch_days - 3 ≤ year_days y ≤ first_monday y + epoch_days + 3.
Proof.
  unfold first_monday. cbv zeta. rewrite since_monday_spec, days_normal by lia.
  assert (month_start (leap y) 1 = 0) as -> by (by destruct (leap y)).
  pose proof (Z.mod_pos_bound (year_days y + 0 + 4 - 1 - epoch_days + 3) 7). lia.
Qed.

Lemma first_monday_mod y : since_monday (first_monday y) = 0.
Proof.
  unfold first_monday. cbv zeta. rewrite !since_monday_spec. generalize (days y 1 4) as z. intros z.
  Z.to_euclidean_division_equations. lia.
Qed.

(** A day lies in the ISO week that is counted from the first Monday of its ISO year. *)
Lemma ISOWeek_monday z y w :
  ISOWeek z = (y, w) → first_monday y + (w - 1) * 7 = z - since_monday z.
Proof.
  unfold ISOWeek. cbv zeta. intros [= Hy Hw]. set (t := z - since_monday z + 3) in *.
  pose proof (first_monday_spec y) as Hf. pose proof (first_monday_mod y) as Hm.
  pose proof (year_of_spec t) as Ht. rewrite Hy in Ht. unfold yday in Hw. rewrite Hy in Hw.
  unfold t in *. clear t Hy. subst w. rewrite !since_monday_spec in *.
  set (f := first_monday y) in *. set (m := z - (z + 3) mod 7) in *.
  assert ((m + 3) mod 7 = 0) as Hmm
    by (unfold m; clear; Z.to_euclidean_division_equations; lia).
  assert (∃ k, m = f + 7 * k) as [k Hk].
  { exists ((m + 3) / 7 - (f + 3) / 7).
    pose proof (Z.div_mod (m + 3) 7). pose proof (Z.div_mod (f + 3) 7). lia. }
  match goal with |- context [?x / 7] => assert (x / 7 = k) as ->; [|lia] end.
  symmetry. apply (Z.div_unique _ _ _ (f + 3 + epoch_days - year_days y)); lia.
Qed.

Lemma ISOWeek_range z y w : ISOWeek z = (y, w) → 1 ≤ w ≤ 53.
Proof.
  unfold ISOWeek. cbv zeta. intros [= _ Hw]. subst w.
  pose proof (yday_range (z - since_monday z + 3)) as Hr. destruct (leap _); Z.to_euclidean_division_equations; lia.
Qed.

(** ** Laws of the texts *)

Lemma digit_checked :
  forallb (λ n, is_digit (digit n) && (digit_value (digit n) =? n)) (seqZ 0 10) = true.
Proof. vm_compute. reflexivity. Qed.

Lemma digit_spec n : 0 ≤ n < 10 → is_digit (digit n) = true ∧ digit_value (digit n) = n.
Proof.
  intros Hn. pose proof digit_checked as Hc. rewrite forallb_forall in Hc. specialize (Hc n).
  rewrite <- list_elem_of_In, elem_of_seqZ, andb_true_iff, Z.eqb_eq in Hc. apply Hc. lia.
Qed.

Lemma is_digit_value c : is_digit c = true → 0 ≤ digit_value c < 10 ∧ digit (digit_value c) = c.
Proof.
  unfold is_digit, in_range, digit_value, digit. intros Hc. to_prop.
  rewrite ?Z.leb_le in *. split; [lia|].
  replace (Z.to_nat (48 + (Z.of_nat (nat_of_ascii c) - 48))) with (nat_of_ascii c) by lia.
  apply ascii_nat_embedding.
Qed.

Lemma length_digits w n : length (digits w n) = w.
Proof. revert n. induction w as [|w IH]; intros n; [done|]. simpl. rewrite length_app, IH. simpl. lia. Qed.

Lemma digits_are_digits w n : Forall (λ c, is_digit c = true) (digits w n).
Proof.
  revert n. induction w as [|w IH]; intros n; [constructor|]. simpl. apply Forall_app. split; [done|].
  constructor; [|constructor]. apply digit_spec, Z.mod_pos_bound. lia.
Qed.

Lemma decimal_value_digits w n : 0 ≤ n < 10 ^ Z.of_nat w → decimal_value (digits w n) = n.
Proof.
  revert n. induction w as [|w IH]; intros n Hn; [simpl in *; unfold decimal_value; simpl; lia|].
  rewrite Nat2Z.inj_succ, Z.pow_succ_r in Hn by lia. simpl digits.
  rewrite decimal_value_snoc, IH.
  - rewrite (proj2 (digit_spec (n mod 10) (Z.mod_pos_bound n 10 ltac:(lia)))).
    pose proof (Z.div_mod n 10). lia.
  - split; [apply Z.div_pos; lia|]. apply Z.div_lt_upper_bound; lia.
Qed.

Lemma decimal_value_nonneg l : Forall (λ c, is_digit c = true) l → 0 ≤ decimal_value l < 10 ^ Z.of_nat (length l).
Proof.
  induction l as [|c l IH] using rev_ind; [intros _; unfold decimal_value; simpl; lia|].
  intros [Hl Hc]%Forall_app. apply Forall_singleton, is_digit_value in Hc as [Hc _].
  rewrite decimal_value_snoc, length_app, Nat2Z.inj_add, Z.pow_add_r by lia. simpl length.
  change (10 ^ Z.of_nat 1) with 10. specialize (IH Hl). lia.
Qed.

Lemma digits_decimal_value l : Forall (λ c, is_digit c = true) l → digits (length l) (decimal_value l) = l.
Proof.
  induction l as [|c l IH] using rev_ind; [done|].
  intros [Hl Hc]%Forall_app. apply Forall_singleton, is_digit_value in Hc as [Hc Hd].
  rewrite length_app. simpl length. rewrite Nat.add_1_r. simpl digits. rewrite decimal_value_snoc.
  rewrite (Z.mul_comm 10), Z.div_add_l, (Z.div_small (digit_value c)), Z.add_0_r, IH by (done || lia).
  by rewrite Z.add_comm, Z.mod_add, Z.mod_small, Hd by lia.
Qed.

Lemma all_digits l : Forall (λ c, is_digit c = true) l → forallb is_digit l = true.
Proof. induction 1 as [|c l Hc _ IH]; [done|]. simpl. by rewrite Hc. Qed.

Lemma zero_pad_digits w n : n < 10 ^ Z.of_nat w → zero_pad w n = digits w n.
Proof. intros Hn. unfold zero_pad. by rewrite (proj2 (Z.ltb_lt _ _) Hn). Qed.

Lemma zero_pad_decimal l : Forall (λ c, is_digit c = true) l → zero_pad (length l) (decimal_value l) = l.
Proof.
  intros Hl. rewrite zero_pad_digits by by apply decimal_value_nonneg. by apply digits_decimal_value.
Qed.

Lemma layout_year_digits y : 0 ≤ y < 10000 → layout_year y = digits 4 y.
Proof.
  intros Hy. unfold layout_year. rewrite (proj2 (Z.ltb_ge _ _)) by lia. apply zero_pad_digits.
  change (10 ^ Z.of_nat 4) with 10000. lia.
Qed.

Lemma sprintf_pad_digits w n : 0 ≤ n < 10 ^ Z.of_nat w → sprintf_pad w n = digits w n.
Proof.
  intros Hn. unfold sprintf_pad. rewrite (proj2 (Z.ltb_ge _ _)) by lia. apply zero_pad_digits. lia.
Qed.

Lemma digit_prefix_all l : Forall (λ c, is_digit c = true) l → digit_prefix l = l.
Proof. induction 1 as [|c l Hc _ IH]; [done|]. simpl. by rewrite Hc, IH. Qed.

(** Scanning as many digits as the width reads their number. *)
Lemma scan_int_digits ds rest :
  ds ≠ [] → Forall (λ c, is_digit c = true) ds →
  scan_int (length ds) (ds ++ rest) = Some (decimal_value ds, rest).
Proof.
  intros Hne Hds. unfold scan_int. rewrite take_app_length.
  destruct ds as [|c ds]; [done|]. apply Forall_cons in Hds as Hc. destruct Hc as [Hc _].
  assert (c ≠ "-"%char ∧ c ≠ "+"%char) as [H1 H2] by (split; intros ->; discriminate Hc).
  cbn [head]. rewrite (bool_decide_eq_false_2 (c = "-"%char)), (bool_decide_eq_false_2 (c = "+"%char)) by done.
  cbn [orb]. rewrite digit_prefix_all by done.
  rewrite !bool_decide_eq_false_2 by congruence. by rewrite Nat.add_0_r, drop_app_length.
Qed.

Lemma scan_int_pad w n rest :
  (0 < w)%nat → 0 ≤ n < 10 ^ Z.of_nat w → scan_int w (digits w n ++ rest) = Some (n, rest).
Proof.
  intros Hw Hn. rewrite <- (length_digits w n) at 1. rewrite scan_int_digits.
  - by rewrite decimal_value_digits.
  - intros E. apply (f_equal length) in E. rewrite length_digits in E. simpl in E. lia.
  - apply digits_are_digits.
Qed.

Lemma scan_int_minus w n rest :
  (0 < w)%nat → 0 ≤ n < 10 ^ Z.of_nat w →
  scan_int (S w) ("-"%char :: digits w n ++ rest) = Some (- n, rest).
Proof.
  intros Hw Hn. unfold scan_int. cbn [take head].
  change (bool_decide ("-"%char = "-"%char)) with true.
  change (bool_decide (Some "-"%char = Some "-"%char)) with true. cbn [orb drop]. cbv zeta.
  replace (take w (digits w n ++ rest)) with (digits w n)
    by (by rewrite <- (length_digits w n) at 2; rewrite take_app_length).
  rewrite drop_0, digit_prefix_all, decimal_value_digits by (done || apply digits_are_digits).
  rewrite bool_decide_eq_false_2.
  - rewrite Nat.add_1_r. cbn [drop]. by rewrite drop_app_length.
  - intros E. apply (f_equal length) in E. rewrite length_digits in E. simpl in E. lia.
Qed.

Lemma digit_prefix_spec l :
  Forall (λ c, is_digit c = true) (digit_prefix l) ∧ (length (digit_prefix l) ≤ length l)%nat.
Proof.
  induction l as [|c l [IH1 IH2]]; [done|]. simpl. destruct (is_digit c) eqn:E; simpl; [|split; [done|lia]].
  split; [by constructor|lia].
Qed.

(** A scanned number has at most as many characters as the width, the sign among them. *)
Lemma scan_int_range w l z rest :
  scan_int (S w) l = Some (z, rest) → - 10 ^ Z.of_nat w < z < 10 ^ Z.of_nat (S w).
Proof.
  unfold scan_int. cbv zeta. case_bool_decide as Hne; [done|]. intros [= <- _].
  match goal with |- context [digit_prefix ?k] => pose proof (digit_prefix_spec k) as [Hd Hl];
    set (ds := digit_prefix k) in *; assert (length ds ≤ length k)%nat as Hlen by done end.
  apply decimal_value_nonneg in Hd. clearbody ds. clear Hl Hne.
  destruct (take (S w) l) as [|c k] eqn:Et.
  { cbn [head]. rewrite (bool_decide_eq_false_2 (None = _)) by done. simpl in Hlen.
    assert (10 ^ Z.of_nat (length ds) ≤ 10 ^ Z.of_nat (S w)) by (apply Z.pow_le_mono_r; lia). lia. }
  apply (f_equal length) in Et. rewrite length_take in Et. cbn [length] in Et. cbn [head].
  destruct (bool_decide (Some c = Some "-"%char)) eqn:Em.
  - apply bool_decide_eq_true in Em as [= ->].
    rewrite (bool_decide_eq_true_2 ("-"%char = "-"%char)) in Hlen by done. cbn in Hlen. rewrite drop_0 in Hlen.
    assert (10 ^ Z.of_nat (length ds) ≤ 10 ^ Z.of_nat w) by (apply Z.pow_le_mono_r; lia).
    pose proof (Z.pow_pos_nonneg 10 (Z.of_nat (S w))). lia.
  - assert (length ds ≤ S w)%nat by (destruct (_ || _); cbn in Hlen; rewrite ?drop_0 in Hlen; lia).
    assert (10 ^ Z.of_nat (length ds) ≤ 10 ^ Z.of_nat (S w)) by (apply Z.pow_le_mono_r; lia).
    pose proof (Z.pow_pos_nonneg 10 (Z.of_nat w)). lia.
Qed.

(** A key made of a year and a week is read back, a year before zero too. *)
Lemma scan_week_key y w : - 1000 < y < 10000 → 0 ≤ w < 100 → scan_week (week_key y w) = Some (y, w).
Proof.
  intros Hy Hw. unfold scan_week, week_key. rewrite chars_of_chars.
  rewrite (sprintf_pad_digits 2) by (simpl; lia).
  assert (scan_int 4 (sprintf_pad 4 y ++ "-"%char :: "W"%char :: digits 2 w)
          = Some (y, "-"%char :: "W"%char :: digits 2 w)) as Hs.
  { destruct (decide (0 ≤ y)) as [Hp|Hn].
    - rewrite sprintf_pad_digits by (simpl; lia). apply scan_int_pad; simpl; lia.
    - unfold sprintf_pad. rewrite (proj2 (Z.ltb_lt _ _)) by lia.
      rewrite zero_pad_digits by (simpl; lia). cbn [app Nat.sub].
      rewrite (scan_int_minus 3) by (simpl; lia). by rewrite Z.opp_involutive. }
  cbn [app]. rewrite Hs. by rewrite <- (app_nil_r (digits 2 w)), scan_int_pad by (simpl; lia).
Qed.

Lemma scan_week_range s y w : scan_week s = Some (y, w) → - 1000 < y < 10000.
Proof.
  unfold scan_week. intros Hs. destruct (scan_int 4 _) as [[z rest]|] eqn:E; [|done].
  apply scan_int_range in E. repeat (destr_in Hs; try discriminate Hs). simplify_eq.
  change (10 ^ Z.of_nat 3) with 1000 in E. change (10 ^ Z.of_nat 4) with 10000 in E. done.
Qed.

(** What the layouts read is written back, and the other way round for years of four digits. *)
Lemma parse_year_month_spec l y m rest :
  parse_year_month l = Some (y, m, rest) →
  1 ≤ m ≤ 12 ∧ 0 ≤ y < 10000 ∧ l = layout_year y ++ ["-"%char] ++ zero_pad 2 m ++ rest.
Proof.
  unfold parse_year_month. intros Hp. repeat (destr_in Hp; try discriminate Hp). simplify_eq.
  match goal with E : forallb _ _ = true |- _ => cbn [forallb] in E end. to_prop. rewrite ?Z.leb_le in *.
  match goal with |- context [layout_year (decimal_value [?a; ?b; ?c; ?d])] =>
    assert (Forall (λ c, is_digit c = true) [a; b; c; d]) as Hy by (repeat constructor; done) end.
  match goal with |- context [zero_pad 2 (decimal_value [?a; ?b])] =>
    assert (Forall (λ c, is_digit c = true) [a; b]) as Hm by (repeat constructor; done) end.
  apply decimal_value_nonneg in Hy as Hr. change (10 ^ Z.of_nat _) with 10000 in Hr.
  split_and!; [lia..|]. rewrite layout_year_digits by lia.
  match type of Hy with Forall _ ?l => rewrite (digits_decimal_value l Hy : digits 4 _ = _) end.
  match type of Hm with Forall _ ?l => rewrite (zero_pad_decimal l Hm : zero_pad 2 _ = _) end. done.
Qed.

Lemma parse_year_month_digits y m rest :
  0 ≤ y < 10000 → 1 ≤ m ≤ 12 →
  parse_year_month (digits 4 y ++ ["-"%char] ++ digits 2 m ++ rest) = Some (y, m, rest).
Proof.
  intros Hy Hm.
  pose proof (digits_are_digits 4 y) as Hdy. pose proof (decimal_value_digits 4 y ltac:(simpl; lia)) as Hvy.
  pose proof (digits_are_digits 2 m) as Hdm. pose proof (decimal_value_digits 2 m ltac:(simpl; lia)) as Hvm.
  pose proof (length_digits 4 y) as Hly. pose proof (length_digits 2 m) as Hlm.
  destruct (digits 4 y) as [|a [|b [|c [|d [|? ?]]]]]; try discriminate Hly.
  destruct (digits 2 m) as [|e [|f [|? ?]]]; try discriminate Hlm. cbn [app]. unfold parse_year_month.
  rewrite (all_digits _ (Forall_app_2 _ _ _ Hdy Hdm) : forallb is_digit [a; b; c; d; e; f] = true).
  cbv zeta. rewrite Hvy, Hvm, (proj2 (Z.leb_le 1 m)), (proj2 (Z.leb_le m 12)) by lia. done.
Qed.

Lemma parse_month_format s z :
  parse_month s = Some z → format_month z = s ∧ day_of_month z = 1 ∧ 0 ≤ year_of z < 10000.
Proof.
  unfold parse_month. intros Hp. destruct (parse_year_month _) as [[[y m] [|? ?]]|] eqn:E; try discriminate Hp.
  injection Hp as <-. apply parse_year_month_spec in E as (Hm & Hy & E).
  pose proof (month_length_range y m Hm).
  destruct (date_of_days y m 1 Hm) as (Ey & Em & Ed); [lia|]. split; [|by rewrite Ey].
  unfold format_month. rewrite Ey, Em. rewrite app_nil_r in E. by rewrite <- E, of_chars_chars.
Qed.

Lemma parse_date_format s z : parse_date s = Some z → format_date z = s ∧ 0 ≤ year_of z < 10000.
Proof.
  unfold parse_date. intros Hp. destruct (parse_year_month _) as [[[y m] rest]|] eqn:E; [|discriminate Hp].
  repeat (destr_in Hp; try discriminate Hp). injection Hp as <-.
  match goal with E : (_ && _) = true |- _ => cbn [forallb] in E end. to_prop. rewrite ?Z.leb_le in *.
  apply parse_year_month_spec in E as (Hm & Hy & E).
  match goal with H : decimal_value ?l ≤ _ |- _ =>
    destruct (date_of_days y m (decimal_value l) Hm) as (Ey & Em & Ed); [lia|];
    assert (Forall (λ c, is_digit c = true) l) as Hd by (repeat constructor; done);
    split; [|by rewrite Ey];
    unfold format_date; rewrite Ey, Em, Ed, (zero_pad_decimal l Hd : zero_pad 2 _ = _) end.
  by rewrite <- (of_chars_chars s), E.
Qed.

Lemma parse_format_month z :
  0 ≤ year_of z < 10000 → parse_month (format_month z) = Some (days (year_of z) (month_of z) 1).
Proof.
  intros Hy. pose proof (month_of_range z) as Hm. unfold parse_month, format_month.
  rewrite chars_of_chars, layout_year_digits, zero_pad_digits by (simpl; lia).
  by rewrite <- (app_nil_r (digits 2 (month_of z))), parse_year_month_digits.
Qed.

Lemma parse_format_date z : 0 ≤ year_of z < 10000 → parse_date (format_date z) = Some z.
Proof.
  intros Hy. pose proof (month_of_range z) as Hm. pose proof (day_of_month_range z) as Hd.
  pose proof (month_length_range (year_of z) _ Hm). unfold parse_date, format_date.
  rewrite chars_of_chars, layout_year_digits, !zero_pad_digits by (simpl; lia).
  rewrite parse_year_month_digits by done.
  pose proof (digits_are_digits 2 (day_of_month z)) as Hdd.
  pose proof (decimal_value_digits 2 (day_of_month z) ltac:(simpl; lia)) as Hv.
  pose proof (length_digits 2 (day_of_month z)) as Hl.
  destruct (digits 2 (day_of_month z)) as [|e [|f [|? ?]]]; try discriminate Hl. cbn [app].
  rewrite (all_digits _ Hdd). cbn [andb]. cbv zeta. rewrite Hv, (proj2 (Z.leb_le 1 _)), (proj2 (Z.leb_le _ (month_length _ _))) by lia.
  by rewrite days_of_date.
Qed.

Lemma format_date_nonempty z : format_date z ≠ "".
Proof.
  unfold format_date. intros E. apply (f_equal (λ s, length (chars s))) in E.
  rewrite chars_of_chars, !length_app in E. simpl in E. lia.
Qed.

(** ** Instants *)

Lemma day_ns_pos : 0 < day_ns.
Proof. done. Qed.

Lemma day_of_spec t z : midnight z ≤ t < midnight (z + 1) ↔ day_of t = z.
Proof.
  unfold midnight, day_of, day_ns. split; intros H.
  - symmetry. apply (Z.div_unique _ _ _ (t - z * (86400 * 10 ^ 9))); lia.
  - subst z. pose proof (Z.div_mod t (86400 * 10 ^ 9)). pose proof (Z.mod_pos_bound t (86400 * 10 ^ 9)). lia.
Qed.

Lemma day_of_midnight z : day_of (midnight z) = z.
Proof. apply day_of_spec. unfold midnight, day_ns. lia. Qed.

Lemma add_days_midnight z n : add_days (midnight z) n = midnight (z + n).
Proof. unfold add_days, midnight. lia. Qed.

Lemma add_months_first z n :
  day_of_month z = 1 → add_months (midnight z) n = midnight (days (year_of z) (month_of z + n) 1).
Proof. intros Hd. unfold add_months. cbv zeta. rewrite day_of_midnight, Hd. lia. Qed.

(** Examples: the leap day, a week across a year, the last week of a long year. *)
Example leap_day : format_date (days 2024 2 29) = "2024-02-29" ∧ parse_date "2023-02-29" = None.
Proof. vm_compute. done. Qed.
Example week_across_years :
  ISOWeek (days 2024 12 30) = (2025, 1) ∧ ISOWeek (days 2027 1 3) = (2026, 53) ∧
  ISOWeek (days 2026 8 15) = (2026, 33) ∧ Weekday (days 2026 8 15) = 6.
Proof. vm_compute. done. Qed.
