(* ===== verification/UiReads.v ===== *)
(** * The reads of the operator interface (store/ui_operator.go)

    The dashboard of a team, an ISO week or a calendar month in daily buckets, and the lists and
    point reads of tasks, their events, Executors and the audit log that the web interface shows.
    Each statement sees one state of the database and changes none. The dashboard and the lists below
    a task or an Executor make two statements outside a transaction, so the second may see another state
    than the first: these operations take both. *)

From stdpp Require Import base gmap strings list pretty sorting.
From Stdlib Require Import Ascii.
From S2P Require Import Prelude Paging Platform Tx Schema Store GoStrings ScopeToken Fixtures Claim Events.
From S2P Require Import Controls Listing Calendar.
#[local] Open Scope Z_scope.

(** PostgreSQL's ILIKE, of a text and a pattern, and the texts it accepts as a parameter. *)
Class Ilike := { ilike : string → string → bool; text_accepted : string → bool }.

(** ** The types (platform/ui_operator.go) *)

Record UIDashboardBucket : Type := mkBucket {
  bk_at : Z; bk_key : string; bk_label : string; bk_short_label : string; bk_total : nat;
  bk_counts : gmap string nat; bk_future : bool }.

Record UIDashboard : Type := mkDashboard {
  db_period : string; db_key : string; db_counts : gmap string nat;
  db_buckets : list UIDashboardBucket }.

Record UITask : Type := mkUITask {
  ut_id : string; ut_type : string; ut_source_system : string; ut_source_id : string;
  ut_state : string; ut_executor : option string; ut_ingested_at : Z; ut_claimed_at : option Z;
  ut_completed_at : option Z; ut_environment : gmap string string; ut_secret_keys : list string }.

Record UITaskFilter : Type := mkUITaskFilter {
  uf_status : string; uf_period : string; uf_search : string; uf_date : string }.

Record UIEvent : Type := mkUIEvent {
  ue_id : string; ue_type : string; ue_status : string; ue_executor : option string;
  ue_occurred_at : Z; ue_payload : string }.

Record UIExecutor : Type := mkUIExecutor {
  ux_id : string; ux_type : string; ux_scope : string; ux_tag : string; ux_status : string;
  ux_max_capacity : Z; ux_running_count : Z; ux_available : Z; ux_metadata : string;
  ux_updated_at : Z }.

Record UIExecutorFilter : Type := mkUIExecutorFilter { xf_status : string; xf_search : string }.
Record UIAuditFilter : Type := mkUIAuditFilter { af_search : string }.

(** UIAfter: the instant and the identifier of the last row of a page. *)
Definition UIAfter : Type := Z * string.

(** errors.New: an error that carries its text. *)
Definition ErrUIResourceUnknown : StoreError := ErrText "UI resource unknown or unavailable".
Definition invalid_calendar_key : StoreError := ErrText "invalid calendar key".
Definition invalid_period : StoreError := ErrText "invalid period".

(** ** The window of a dashboard *)

Record dashboardWindow : Type := mkWindow {
  dw_period : string; dw_key : string; dw_start : Z; dw_end : Z }.

Definition isoWeekStart (year week : Z) : Z :=
  let januaryFourth := midnight (days year 1 4) in
  add_days januaryFourth (Z.rem (- (Weekday (day_of januaryFourth) + 6)) 7 + (week - 1) * 7).

Definition uiDashboardWindow (period calendarKey : string) (now : Z) :
    result StoreError dashboardWindow :=
  let today := day_of now in
  if bool_decide (period = "week") then
    let '(currentYear, currentWeek) := ISOWeek today in
    let key := if bool_decide (calendarKey = "") then week_key currentYear currentWeek
               else calendarKey in
    match scan_week key with
    | None => Err invalid_calendar_key
    | Some (year, week) =>
        if bool_decide (week_key year week ≠ key) then Err invalid_calendar_key
        else
          let start := isoWeekStart year week in
          if bool_decide (ISOWeek (day_of start) ≠ (year, week)) ||
             (isoWeekStart currentYear currentWeek <? start)
          then Err invalid_calendar_key
          else Ok (mkWindow period (week_key year week) start (add_days start 7))
    end
  else if bool_decide (period = "month") then
    let currentStart := midnight (days (year_of today) (month_of today) 1) in
    let key := if bool_decide (calendarKey = "") then format_month (day_of currentStart)
               else calendarKey in
    match parse_month key with
    | None => Err invalid_calendar_key
    | Some z =>
        let start := midnight z in
        if currentStart <? start then Err invalid_calendar_key
        else Ok (mkWindow period (format_month z) start (add_months start 1))
    end
  else Err invalid_period.

Definition uiStateCounts : gmap string nat :=
  {["pending" := 0%nat; "created" := 0%nat; "running" := 0%nat; "finished" := 0%nat;
    "failed" := 0%nat]}.

Definition weekday_labels : list string := ["Mon"; "Tue"; "Wed"; "Thu"; "Fri"; "Sat"; "Sun"].

(** The label of a day of a week is looked up without a check: a week has seven days. *)
Definition bucket_at (w : dashboardWindow) (now : Z) (index : nat) : UIDashboardBucket :=
  let at_ := add_days (dw_start w) (Z.of_nat index) in
  let label := if bool_decide (dw_period w = "week") then default "" (weekday_labels !! index)
               else pretty (Z.to_N (day_of_month (day_of at_))) in
  mkBucket at_ (format_date (day_of at_)) label label 0 uiStateCounts (now <? at_).

Definition buckets (w : dashboardWindow) (now : Z) : list UIDashboardBucket :=
  bucket_at w now <$> seq 0 (Z.to_nat (Z.quot (dw_end w - dw_start w) day_ns)).

(** ** The dashboard *)

(** SELECT f, count( * ) ... GROUP BY f: each value that occurs, with the number of its rows. The
    statement gives them in some order; nothing below depends on which. *)
Definition group_count {A K} `{EqDecision K} (f : A → K) (l : list A) : list (K * nat) :=
  (λ k, (k, length (filter (λ x, f x = k) l))) <$> remove_dups (f <$> l).

Section reads.
Context `{Collation, PgTime, Ilike}.

Definition in_dashboard (team : string) (w : dashboardWindow) (t : TaskRow) : bool :=
  bool_decide (tk_team t = team) && (pg_ts (dw_start w) <=? tk_ingested_at t) &&
  (tk_ingested_at t <? pg_ts (dw_end w)).

Definition window_rows (team : string) (w : dashboardWindow) (d : DB) : list TaskRow :=
  filter (λ t, in_dashboard team w t) (rows (db_tasks d)).

(** floor(extract(epoch FROM (ingested_at - start)) / 86400). *)
Definition bucket_index (w : dashboardWindow) (t : TaskRow) : Z :=
  (tk_ingested_at t - pg_ts (dw_start w)) / day_ns.

Definition index_le : relation (Z * string * nat) := λ a b, a.1.1 ≤ b.1.1.
#[export] Instance index_le_dec : RelDecision index_le.
Proof using. intros a b. unfold index_le. apply _. Defined.

Definition bucket_rows (team : string) (w : dashboardWindow) (d : DB) : list (Z * string * nat) :=
  order_by index_le (group_count (λ t, (bucket_index w t, tk_state t)) (window_rows team w d)).

(** The loops over the rows of the two results. *)
Definition scan_counts (counts : gmap string nat) (l : list (string * nat)) : gmap string nat :=
  foldl (λ m r, <[r.1 := r.2]> m) counts l.

Definition count_bucket (state : string) (count : nat) (b : UIDashboardBucket) : UIDashboardBucket :=
  mkBucket (bk_at b) (bk_key b) (bk_label b) (bk_short_label b) (bk_total b + count)
    (<[state := count]> (bk_counts b)) (bk_future b).

Definition scan_bucket (bs : list UIDashboardBucket) (r : Z * string * nat) :
    list UIDashboardBucket :=
  let '(index, state, count) := r in
  if (index <? 0) || (Z.of_nat (length bs) <=? index) then bs
  else alter (count_bucket state count) (Z.to_nat index) bs.

(** The loop over the counts ends at the first row it does not get, and only the loop over the
    buckets is followed by rows.Err(). *)
Definition GetUIDashboard (team period calendarKey : string) (now : Z) (env : TxEnv) (db db' : DB) :
    result StoreError UIDashboard :=
  match uiDashboardWindow period calendarKey now with
  | Err e => Err e
  | Ok w =>
      run_reads
        (query_unchecked (ErrWrap "read UI dashboard counts")
           (λ d, group_count tk_state (window_rows team w d)))
        (λ counts,
           rows <- query (ErrWrap "read UI dashboard buckets") (bucket_rows team w) ;;
           ret (mkDashboard period (dw_key w) (scan_counts uiStateCounts counts)
                  (foldl scan_bucket (buckets w now) rows)))
        env db db'
  end.

(** ** The lists *)

Definition uiPeriod (period : string) (now : Z) : result StoreError (Z * string) :=
  if bool_decide (period = "day") then Ok (add_days now (-1), "hour")
  else if bool_decide (period = "week") then Ok (add_days now (-7), "day")
  else if bool_decide (period = "month") then Ok (add_months now (-1), "day")
  else Err invalid_period.

(** The argument of a keyset clause, at the precision of a timestamp parameter. *)
Definition pg_after (after : option UIAfter) : option UIAfter := prod_map pg_ts id <$> after.

(** A search adds a clause over some columns; the statement fails for a text that is no
    parameter. *)
Definition searched (search : string) (columns : list string) : bool :=
  bool_decide (search = "") || existsb (λ c, ilike c ("%" +:+ search +:+ "%")) columns.
Definition search_accepted (search : string) : bool :=
  bool_decide (search = "") || text_accepted ("%" +:+ search +:+ "%").
Definition character_not_in_repertoire : string := "22021".

(** A page of the selected rows, rendered. *)
Definition ui_page {A B} (R : relation UIAfter) `{!RelDecision R, !Transitive R, !Total R}
    (key : A → UIAfter) (render : DB → A → B) (search : string) (limit : nat) (after : option UIAfter)
    (select : DB → list A) (d : DB) : result sql_error (list B * option UIAfter) :=
  if search_accepted search
  then Ok (prod_map (fmap (render d)) id (keyset_page R key limit (pg_after after) (select d)))
  else Err (SqlState character_not_in_repertoire "").

(** max(occurred_at). *)
Definition max_at (l : list Z) : option Z :=
  foldr (λ x o, Some (match o with None => x | Some y => Z.max x y end)) None l.

Definition completed_at (d : DB) (task : string) : option Z :=
  max_at (te_occurred_at <$>
    filter (λ e, te_task e = task ∧ te_type e ∈ [TypeFinished; TypeFailed]) (rows (db_task_events d))).

Definition task_secret_keys (d : DB) (task : string) : list string :=
  order_by coll_le ((filter (λ k, k.1 = task) (map_to_list (db_secret_refs d)).*1).*2).

Definition scanUITask (d : DB) (t : TaskRow) : UITask :=
  mkUITask (tk_id t) (tk_type t) (tk_source_system t) (tk_source_id t) (tk_state t)
    (tk_executor t) (tk_ingested_at t) (tk_claimed_at t) (completed_at d (tk_id t))
    (default ∅ (sn_values <$> db_snapshots d !! tk_id t)) (task_secret_keys d (tk_id t)).

(** The WHERE clause of the task lists; [since] and [day] come from the period and the date. *)
Definition ui_task_selected (team executor : string) (f : UITaskFilter) (since day : option Z)
    (t : TaskRow) : bool :=
  bool_decide (tk_team t = team) &&
  (bool_decide (executor = "") || bool_decide (tk_executor t = Some executor)) &&
  matches (uf_status f) (tk_state t) &&
  searched (uf_search f) [tk_id t; tk_type t; tk_source_id t; default "" (tk_executor t)] &&
  match since with Some s => pg_ts s <=? tk_ingested_at t | None => true end &&
  match day with
  | Some z => (pg_ts (midnight z) <=? tk_ingested_at t) &&
              (tk_ingested_at t <? pg_ts (add_days (midnight z) 1))
  | None => true
  end.

Definition ui_task_rows (team executor : string) (f : UITaskFilter) (since day : option Z) (d : DB) :
    list TaskRow :=
  filter (λ t, ui_task_selected team executor f since day t) (rows (db_tasks d)).

Definition since_of (f : UITaskFilter) : TxS (option Z) :=
  if bool_decide (uf_period f = "") then ret None
  else
    clock <- now ;;
    match uiPeriod (uf_period f) clock with
    | Ok (since, _) => ret (Some since)
    | Err e => throw e
    end.

Definition day_filter (f : UITaskFilter) : result StoreError (option Z) :=
  if bool_decide (uf_date f = "") then Ok None
  else match parse_date (uf_date f) with
       | Some z => Ok (Some z)
       | None => Err (ErrText "invalid date")
       end.

Definition listUITasks (team executor : string) (f : UITaskFilter) (limit : nat)
    (after : option UIAfter) : TxS (list UITask * option UIAfter) :=
  since <- since_of f ;;
  match day_filter f with
  | Err e => throw e
  | Ok day =>
      query_scan (ErrWrap "list UI tasks")
        (ui_page pair_ge task_key scanUITask (uf_search f) limit after
           (ui_task_rows team executor f since day))
  end.

Definition ListUITasks (team : string) (f : UITaskFilter) (limit : nat) (after : option UIAfter) :
    TxS (list UITask * option UIAfter) := listUITasks team "" f limit after.

Definition GetUITask (team task : string) : TxS UITask :=
  row <- query (ErrWrap "")
           (λ d, match db_tasks d !! task with
                 | Some t => if bool_decide (tk_team t = team) then Some (scanUITask d t) else None
                 | None => None
                 end) ;;
  match row with Some t => ret t | None => throw ErrTaskUnknown end.

(** The lifecycle and the control events of a task. *)
Definition lifecycle_item (e : TaskEventRow) : UIEvent :=
  mkUIEvent (te_id e) ("task.lifecycle." +:+ te_type e) (te_type e) (Some (te_executor e))
    (te_occurred_at e) (te_payload e).
Definition control_item (e : ControlEventRow) : UIEvent :=
  mkUIEvent (ce_id e) TaskControlEventTypeRequested (ce_status e) (ce_executor e)
    (ce_occurred_at e) (ce_payload e).
Definition ui_feed (team task : string) (d : DB) : list UIEvent :=
  (lifecycle_item <$> filter (λ e, te_team e = team ∧ te_task e = task) (rows (db_task_events d))) ++
  (control_item <$> filter (λ e, ce_team e = team ∧ ce_task e = task) (rows (db_control_events d))).

Definition ui_event_key (e : UIEvent) : UIAfter := (ue_occurred_at e, ue_id e).

Definition scanUIEvents (limit : nat) (after : option UIAfter) (select : DB → list UIEvent) :
    TxS (list UIEvent * option UIAfter) :=
  query_scan (ErrWrap "") (ui_page pair_le ui_event_key (λ _ e, e) "" limit after select).

Definition ListUITaskEvents (team task : string) (limit : nat) (after : option UIAfter)
    (env : TxEnv) (db db' : DB) : result StoreError (list UIEvent * option UIAfter) :=
  run_reads (GetUITask team task) (λ _, scanUIEvents limit after (ui_feed team task)) env db db'.

(** An Executor of the team, or one of the system whose tag a task type of the team has. *)
Definition executor_shown (team : string) (d : DB) (x : ExecutorRow) : bool :=
  bool_decide (ex_team x = Some team) ||
  (bool_decide (ex_scope x = ScopeSystem) &&
   existsb (λ t, bool_decide (tt_team t = team ∧ tt_tag t = ex_tag x)) (rows (db_types d))).

Definition ui_executor (x : ExecutorRow) : UIExecutor :=
  mkUIExecutor (ex_id x) (ex_type x) (ex_scope x) (ex_tag x)
    (if 0 <? ex_running_count x then "busy" else "idle") (ex_max_capacity x) (ex_running_count x)
    (Z.max (ex_max_capacity x - ex_running_count x) 0) (ex_metadata x) (ex_updated_at x).

Definition ui_executor_key (x : ExecutorRow) : UIAfter := (ex_updated_at x, ex_id x).

Definition ui_executor_selected (team : string) (f : UIExecutorFilter) (d : DB) (x : ExecutorRow) :
    bool :=
  executor_shown team d x &&
  (if bool_decide (xf_status f = "busy") then 0 <? ex_running_count x
   else if bool_decide (xf_status f = "idle") then ex_running_count x =? 0 else true) &&
  searched (xf_search f) [ex_id x; ex_type x; ex_tag x].

Definition ui_executor_rows (team : string) (f : UIExecutorFilter) (d : DB) : list ExecutorRow :=
  filter (λ x, ui_executor_selected team f d x) (rows (db_executors d)).

Definition ListUIExecutors (team : string) (f : UIExecutorFilter) (limit : nat)
    (after : option UIAfter) : TxS (list UIExecutor * option UIAfter) :=
  if bool_decide (xf_status f ∈ [""; "busy"; "idle"])
  then query_scan (ErrWrap "list UI executors")
         (ui_page pair_ge ui_executor_key (λ _, ui_executor) (xf_search f) limit after
            (ui_executor_rows team f))
  else throw (ErrText "invalid executor status").

Definition GetUIExecutor (team executor : string) : TxS UIExecutor :=
  row <- query (ErrWrap "")
           (λ d, match db_executors d !! executor with
                 | Some x => if executor_shown team d x then Some (ui_executor x) else None
                 | None => None
                 end) ;;
  match row with Some x => ret x | None => throw ErrUIResourceUnknown end.

Definition executor_item (e : ExecutorEventRow) : UIEvent :=
  mkUIEvent (ee_id e) ("executor." +:+ ee_type e) (ee_type e) None (ee_occurred_at e) (ee_payload e).
Definition ui_executor_feed (executor : string) (d : DB) : list UIEvent :=
  executor_item <$> filter (λ e, ee_executor e = executor) (rows (db_executor_events d)).

Definition ListUIExecutorEvents (team executor : string) (limit : nat) (after : option UIAfter)
    (env : TxEnv) (db db' : DB) : result StoreError (list UIEvent * option UIAfter) :=
  run_reads (GetUIExecutor team executor) (λ _, scanUIEvents limit after (ui_executor_feed executor))
    env db db'.

Definition ListUIExecutorTasks (team executor status : string) (limit : nat)
    (after : option UIAfter) (env : TxEnv) (db db' : DB) :
    result StoreError (list UITask * option UIAfter) :=
  run_reads (GetUIExecutor team executor)
    (λ _, listUITasks team executor (mkUITaskFilter status "" "" "") limit after) env db db'.

Definition ui_audit_selected (team : string) (f : UIAuditFilter) (a : AuditRow) : bool :=
  bool_decide (au_team a = Some team) &&
  searched (af_search f) [au_action a; au_actor a; au_resource_id a].
Definition ui_audit_rows (team : string) (f : UIAuditFilter) (d : DB) : list AuditRow :=
  filter (λ a, ui_audit_selected team f a) (rows (db_audit d)).

(** The row scan fails on an entry without a team, which the clause excludes. *)
Definition ListUIAudit (team : string) (f : UIAuditFilter) (limit : nat) (after : option UIAfter) :
    TxS (list AuditEntry * option UIAfter) :=
  query_scan (ErrWrap "")
    (λ d, match ui_page pair_ge audit_key (λ _ a, a) (af_search f) limit after (ui_audit_rows team f) d with
          | Err e => Err e
          | Ok (l, next) =>
              match mapM scanAuditEntry l with Some es => Ok (es, next) | None => Err SqlScan end
          end).
End reads.
