(* ===== verification/UiHttp.v ===== *)
(** * The operator interface over HTTP (httpapi/ui_operator.go)

    The handlers behind /ui/v1/teams/{team_id}: the identifiers of the path, the filters, the page
    sizes, the cursors, and the statuses of the errors. A handler is a function of the raw path
    segments, the query, the environment and the database, or the two databases that its two statements
    see. *)

From stdpp Require Import base gmap strings list pretty sorting.
From Stdlib Require Import Ascii.
From S2P Require Import Prelude Paging Platform Tx Schema Store GoStrings Base64 ScopeToken Fixtures Claim.
From S2P Require Import Events Controls Listing Keyrings Cursor ListHttp Calendar UiReads.
#[local] Open Scope Z_scope.

(** encoding/json on the cursor {"at", "id"}: marshalling fails for an instant outside the years
    0 to 9999; what it writes for an instant of UTC and an identifier is read back. *)
Class UiCursorCodec := {
  after_marshal : Z → string → option string;
  after_unmarshal : string → option (Z * string);
  after_marshal_ok t i :
    0 ≤ year_of (day_of t) < 10000 → validListingIdentifier i = true →
    ∃ doc, after_marshal t i = Some doc ∧ doc ≠ "" ∧ after_unmarshal doc = Some (t, i);
}.

(** [UiEmpty] is a 200 without a body: the encoder refused the value, and its error is dropped. *)
Inductive ui_response (A : Type) : Type :=
| UiError (status : Z) (code : string)
| UiEmpty
| UiBody (body : A).
Arguments UiError {_} _ _.
Arguments UiEmpty {_}.
Arguments UiBody {_} _.

Abbreviation ui_query := (gmap string (list string)).
Definition not_found {A} : ui_response A := UiError 404 "not_found".
Definition invalid_filter {A} : ui_response A := UiError 400 "invalid_filter".

(** h.internal. *)
Definition internal {A} : ui_response A := UiError 500 "internal_error".

(** ** Requests *)

(** A path segment: trimmed, not empty, an identifier. uiTeamID, and the second segment of
    uiTaskPath and uiExecutorPath. *)
Definition path_segment (raw : string) : option string :=
  let id := trim_space raw in
  if bool_decide (id = "") || negb (validListingIdentifier id) then None else Some id.
Definition uiTeamID (team : string) : option string := path_segment team.
Definition uiResourcePath (team resource : string) : option (string * string) :=
  team ← uiTeamID team; resource ← path_segment resource; Some (team, resource).

Definition uiLimit (q : ui_query) : option nat :=
  let raw := query_get q "limit" in
  if bool_decide (raw = "") then Some 10%nat
  else
    match signed_Atoi raw with
    | Some n => if bool_decide (n ∈ [10; 25; 50; 100]) then Some (Z.to_nat n) else None
    | None => None
    end.

Section handlers.
Context `{Collation, PgTime, Ilike, UiCursorCodec}.

(** The error of the marshaller is dropped. *)
Definition encodeUIAfter (after : option UIAfter) : option string :=
  match after with
  | None => None
  | Some (t, i) => Some (encode (default "" (after_marshal t i)))
  end.

Definition decodeUIAfter (raw : string) : option (option UIAfter) :=
  if bool_decide (raw = "") then Some None
  else
    match decode raw with
    | None => None
    | Some doc =>
        match after_unmarshal doc with
        | None => None
        | Some (t, i) =>
            if (t =? zero_time) || bool_decide (i = "") || negb (validListingIdentifier i) then None
            else Some (Some (t, i))
        end
    end.

Definition uiCollectionRequest (q : ui_query) : result (Z * string) (nat * option UIAfter) :=
  match uiLimit q with
  | None => Err (400, "invalid_limit")
  | Some limit =>
      match decodeUIAfter (query_get q "cursor") with
      | None => Err (400, "invalid_cursor")
      | Some after => Ok (limit, after)
      end
  end.

Definition validUIDate (value : string) : bool :=
  if bool_decide (value = "") then true
  else match parse_date value with Some z => bool_decide (format_date z = value) | None => false end.

Definition validUIStatus (status : string) : bool :=
  bool_decide (status ∈ [""; "pending"; "created"; "running"; "finished"; "failed"]).

Definition validOptionalPeriod (period : string) : bool :=
  bool_decide (period ∈ [""; "day"; "week"; "month"]).

(** What the handlers do with an operation's result: the error that names an unknown resource is
    a 404, any other a 500. *)
Definition ui_result {A} (unknown : option StoreError) (r : result StoreError A) : ui_response A :=
  match r with
  | Ok a => UiBody a
  | Err e => if bool_decide (Some e = unknown) then not_found else internal
  end.

Definition ui_list {A} (unknown : option StoreError)
    (r : result StoreError (list A * option UIAfter)) : ui_response (list A * option string) :=
  match ui_result unknown r with
  | UiBody (items, next) => UiBody (items, encodeUIAfter next)
  | UiEmpty => UiEmpty
  | UiError status code => UiError status code
  end.

(** ** The handlers *)

(** (time.Time).MarshalJSON refuses an instant outside the years 0 to 9999. *)
Definition marshals (t : Z) : bool :=
  (0 <=? year_of (day_of t)) && (year_of (day_of t) <? 10000).

(** JSON with a dashboard, whose instants are those of its buckets. *)
Definition JSON_dashboard (r : UIDashboard) : ui_response UIDashboard :=
  if forallb (λ b, marshals (bk_at b)) (db_buckets r) then UiBody r else UiEmpty.

Definition dashboard (team : string) (q : ui_query) (env : TxEnv) (db db' : DB) :
    ui_response UIDashboard :=
  match uiTeamID team with
  | None => not_found
  | Some team =>
      let period := query_get q "period" in
      let calendarKey := query_get q period in
      match GetUIDashboard team period calendarKey (env_now env) env db db' with
      | Ok result => JSON_dashboard result
      | Err e =>
          if bool_decide (e = invalid_period) then UiError 400 "invalid_period"
          else if bool_decide (e = invalid_calendar_key) then UiError 400 "invalid_calendar"
          else internal
      end
  end.

Definition task_filter (q : ui_query) : UITaskFilter :=
  mkUITaskFilter (query_get q "status") (query_get q "period") (trim_space (query_get q "search"))
    (query_get q "date").

Definition tasks (team : string) (q : ui_query) (env : TxEnv) (db : DB) :
    ui_response (list UITask * option string) :=
  match uiTeamID team with
  | None => not_found
  | Some team =>
  match uiCollectionRequest q with
  | Err (status, code) => UiError status code
  | Ok (limit, after) =>
      let f := task_filter q in
      if negb (validUIStatus (uf_status f)) || negb (validOptionalPeriod (uf_period f)) ||
         negb (validUIDate (uf_date f))
      then invalid_filter
      else ui_list None (run_tx (ListUITasks team f limit after) env db).1
  end
  end.

Definition task (team task : string) (env : TxEnv) (db : DB) : ui_response UITask :=
  match uiResourcePath team task with
  | None => not_found
  | Some (team, task) => ui_result (Some ErrTaskUnknown) (run_tx (GetUITask team task) env db).1
  end.

Definition taskEvents (team task : string) (q : ui_query) (env : TxEnv) (db db' : DB) :
    ui_response (list UIEvent * option string) :=
  match uiResourcePath team task with
  | None => not_found
  | Some (team, task) =>
  match uiCollectionRequest q with
  | Err (status, code) => UiError status code
  | Ok (limit, after) =>
      ui_list (Some ErrTaskUnknown) (ListUITaskEvents team task limit after env db db')
  end
  end.

Definition executors (team : string) (q : ui_query) (env : TxEnv) (db : DB) :
    ui_response (list UIExecutor * option string) :=
  match uiTeamID team with
  | None => not_found
  | Some team =>
  match uiCollectionRequest q with
  | Err (status, code) => UiError status code
  | Ok (limit, after) =>
      let f := mkUIExecutorFilter (query_get q "status") (trim_space (query_get q "search")) in
      if negb (bool_decide (xf_status f ∈ [""; "busy"; "idle"])) then invalid_filter
      else ui_list None (run_tx (ListUIExecutors team f limit after) env db).1
  end
  end.

Definition executor (team executor : string) (env : TxEnv) (db : DB) : ui_response UIExecutor :=
  match uiResourcePath team executor with
  | None => not_found
  | Some (team, executor) =>
      ui_result (Some ErrUIResourceUnknown) (run_tx (GetUIExecutor team executor) env db).1
  end.

Definition executorEvents (team executor : string) (q : ui_query) (env : TxEnv) (db db' : DB) :
    ui_response (list UIEvent * option string) :=
  match uiResourcePath team executor with
  | None => not_found
  | Some (team, executor) =>
  match uiCollectionRequest q with
  | Err (status, code) => UiError status code
  | Ok (limit, after) =>
      ui_list (Some ErrUIResourceUnknown)
        (ListUIExecutorEvents team executor limit after env db db')
  end
  end.

Definition executorTasks (team executor : string) (q : ui_query) (env : TxEnv) (db db' : DB) :
    ui_response (list UITask * option string) :=
  match uiResourcePath team executor with
  | None => not_found
  | Some (team, executor) =>
  match uiCollectionRequest q with
  | Err (status, code) => UiError status code
  | Ok (limit, after) =>
      let status := query_get q "status" in
      if negb (validUIStatus status) then invalid_filter
      else ui_list (Some ErrUIResourceUnknown)
             (ListUIExecutorTasks team executor status limit after env db db')
  end
  end.

Definition audit (team : string) (q : ui_query) (env : TxEnv) (db : DB) :
    ui_response (list AuditEntry * option string) :=
  match uiTeamID team with
  | None => not_found
  | Some team =>
  match uiCollectionRequest q with
  | Err (status, code) => UiError status code
  | Ok (limit, after) =>
      ui_list None
        (run_tx (ListUIAudit team (mkUIAuditFilter (trim_space (query_get q "search"))) limit after)
           env db).1
  end
  end.
End handlers.
