(* ===== verification/UiProps.v ===== *)
(** * What the operator reads promise

    The dashboard is the calendar that was selected and counts every task of the team once, on its
    day; a bucket opens the list of the tasks it counts; a client that follows the cursors of a list
    reads every selected row once; and a request is answered from the rows of its team. *)

From stdpp Require Import base gmap strings list pretty sorting.
From Stdlib Require Import Ascii.
From S2P Require Import Prelude Paging Platform Tx Schema Store GoStrings Base64 ScopeToken Fixtures Claim.
From S2P Require Import Events Controls Listing Keyrings Cursor ListHttp Calendar UiReads UiHttp.
#[local] Open Scope Z_scope.

(** ** Counting *)

Lemma length_filter_or {A} (P Q : A → Prop) `{!∀ x, Decision (P x), !∀ x, Decision (Q x)} (l : list A) :
  (∀ x, P x → ¬ Q x) →
  length (filter (λ x, P x ∨ Q x) l) = (length (filter P l) + length (filter Q l))%nat.
Proof.
  intros Hd. induction l as [|x l IH]; [done|]. rewrite !filter_cons.
  destruct (decide (P x)) as [Hp|Hp], (decide (Q x)) as [Hq|Hq]; try (exfalso; by apply (Hd x));
    destruct (decide (P x ∨ Q x)); simpl; rewrite ?IH; (lia || tauto).
Qed.

Lemma list_filter_iff_in {A} (P Q : A → Prop) `{!∀ x, Decision (P x), !∀ x, Decision (Q x)} (l : list A) :
  (∀ x, x ∈ l → P x ↔ Q x) → filter P l = filter Q l.
Proof.
  induction l as [|x l IH]; [done|]. intros Hl. rewrite !filter_cons.
  rewrite IH by (intros y Hy; apply Hl; by right).
  assert (P x ↔ Q x) as Hx by (apply Hl; by left). case_decide; case_decide; (done || tauto).
Qed.

Section group.
Context {A K : Type} `{EqDecision K} (f : A → K).

Lemma group_count_lookup l k c :
  (k, c) ∈ group_count f l ↔ k ∈ f <$> l ∧ c = length (filter (λ x, f x = k) l).
Proof using.
  unfold group_count. rewrite list_elem_of_fmap. split.
  - intros (k' & [= -> ->] & Hk). split; [|done]. by apply (elem_of_remove_dups (f <$> l)) in Hk.
  - intros [Hk ->]. exists k. split; [done|]. by apply elem_of_remove_dups.
Qed.

Lemma group_count_keys (Q : K → Prop) `{!∀ k, Decision (Q k)} l ks :
  NoDup ks →
  sum_list ((λ k, length (filter (λ x, f x = k) l)) <$> filter Q ks)
  = length (filter (λ x, f x ∈ ks ∧ Q (f x)) l).
Proof using.
  induction 1 as [|k ks Hk _ IH].
  - rewrite (list_filter_none (λ x, f x ∈ [] ∧ Q (f x))); [done|].
    apply Forall_forall. intros x _ [Hx _]. by apply not_elem_of_nil in Hx.
  - assert (length (filter (λ x, f x ∈ k :: ks ∧ Q (f x)) l)
            = (length (filter (λ x, f x = k ∧ Q k) l) +
               length (filter (λ x, f x ∈ ks ∧ Q (f x)) l))%nat) as ->.
    { rewrite <- length_filter_or by (intros x [-> _] [Hx _]; done). f_equal.
      apply list_filter_iff. intros x. rewrite elem_of_cons. naive_solver. }
    rewrite filter_cons, <- IH. case_decide as Hq; simpl; f_equal.
    + f_equal. apply list_filter_iff. naive_solver.
    + by rewrite (list_filter_none (λ x, f x = k ∧ Q k)) by (apply Forall_forall; naive_solver).
Qed.

(** The numbers of the groups with a property add up to the number of rows with it. *)
Lemma group_count_sum (Q : K → Prop) `{!∀ k, Decision (Q k)} l :
  sum_list ((filter (λ r, Q r.1) (group_count f l)).*2) = length (filter (λ x, Q (f x)) l).
Proof using.
  unfold group_count.
  assert (∀ ks : list K, (filter (λ r, Q r.1) ((λ k, (k, length (filter (λ x, f x = k) l))) <$> ks)).*2
          = (λ k, length (filter (λ x, f x = k) l)) <$> filter Q ks) as ->.
  { intros ks. induction ks as [|k ks IH]; [done|]. rewrite fmap_cons, !filter_cons. simpl.
    case_decide; [|done]. simpl. by f_equal. }
  rewrite group_count_keys by apply NoDup_remove_dups. f_equal.
  apply list_filter_iff_in. intros x Hx. split; [tauto|]. intros Hq. split; [|done].
  apply elem_of_remove_dups, list_elem_of_fmap. eauto.
Qed.
End group.

(** ** The loops of the dashboard *)

Lemma scan_counts_lookup (F : string → nat) l m s :
  (∀ r, r ∈ l → r.2 = F r.1) →
  scan_counts m l !! s = if bool_decide (s ∈ l.*1) then Some (F s) else m !! s.
Proof.
  unfold scan_counts. revert m. induction l as [|[k c] l IH]; intros m Hl; [done|].
  simpl. rewrite IH by (intros r Hr; apply Hl; by right).
  assert (c = F k) as -> by (apply (Hl (k, c)); by left).
  repeat case_bool_decide; try done.
  - exfalso. set_solver.
  - rewrite lookup_insert. case_decide; [by subst|set_solver].
  - rewrite lookup_insert_ne; [done|set_solver].
Qed.

Definition row_bucket (b : UIDashboardBucket) (r : Z * string * nat) : UIDashboardBucket :=
  count_bucket r.1.2 r.2 b.

Lemma scan_bucket_lookup bs r i :
  scan_bucket bs r !! i
  = (λ b, if bool_decide (r.1.1 = Z.of_nat i) then row_bucket b r else b) <$> bs !! i.
Proof.
  destruct r as [[index state] count]. unfold scan_bucket, row_bucket. simpl.
  destruct (bs !! i) as [b|] eqn:Eb; simpl.
  - apply lookup_lt_Some in Eb as Hi. destruct (_ || _) eqn:Eo.
    + rewrite Eb. rewrite bool_decide_eq_false_2; [done|]. rewrite orb_true_iff, Z.ltb_lt, Z.leb_le in Eo. lia.
    + rewrite orb_false_iff, Z.ltb_ge, Z.leb_gt in Eo. case_bool_decide as Hx.
      * subst index. rewrite Nat2Z.id, list_lookup_alter, Eb. by rewrite decide_True.
      * rewrite list_lookup_alter_ne by lia. done.
  - destruct (_ || _) eqn:Eo; [done|]. rewrite list_lookup_alter. case_decide; subst; by rewrite Eb.
Qed.

(** Each bucket takes the rows of its index. *)
Lemma scan_buckets_lookup rows bs i :
  foldl scan_bucket bs rows !! i
  = (λ b, foldl row_bucket b (filter (λ r, r.1.1 = Z.of_nat i) rows)) <$> bs !! i.
Proof.
  revert bs. induction rows as [|r rows IH]; intros bs; [cbn; by destruct (bs !! i)|].
  cbn [foldl]. rewrite IH, scan_bucket_lookup, <- option_fmap_compose, filter_cons.
  destruct (bs !! i) as [b|]; [|done]. simpl. case_bool_decide; case_decide; done.
Qed.

Lemma length_scan_buckets rows bs : length (foldl scan_bucket bs rows) = length bs.
Proof.
  revert bs. induction rows as [|[[index state] count] rows IH]; intros bs; [done|]. cbn [foldl].
  rewrite IH. simpl. destruct (_ || _); [done|]. apply length_alter.
Qed.

(** What the rows of a bucket leave in it. *)
Lemma row_buckets_fields rows b :
  let b' := foldl row_bucket b rows in
  bk_at b' = bk_at b ∧ bk_key b' = bk_key b ∧ bk_label b' = bk_label b ∧
  bk_short_label b' = bk_short_label b ∧ bk_future b' = bk_future b ∧
  bk_total b' = (bk_total b + sum_list rows.*2)%nat ∧
  bk_counts b' = scan_counts (bk_counts b) ((λ r, (r.1.2, r.2)) <$> rows).
Proof.
  revert b. induction rows as [|r rows IH]; intros b; cbv zeta; cbn [foldl];
    [split_and!; simpl; (done || lia)|].
  destruct (IH (row_bucket b r)) as (-> & -> & -> & -> & -> & -> & ->). split_and!; try done.
  rewrite fmap_cons. change (sum_list (r.2 :: rows.*2)) with (r.2 + sum_list rows.*2)%nat.
  change (bk_total (row_bucket b r)) with (bk_total b + r.2)%nat. lia.
Qed.

(** ** The rows of a window *)

(** A timestamp parameter keeps a whole number of microseconds. *)
Definition pg_whole `{PgTime} : Prop := ∀ t, t mod 1000 = 0 → pg_ts t = t.

Section dashboards.
Context `{Collation, PgTime, Ilike, UiCursorCodec}.

(** The tasks of a team that were ingested on a day, or on the [n] days from one. *)
Definition day_tasks (team : string) (z : Z) (d : DB) : list TaskRow :=
  filter (λ t, tk_team t = team ∧ day_of (tk_ingested_at t) = z) (rows (db_tasks d)).
Definition range_tasks (team : string) (first n : Z) (d : DB) : list TaskRow :=
  filter (λ t, tk_team t = team ∧ first ≤ day_of (tk_ingested_at t) < first + n) (rows (db_tasks d)).
Definition in_state (s : string) (l : list TaskRow) : nat := length (filter (λ t, tk_state t = s) l).

Lemma pg_midnight z : pg_whole → pg_ts (midnight z) = midnight z.
Proof using. intros Hw. apply Hw. unfold midnight, day_ns. Z.to_euclidean_division_equations. lia. Qed.

Lemma day_between t a b : midnight a ≤ t < midnight b ↔ a ≤ day_of t < b.
Proof using.
  unfold midnight, day_of, day_ns. Z.to_euclidean_division_equations. lia.
Qed.

Lemma window_rows_range team w first n d :
  pg_whole → dw_start w = midnight first → dw_end w = midnight (first + n) →
  window_rows team w d = range_tasks team first n d.
Proof using.
  intros Hw Hs He. unfold window_rows, range_tasks. apply list_filter_iff. intros t.
  unfold in_dashboard. rewrite Hs, He, !pg_midnight, <- day_between by done.
  rewrite Is_true_true, !andb_true_iff, bool_decide_eq_true, Z.leb_le, Z.ltb_lt. tauto.
Qed.

Lemma bucket_index_day w first t :
  pg_whole → dw_start w = midnight first → bucket_index w t = day_of (tk_ingested_at t) - first.
Proof using.
  intros Hw Hs. unfold bucket_index, day_of. rewrite Hs, pg_midnight by done. unfold midnight.
  replace (tk_ingested_at t - first * day_ns) with (tk_ingested_at t + (- first) * day_ns) by lia.
  rewrite Z.div_add by (by apply Z.neq_sym, Z.lt_neq, day_ns_pos). lia.
Qed.

(** The rows of the second statement that fall into a bucket. *)
Lemma bucket_rows_elem team w d r :
  r ∈ bucket_rows team w d →
  r.2 = length (filter (λ t, (bucket_index w t, tk_state t) = r.1) (window_rows team w d)).
Proof using.
  unfold bucket_rows. rewrite elem_of_order_by. destruct r as [k c].
  intros [_ Hc]%group_count_lookup. exact Hc.
Qed.

Lemma bucket_rows_total team w d (i : Z) :
  sum_list ((filter (λ r, r.1.1 = i) (bucket_rows team w d)).*2)
  = length (filter (λ t, bucket_index w t = i) (window_rows team w d)).
Proof using.
  unfold bucket_rows. rewrite order_by_perm.
  exact (group_count_sum (λ t, (bucket_index w t, tk_state t)) (λ k, k.1 = i) _).
Qed.

(** ** The calendar of a window *)

(** [calendar_of period key first n]: the [n] days from [first] are the ISO week, or the month,
    that the key names. *)
Definition calendar_of (period key : string) (first n : Z) : Prop :=
  (period = "week" ∧ n = 7 ∧ since_monday first = 0 ∧
   ∃ y w, ISOWeek first = (y, w) ∧ key = week_key y w ∧ - 1000 < y < 10000) ∨
  (period = "month" ∧ day_of_month first = 1 ∧ n = month_length (year_of first) (month_of first) ∧
   key = format_month first ∧ 0 ≤ year_of first < 10000).

(** The selection of a request: the current week or month when there is none. *)
Definition selected_key (period key : string) (today : Z) : string :=
  if bool_decide (key = "") then
    if bool_decide (period = "week") then week_key (ISOWeek today).1 (ISOWeek today).2
    else format_month today
  else key.

Lemma isoWeekStart_days y w : isoWeekStart y w = midnight (first_monday y + (w - 1) * 7).
Proof using.
  unfold isoWeekStart, first_monday. cbv zeta. rewrite day_of_midnight, add_days_midnight.
  rewrite since_monday_rem. f_equal. lia.
Qed.

Lemma week_window y w z :
  ISOWeek z = (y, w) → since_monday z = 0 → isoWeekStart y w = midnight z.
Proof using. intros Hz Hm. rewrite isoWeekStart_days, (ISOWeek_monday z y w), Hm by done. f_equal. lia. Qed.

Lemma isoWeekStart_current today :
  isoWeekStart (ISOWeek today).1 (ISOWeek today).2 = midnight (today - since_monday today).
Proof using.
  rewrite isoWeekStart_days. f_equal. apply ISOWeek_monday. by destruct (ISOWeek today).
Qed.

Lemma since_monday_first y w : since_monday (first_monday y + (w - 1) * 7) = 0.
Proof using.
  pose proof (first_monday_mod y) as Hm. rewrite since_monday_spec in *.
  replace (first_monday y + (w - 1) * 7 + 3) with (first_monday y + 3 + (w - 1) * 7) by lia.
  by rewrite Z.mod_add.
Qed.

Lemma midnight_le a b : midnight a ≤ midnight b ↔ a ≤ b.
Proof using. unfold midnight, day_ns. lia. Qed.

Lemma midnight_ltb a b : (midnight a <? midnight b) = (a <? b).
Proof using.
  destruct (Z.ltb_spec a b), (Z.ltb_spec (midnight a) (midnight b)); unfold midnight, day_ns in *; (done || lia).
Qed.

(** The key of the month of a day is that of its first day. *)
Lemma format_month_first z : format_month (days (year_of z) (month_of z) 1) = format_month z.
Proof using.
  pose proof (month_of_range z) as Hm. pose proof (month_length_range (year_of z) _ Hm).
  destruct (date_of_days (year_of z) (month_of z) 1 Hm) as (Ey & Em & _); [lia|].
  unfold format_month. by rewrite Ey, Em.
Qed.

Lemma window_end_month z :
  day_of_month z = 1 →
  add_months (midnight z) 1 = midnight (z + month_length (year_of z) (month_of z)).
Proof using.
  intros Hd. rewrite add_months_first, days_next_month by (done || apply month_of_range).
  f_equal. f_equal. rewrite <- Hd. apply days_of_date.
Qed.

(** The first of a month is not after a day exactly when it is not after the first of its month. *)
Lemma first_of_month_le z today :
  day_of_month z = 1 → days (year_of today) (month_of today) 1 < z ↔ today < z.
Proof using.
  intros Hd. pose proof (days_of_date today) as Ht. pose proof (month_of_range today) as Hm.
  pose proof (day_of_month_range today) as Hr. rewrite days_normal in * by done.
  split; intros Hz; [|lia]. apply Z.nle_gt. intros Hle.
  set (first := year_days (year_of today) + _ + 1 - 1 - epoch_days) in *.
  destruct (date_of_days (year_of today) (month_of today) (z - first + 1) Hm) as (_ & _ & Hday); [lia|].
  rewrite days_normal in Hday by done.
  replace (year_days _ + _ + _ - 1 - _) with z in Hday by lia. lia.
Qed.

(** ** What a selection gives *)

Lemma uiDashboardWindow_ok period key now w :
  uiDashboardWindow period key now = Ok w →
  ∃ first n, calendar_of period (dw_key w) first n ∧ first ≤ day_of now ∧
    dw_key w = selected_key period key (day_of now) ∧
    dw_period w = period ∧ dw_start w = midnight first ∧ dw_end w = midnight (first + n).
Proof using.
  unfold uiDashboardWindow, selected_key, calendar_of. cbv zeta.
  destruct (bool_decide (period = "week")) eqn:Ep.
  - apply bool_decide_eq_true in Ep as ->. pose proof (isoWeekStart_current (day_of now)) as Hc.
    destruct (ISOWeek (day_of now)) as [cy cw]. cbn [fst snd] in *. rewrite Hc.
    destruct (scan_week _) as [[y k]|] eqn:Es; [|done]. apply scan_week_range in Es as Hy.
    destruct (bool_decide (week_key y k ≠ _)) eqn:Hk; [done|]. apply bool_decide_eq_false, dec_stable in Hk.
    destruct (_ || _) eqn:Eo; [done|]. apply orb_false_iff in Eo as [Ei Ef]. to_prop.
    rewrite isoWeekStart_days in *. rewrite day_of_midnight in Ei. rewrite midnight_ltb, Z.ltb_ge in Ef.
    intros [= <-]. cbn [dw_key dw_start dw_end dw_period].
    exists (first_monday y + (k - 1) * 7), 7. pose proof (since_monday_range (day_of now)).
    split_and!; [left|lia|..]; try done.
    + split_and!; [done..|apply since_monday_first|]. by exists y, k.
    + by rewrite add_days_midnight.
  - destruct (bool_decide (period = "month")) eqn:Em; [|done]. apply bool_decide_eq_true in Em as ->.
    rewrite day_of_midnight, format_month_first. destruct (parse_month _) as [z|] eqn:Es; [|done].
    apply parse_month_format in Es as Hf. destruct Hf as (Hf & Hd & Hy).
    rewrite midnight_ltb. destruct (_ <? z) eqn:El; [done|]. apply Z.ltb_ge in El.
    intros [= <-]. cbn [dw_key dw_start dw_end dw_period].
    exists z, (month_length (year_of z) (month_of z)). split_and!; try done.
    + right. split_and!; (done || lia).
    + apply Z.nlt_ge. intros Hlt. apply (first_of_month_le z (day_of now) Hd) in Hlt. lia.
    + by apply window_end_month.
Qed.

Lemma ISOWeek_key_scan z y w :
  ISOWeek z = (y, w) → - 1000 < y < 10000 → scan_week (week_key y w) = Some (y, w).
Proof using. intros Hz Hy. apply ISOWeek_range in Hz. apply scan_week_key; lia. Qed.

(** A key names one week or month. *)
Lemma calendar_of_unique period key first n first' n' :
  calendar_of period key first n → calendar_of period key first' n' → first = first' ∧ n = n'.
Proof using.
  intros [(-> & -> & Hm & y & w & Hi & -> & Hy)|(-> & Hd & -> & -> & Hy)]
         [(E & -> & Hm' & y' & w' & Hi' & Hk & Hy')|(E & Hd' & -> & Hk & Hy')]; try discriminate E.
  - apply ISOWeek_key_scan in Hi as Hs; [|done]. rewrite Hk, (ISOWeek_key_scan _ _ _ Hi') in Hs by done.
    injection Hs as <- <-. apply ISOWeek_monday in Hi, Hi'. split; [lia|done].
  - pose proof (parse_format_month first Hy) as Hp. rewrite Hk, parse_format_month in Hp by done.
    injection Hp as Hp. pose proof (days_of_date first) as E1. pose proof (days_of_date first') as E2.
    rewrite Hd in E1. rewrite Hd' in E2. assert (first = first') as -> by congruence. done.
Qed.

(** Every key of a week or month that has begun is accepted. *)
Lemma uiDashboardWindow_accepts period key now first n :
  calendar_of period (selected_key period key (day_of now)) first n → first ≤ day_of now →
  ∃ w, uiDashboardWindow period key now = Ok w.
Proof using.
  unfold uiDashboardWindow, selected_key. cbv zeta. intros Hc Hle.
  destruct Hc as [(-> & -> & Hm & y & k & Hi & Hk & Hy)|(-> & Hd & -> & Hk & Hy)].
  - change (bool_decide ("week" = "week")) with true in *. cbn iota in *.
    pose proof (isoWeekStart_current (day_of now)) as Hc.
    destruct (ISOWeek (day_of now)) as [cy cw]. cbn [fst snd] in *. rewrite Hk, (ISOWeek_key_scan _ _ _ Hi) by done.
    rewrite bool_decide_eq_false_2 by (intros Hn; by apply Hn).
    rewrite (week_window y k first), day_of_midnight, Hi, Hc, midnight_ltb by done.
    rewrite bool_decide_eq_false_2 by (intros Hn; by apply Hn). cbn [orb].
    rewrite (proj2 (Z.ltb_ge _ _)); [by eexists|].
    rewrite since_monday_spec in *. Z.to_euclidean_division_equations. lia.
  - change (bool_decide ("month" = "week")) with false in *. change (bool_decide ("month" = "month")) with true.
    cbn iota in *. rewrite day_of_midnight, format_month_first, Hk, parse_format_month by done.
    assert (days (year_of first) (month_of first) 1 = first) as -> by (rewrite <- Hd; apply days_of_date).
    rewrite midnight_ltb, (proj2 (Z.ltb_ge _ _)); [by eexists|].
    apply Z.nlt_ge. intros Hlt. apply (first_of_month_le first (day_of now) Hd) in Hlt. lia.
Qed.

(** ** The buckets of a dashboard *)

Lemma calendar_days period key first n : calendar_of period key first n → 7 ≤ n ≤ 31.
Proof using.
  intros [(_ & -> & _)|(_ & _ & -> & _)]; [lia|].
  pose proof (month_length_range (year_of first) _ (month_of_range first)). lia.
Qed.

Lemma buckets_lookup w now first n i :
  dw_start w = midnight first → dw_end w = midnight (first + n) → 0 ≤ n →
  buckets w now !! i = if bool_decide (Z.of_nat i < n) then Some (bucket_at w now i) else None.
Proof using.
  intros Hs He Hn. unfold buckets. rewrite Hs, He, list_lookup_fmap.
  assert (Z.quot (midnight (first + n) - midnight first) day_ns = n) as ->.
  { unfold midnight. replace ((first + n) * day_ns - first * day_ns) with (n * day_ns) by lia.
    apply Z.quot_mul. pose proof day_ns_pos. lia. }
  case_bool_decide.
  - by rewrite lookup_seq_lt by lia.
  - by rewrite lookup_seq_ge by lia.
Qed.

Lemma state_counts_zero s : s ∈ TaskStates → uiStateCounts !! s = Some 0%nat.
Proof using.
  intros Hs. unfold TaskStates in Hs.
  repeat (apply elem_of_cons in Hs as [->|Hs]; [reflexivity|]). by apply not_elem_of_nil in Hs.
Qed.

(** Counts scanned from the groups of some rows: every state has the number of its rows. *)
Lemma scan_groups {A} (f : A → string) (l : list A) (rows : list (string * nat)) s :
  (∀ r, r ∈ rows → r.2 = length (filter (λ x, f x = r.1) l)) →
  (∀ x, x ∈ l → f x ∈ rows.*1) → s ∈ TaskStates →
  scan_counts uiStateCounts rows !! s = Some (length (filter (λ x, f x = s) l)).
Proof using.
  intros Hr Hl Hs. rewrite (scan_counts_lookup (λ k, length (filter (λ x, f x = k) l))) by done.
  case_bool_decide as Hin; [done|]. rewrite state_counts_zero by done.
  rewrite list_filter_none; [done|]. apply Forall_forall. intros x Hx <-. by apply Hin, Hl.
Qed.

(** The rows of the first statement that arrive. *)
Definition counts_read (env : TxEnv) (l : list (string * nat)) : list (string * nat) :=
  match env_cut env 0 with Some n => take n l | None => l end.

Lemma GetUIDashboard_ok team period key now env db0 db r :
  GetUIDashboard team period key now env db0 db = Ok r →
  ∃ w, uiDashboardWindow period key now = Ok w ∧
    r = mkDashboard period (dw_key w)
          (scan_counts uiStateCounts (counts_read env (group_count tk_state (window_rows team w db0))))
          (foldl scan_bucket (buckets w now) (bucket_rows team w db)).
Proof using.
  unfold GetUIDashboard. destruct (uiDashboardWindow _ _ _) as [w|e]; [|done]. intros Hr. exists w. split; [done|].
  apply run_reads_ok in Hr as (counts & st & st' & Hc & Hr). apply query_unchecked_ok in Hc as ->.
  tx_inv. done.
Qed.

(** A state has its number, or none when the rows broke off before it. *)
Lemma scan_read env l s :
  s ∈ TaskStates →
  ∃ c, scan_counts uiStateCounts (counts_read env (group_count tk_state l)) !! s = Some c ∧
    (c = in_state s l ∨ c = 0%nat ∧ is_Some (env_cut env 0)).
Proof using.
  intros Hs. unfold counts_read. set (g := group_count tk_state l).
  assert (∀ r, r ∈ g → r.2 = in_state r.1 l) as Hg by (intros [k c] [_ Hc]%group_count_lookup; exact Hc).
  destruct (env_cut env 0) as [n|].
  - rewrite (scan_counts_lookup (λ k, in_state k l)).
    + case_bool_decide; [eauto|]. rewrite state_counts_zero by done. eauto.
    + intros r Hr. apply Hg. by eapply subseteq_take.
  - eexists. split; [|left; reflexivity]. apply (scan_groups tk_state l); [done| |done].
    intros t Ht. apply list_elem_of_fmap. eexists (tk_state t, _). split; [done|].
    apply group_count_lookup. split; [by apply list_elem_of_fmap_2|reflexivity].
Qed.

(** A day of a window holds the tasks of the team that were ingested on it. *)
Lemma window_day team w first n i db :
  pg_whole → dw_start w = midnight first → dw_end w = midnight (first + n) → 0 ≤ i < n →
  filter (λ t, bucket_index w t = i) (window_rows team w db) = day_tasks team (first + i) db.
Proof using.
  intros Hw Hs He Hi. rewrite (window_rows_range team w first n) by done.
  unfold range_tasks, day_tasks. rewrite list_filter_filter. apply list_filter_iff. intros t.
  rewrite (bucket_index_day w first) by done. intuition lia.
Qed.

Lemma dashboard_bucket team w now first n db i :
  pg_whole → dw_start w = midnight first → dw_end w = midnight (first + n) → 0 ≤ Z.of_nat i < n →
  ∃ b, foldl scan_bucket (buckets w now) (bucket_rows team w db) !! i = Some b ∧
    let z := first + Z.of_nat i in
    bk_at b = midnight z ∧ bk_key b = format_date z ∧ bk_future b = (now <? midnight z) ∧
    bk_total b = length (day_tasks team z db) ∧
    ∀ s, s ∈ TaskStates → bk_counts b !! s = Some (in_state s (day_tasks team z db)).
Proof using.
  intros Hw Hs He Hi. rewrite scan_buckets_lookup, (buckets_lookup w now first n) by (done || lia).
  rewrite bool_decide_eq_true_2 by lia. simpl. eexists. split; [reflexivity|].
  match goal with |- context [foldl row_bucket ?b ?l] =>
    destruct (row_buckets_fields l b) as (-> & -> & _ & _ & -> & -> & ->) end.
  unfold bucket_at. cbn [bk_at bk_key bk_future bk_total bk_counts].
  rewrite Hs, add_days_midnight, day_of_midnight. split_and!; try done.
  - by rewrite bucket_rows_total, (window_day _ _ first n).
  - intros s Hst. unfold in_state. rewrite <- (window_day _ w first n) by done.
    apply scan_groups; [| |done].
    + intros r (r' & -> & [Hr1 Hr2]%list_elem_of_filter)%list_elem_of_fmap. simpl.
      rewrite (bucket_rows_elem _ _ _ _ Hr2), list_filter_filter. f_equal. apply list_filter_iff.
      intros t. destruct r' as [[k1 k2] c]. simpl in *. subst k1. split; [by intros [= -> ->]|by intros [-> ->]].
    + intros t [Ht1 Ht2]%list_elem_of_filter.
      rewrite <- list_fmap_compose. apply list_elem_of_fmap.
      exists (Z.of_nat i, tk_state t, length (filter (λ x, (bucket_index w x, tk_state x) = (Z.of_nat i, tk_state t)) (window_rows team w db))).
      split; [done|]. apply list_elem_of_filter. split; [done|]. apply elem_of_order_by, group_count_lookup.
      split; [|done]. apply list_elem_of_fmap. exists t. by rewrite Ht1.
Qed.

Lemma range_total team first n db :
  sum_list ((λ z, length (day_tasks team z db)) <$> seqZ first n) = length (range_tasks team first n db).
Proof using.
  pose proof (group_count_keys (λ t, day_of (tk_ingested_at t)) (λ _, True)
                (filter (λ t, tk_team t = team) (rows (db_tasks db))) (seqZ first n) (NoDup_seqZ first n)) as Hs.
  rewrite (list_filter_all (λ _ : Z, True)) in Hs by (by apply Forall_forall).
  rewrite list_filter_filter in Hs. unfold range_tasks.
  rewrite (list_filter_iff _ (λ t, (day_of (tk_ingested_at t) ∈ seqZ first n ∧ True) ∧ tk_team t = team));
    [rewrite <- Hs|intros t; rewrite elem_of_seqZ; tauto].
  f_equal. apply list_fmap_ext. intros _ z _. unfold day_tasks. rewrite list_filter_filter.
  f_equal. apply list_filter_iff. tauto.
Qed.

(** A list of buckets, one per day. *)
Lemma dashboard_days {B} (f : UIDashboardBucket → B) (g : Z → B) bs first n :
  length bs = Z.to_nat n →
  (∀ i, 0 ≤ Z.of_nat i < n → ∃ b, bs !! i = Some b ∧ f b = g (first + Z.of_nat i)) →
  f <$> bs = g <$> seqZ first n.
Proof using.
  intros Hl Hb. apply list_eq. intros i. rewrite !list_lookup_fmap.
  destruct (decide (Z.of_nat i < n)) as [Hi|Hi].
  - destruct (Hb i) as (b & -> & E); [lia|]. rewrite (proj2 (lookup_seqZ _ _ _ (first + Z.of_nat i))) by lia.
    simpl. by rewrite E.
  - rewrite (lookup_ge_None_2 bs) by lia. by rewrite lookup_ge_None_2 by (rewrite length_seqZ; lia).
Qed.

(** The encoder accepts a dashboard whose first and last days are of the years 0 to 9999. *)
Lemma JSON_dashboard_days r first n :
  1 ≤ n → bk_at <$> db_buckets r = midnight <$> seqZ first n →
  JSON_dashboard r =
    if bool_decide (0 ≤ year_of first ∧ year_of (first + n - 1) < 10000) then UiBody r else UiEmpty.
Proof using.
  intros Hn Hat. unfold JSON_dashboard.
  assert (forallb (λ b, marshals (bk_at b)) (db_buckets r) = forallb marshals (bk_at <$> db_buckets r)) as ->
    by (induction (db_buckets r) as [|b bs IH] in |- *; [done|simpl; by f_equal]).
  rewrite Hat.
  assert (∀ z, marshals (midnight z) = true ↔ 0 ≤ year_of z < 10000) as Hm.
  { intros z. unfold marshals. rewrite day_of_midnight, andb_true_iff, Z.leb_le, Z.ltb_lt. tauto. }
  assert (forallb marshals (midnight <$> seqZ first n) = true ↔
          0 ≤ year_of first ∧ year_of (first + n - 1) < 10000) as Hf.
  { rewrite <- Is_true_true, forallb_True, Forall_fmap, Forall_forall. split.
    - intros Hall. assert (∀ z, first ≤ z < first + n → 0 ≤ year_of z < 10000) as Hy.
      { intros z Hz. apply Hm, Is_true_true, (Hall z), elem_of_seqZ. lia. }
      split; apply Hy; lia.
    - intros [H1' H2'] z Hz%elem_of_seqZ. apply Is_true_true, Hm.
      pose proof (year_of_mono first z). pose proof (year_of_mono z (first + n - 1)). lia. }
  case_bool_decide as Hy; [by rewrite (proj2 Hf Hy)|].
  destruct (forallb _ _); [|done]. exfalso. by apply Hy, Hf.
Qed.

Lemma bucket_days w now first n l :
  dw_start w = midnight first → dw_end w = midnight (first + n) → 0 ≤ n →
  length (foldl scan_bucket (buckets w now) l) = Z.to_nat n ∧
  bk_at <$> foldl scan_bucket (buckets w now) l = midnight <$> seqZ first n.
Proof using.
  intros Hs He Hn.
  assert (length (foldl scan_bucket (buckets w now) l) = Z.to_nat n) as Hl.
  { rewrite length_scan_buckets. unfold buckets. rewrite length_fmap, length_seq, Hs, He.
    f_equal. unfold midnight. replace ((first + n) * day_ns - first * day_ns) with (n * day_ns) by lia.
    apply Z.quot_mul. pose proof day_ns_pos. lia. }
  split; [done|]. apply dashboard_days; [done|]. intros i Hi.
  rewrite scan_buckets_lookup, (buckets_lookup w now first n) by done.
  rewrite bool_decide_eq_true_2 by lia. simpl. eexists. split; [reflexivity|].
  match goal with |- context [foldl row_bucket ?b ?l] =>
    destruct (row_buckets_fields l b) as (-> & _) end.
  unfold bucket_at. cbn [bk_at]. by rewrite Hs, add_days_midnight.
Qed.

Lemma dashboard_ok team q env db0 db r :
  dashboard team q env db0 db = UiBody r →
  ∃ id w first n, uiTeamID team = Some id ∧
    let period := query_get q "period" in
    calendar_of period (dw_key w) first n ∧ first ≤ day_of (env_now env) ∧
    dw_key w = selected_key period (query_get q period) (day_of (env_now env)) ∧
    dw_start w = midnight first ∧ dw_end w = midnight (first + n) ∧
    r = mkDashboard period (dw_key w)
          (scan_counts uiStateCounts (counts_read env (group_count tk_state (window_rows id w db0))))
          (foldl scan_bucket (buckets w (env_now env)) (bucket_rows id w db)).
Proof using.
  unfold dashboard. destruct (uiTeamID team) as [id|]; [|done]. intros Hr.
  destruct (GetUIDashboard _ _ _ _ _ _ _) as [r'|e] eqn:Hrun; [|repeat case_bool_decide; done].
  unfold JSON_dashboard in Hr. destruct (forallb _ _); [|done]. injection Hr as <-.
  apply GetUIDashboard_ok in Hrun as (w & Hw & ->).
  apply uiDashboardWindow_ok in Hw as (first & n & Hc & Hle & Hk & _ & Hs & He).
  by exists id, w, first, n.
Qed.

(** C21. What a dashboard shows. What GET dashboard answers is the ISO week or the
    month that the request names, or the current one, with one bucket for each of its seven or 28 to
    31 days, in order, the days to come included; a bucket counts the tasks of the team that were
    ingested on its day, per state and in total, whatever their number, and no task is counted twice or
    left out: the buckets are complete. The counts above them come from an earlier read, of the
    database as it was then, and a state that it did not get to is served as zero: only
    when that read was not cut off is each the number of the tasks of all days in that state. *)
Theorem dashboard_complete team q env db0 db r :
  pg_whole → dashboard team q env db0 db = UiBody r →
  let period := query_get q "period" in
  let today := day_of (env_now env) in
  ∃ id first n, uiTeamID team = Some id ∧ calendar_of period (db_key r) first n ∧
    db_key r = selected_key period (query_get q period) today ∧ 7 ≤ n ≤ 31 ∧ first ≤ today ∧
    bk_at <$> db_buckets r = midnight <$> seqZ first n ∧
    (∀ b, b ∈ db_buckets r → ∃ z, bk_at b = midnight z ∧ bk_key b = format_date z ∧
       bk_future b = (env_now env <? midnight z) ∧ bk_total b = length (day_tasks id z db) ∧
       ∀ s, s ∈ TaskStates → bk_counts b !! s = Some (in_state s (day_tasks id z db))) ∧
    sum_list (bk_total <$> db_buckets r) = length (range_tasks id first n db) ∧
    (∀ s, s ∈ TaskStates → ∃ c, db_counts r !! s = Some c ∧
       (c = in_state s (range_tasks id first n db0) ∨ c = 0%nat ∧ is_Some (env_cut env 0))).
Proof using.
  intros Hw Hr period today.
  apply dashboard_ok in Hr as (id & w & first & n & Hid & Hc & Hle & Hk & Hs & He & ->).
  cbn [db_key db_buckets db_counts]. exists id, first, n. apply calendar_days in Hc as Hn.
  pose proof (λ i, dashboard_bucket id w (env_now env) first n db i Hw Hs He) as Hb.
  destruct (bucket_days w (env_now env) first n (bucket_rows id w db) Hs He) as [Hl Hat]; [lia|].
  do 2 (split; [done|]). split; [done|]. split; [done|]. split; [done|].
  split_and!.
  - exact Hat.
  - intros b [i Hi]%list_elem_of_lookup. apply lookup_lt_Some in Hi as Hlt.
    destruct (Hb i) as (b' & Hl' & Hf); [lia|]. rewrite Hl' in Hi. injection Hi as ->. eexists. exact Hf.
  - rewrite <- range_total. f_equal. apply dashboard_days; [done|].
    intros i Hi. destruct (Hb i Hi) as (b & Hl' & _ & _ & _ & Ht & _). eauto.
  - intros s Hst. rewrite <- (window_rows_range id w) by done. by apply scan_read.
Qed.

Lemma uiDashboardWindow_err period key now e :
  uiDashboardWindow period key now = Err e →
  e = if bool_decide (period ∈ ["week"; "month"]) then invalid_calendar_key else invalid_period.
Proof using.
  unfold uiDashboardWindow. cbv zeta. intros Hw.
  destruct (bool_decide (period ∈ ["week"; "month"])) eqn:Hp; to_prop.
  - destruct (bool_decide (period = "week")) eqn:Ew.
    + destruct (ISOWeek (day_of now)). repeat (destr_in Hw; try discriminate Hw); by injection Hw.
    + apply bool_decide_eq_false in Ew. rewrite bool_decide_eq_true_2 in Hw
        by (apply elem_of_cons in Hp as [?|Hp]; [done|by apply list_elem_of_singleton in Hp]).
      repeat (destr_in Hw; try discriminate Hw); by injection Hw.
  - apply not_elem_of_cons in Hp as [Hp1 [Hp2 _]%not_elem_of_cons].
    rewrite (bool_decide_eq_false_2 _ Hp1), (bool_decide_eq_false_2 _ Hp2) in Hw. by injection Hw.
Qed.

(** C24. Which selections a dashboard has. A request for a team is served exactly when its period is
    week or month and its selection, or for none the current one, is the key of an ISO week or a
    calendar month that has begun and whose days are of the years 0 to 9999. A week that
    has begun and is not all of those years, as one of a year before zero, is not refused: its answer
    has no body. Any other period is refused as invalid_period, and any other selection, malformed,
    impossible or in the future, as invalid_calendar, before a row is read. *)
Theorem dashboard_selection team q env db0 db id :
  (∀ n, env_fault env n = false) → uiTeamID team = Some id →
  let period := query_get q "period" in
  let today := day_of (env_now env) in
  let key := selected_key period (query_get q period) today in
  (∀ first n, calendar_of period key first n → first ≤ today →
     if bool_decide (0 ≤ year_of first ∧ year_of (first + n - 1) < 10000)
     then ∃ r, dashboard team q env db0 db = UiBody r ∧ db_key r = key
     else dashboard team q env db0 db = UiEmpty) ∧
  ((¬ ∃ first n, calendar_of period key first n ∧ first ≤ today) →
   dashboard team q env db0 db
   = UiError 400 (if bool_decide (period ∈ ["week"; "month"]) then "invalid_calendar"
                  else "invalid_period")).
Proof using.
  intros Hnf Hid period today key.
  assert (∃ res, uiDashboardWindow period (query_get q period) (env_now env) = res) as [[w|e] Hw] by eauto.
  - apply uiDashboardWindow_ok in Hw as Hok. destruct Hok as (first & n & Hc & Hle & Hk & _ & Hs & He).
    rewrite Hk in Hc. split; [|intros Hn; destruct Hn; by exists first, n].
    intros first' n' Hc' _. destruct (calendar_of_unique _ _ _ _ _ _ Hc' Hc) as [-> ->].
    apply calendar_days in Hc as Hn.
    assert (∃ r, GetUIDashboard id period (query_get q period) (env_now env) env db0 db = Ok r) as [r Hr].
    { unfold GetUIDashboard. rewrite Hw. unfold run_reads, query_unchecked, query, bind, stmt, begin_st, ret.
      rewrite !Hnf. by eexists. }
    unfold dashboard. rewrite Hid. fold period. rewrite Hr.
    apply GetUIDashboard_ok in Hr as (w' & Hw' & ->). rewrite Hw in Hw'. injection Hw' as <-.
    rewrite (JSON_dashboard_days _ first n); [|lia|by apply (bucket_days w _ first n _ Hs He); lia].
    case_bool_decide; [|done]. by eexists.
  - split.
    + intros first n Hc Hle. apply uiDashboardWindow_accepts in Hc as [w Hw']; [|done].
      unfold period in *. congruence.
    + intros _. unfold dashboard. rewrite Hid. fold period. unfold GetUIDashboard. rewrite Hw.
      apply uiDashboardWindow_err in Hw as ->. by destruct (bool_decide (period ∈ _)).
Qed.

(** ** Clients that follow the cursors *)

(** A row whose cursor is accepted: an instant of the years 0 to 9999 at the precision of the
    database, other than the zero time, and an identifier. *)
Definition cursor_ok (k : UIAfter) : Prop :=
  0 ≤ year_of (day_of k.1) < 10000 ∧ k.1 ≠ zero_time ∧ pg_ts k.1 = k.1 ∧
  k.2 ≠ "" ∧ validListingIdentifier k.2 = true.

Definition ui_token (k : UIAfter) : string := encode (default "" (after_marshal k.1 k.2)).

Lemma decode_ui_token k :
  cursor_ok k → decodeUIAfter (ui_token k) = Some (Some k) ∧ ui_token k ≠ "".
Proof using.
  intros (Hy & Hz & _ & Hne & Hid). unfold ui_token.
  destruct (after_marshal_ok _ _ Hy Hid) as (doc & -> & Hdoc & Hun). simpl.
  assert (encode doc ≠ "") as He.
  { intros E. apply Hdoc. apply (f_equal decode) in E. rewrite decode_encode in E. by injection E. }
  split; [|done]. unfold decodeUIAfter. rewrite bool_decide_eq_false_2 by done.
  rewrite decode_encode, Hun, (proj2 (Z.eqb_neq _ _)) by done.
  rewrite bool_decide_eq_false_2, Hid by done. by destruct k.
Qed.

Definition ui_client (q : ui_query) (token : option string) : ui_query :=
  match token with None => q | Some t => <["cursor" := [t]]> q end.

Definition ui_received {A} (r : ui_response (list A * option string)) :
    option (list A * option string) :=
  match r with UiBody body => Some body | _ => None end.

Lemma ui_pages {A B} (R : relation UIAfter) `{!RelDecision R, !Transitive R, !Total R}
    (key : A → UIAfter) (render : A → B) rows limit fetch fuel :
  limit ≠ 0%nat → distinct_keys R key rows → (length rows < fuel)%nat →
  (∀ x, x ∈ rows → cursor_ok (key x)) →
  (∀ token after, decodeUIAfter (default "" token) = Some after →
     fetch token = Some (prod_map (fmap render) encodeUIAfter
                           (keyset_page R key limit (pg_after after) rows))) →
  page_walk fuel fetch None = Some (render <$> order_by (by_key R key) rows).
Proof using.
  intros Hl Hd Hf Hok Hfetch.
  destruct (page_walk_all R key ui_token (λ x b, b = render x) fetch fuel limit rows)
    as (bs & -> & Hbs); [done..| |by rewrite (Forall2_render render _ _ Hbs)].
  intros c Hc.
  assert (decodeUIAfter (default "" (ui_token <$> c)) = Some c ∧ pg_after c = c) as [Hdec Hpg].
  { destruct c as [k|]; [|done]. destruct (Hc k eq_refl) as (x & Hx & <-). apply Hok in Hx.
    split; [by apply decode_ui_token|]. destruct Hx as (_ & _ & Hp & _). simpl.
    unfold prod_map. rewrite Hp. by destruct (key x). }
  rewrite (Hfetch _ _ Hdec), Hpg.
  destruct (keyset_page R key limit c rows) as [l next]. exists (render <$> l). split.
  - simpl. unfold prod_map. simpl. by destruct next as [[t i]|].
  - apply Forall2_fmap_r, Forall_Forall2_diag, Forall_forall. done.
Qed.

(** The requests of a client differ in the cursor only. *)
Lemma ui_client_get q token key :
  key ≠ "cursor" → query_get (ui_client q token) key = query_get q key.
Proof using. intros Hk. destruct token as [t|]; [|done]. unfold query_get. simpl. by rewrite lookup_insert_ne. Qed.

Lemma ui_client_request q token limit after :
  q !! "cursor" = None → uiLimit q = Some limit → decodeUIAfter (default "" token) = Some after →
  uiCollectionRequest (ui_client q token) = Ok (limit, after).
Proof using.
  intros Hq Hl Hd. unfold uiCollectionRequest.
  assert (uiLimit (ui_client q token) = Some limit) as -> by (unfold uiLimit; by rewrite ui_client_get).
  assert (query_get (ui_client q token) "cursor" = default "" token) as ->; [|by rewrite Hd].
  destruct token as [t|]; unfold query_get, ui_client; [by rewrite lookup_insert_eq|by rewrite Hq].
Qed.

Lemma uiLimit_pos q limit : uiLimit q = Some limit → limit ≠ 0%nat ∧ Z.of_nat limit ∈ [10; 25; 50; 100].
Proof using.
  unfold uiLimit. case_bool_decide; [intros [= <-]; split; [done|by left]|].
  destruct (signed_Atoi _) as [n|]; [|done]. case_bool_decide as Hn; [|done]. intros [= <-].
  rewrite Z2Nat.id; [split; [|done]|]; repeat (apply elem_of_cons in Hn as [->|Hn]; [done|]);
    by apply not_elem_of_nil in Hn.
Qed.

(** ** The list of tasks *)

(** The start of the period of a filter at an instant. *)
Definition since_at (f : UITaskFilter) (clock : Z) : option (option Z) :=
  if bool_decide (uf_period f = "") then Some None
  else match uiPeriod (uf_period f) clock with Ok (s, _) => Some (Some s) | Err _ => None end.

Lemma listUITasks_run team executor f limit after env db since day :
  (∀ n, env_fault env n = false) → since_at f (env_now env) = Some since →
  day_filter f = Ok day → search_accepted (uf_search f) = true →
  (run_tx (listUITasks team executor f limit after) env db).1
  = Ok (prod_map (fmap (scanUITask db)) id
          (keyset_page pair_ge task_key limit (pg_after after) (ui_task_rows team executor f since day db))).
Proof using.
  intros Hnf Hs Hd Hok. unfold run_tx, listUITasks, since_of, since_at, bind in *. rewrite Hd.
  assert (∀ st since, (query_scan (ErrWrap "list UI tasks")
            (ui_page pair_ge task_key scanUITask (uf_search f) limit after
               (ui_task_rows team executor f since day)) env st).1
          = Ok (prod_map (fmap (scanUITask (ts_db st))) id
                  (keyset_page pair_ge task_key limit (pg_after after)
                     (ui_task_rows team executor f since day (ts_db st))))) as Hq.
  { intros st s. unfold query_scan, stmt, ui_page. by rewrite Hnf, Hok. }
  case_bool_decide.
  - injection Hs as <-. specialize (Hq (begin_st db) None).
    cbn [ret]. by destruct (query_scan _ _ _ _).
  - unfold now. destruct (uiPeriod _ _) as [[s ?]|]; [|done]. injection Hs as <-.
    specialize (Hq (begin_st db) (Some s)). cbn [ret]. by destruct (query_scan _ _ _ _).
Qed.

Lemma valid_period_since f clock :
  validOptionalPeriod (uf_period f) = true → ∃ since, since_at f clock = Some since.
Proof using.
  unfold validOptionalPeriod, since_at, uiPeriod. rewrite bool_decide_eq_true. intros Hp.
  repeat (apply elem_of_cons in Hp as [->|Hp]; [by eexists|]). by apply not_elem_of_nil in Hp.
Qed.

Lemma valid_date_day f : validUIDate (uf_date f) = true → ∃ day, day_filter f = Ok day.
Proof using.
  unfold validUIDate, day_filter. case_bool_decide; [by eexists|]. destruct (parse_date _); [by eexists|done].
Qed.

(** A client that follows the cursors of GET tasks reads the selected tasks of its team. *)
Lemma tasks_pages team id q env db limit since day fuel :
  (∀ n, env_fault env n = false) → tasks_keyed db → uiTeamID team = Some id →
  q !! "cursor" = None → uiLimit q = Some limit →
  let f := task_filter q in
  validUIStatus (uf_status f) = true → validOptionalPeriod (uf_period f) = true →
  validUIDate (uf_date f) = true → search_accepted (uf_search f) = true →
  since_at f (env_now env) = Some since → day_filter f = Ok day →
  let rows := ui_task_rows id "" f since day db in
  (∀ t, t ∈ rows → cursor_ok (task_key t)) → (length rows < fuel)%nat →
  page_walk fuel (λ token, ui_received (tasks team (ui_client q token) env db)) None
  = Some (scanUITask db <$> order_by (by_key pair_ge task_key) rows).
Proof using.
  intros Hnf Hkey Hid Hq Hl f Hst Hp Hdt Hsr Hs Hd rows Hok Hf.
  apply (ui_pages pair_ge task_key (scanUITask db) rows limit); try done.
  - by apply uiLimit_pos in Hl as [? _].
  - apply rows_distinct; [by right|done].
  - intros token after Hdec. unfold tasks. rewrite Hid, (ui_client_request q token limit after) by done.
    assert (task_filter (ui_client q token) = f) as -> by (unfold f, task_filter; by rewrite !ui_client_get).
    rewrite Hst, Hp, Hdt. cbn [negb orb]. unfold ListUITasks.
    rewrite (listUITasks_run _ _ _ _ _ _ _ since day) by done. cbn [ui_list ui_result].
    by destruct (keyset_page _ _ _ _ _).
Qed.

Lemma in_state_listed s db l l' :
  l' ≡ₚ l → length (filter (λ t, ut_state t = s) (scanUITask db <$> l')) = in_state s l.
Proof using.
  intros Hp. unfold in_state. rewrite <- Hp. clear Hp.
  induction l' as [|t l' IH]; [done|]. rewrite fmap_cons, !filter_cons. cbn [scanUITask ut_state].
  case_decide; simpl; congruence.
Qed.

(** C22. A bucket opens the tasks it counts. The key of a bucket of a dashboard is accepted as the date
    of GET tasks, and a client that follows the cursors of that list, in pages of any size, receives
    exactly the tasks that the bucket counts, newest first, each once: as many as its total, and in
    each state as many as its count. *)
Theorem bucket_opens_tasks team q env db0 db r b q' env' limit fuel :
  pg_whole → dashboard team q env db0 db = UiBody r → b ∈ db_buckets r →
  0 ≤ year_of (day_of (bk_at b)) < 10000 →
  (∀ n, env_fault env' n = false) → tasks_keyed db →
  map_Forall (λ _ t, cursor_ok (task_key t)) (db_tasks db) →
  q' !! "cursor" = None → uiLimit q' = Some limit →
  task_filter q' = mkUITaskFilter "" "" "" (bk_key b) → (bk_total b < fuel)%nat →
  ∃ id z items, uiTeamID team = Some id ∧ bk_at b = midnight z ∧
    page_walk fuel (λ token, ui_received (tasks team (ui_client q' token) env' db)) None = Some items ∧
    items = scanUITask db <$> order_by (by_key pair_ge task_key) (day_tasks id z db) ∧
    length items = bk_total b ∧
    ∀ s, s ∈ TaskStates → bk_counts b !! s = Some (length (filter (λ t, ut_state t = s) items)).
Proof using.
  intros Hw Hr Hb Hy Hnf Hkey Hrows Hq Hl Hf Hfuel.
  apply dashboard_ok in Hr as (id & w & first & n & Hid & Hc & Hle & Hk & Hs & He & ->).
  cbn [db_buckets] in Hb. apply list_elem_of_lookup in Hb as [i Hi].
  apply calendar_days in Hc as Hn.
  assert (0 ≤ Z.of_nat i < n) as Hin.
  { rewrite scan_buckets_lookup, (buckets_lookup w (env_now env) first n) in Hi by (done || lia).
    case_bool_decide; [lia|done]. }
  destruct (dashboard_bucket id w (env_now env) first n db i Hw Hs He Hin)
    as (b' & Hi' & Hat & Hkey' & _ & Htot & Hcnt).
  rewrite Hi' in Hi. injection Hi as ->. set (z := first + Z.of_nat i) in *.
  rewrite Hat, day_of_midnight in Hy.
  exists id, z, (scanUITask db <$> order_by (by_key pair_ge task_key) (day_tasks id z db)).
  assert (bk_key b ≠ "") as Hne by (rewrite Hkey'; apply format_date_nonempty).
  assert (parse_date (bk_key b) = Some z) as Hpd by (rewrite Hkey'; by apply parse_format_date).
  assert (day_filter (task_filter q') = Ok (Some z)) as Hday.
  { rewrite Hf. unfold day_filter. cbn [uf_date]. by rewrite bool_decide_eq_false_2, Hpd. }
  assert (∀ s, ui_task_rows id "" (task_filter q') None (Some s) db = day_tasks id s db) as Hrw.
  { intros s. rewrite Hf. unfold ui_task_rows, day_tasks. apply list_filter_iff. intros t.
    unfold ui_task_selected, matches, searched. cbn [uf_status uf_search].
    rewrite add_days_midnight, !pg_midnight by done.
    rewrite Is_true_true, !andb_true_iff, bool_decide_eq_true, Z.leb_le, Z.ltb_lt.
    pose proof (day_between (tk_ingested_at t) s (s + 1)) as Hdb. intuition lia. }
  split_and!; [done..| | | |].
  - rewrite <- Hrw. apply (tasks_pages team id q' env' db limit None (Some z) fuel); rewrite ?Hf; try done.
    + unfold validUIDate. cbn [uf_date]. rewrite bool_decide_eq_false_2, Hpd by done.
      by apply bool_decide_eq_true.
    + by rewrite <- Hf.
    + rewrite <- Hf, Hrw. intros t [_ (k & Ht)%elem_of_rows]%list_elem_of_filter. by eapply Hrows.
    + rewrite <- Hf, Hrw. lia.
  - done.
  - rewrite length_fmap, Htot. apply Permutation_length, order_by_perm.
  - intros s Hst. rewrite (Hcnt s Hst), (in_state_listed s db (day_tasks id z db)); [done|].
    apply order_by_perm.
Qed.

(** ** The rows an answer is made of *)

Lemma ui_page_rows {A B} (R : relation UIAfter) `{!RelDecision R, !Transitive R, !Total R}
    (key : A → UIAfter) (render : DB → A → B) search limit after select d items next i :
  ui_page R key render search limit after select d = Ok (items, next) → i ∈ items →
  ∃ x, x ∈ select d ∧ i = render d x.
Proof using.
  unfold ui_page. destruct (search_accepted search); [|done].
  destruct (keyset_page _ _ _ _ _) as [l nx] eqn:Ep. intros [= <- _] Hi.
  apply list_elem_of_fmap in Hi as (x & -> & Hx). exists x. split; [|done]. by eapply keyset_page_rows.
Qed.

Lemma ui_list_body {A} unknown (r : result StoreError (list A * option UIAfter)) items next :
  ui_list unknown r = UiBody (items, next) → ∃ nx, r = Ok (items, nx).
Proof using.
  unfold ui_list, ui_result. destruct r as [[l nx]|e]; [|by case_bool_decide]. intros [= -> _]. by eexists.
Qed.

Lemma ui_result_body {A} unknown (r : result StoreError A) a :
  ui_result unknown r = UiBody a → r = Ok a.
Proof using. unfold ui_result. destruct r; [by intros [= ->]|by case_bool_decide]. Qed.

(** A read that succeeds returns what its statement gave on the database. *)
Lemma read_ok {A} (m : TxS A) env db a :
  (run_tx m env db).1 = Ok a → ∃ st, m env (begin_st db) = (Ok a, st).
Proof using. unfold run_tx. destruct (m env (begin_st db)) as [r st]. simpl. intros ->. by exists st. Qed.

Lemma GetUITask_ok team id env st t st' :
  GetUITask team id env st = (Ok t, st') →
  (∃ row, db_tasks (ts_db st) !! id = Some row ∧ tk_team row = team ∧ t = scanUITask (ts_db st) row) ∧
  ts_db st' = ts_db st.
Proof using.
  unfold GetUITask. intros Hr. apply bind_ok in Hr as (row & st1 & Hq & Hr).
  apply query_ok in Hq as (-> & Hdb & _). destruct (db_tasks _ !! id) as [r|] eqn:E; [|done].
  case_bool_decide; [|done]. apply ret_ok in Hr as [-> ->]. split; [by exists r|done].
Qed.

Lemma GetUIExecutor_ok team id env st x st' :
  GetUIExecutor team id env st = (Ok x, st') →
  (∃ row, db_executors (ts_db st) !! id = Some row ∧ executor_shown team (ts_db st) row = true ∧
          x = ui_executor row) ∧ ts_db st' = ts_db st.
Proof using.
  unfold GetUIExecutor. intros Hr. apply bind_ok in Hr as (row & st1 & Hq & Hr).
  apply query_ok in Hq as (-> & Hdb & _). destruct (db_executors _ !! id) as [r|] eqn:E; [|done].
  destruct (executor_shown _ _ r) eqn:Es; [|done]. apply ret_ok in Hr as [-> ->]. split; [by exists r|done].
Qed.

Lemma since_of_ok f env st s st' : since_of f env st = (Ok s, st') → ts_db st' = ts_db st.
Proof using. unfold since_of. intros Hr. by tx_inv. Qed.

Lemma listUITasks_ok team executor f limit after env st items next st' i :
  listUITasks team executor f limit after env st = (Ok (items, next), st') → i ∈ items →
  ∃ t, t ∈ rows (db_tasks (ts_db st)) ∧ tk_team t = team ∧
       (executor ≠ "" → tk_executor t = Some executor) ∧ i = scanUITask (ts_db st) t.
Proof using.
  unfold listUITasks. intros Hr Hi. apply bind_ok in Hr as (s & st1 & Hs & Hr). apply since_of_ok in Hs.
  destruct (day_filter f) as [day|]; [|done]. apply query_scan_ok in Hr as (Hp & _).
  rewrite Hs in Hp. eapply ui_page_rows in Hp as (t & Ht & ->); [|done].
  apply list_elem_of_filter in Ht as [Hsel Ht]. exists t. split; [done|].
  unfold ui_task_selected in Hsel. apply Is_true_true in Hsel. to_prop. split_and!; [done| |done].
  intros Hne. match goal with Hx : _ || _ = true |- _ => apply orb_true_iff in Hx as [Hx|Hx] end; by to_prop.
Qed.

Lemma path_segment_ok raw s : path_segment raw = Some s → s = trim_space raw ∧ s ≠ "".
Proof using.
  unfold path_segment. cbv zeta. destruct (_ || _) eqn:E; [done|]. intros [= <-].
  apply orb_false_iff in E as [E _]. by to_prop.
Qed.

Lemma uiResourcePath_ok team raw p id :
  uiTeamID team = Some id → uiResourcePath team raw = Some p →
  p = (id, trim_space raw) ∧ trim_space raw ≠ "".
Proof using.
  intros Hid. unfold uiResourcePath. rewrite Hid. simpl. destruct (path_segment raw) as [s|] eqn:E; [|done].
  apply path_segment_ok in E as [-> Hne]. by intros [= <-].
Qed.

(** *** What a team is shown, by the rows *)

(** The end of a task is its last finished or failed event. *)
Definition end_event (db : DB) (task : string) (e : TaskEventRow) : Prop :=
  e ∈ rows (db_task_events db) ∧ te_task e = task ∧ (te_type e = "finished" ∨ te_type e = "failed").

(** The view of a task: its row, its end, its own frozen values and the keys of its own secrets. *)
Record task_view (db : DB) (t : TaskRow) (i : UITask) : Prop := mkTaskView {
  tv_row : ut_id i = tk_id t ∧ ut_type i = tk_type t ∧ ut_source_system i = tk_source_system t ∧
    ut_source_id i = tk_source_id t ∧ ut_state i = tk_state t ∧ ut_executor i = tk_executor t ∧
    ut_ingested_at i = tk_ingested_at t ∧ ut_claimed_at i = tk_claimed_at t;
  tv_end : match ut_completed_at i with
           | Some at_ => (∃ e, end_event db (tk_id t) e ∧ te_occurred_at e = at_) ∧
                         ∀ e, end_event db (tk_id t) e → te_occurred_at e ≤ at_
           | None => ∀ e, ¬ end_event db (tk_id t) e
           end;
  tv_values : match db_snapshots db !! tk_id t with
              | Some snapshot => ut_environment i = sn_values snapshot
              | None => ut_environment i = ∅
              end;
  tv_secrets k : k ∈ ut_secret_keys i ↔ is_Some (db_secret_refs db !! (tk_id t, k)) }.

(** An event of a task of the team: a lifecycle report or a report on a control command. *)
Definition event_view (team task : string) (db : DB) (i : UIEvent) : Prop :=
  (∃ e, e ∈ rows (db_task_events db) ∧ te_team e = team ∧ te_task e = task ∧
     i = mkUIEvent (te_id e) ("task.lifecycle." +:+ te_type e) (te_type e) (Some (te_executor e))
           (te_occurred_at e) (te_payload e)) ∨
  (∃ e, e ∈ rows (db_control_events db) ∧ ce_team e = team ∧ ce_task e = task ∧
     i = mkUIEvent (ce_id e) "task.control.requested" (ce_status e) (ce_executor e)
           (ce_occurred_at e) (ce_payload e)).

(** An Executor that serves the team: its own, or one of the system for the tag of one of its types. *)
Definition serves (team : string) (db : DB) (x : ExecutorRow) : Prop :=
  ex_team x = Some team ∨
  ex_scope x = "system" ∧ ∃ t, t ∈ rows (db_types db) ∧ tt_team t = team ∧ tt_tag t = ex_tag x.

Definition executor_view (x : ExecutorRow) (i : UIExecutor) : Prop :=
  ux_id i = ex_id x ∧ ux_type i = ex_type x ∧ ux_scope i = ex_scope x ∧ ux_tag i = ex_tag x ∧
  ux_status i = (if bool_decide (0 < ex_running_count x) then "busy" else "idle") ∧
  ux_max_capacity i = ex_max_capacity x ∧ ux_running_count i = ex_running_count x ∧
  ux_available i = Z.max 0 (ex_max_capacity x - ex_running_count x) ∧
  ux_metadata i = ex_metadata x ∧ ux_updated_at i = ex_updated_at x.

Definition executor_event_view (executor : string) (db : DB) (i : UIEvent) : Prop :=
  ∃ e, e ∈ rows (db_executor_events db) ∧ ee_executor e = executor ∧
    i = mkUIEvent (ee_id e) ("executor." +:+ ee_type e) (ee_type e) None (ee_occurred_at e) (ee_payload e).

Lemma max_at_spec l :
  match max_at l with Some m => m ∈ l ∧ ∀ x, x ∈ l → x ≤ m | None => l = [] end.
Proof using.
  induction l as [|x l IH]; [done|]. cbn [max_at foldr]. fold (max_at l). destruct (max_at l) as [m|].
  - destruct IH as [Hm Hl]. split.
    + destruct (Z.max_spec x m) as [[_ ->]|[_ ->]]; [by right|by left].
    + intros y [->|Hy]%elem_of_cons; [lia|]. apply Hl in Hy. lia.
  - subst. split; [by left|]. intros y ->%list_elem_of_singleton. done.
Qed.

Lemma scanUITask_view db t : task_view db t (scanUITask db t).
Proof using.
  split; simpl; [done| | |].
  - unfold completed_at. set (l := filter _ _).
    assert (∀ e, e ∈ l ↔ end_event db (tk_id t) e) as Hl.
    { intros e. unfold l, end_event. rewrite list_elem_of_filter, elem_of_cons, list_elem_of_singleton. tauto. }
    pose proof (max_at_spec (te_occurred_at <$> l)) as Hm. destruct (max_at _) as [m|].
    + destruct Hm as [(e & -> & He)%list_elem_of_fmap Hall]. split; [exists e; by rewrite <- Hl|].
      intros e' He'%Hl. by apply Hall, list_elem_of_fmap_2.
    + apply fmap_nil_inv in Hm. intros e He%Hl. rewrite Hm in He. by apply not_elem_of_nil in He.
  - by destruct (db_snapshots db !! tk_id t).
  - intros k. unfold task_secret_keys. rewrite elem_of_order_by, list_elem_of_fmap. split.
    + intros ([task k'] & -> & [Ht Hin]%list_elem_of_filter). simpl in Ht. subst task.
      apply list_elem_of_fmap in Hin as ([key v] & Hkey & Hin%elem_of_map_to_list).
      simpl in Hkey. subst key. by exists v.
    + intros [v Hv]. exists (tk_id t, k). split; [done|]. apply list_elem_of_filter. split; [done|].
      apply list_elem_of_fmap. exists ((tk_id t, k), v). split; [done|]. by apply elem_of_map_to_list.
Qed.

Lemma ui_feed_view team task db i : i ∈ ui_feed team task db ↔ event_view team task db i.
Proof using.
  unfold ui_feed, event_view. rewrite elem_of_app, !list_elem_of_fmap. f_equiv.
  all: split; [intros (e & -> & [[? ?] ?]%list_elem_of_filter); by exists e|].
  all: intros (e & ? & ? & ? & ->); exists e; split; [done|]; by apply list_elem_of_filter.
Qed.

Lemma executor_shown_serves team db x : executor_shown team db x = true ↔ serves team db x.
Proof using.
  unfold executor_shown, serves. rewrite orb_true_iff, andb_true_iff, !bool_decide_eq_true, existsb_exists.
  assert ((∃ t, In t (rows (db_types db)) ∧ bool_decide (tt_team t = team ∧ tt_tag t = ex_tag x) = true) ↔
          (∃ t, t ∈ rows (db_types db) ∧ tt_team t = team ∧ tt_tag t = ex_tag x)) as ->; [|done].
  f_equiv. intros t. by rewrite bool_decide_eq_true, list_elem_of_In.
Qed.

Lemma ui_executor_view x : executor_view x (ui_executor x).
Proof using.
  unfold executor_view, ui_executor. simpl. split_and!; try done; [|lia].
  by destruct (Z.ltb_spec 0 (ex_running_count x)); case_bool_decide; try lia.
Qed.

Lemma ui_executor_feed_view executor db i :
  i ∈ ui_executor_feed executor db ↔ executor_event_view executor db i.
Proof using.
  unfold ui_executor_feed, executor_event_view. rewrite list_elem_of_fmap. split.
  - intros (e & -> & [? ?]%list_elem_of_filter). by exists e.
  - intros (e & ? & ? & ->). exists e. split; [done|]. by apply list_elem_of_filter.
Qed.

Section answers.
Context (team id : string) (env : TxEnv) (db db' : DB) (Hid : uiTeamID team = Some id).

(** Takes the request of a handler apart. *)
Ltac ui_request H :=
  rewrite ?Hid in H;
  repeat match type of H with
  | context [uiResourcePath team ?x] =>
      let p := fresh "p" in let Ep := fresh "Ep" in let Hne := fresh "Hne" in
      destruct (uiResourcePath team x) as [p|] eqn:Ep; [|done];
      apply (uiResourcePath_ok _ _ _ _ Hid) in Ep as [-> Hne]
  | context [uiCollectionRequest ?q] => destruct (uiCollectionRequest q) as [[limit after]|[status code]]; [|done]
  | context [if ?b then invalid_filter else _] => destruct b; [done|]
  end.

Lemma tasks_rows q items next i :
  tasks team q env db = UiBody (items, next) → i ∈ items →
  ∃ t, t ∈ rows (db_tasks db) ∧ tk_team t = id ∧ i = scanUITask db t.
Proof using Hid.
  unfold tasks. intros Hr Hi. cbv zeta in Hr. ui_request Hr.
  apply ui_list_body in Hr as [nx [st Hr]%read_ok].
  eapply listUITasks_ok in Hr as (t & Ht & Hteam & _ & ->); [|done]. by exists t.
Qed.

Lemma task_row x i :
  task team x env db = UiBody i →
  ∃ t, db_tasks db !! trim_space x = Some t ∧ tk_team t = id ∧ i = scanUITask db t.
Proof using Hid.
  unfold task. intros Hr. ui_request Hr. apply ui_result_body, read_ok in Hr as [st Hr].
  by apply GetUITask_ok in Hr as [Hr _].
Qed.

Lemma taskEvents_rows x q items next i :
  taskEvents team x q env db db' = UiBody (items, next) → i ∈ items →
  (∃ t, db_tasks db !! trim_space x = Some t ∧ tk_team t = id) ∧ i ∈ ui_feed id (trim_space x) db'.
Proof using Hid.
  unfold taskEvents. intros Hr Hi. ui_request Hr. apply ui_list_body in Hr as [nx Hr].
  apply run_reads_ok in Hr as (t & st & st' & Ht & Hr). apply GetUITask_ok in Ht as [(row & Ht & Hteam & _) _].
  apply query_scan_ok in Hr as (Hp & _). cbn [ts_db] in Hp.
  split; [by exists row|]. eapply ui_page_rows in Hp as (e & He & ->); done.
Qed.

Lemma executors_rows q items next i :
  executors team q env db = UiBody (items, next) → i ∈ items →
  ∃ x, x ∈ rows (db_executors db) ∧ executor_shown id db x = true ∧ i = ui_executor x.
Proof using Hid.
  unfold executors. intros Hr Hi. cbv zeta in Hr. ui_request Hr.
  apply ui_list_body in Hr as [nx [st Hr]%read_ok]. unfold ListUIExecutors in Hr.
  case_bool_decide; [|done]. apply query_scan_ok in Hr as (Hp & _).
  eapply ui_page_rows in Hp as (x & Hx & ->); [|done].
  apply list_elem_of_filter in Hx as [Hs Hx]. apply Is_true_true in Hs. unfold ui_executor_selected in Hs.
  to_prop. by exists x.
Qed.

Lemma executor_row x i :
  executor team x env db = UiBody i →
  ∃ y, db_executors db !! trim_space x = Some y ∧ executor_shown id db y = true ∧ i = ui_executor y.
Proof using Hid.
  unfold executor. intros Hr. ui_request Hr. apply ui_result_body, read_ok in Hr as [st Hr].
  by apply GetUIExecutor_ok in Hr as [Hr _].
Qed.

Lemma executorEvents_rows x q items next i :
  executorEvents team x q env db db' = UiBody (items, next) → i ∈ items →
  (∃ y, db_executors db !! trim_space x = Some y ∧ executor_shown id db y = true) ∧
  i ∈ ui_executor_feed (trim_space x) db'.
Proof using Hid.
  unfold executorEvents. intros Hr Hi. ui_request Hr. apply ui_list_body in Hr as [nx Hr].
  apply run_reads_ok in Hr as (t & st & st' & Ht & Hr). apply GetUIExecutor_ok in Ht as [(row & Ht & Hs & _) _].
  apply query_scan_ok in Hr as (Hp & _). cbn [ts_db] in Hp.
  split; [by exists row|]. eapply ui_page_rows in Hp as (e & He & ->); done.
Qed.

Lemma executorTasks_rows x q items next i :
  executorTasks team x q env db db' = UiBody (items, next) → i ∈ items →
  (∃ y, db_executors db !! trim_space x = Some y ∧ executor_shown id db y = true) ∧
  ∃ t, t ∈ rows (db_tasks db') ∧ tk_team t = id ∧ tk_executor t = Some (trim_space x) ∧ i = scanUITask db' t.
Proof using Hid.
  unfold executorTasks. intros Hr Hi. cbv zeta in Hr. ui_request Hr.
  apply ui_list_body in Hr as [nx Hr].
  apply run_reads_ok in Hr as (y & st & st' & Hy & Hr). apply GetUIExecutor_ok in Hy as [(row & Hy & Hs & _) _].
  eapply listUITasks_ok in Hr as (t & Ht & Hteam & Hx & ->); [|done]. cbn [ts_db] in *.
  split; [by exists row|]. exists t. split_and!; [done..|by apply Hx|done].
Qed.

Lemma audit_rows_shown q items next i :
  audit team q env db = UiBody (items, next) → i ∈ items →
  ∃ a, a ∈ rows (db_audit db) ∧ au_team a = Some id ∧ scanAuditEntry a = Some i.
Proof using Hid.
  unfold audit. intros Hr Hi. ui_request Hr. apply ui_list_body in Hr as [nx [st Hr]%read_ok].
  apply query_scan_ok in Hr as (Hp & _). destruct (ui_page _ _ _ _ _ _ _ _) as [[l n]|] eqn:Ep; [|done].
  destruct (mapM scanAuditEntry l) as [es|] eqn:Em; [|done]. injection Hp as -> _.
  apply mapM_Some, Forall2_flip in Em. apply list_elem_of_lookup in Hi as [k Hk].
  eapply Forall2_lookup_l in Em as (a & Ha & Hsc); [|done].
  apply list_elem_of_lookup_2 in Ha. eapply ui_page_rows in Ep as (a' & Ha' & Ea); [|done]. simpl in Ea. subst a'.
  apply list_elem_of_filter in Ha' as [Hs Ha']. apply Is_true_true in Hs. unfold ui_audit_selected in Hs.
  to_prop. by exists a.
Qed.

(** The first statements on a working database. *)
Lemma GetUITask_runs task st :
  (∀ n, env_fault env n = false) →
  (GetUITask id task env st).1 =
    match db_tasks (ts_db st) !! task with
    | Some t => if bool_decide (tk_team t = id) then Ok (scanUITask (ts_db st) t) else Err ErrTaskUnknown
    | None => Err ErrTaskUnknown
    end.
Proof using.
  intros Hnf. unfold GetUITask, query, stmt, bind. rewrite Hnf. simpl.
  destruct (db_tasks _ !! task) as [t|]; [|done]. by case_bool_decide.
Qed.

Lemma GetUIExecutor_runs executor st :
  (∀ n, env_fault env n = false) →
  (GetUIExecutor id executor env st).1 =
    match db_executors (ts_db st) !! executor with
    | Some x => if executor_shown id (ts_db st) x then Ok (ui_executor x) else Err ErrUIResourceUnknown
    | None => Err ErrUIResourceUnknown
    end.
Proof using.
  intros Hnf. unfold GetUIExecutor, query, stmt, bind. rewrite Hnf. simpl.
  destruct (db_executors _ !! executor) as [t|]; [|done]. by destruct (executor_shown _ _ _).
Qed.

(** The task and the Executor that a path names, if the team is shown it. *)
Definition task_of (task : string) : Prop := ∃ t, db_tasks db !! task = Some t ∧ tk_team t = id.
Definition executor_of (executor : string) : Prop :=
  ∃ x, db_executors db !! executor = Some x ∧ serves id db x.

Lemma GetUITask_unknown task st :
  (∀ n, env_fault env n = false) → ts_db st = db →
  (¬ task_of task → (GetUITask id task env st).1 = Err ErrTaskUnknown) ∧
  (task_of task → ∃ v, (GetUITask id task env st).1 = Ok v).
Proof using.
  intros Hnf Hst. rewrite GetUITask_runs, Hst by done. unfold task_of. split.
  - intros Hno. destruct (db_tasks _ !! task) as [t|]; [|done]. case_bool_decide; [|done].
    destruct Hno. by exists t.
  - intros (t & -> & Ht). rewrite bool_decide_eq_true_2 by done. by eexists.
Qed.

Lemma GetUIExecutor_unknown executor st :
  (∀ n, env_fault env n = false) → ts_db st = db →
  (¬ executor_of executor → (GetUIExecutor id executor env st).1 = Err ErrUIResourceUnknown) ∧
  (executor_of executor → ∃ v, (GetUIExecutor id executor env st).1 = Ok v).
Proof using.
  intros Hnf Hst. rewrite GetUIExecutor_runs, Hst by done. unfold executor_of. split.
  - intros Hno. destruct (db_executors _ !! executor) as [t|]; [|done].
    destruct (executor_shown _ _ _) eqn:E; [|done].
    destruct Hno. exists t. by apply executor_shown_serves in E.
  - intros (x & -> & Hx%executor_shown_serves). rewrite Hx. by eexists.
Qed.

(** A read that begins with a statement that finds nothing. *)
Lemma run_reads_unknown {A B} (m : TxS A) (f : A → TxS B) e :
  (m env (begin_st db)).1 = Err e → run_reads m f env db db' = Err e.
Proof using. unfold run_reads. destruct (m env (begin_st db)) as [r st]. simpl. by intros ->. Qed.

Lemma task_found x :
  (∀ n, env_fault env n = false) → uiResourcePath team x = Some (id, trim_space x) →
  task team x env db = not_found ↔ ¬ task_of (trim_space x).
Proof using.
  intros Hnf Hx. unfold task. rewrite Hx. unfold run_tx.
  destruct (GetUITask_unknown (trim_space x) (begin_st db)) as [Hno Hyes]; [done..|].
  destruct (GetUITask _ _ _ _) as [r st] eqn:E. simpl in *. split.
  - intros Hr Hok. destruct (Hyes Hok) as [v ->]. done.
  - intros Hn. by rewrite Hno.
Qed.

Lemma executor_found x :
  (∀ n, env_fault env n = false) → uiResourcePath team x = Some (id, trim_space x) →
  executor team x env db = not_found ↔ ¬ executor_of (trim_space x).
Proof using.
  intros Hnf Hx. unfold executor. rewrite Hx. unfold run_tx.
  destruct (GetUIExecutor_unknown (trim_space x) (begin_st db)) as [Hno Hyes]; [done..|].
  destruct (GetUIExecutor _ _ _ _) as [r st] eqn:E. simpl in *. split.
  - intros Hr Hok. destruct (Hyes Hok) as [v ->]. done.
  - intros Hn. by rewrite Hno.
Qed.

Lemma lists_not_found x q p :
  (∀ n, env_fault env n = false) → uiCollectionRequest q = Ok p →
  (¬ task_of (trim_space x) → taskEvents team x q env db db' = not_found) ∧
  (¬ executor_of (trim_space x) →
   executorEvents team x q env db db' = not_found ∧
   (validUIStatus (query_get q "status") = true → executorTasks team x q env db db' = not_found)).
Proof using Hid.
  intros Hnf Hp. destruct p as [limit after].
  destruct (uiResourcePath team x) as [pr|] eqn:Ep.
  2: { unfold taskEvents, executorEvents, executorTasks. rewrite Ep. by split_and!. }
  apply (uiResourcePath_ok _ _ _ _ Hid) in Ep as Hpr. destruct Hpr as [-> _].
  unfold taskEvents, executorEvents, executorTasks, ListUITaskEvents, ListUIExecutorEvents, ListUIExecutorTasks.
  rewrite Ep, Hp.
  destruct (GetUITask_unknown (trim_space x) (begin_st db)) as [Ht _]; [done..|].
  destruct (GetUIExecutor_unknown (trim_space x) (begin_st db)) as [Hx _]; [done..|].
  split; [|intros Hn; split; [|intros ->]]; try intros Hn; cbv zeta; cbn [negb].
  all: by erewrite run_reads_unknown by eauto.
Qed.
End answers.

(** C23. Reads of a team are answered from its rows. Whatever the path, the query, the cursor and the
    failures, a task that GET tasks or GET task returns is a view of a task of the team of the path:
    its row, the instant of its own last terminal event, its own frozen values and the keys of its own
    secrets. The events of a task are lifecycle and control rows of that task and that team; an Executor is
    one of the team, or one of the system whose tag a type of the team has; its events are its own, its tasks
    are those of the team that it has; and audit entries are rows of the team. Below a task or an Executor
    nothing is listed of one the team is not shown. On a working database a task or an
    Executor is not found exactly when there is none of that name that the team is shown, so a foreign one
    gets the answer of one that does not exist, and so do the lists below it. *)
Theorem ui_team_only team id env db db' :
  uiTeamID team = Some id →
  (∀ q items next i, tasks team q env db = UiBody (items, next) → i ∈ items →
     ∃ t, t ∈ rows (db_tasks db) ∧ tk_team t = id ∧ task_view db t i) ∧
  (∀ x i, task team x env db = UiBody i →
     ∃ t, db_tasks db !! trim_space x = Some t ∧ tk_team t = id ∧ task_view db t i) ∧
  (∀ x q items next i, taskEvents team x q env db db' = UiBody (items, next) → i ∈ items →
     task_of id db (trim_space x) ∧ event_view id (trim_space x) db' i) ∧
  (∀ q items next i, executors team q env db = UiBody (items, next) → i ∈ items →
     ∃ x, x ∈ rows (db_executors db) ∧ serves id db x ∧ executor_view x i) ∧
  (∀ x i, executor team x env db = UiBody i →
     ∃ y, db_executors db !! trim_space x = Some y ∧ serves id db y ∧ executor_view y i) ∧
  (∀ x q items next i, executorEvents team x q env db db' = UiBody (items, next) → i ∈ items →
     executor_of id db (trim_space x) ∧ executor_event_view (trim_space x) db' i) ∧
  (∀ x q items next i, executorTasks team x q env db db' = UiBody (items, next) → i ∈ items →
     executor_of id db (trim_space x) ∧
     ∃ t, t ∈ rows (db_tasks db') ∧ tk_team t = id ∧ tk_executor t = Some (trim_space x) ∧
          task_view db' t i) ∧
  (∀ q items next i, audit team q env db = UiBody (items, next) → i ∈ items →
     ∃ a, a ∈ rows (db_audit db) ∧ au_team a = Some id ∧
       i = mkAuditEntry (au_id a) id (au_actor a) (au_actor_type a) (au_action a) (au_resource_type a)
             (au_resource_id a) (au_request a) (au_outcome a) (au_occurred_at a)) ∧
  ((∀ n, env_fault env n = false) →
   (∀ x, uiResourcePath team x = Some (id, trim_space x) →
      (task team x env db = not_found ↔ ¬ task_of id db (trim_space x)) ∧
      (executor team x env db = not_found ↔ ¬ executor_of id db (trim_space x))) ∧
   (∀ x q p, uiCollectionRequest q = Ok p →
      (¬ task_of id db (trim_space x) → taskEvents team x q env db db' = not_found) ∧
      (¬ executor_of id db (trim_space x) →
       executorEvents team x q env db db' = not_found ∧
       (validUIStatus (query_get q "status") = true → executorTasks team x q env db db' = not_found)))).
Proof using.
  intros Hid. split_and!.
  - intros q items next i Hr Hi. destruct (tasks_rows team id env db Hid _ _ _ _ Hr Hi) as (t & ? & ? & ->).
    exists t. split_and!; [done..|apply scanUITask_view].
  - intros x i Hr. destruct (task_row team id env db Hid _ _ Hr) as (t & ? & ? & ->).
    exists t. split_and!; [done..|apply scanUITask_view].
  - intros x q items next i Hr Hi. rewrite <- ui_feed_view. by eapply taskEvents_rows.
  - intros q items next i Hr Hi. destruct (executors_rows team id env db Hid _ _ _ _ Hr Hi) as (x & ? & ? & ->).
    exists x. split_and!; [done|by apply executor_shown_serves|apply ui_executor_view].
  - intros x i Hr. destruct (executor_row team id env db Hid _ _ Hr) as (y & ? & ? & ->).
    exists y. split_and!; [done|by apply executor_shown_serves|apply ui_executor_view].
  - intros x q items next i Hr Hi. rewrite <- ui_executor_feed_view.
    destruct (executorEvents_rows team id env db db' Hid _ _ _ _ _ Hr Hi) as [(y & Hy & Hs) ?].
    split; [|done]. exists y. by rewrite <- executor_shown_serves.
  - intros x q items next i Hr Hi.
    destruct (executorTasks_rows team id env db db' Hid _ _ _ _ _ Hr Hi) as [(y & Hy & Hs) (t & ? & ? & ? & ->)].
    split; [exists y; by rewrite <- executor_shown_serves|].
    exists t. split_and!; [done..|apply scanUITask_view].
  - intros q items next i Hr Hi. destruct (audit_rows_shown team id env db Hid _ _ _ _ Hr Hi) as (a & ? & Ha & Hs).
    exists a. split_and!; [done..|]. unfold scanAuditEntry in Hs. rewrite Ha in Hs. by injection Hs.
  - intros Hnf. split; [|intros x q p; by apply lists_not_found].
    intros x Hx. split; [by apply task_found|by apply executor_found].
Qed.

(** ** The feed of a task *)

Lemma distinct_keys_fmap {A} (key : A → UIAfter) l :
  NoDup (key <$> l) → distinct_keys pair_le key l.
Proof using.
  intros Hnd. split; [by eapply NoDup_fmap_1|]. intros x y Hx Hy Hxy Hyx.
  assert (key x = key y) as E by by apply pair_le_antisym.
  apply list_elem_of_lookup in Hx as [i Hi], Hy as [j Hj].
  assert (i = j) as <-; [|congruence].
  eapply NoDup_lookup; [exact Hnd| |].
  - by rewrite list_lookup_fmap, Hi.
  - by rewrite list_lookup_fmap, Hj, E.
Qed.

(* The order of a page is decided as the order of its keys. *)
#[local] Remove Hints row_le_dec : typeclass_instances.

(** A client that follows the cursors of the events of a task reads its lifecycle and control events
    once each, in time order, provided no two of them share the instant and the identifier. *)
Theorem taskEvents_pages team id x q env db limit fuel :
  (∀ n, env_fault env n = false) → uiTeamID team = Some id → uiResourcePath team x = Some (id, x) →
  (∃ t, db_tasks db !! x = Some t ∧ tk_team t = id) → q !! "cursor" = None → uiLimit q = Some limit →
  let feed := ui_feed id x db in
  NoDup (ui_event_key <$> feed) → (∀ e, e ∈ feed → cursor_ok (ui_event_key e)) →
  (length feed < fuel)%nat →
  page_walk fuel (λ token, ui_received (taskEvents team x (ui_client q token) env db db)) None
  = Some (order_by (by_key pair_le ui_event_key) feed).
Proof using.
  intros Hnf Hid Hx (t & Ht & Hteam) Hq Hl feed Hnd Hok Hf.
  rewrite <- (list_fmap_id (order_by (by_key pair_le ui_event_key) feed)).
  apply (ui_pages pair_le ui_event_key Datatypes.id feed limit); try done.
  - by apply uiLimit_pos in Hl as [? _].
  - by apply distinct_keys_fmap.
  - intros token after Hdec. unfold taskEvents. rewrite Hx, (ui_client_request q token limit after) by done.
    unfold ListUITaskEvents, run_reads, GetUITask, scanUIEvents, query_scan, query, stmt, bind, begin_st, ui_page.
    rewrite !Hnf. simpl. rewrite Ht, bool_decide_eq_true_2 by done. simpl. rewrite Hnf. simpl. fold feed.
    destruct (keyset_page _ _ _ _ _) as [l next]. simpl. done.
Qed.
End dashboards.

(** ** The reads of the small registry *)

(** Equality in place of ILIKE, and a cursor document of two fields. *)
Definition ilike_exact : Ilike := {| ilike s p := bool_decide ("%" +:+ s +:+ "%" = p); text_accepted _ := true |}.

Definition after_fields : UiCursorCodec.
Proof.
  refine {| after_marshal t i := Some (fields [format_bits t; i]);
            after_unmarshal s := match unfields s [] with
                                 | Some [a; i] => (λ t, (t, i)) <$> parse_bits a
                                 | _ => None
                                 end |}.
  intros t i _ _. eexists. split; [reflexivity|]. split; [apply fields_nonempty|].
  by rewrite unfields_fields, parse_format_bits.
Defined.

Section witnesses.
#[local] Existing Instances pg_micros collation_C ilike_exact after_fields.

Definition fx_week : ui_query := {["period" := ["week"]]}.
Definition fx_day (key : string) : ui_query := {["date" := [key]; "limit" := ["25"]]}.

Lemma micros_whole : pg_whole.
Proof. intros t Ht. simpl. unfold micros. pose proof (Z.div_mod t 1000). lia. Qed.

Definition ui_body {A} (r : ui_response A) : option A :=
  match r with UiBody a => Some a | _ => None end.

Lemma ui_body_ok {A} (r : ui_response A) a : ui_body r = Some a → r = UiBody a.
Proof. by destruct r; intros [= ->]. Qed.

(** Both tasks were ingested on the first of January 1970, a Thursday of the first week. *)
Lemma fx_dashboard :
  (λ r, (db_key r, bk_total <$> db_buckets r, 
     (λ b, (bk_key b, bk_at b, bk_total b)) <$> db_buckets r !! 3%nat))
    <$> ui_body (dashboard " team" fx_week (fx_env 9000) fx_db fx_db)
  = Some ("1970-W01", [0; 0; 0; 2; 0; 0; 0]%nat, Some ("1970-01-01", 0, 2%nat)).
Proof. vm_compute. reflexivity. Qed.

Lemma fx_first_week : calendar_of "week" "1970-W01" (-3) 7.
Proof.
  left. split; [reflexivity|]. split; [reflexivity|]. split; [vm_compute; reflexivity|].
  exists 1970, 1. split; [vm_compute; reflexivity|]. split; [vm_compute; reflexivity|lia].
Qed.

Lemma dashboard_complete_witness :
  ∃ r, dashboard " team" fx_week (fx_env 9000) fx_db fx_db = UiBody r ∧ db_key r = "1970-W01" ∧
       bk_total <$> db_buckets r = [0; 0; 0; 2; 0; 0; 0]%nat ∧
       sum_list (bk_total <$> db_buckets r) = length (range_tasks "team" (-3) 7 fx_db) ∧
       db_counts r !! "created" = Some (in_state "created" (range_tasks "team" (-3) 7 fx_db)).
Proof.
  pose proof fx_dashboard as Hf.
  destruct (ui_body (dashboard " team" fx_week (fx_env 9000) fx_db fx_db)) as [r|] eqn:E; [|discriminate Hf].
  apply ui_body_ok in E. injection Hf as Hk Ht _. exists r. split; [exact E|].
  destruct (dashboard_complete " team" fx_week (fx_env 9000) fx_db fx_db r micros_whole E)
    as (id & first & n & Hid & Hc & _ & _ & _ & _ & _ & Hsum & Hcnt).
  vm_compute in Hid. injection Hid as <-.
  change (query_get fx_week "period") with "week" in Hc. rewrite Hk in Hc.
  destruct (calendar_of_unique "week" "1970-W01" first n (-3) 7 Hc fx_first_week) as [-> ->].
  split; [exact Hk|]. split; [exact Ht|]. split; [exact Hsum|].
  assert ("created" ∈ TaskStates) as Hin by (apply (bool_decide_eq_true_1 _); vm_compute; reflexivity).
  assert (env_cut (fx_env 9000) 0 = None) as Hcut by reflexivity.
  destruct (Hcnt "created" Hin) as (c & Hc' & Hor). rewrite Hcut in Hor.
  destruct Hor as [->|[_ [m Hm]]]; [exact Hc'|discriminate Hm].
Defined.

(** The read of the counts breaks off before its first row: the dashboard is served, with its buckets
    and without its counts. *)
Example counts_break_off :
  let env := mkTxEnv 9000 9000 (λ _, "") (λ _, false) None false (λ _, Some 0%nat) in
  (λ r, (bk_total <$> db_buckets r, db_counts r !! "pending", db_counts r !! "created"))
    <$> ui_body (dashboard "team" fx_week env fx_db fx_db)
  = Some ([0; 0; 0; 2; 0; 0; 0]%nat, Some 0%nat, Some 0%nat).
Proof. vm_compute. reflexivity. Qed.

(** The current month is shown; a week of a year before zero has no body; the week to come is refused. *)
Lemma dashboard_selection_witness :
  (∃ r, dashboard "team" {["period" := ["month"]]} (fx_env 9000) fx_db fx_db = UiBody r ∧
        db_key r = "1970-01") ∧
  dashboard "team" {["period" := ["week"]; "week" := ["-001-W05"]]} (fx_env 9000) fx_db fx_db = UiEmpty ∧
  dashboard "team" {["period" := ["week"]; "week" := ["1970-W02"]]} (fx_env 9000) fx_db fx_db
  = UiError 400 "invalid_calendar".
Proof.
  split; [|split].
  - destruct (dashboard_selection "team" {["period" := ["month"]]} (fx_env 9000) fx_db fx_db "team"
      (λ n, eq_refl) eq_refl) as [Hyes _].
    destruct (Hyes 0 31) as (r & Hr & Hk).
    + right. repeat (split; [vm_compute; reflexivity|]). vm_compute. split; [discriminate|reflexivity].
    + vm_compute. discriminate.
    + exists r. split; [exact Hr|]. rewrite Hk. vm_compute. reflexivity.
  - destruct (dashboard_selection "team" {["period" := ["week"]; "week" := ["-001-W05"]]} (fx_env 9000)
      fx_db fx_db "team" (λ n, eq_refl) eq_refl) as [Hyes _].
    apply (Hyes (-719862) 7).
    + left. split; [reflexivity|]. split; [reflexivity|]. split; [vm_compute; reflexivity|].
      exists (-1), 5. split; [vm_compute; reflexivity|]. split; [vm_compute; reflexivity|lia].
    + vm_compute. discriminate.
  - destruct (dashboard_selection "team" {["period" := ["week"]; "week" := ["1970-W02"]]} (fx_env 9000)
      fx_db fx_db "team" (λ n, eq_refl) eq_refl) as [_ Hno].
    rewrite Hno; [reflexivity|]. intros (first & n & Hc & Hle).
    change (calendar_of "week" "1970-W02" first n) in Hc.
    destruct (calendar_of_unique "week" "1970-W02" first n 4 7 Hc) as [-> _].
    + left. split; [reflexivity|]. split; [reflexivity|]. split; [vm_compute; reflexivity|].
      exists 1970, 2. split; [vm_compute; reflexivity|]. split; [vm_compute; reflexivity|lia].
    + vm_compute in Hle. by apply Hle.
Defined.

Lemma fx_keys_ok : map_Forall (λ _ t, cursor_ok (task_key t)) (db_tasks fx_db).
Proof.
  assert (∀ n i, 0 < n < 10 ^ 4 → n mod 1000 = 0 → i ≠ "" → validListingIdentifier i = true → cursor_ok (n, i)) as Hok.
  { intros n i Hn Hm Hne Hi. split; [|split; [|split; [exact (micros_whole n Hm)|by split]]].
    - cbn [fst]. assert (day_of n = 0) as -> by (apply Z.div_small; unfold day_ns; lia). vm_compute. split; [discriminate|reflexivity].
    - unfold zero_time. cbn [fst]. lia. }
  intros k t Ht.
  assert (t = fx_task "t1" 1000 ∨ t = fx_task "t2" 2000) as [-> | ->].
  { apply (elem_of_map_to_list (db_tasks fx_db)) in Ht.
    assert (map_to_list (db_tasks fx_db) = [("t1", fx_task "t1" 1000); ("t2", fx_task "t2" 2000)] ∨
            map_to_list (db_tasks fx_db) = [("t2", fx_task "t2" 2000); ("t1", fx_task "t1" 1000)]) as [E|E]
      by (first [left; vm_compute; reflexivity|right; vm_compute; reflexivity]);
      rewrite E in Ht; apply elem_of_cons in Ht as [[= -> ->]|[= -> ->]%list_elem_of_singleton]; auto. }
  - by apply Hok.
  - by apply Hok.
Qed.

(** The bucket of that Thursday opens the list of the two tasks. *)
Lemma bucket_opens_tasks_witness :
  (λ l : list UITask, length l) <$> page_walk 3
    (λ token, ui_received (tasks " team" (ui_client (fx_day "1970-01-01") token) (fx_env 9500) fx_db)) None
  = Some 2%nat.
Proof.
  pose proof fx_dashboard as Hf.
  destruct (ui_body (dashboard " team" fx_week (fx_env 9000) fx_db fx_db)) as [r|] eqn:E; [|discriminate Hf].
  apply ui_body_ok in E. injection Hf as _ Ht Hb.
  destruct (db_buckets r !! 3%nat) as [b|] eqn:Eb; [|discriminate Hb]. simpl in Hb.
  injection Hb as Hkey Hat Htot.
  destruct (bucket_opens_tasks " team" fx_week (fx_env 9000) fx_db fx_db r b (fx_day "1970-01-01") (fx_env 9500)
              25%nat 3%nat micros_whole E) as (id & z & items & _ & _ & Hw & _ & Hl & _).
  - by eapply list_elem_of_lookup_2.
  - rewrite Hat. vm_compute. split; [discriminate|reflexivity].
  - reflexivity.
  - exact fx_keyed.
  - exact fx_keys_ok.
  - reflexivity.
  - reflexivity.
  - by rewrite Hkey.
  - rewrite Htot. lia.
  - rewrite Hw. simpl. by rewrite Hl, Htot.
Defined.

(** A task of another team is not found, and nor are its events. *)
Lemma ui_team_only_witness :
  task "other" "t1" (fx_env 9000) fx_db = not_found ∧
  taskEvents "other" "t1" ∅ (fx_env 9000) fx_db fx_db = not_found.
Proof.
  destruct (ui_team_only "other" "other" (fx_env 9000) fx_db fx_db eq_refl)
    as (_ & _ & _ & _ & _ & _ & _ & _ & Hno).
  assert (¬ task_of "other" fx_db "t1") as Hn.
  { intros (t & Ht & Hteam). vm_compute in Ht. injection Ht as <-. discriminate Hteam. }
  destruct (Hno (λ n, eq_refl)) as [Hpath Hlist]. split.
  - exact (proj2 (proj1 (Hpath "t1" eq_refl)) Hn).
  - exact (proj1 (Hlist "t1" ∅ (10%nat, None) eq_refl) Hn).
Defined.

(** A week of a year before zero is a selection, although its key is not of the documented form, and
    its dashboard is not encoded. *)
Example negative_year_unanswered :
  dashboard "team" {["period" := ["week"]; "week" := ["-001-W05"]]} (fx_env 9000) fx_db fx_db = UiEmpty.
Proof. vm_compute. reflexivity. Qed.

(** Ten lifecycle reports and a control report that has the identifier and the instant of the last:
    the page ends between the two, and the second is in no page. *)
Definition fx_report (n : nat) : TaskEventRow :=
  mkTaskEvent ("e" +:+ pretty n) "team" "t1" "ex1" "running" (1000 * Z.of_nat n) "{}".
Definition fx_feed_db : DB :=
  with_control_events
    {["e10" := mkControlEvent "e10" "c" "t1" "team" (Some "ex1") "completed" 10000 "{}"]}
    (with_task_events (list_to_map ((λ n, (te_id (fx_report n), fx_report n)) <$> seq 1 10)) fx_db).

Example feed_skips :
  length (ui_feed "team" "t1" fx_feed_db) = 11%nat ∧
  (λ l : list UIEvent, length l) <$> page_walk 12
    (λ token, ui_received (taskEvents "team" "t1" (ui_client ∅ token) (fx_env 9000) fx_feed_db fx_feed_db)) None
  = Some 10%nat.
Proof. vm_compute. done. Qed.
End witnesses.
