(* ===== verification/Feed.v ===== *)
(** * Streams that follow a table

    A live stream of the registry reads, every fifty milliseconds, up to a hundred items behind a
    position, an instant and an identifier, writes them to its WebSocket and moves the position to
    the last one written. What it reads is a [feed]; the two handlers that work this way are in
    UiStream.v. The stream runs beside the operations of the registry as a step relation: an item
    that commits at or before the position is late, and the stream sends exactly the others. *)

From stdpp Require Import base gmap strings list sorting relations.
From S2P Require Import Prelude Paging Platform Tx Schema Store LaunchTables ScopeToken OpenEnv Lifecycle UiReads.
#[local] Open Scope Z_scope.

(* The order of the items is decided as the order of their keys. *)
#[local] Remove Hints row_le_dec : typeclass_instances.

(** ** Feeds and streams *)

(** The rows of a subscription with their keys, the items they are sent as with the two fields the
    loop reads back, and the read of the store. *)
Record feed (R F : Type) : Type := mkFeed {
  fd_rows : DB → list R; fd_key : R → UIAfter; fd_render : R → F;
  fd_at : F → string; fd_id : F → string;
  fd_read : Z → string → TxS (list F) }.
Arguments mkFeed {R F}.
Arguments fd_rows {R F}.
Arguments fd_key {R F}.
Arguments fd_render {R F}.
Arguments fd_at {R F}.
Arguments fd_id {R F}.
Arguments fd_read {R F}.

(** The variables of a handler, what it has written, and whether it still runs. *)
Record stream (F : Type) : Type := mkStream {
  st_after : Z; st_frame : string; st_written : list F; st_open : bool }.
Arguments mkStream {F}.
Arguments st_after {F}.
Arguments st_frame {F}.
Arguments st_written {F}.
Arguments st_open {F}.

Section stream.
Context `{Collation, PgTime, TimeCodec}.

(** (occurred_at, frame_id) > (after, after_frame_id). *)
Definition past (c : UIAfter) (k : UIAfter) : Prop := key_lt coll_lt c.1 c.2 k.1 k.2.
#[export] Instance past_dec c k : Decision (past c k).
Proof using. unfold past. apply _. Defined.

Context {R F : Type} (Q : feed R F).

(** The rows behind a position, in order. *)
Definition ahead (c : UIAfter) (d : DB) : list R :=
  order_by (by_key pair_le (fd_key Q)) (filter (λ r, past c (fd_key Q r)) (fd_rows Q d)).

(** The position a read starts behind, as the database compares it. *)
Definition reached (s : stream F) : UIAfter := (pg_ts (st_after s), st_frame s).

Definition st_position (s : stream F) : UIAfter := (st_after s, st_frame s).
Definition hang_up (s : stream F) : stream F :=
  mkStream (st_after s) (st_frame s) (st_written s) false.

(** Writing the items of a read; [accepts] says which writes the connection takes. *)
Fixpoint write_frames (accepts : nat → bool) (l : list F) (s : stream F) : stream F :=
  match l with
  | [] => s
  | f :: l' =>
      if accepts (length (st_written s)) then
        match parse_rfc3339 (fd_at Q f) with
        | None => hang_up (mkStream (st_after s) (st_frame s) (st_written s ++ [f]) (st_open s))
        | Some at_ =>
            write_frames accepts l' (mkStream at_ (fd_id Q f) (st_written s ++ [f]) (st_open s))
        end
      else hang_up s
  end.

(** A tick of the loop. *)
Definition tick (accepts : nat → bool) (env : TxEnv) (db : DB) (s : stream F) : stream F :=
  match (run_tx (fd_read Q (st_after s) (st_frame s)) env db).1 with
  | Err _ => hang_up s
  | Ok l => write_frames accepts l s
  end.
End stream.

(** ** The order of the keys *)

Section order.
Context `{Collation}.

Lemma past_iff c k : past c k ↔ pair_le c k ∧ c ≠ k.
Proof using.
  destruct c as [t i], k as [t' i']. unfold past, key_lt, pair_le, key_le, coll_lt. simpl. split.
  - intros [?|[-> [? ?]]]; (split; [auto|]); intros ?; simplify_eq; first [lia|done].
  - intros [[?|[-> ?]] Hne]; [by left|]. right. split; [done|]. split; [done|]. by intros ->.
Qed.

Lemma past_not_le c k : past c k → ¬ pair_le k c.
Proof using. intros [Hle Hne]%past_iff Hge. apply Hne. by apply pair_le_antisym. Qed.

Lemma not_past c k : ¬ past c k → pair_le k c.
Proof using. apply key_not_lt. Qed.

Lemma past_le_trans c k k' : past c k → pair_le k k' → past c k'.
Proof using.
  intros [Hle Hne]%past_iff Hk. apply past_iff. split; [by etrans|]. intros ->.
  apply Hne. by apply pair_le_antisym.
Qed.

Lemma le_past_trans c c' k : pair_le c c' → past c' k → past c k.
Proof using.
  intros Hc [Hle Hne]%past_iff. apply past_iff. split; [by etrans|]. intros ->.
  apply Hne. by apply pair_le_antisym.
Qed.

Lemma past_le c k : past c k → pair_le c k.
Proof using. intros ?%past_iff. tauto. Qed.

Lemma past_irrefl c : ¬ past c c.
Proof using. by intros [_ ?]%past_iff. Qed.

#[export] Instance past_trans : Transitive past.
Proof using. intros a b c Hab Hbc. eapply past_le_trans; [done|]. by apply past_le. Qed.

(** A sorted list without duplicates is strictly sorted. *)
Lemma sorted_strict l : StronglySorted pair_le l → NoDup l → StronglySorted past l.
Proof using.
  induction 1 as [|x l _ IH Hx]; [by constructor|]. intros [Hin Hnd]%NoDup_cons.
  constructor; [by apply IH|]. rewrite Forall_forall in Hx. apply Forall_forall. intros y Hy.
  apply past_iff. split; [by apply Hx|]. by intros ->.
Qed.

Lemma sorted_fmap {A} (key : A → UIAfter) l :
  StronglySorted (by_key pair_le key) l → StronglySorted pair_le (key <$> l).
Proof using.
  induction 1 as [|x l _ IH Hx]; [by constructor|]. constructor; [done|].
  rewrite Forall_forall in Hx. apply Forall_forall. intros k (y & -> & Hy)%list_elem_of_fmap.
  by apply Hx.
Qed.

(** The keys behind the last of a strictly sorted list, and those up to it. *)
Lemma last_bound c l k : StronglySorted past (c :: l) → k ∈ c :: l → pair_le k (default c (last l)).
Proof using.
  revert c k. induction l as [|x l IH]; intros c k Hs Hk.
  - apply list_elem_of_singleton in Hk as ->. by right.
  - apply StronglySorted_inv in Hs as [Hs Hc]. apply Forall_cons in Hc as [Hcx _].
    assert (default c (last (x :: l)) = default x (last l)) as ->.
    { rewrite last_cons. by destruct (last l). }
    apply elem_of_cons in Hk as [->|Hk]; [|by apply IH].
    trans x; [by apply past_le|]. apply IH; [done|by left].
Qed.
(** A strictly sorted list is extended by the keys behind its last. *)
Lemma sorted_extend c l l' :
  StronglySorted past (c :: l) → StronglySorted past (default c (last l) :: l') →
  StronglySorted past (c :: (l ++ l')).
Proof using.
  revert c. induction l as [|x l IH]; intros c Hl Hl'; [done|].
  assert (default c (last (x :: l)) = default x (last l)) as E.
  { rewrite last_cons. by destruct (last l). }
  rewrite E in Hl'. apply StronglySorted_inv in Hl as [Hl Hc]. apply Forall_cons in Hc as [Hcx Hc].
  simpl. constructor; [by apply IH|]. apply Forall_cons. split; [done|]. apply Forall_app. split; [done|].
  apply StronglySorted_inv in Hl' as [_ Hl']. rewrite Forall_forall in Hl'. apply Forall_forall.
  intros k Hk. eapply le_past_trans; [|by apply Hl']. trans x; [by apply past_le|].
  eapply last_bound; [done|by left].
Qed.
End order.

(** ** The stream beside the registry *)

Section live.
Context `{Collation, PgTime, JsonCodec, JsonCompact, TimeCodec, TokenCodec, ImageCodec, Aead}.
Context (cfg : StoreConfig) {R F : Type} (Q : feed R F).

Definition keys_of (d : DB) : list UIAfter := fd_key Q <$> fd_rows Q d.

(** The registry and the stream, and the keys that committed behind the position. *)
Record live : Type := mkLive { lv_db : DB; lv_stream : stream F; lv_late : list UIAfter }.

(** The keys that a commit adds at or before the position. *)
Definition late_keys (d d' : DB) (s : stream F) : list UIAfter :=
  filter (λ k, k ∉ keys_of d ∧ ¬ past (reached s) k) (keys_of d').

(** Operations of the registry commit between the ticks, reads and writes may fail, and either side
    may hang up. *)
Inductive live_step : live → live → Prop :=
| live_commit d d' s l :
    step cfg d d' → live_step (mkLive d s l) (mkLive d' s (l ++ late_keys d d' s))
| live_tick d s l accepts env :
    st_open s = true → live_step (mkLive d s l) (mkLive d (tick Q accepts env d s) l)
| live_hang_up d s l : live_step (mkLive d s l) (mkLive d (hang_up s) l).

(** What a feed promises: the loop reads back the keys of the items, a read gives the first hundred
    rows ahead, rows have distinct keys with the instants of the database, and no operation of the
    registry removes one. *)
Record feed_ok : Prop := mkFeedOk {
  fo_at r : parse_rfc3339 (fd_at Q (fd_render Q r)) = Some (fd_key Q r).1;
  fo_id r : fd_id Q (fd_render Q r) = (fd_key Q r).2;
  fo_read after frame env db :
    if env_fault env 0 then ∃ e, (run_tx (fd_read Q after frame) env db).1 = Err e
    else (run_tx (fd_read Q after frame) env db).1
         = Ok (fd_render Q <$> take 100 (ahead Q (pg_ts after, frame) db));
  fo_distinct d : reachable cfg d → distinct_keys pair_le (fd_key Q) (fd_rows Q d);
  fo_stamped d r : reachable cfg d → r ∈ fd_rows Q d → pg_ts (fd_key Q r).1 = (fd_key Q r).1;
  fo_kept d d' : reachable cfg d → step cfg d d' → keys_of d ⊆ keys_of d' }.
Context (HQ : feed_ok).

(** The frames a connection takes: a prefix, all of them when it takes every write; the position
    is the key of the last one. *)
Lemma write_frames_spec accepts rs s :
  ∃ n, let s' := write_frames Q accepts (fd_render Q <$> rs) s in
    st_written s' = st_written s ++ (fd_render Q <$> take n rs) ∧
    st_position s' = default (st_position s) (fd_key Q <$> last (take n rs)) ∧
    ((∀ i, accepts i = true) → take n rs = rs ∧ st_open s' = st_open s).
Proof using HQ.
  revert s. induction rs as [|r rs IH]; intros s; [by exists O; rewrite app_nil_r|].
  cbn [write_frames fmap list_fmap]. destruct (accepts (length (st_written s))) eqn:Ea.
  2:{ exists O. simpl. rewrite app_nil_r. split_and!; [done..|]. intros Ha. by rewrite Ha in Ea. }
  rewrite (fo_at HQ), (fo_id HQ).
  destruct (IH (mkStream (fd_key Q r).1 (fd_key Q r).2 (st_written s ++ [fd_render Q r]) (st_open s)))
    as (n & -> & -> & Hall).
  exists (S n). simpl. rewrite <- app_assoc. split; [done|]. split.
  - rewrite last_cons. destruct (last (take n rs)); [done|]. simpl. by destruct (fd_key Q r).
  - intros Ha. destruct (Hall Ha) as [E Ho]. by rewrite E.
Qed.

Lemma elem_of_ahead c d r : r ∈ ahead Q c d ↔ past c (fd_key Q r) ∧ r ∈ fd_rows Q d.
Proof using. unfold ahead. by rewrite elem_of_order_by, list_elem_of_filter. Qed.

Lemma ahead_strict c d :
  reachable cfg d → StronglySorted past (c :: (fd_key Q <$> ahead Q c d)).
Proof using HQ.
  intros Hr. constructor.
  - apply sorted_strict; [apply sorted_fmap, order_by_sorted; apply _|].
    unfold ahead. rewrite order_by_perm. eapply sublist_NoDup.
    2:{ apply fmap_sublist, sublist_filter. }
    destruct (fo_distinct HQ d Hr) as [Hnd Hinj]. apply NoDup_fmap_2_strong; [|done].
    intros x y Hx Hy E. apply Hinj; [done..| |]; unfold by_key; rewrite E; by right.
  - apply Forall_forall. intros k (r & -> & [? _]%elem_of_ahead)%list_elem_of_fmap. done.
Qed.

(** A tick writes a prefix of the frames ahead and moves to the last of them. *)
Lemma tick_spec accepts env d s :
  reachable cfg d →
  ∃ n, let s' := tick Q accepts env d s in
    st_written s' = st_written s ++ (fd_render Q <$> take n (ahead Q (reached s) d)) ∧
    reached s' = default (reached s) (last (fd_key Q <$> take n (ahead Q (reached s) d))) ∧
    (env_fault env 0 = false → (∀ i, accepts i = true) →
     take n (ahead Q (reached s) d) = take 100 (ahead Q (reached s) d) ∧ st_open s' = st_open s).
Proof using HQ.
  intros Hr. unfold tick. pose proof (fo_read HQ (st_after s) (st_frame s) env d) as Hrd.
  destruct (env_fault env 0) eqn:Ef.
  { destruct Hrd as [e ->]. exists O. simpl. by rewrite app_nil_r. }
  rewrite Hrd. fold (reached s).
  destruct (write_frames_spec accepts (take 100 (ahead Q (reached s) d)) s) as (n & Hwr & Hp & Hall).
  rewrite take_take in Hwr, Hp, Hall. exists (n `min` 100)%nat. cbv zeta. split; [done|]. split.
  - rewrite fmap_last. unfold reached at 1. set (s' := write_frames _ _ _ _) in *.
    destruct (last (take (n `min` 100) (ahead Q (reached s) d))) as [r|] eqn:El;
      simpl in Hp |- *; [|by injection Hp as -> ->].
    rewrite (surjective_pairing (fd_key Q r)) in Hp |- *. injection Hp as -> ->. f_equal.
    apply (fo_stamped HQ d); [done|]. assert (r ∈ take (n `min` 100) (ahead Q (reached s) d)) as Hin.
    { apply last_Some in El as [l' ->]. apply elem_of_app. right. by left. }
    apply subseteq_take, elem_of_ahead in Hin. apply Hin.
  - intros _ Ha. by apply Hall.
Qed.

(** What holds of a stream that started behind [start]: it has sent the frames of [rs], strictly
    in order, and these are the frames between the start and its position but the late ones. *)
Record live_inv (start : UIAfter) (rs : list R) (v : live) : Prop := mkLiveInv {
  li_reachable : reachable cfg (lv_db v);
  li_written : st_written (lv_stream v) = fd_render Q <$> rs;
  li_sorted : StronglySorted past (start :: (fd_key Q <$> rs));
  li_position : reached (lv_stream v) = default start (last (fd_key Q <$> rs));
  li_late : ∀ k, k ∈ lv_late v → k ∈ keys_of (lv_db v) ∧ ¬ past (reached (lv_stream v)) k;
  li_sent : ∀ k, k ∈ fd_key Q <$> rs ↔
    k ∈ keys_of (lv_db v) ∧ past start k ∧ ¬ past (reached (lv_stream v)) k ∧ k ∉ lv_late v }.

Lemma live_inv_commit start rs d d' s l :
  step cfg d d' → live_inv start rs (mkLive d s l) →
  live_inv start rs (mkLive d' s (l ++ late_keys d d' s)).
Proof using HQ.
  intros Hs [Hr Hw Hsort Hp Hl Hk]. simpl in *. pose proof (fo_kept HQ _ _ Hr Hs) as Hg.
  constructor; simpl; try done; [by eapply reach_step| |].
  - intros k [Hin|Hin]%elem_of_app; [split; [apply Hg|]; by apply Hl|].
    apply list_elem_of_filter in Hin as [[_ ?] ?]. done.
  - intros k. rewrite Hk, not_elem_of_app. unfold late_keys. rewrite list_elem_of_filter. split.
    + intros (Hin & ? & ? & ?). split_and!; [by apply Hg|done..|]. tauto.
    + intros (Hin & ? & Hnp & ? & Hnl). split_and!; try done.
      destruct (decide (k ∈ keys_of d)); [done|tauto].
Qed.

Lemma reached_from_start start rs v : live_inv start rs v → pair_le start (reached (lv_stream v)).
Proof using.
  intros Hi. rewrite (li_position _ _ _ Hi). eapply last_bound; [apply Hi|by left].
Qed.

Lemma live_inv_tick start rs d s l accepts env :
  live_inv start rs (mkLive d s l) →
  ∃ rs', live_inv start (rs ++ rs') (mkLive d (tick Q accepts env d s) l).
Proof using HQ.
  intros Hi. pose proof (reached_from_start _ _ _ Hi) as Hle.
  destruct Hi as [Hr Hwr Hsort Hp Hl Hk]. simpl in *.
  destruct (tick_spec accepts env d s Hr) as (n & Hwr' & Hp' & _).
  pose proof (ahead_strict (reached s) d Hr) as Hahead.
  set (s' := tick Q accepts env d s) in *.
  set (A := take n (ahead Q (reached s) d)) in *. set (B := drop n (ahead Q (reached s) d)).
  assert (HAB : ahead Q (reached s) d = A ++ B) by (symmetry; apply take_drop).
  rewrite HAB, fmap_app, app_comm_cons in Hahead.
  pose proof (StronglySorted_app_1_l _ _ _ Hahead) as HsA.
  assert (Hbound : ∀ k, k ∈ reached s :: (fd_key Q <$> A) → pair_le k (reached s')).
  { intros k Hin. rewrite Hp'. by apply last_bound. }
  assert (Hin : ∀ k, k ∈ keys_of d → past (reached s) k → k ∈ fd_key Q <$> A ∨ past (reached s') k).
  { intros k (r & -> & Hin)%list_elem_of_fmap Hpast.
    assert (r ∈ A ++ B) as [?|HB]%elem_of_app by by (rewrite <- HAB; apply elem_of_ahead).
    - left. by apply list_elem_of_fmap_2.
    - right. rewrite Hp'. eapply (StronglySorted_app_1_elem_of _ _ _ _ _ Hahead);
        [|by apply list_elem_of_fmap_2].
      destruct (last (fd_key Q <$> A)) as [x|] eqn:El; [|by left]. right.
      apply last_Some in El as [l' ->]. apply elem_of_app. right. by left. }
  exists A. constructor; simpl.
  - done.
  - by rewrite Hwr', Hwr, fmap_app.
  - rewrite fmap_app. apply sorted_extend; [done|]. by rewrite <- Hp.
  - rewrite Hp', fmap_app, last_app, Hp. by destruct (last (fd_key Q <$> A)).
  - intros k Hlate. destruct (Hl _ Hlate) as [? Hn]. split; [done|]. intros Hpast. apply Hn.
    eapply le_past_trans; [apply Hbound; by left|done].
  - intros k. rewrite fmap_app, elem_of_app. split.
    + intros [(? & ? & Hn & ?)%Hk|HA].
      * split_and!; try done. intros Hpast. apply Hn. eapply le_past_trans; [apply Hbound; by left|done].
      * pose proof HA as (r & -> & Hra)%list_elem_of_fmap. unfold A in Hra.
        apply subseteq_take, elem_of_ahead in Hra as [Hpast Hsub]. split_and!.
        -- by apply list_elem_of_fmap_2.
        -- by eapply le_past_trans.
        -- intros Hpast'. apply (past_not_le _ _ Hpast'). apply Hbound. by right.
        -- intros Hlate. by apply Hl in Hlate as [_ ?].
    + intros (Hin' & Hst & Hn & Hnl). destruct (decide (past (reached s) k)) as [Hpast|Hnp].
      * right. by destruct (Hin _ Hin' Hpast).
      * left. apply Hk. by split_and!.
Qed.

Lemma live_inv_steps start rs v v' :
  rtc live_step v v' → live_inv start rs v → ∃ rs', live_inv start (rs ++ rs') v'.
Proof using HQ.
  intros Hrun. revert rs. induction Hrun as [v|v v1 v' Hs _ IH]; intros rs Hi.
  { exists []. by rewrite app_nil_r. }
  assert (∃ rs', live_inv start (rs ++ rs') v1) as [rs1 Hi1].
  { destruct Hs as [d d' s l Hs|d s l accepts env _|d s l].
    - exists []. rewrite app_nil_r. by apply live_inv_commit.
    - by apply live_inv_tick.
    - exists []. rewrite app_nil_r. by destruct Hi; constructor. }
  destruct (IH _ Hi1) as [rs2 Hi2]. exists (rs1 ++ rs2). by rewrite app_assoc.
Qed.

Lemma live_inv_start d s :
  reachable cfg d → st_written s = [] → live_inv (reached s) [] (mkLive d s []).
Proof using.
  intros Hr Hw. constructor; simpl; try done.
  - repeat constructor.
  - by intros k ?%not_elem_of_nil.
  - intros k. split; [by intros ?%not_elem_of_nil|]. by intros (_ & ? & ? & _).
Qed.

(** Behind the last of the first frames ahead lie the others. *)
Lemma ahead_advance c d n :
  reachable cfg d →
  ahead Q (default c (last (fd_key Q <$> take n (ahead Q c d)))) d = drop n (ahead Q c d).
Proof using HQ.
  intros Hr. pose proof (ahead_strict c d Hr) as Hs.
  rewrite <- (take_drop n (ahead Q c d)), fmap_app, app_comm_cons in Hs.
  set (A := take n (ahead Q c d)) in *. set (B := drop n (ahead Q c d)) in *.
  set (c' := default c (last (fd_key Q <$> A))).
  assert (Hc : pair_le c c').
  { eapply last_bound; [by eapply StronglySorted_app_1_l|by left]. }
  assert (Hf : ∀ c, ahead Q c d =
            filter (λ r, past c (fd_key Q r)) (order_by (by_key pair_le (fd_key Q)) (fd_rows Q d))).
  { intros e. unfold ahead. apply order_by_filter; try apply _. by apply (fo_distinct HQ). }
  trans (filter (λ r, past c' (fd_key Q r)) (ahead Q c d)).
  { rewrite !Hf, list_filter_filter. apply list_filter_iff. intros r. split; [|tauto].
    intros Hp. split; [done|]. by eapply le_past_trans. }
  rewrite <- (take_drop n (ahead Q c d)). fold A B. rewrite filter_app, list_filter_none, list_filter_all.
  - done.
  - apply Forall_forall. intros r Hr'. eapply (StronglySorted_app_1_elem_of _ _ _ _ _ Hs);
      [|by apply list_elem_of_fmap_2].
    unfold c'. destruct (last (fd_key Q <$> A)) as [x|] eqn:El; [|by left]. right.
    apply last_Some in El as [l' ->]. apply elem_of_app. right. by left.
  - apply Forall_forall. intros r Hr' Hp. apply (past_not_le _ _ Hp).
    eapply last_bound; [by eapply StronglySorted_app_1_l|]. right. by apply list_elem_of_fmap_2.
Qed.

(** On a quiet registry every tick writes the next hundred frames. *)
Lemma quiet_ticks m accepts env d s :
  reachable cfg d → env_fault env 0 = false → (∀ i, accepts i = true) →
  st_written (Nat.iter m (tick Q accepts env d) s)
  = st_written s ++ (fd_render Q <$> take (100 * m) (ahead Q (reached s) d)) ∧
  st_open (Nat.iter m (tick Q accepts env d) s) = st_open s ∧
  ahead Q (reached (Nat.iter m (tick Q accepts env d) s)) d
  = drop (100 * m) (ahead Q (reached s) d).
Proof using HQ.
  intros Hr Hf Ha. induction m as [|m (IHw & IHo & IHa)].
  { simpl. by rewrite app_nil_r. }
  rewrite Nat.iter_succ. set (s' := Nat.iter m _ s) in *.
  destruct (tick_spec accepts env d s' Hr) as (n & Hwr & Hp & Hall).
  destruct (Hall Hf Ha) as [E Ho]. rewrite E in Hwr, Hp.
  rewrite Hwr, Ho, IHw, IHo, Hp, ahead_advance, IHa by done.
  rewrite <- app_assoc, <- fmap_app, drop_drop.
  replace (100 * S m)%nat with (100 * m + 100)%nat by lia. by rewrite take_take_drop.
Qed.

(** ** The contract of a stream *)

(** The items a stream has sent are those between its start and its position, but the late ones. *)
Lemma feed_exact d0 s0 d s late :
  reachable cfg d0 → st_written s0 = [] → rtc live_step (mkLive d0 s0 []) (mkLive d s late) →
  ∃ rs, st_written s = fd_render Q <$> rs ∧ StronglySorted past (reached s0 :: (fd_key Q <$> rs)) ∧
    ∀ k, k ∈ fd_key Q <$> rs ↔
      k ∈ keys_of d ∧ past (reached s0) k ∧ ¬ past (reached s) k ∧ k ∉ late.
Proof using HQ.
  intros Hr Hs Hrun.
  destruct (live_inv_steps _ _ _ _ Hrun (live_inv_start d0 s0 Hr Hs)) as [rs Hi].
  exists rs. destruct Hi as [_ Hwr Hsort _ _ Hk]. by split_and!.
Qed.

(** On a quiet registry it delivers everything, a hundred items a tick. *)
Lemma feed_delivers m accepts env d s :
  reachable cfg d → (∀ i, env_fault env i = false) → (∀ i, accepts i = true) →
  st_written (Nat.iter m (tick Q accepts env d) s)
  = st_written s ++ (fd_render Q <$> take (100 * m) (ahead Q (reached s) d)) ∧
  st_open (Nat.iter m (tick Q accepts env d) s) = st_open s.
Proof using HQ.
  intros Hr Hf Ha. destruct (quiet_ticks m accepts env d s Hr (Hf O) Ha) as (Hwr & Ho & _).
  by split.
Qed.
End live.
