(* ===== verification/UiStream.v ===== *)
(** * The live stream of a team (store/ui_stream.go, httpapi/events_stream.go)

    The frames of a team: a frame for each of its tasks, task events, control events and log
    chunks. The handler behind GET /ui/v1/teams/{team_id}/stream reads, every fifty milliseconds,
    up to a hundred frames that come after its position and writes them to the WebSocket; the
    operations of the registry go on in between. The order of frames is that of their instants,
    which Executors and transactions set before they commit, so a frame can commit behind the
    position: the stream delivers every other frame once and in order, and never these. *)

From stdpp Require Import base gmap strings list sorting relations.
From S2P Require Import Prelude Paging Platform Tx Schema Store GoStrings LaunchTables ScopeToken Fixtures.
From S2P Require Import LaunchParams Secrets OpenEnv Claim Listener Admin Events Controls TaskLogs Lifecycle.
From S2P Require Import Durable ListHttp UiReads UiHttp UiProps Feed.
#[local] Open Scope Z_scope.

(* The order of the frames is decided as the order of their keys. *)
#[local] Remove Hints row_le_dec : typeclass_instances.

(** ** Frames *)

(** What jsonb_build_object puts together, or the payload of an event. *)
Inductive frame_data : Type :=
| DState (current_state : string)
| DPayload (payload : string)
| DControl (event_type status : string) (executor : option string) (payload : string)
| DLog (offset : Z) (stream content : string).

Record UIStreamFrame : Type := mkFrame {
  fr_id : string; fr_team : string; fr_type : string; fr_task : option string;
  fr_control : option string; fr_occurred_at : string; fr_data : frame_data }.

(** A row of the common table expression [frames]. *)
Record frame_row : Type := mkFrameRow {
  fw_id : string; fw_team : string; fw_type : string; fw_task : string;
  fw_control : option string; fw_at : Z; fw_data : frame_data }.

Definition task_frame (t : TaskRow) : frame_row :=
  mkFrameRow ("task_committed:" +:+ tk_id t) (tk_team t) "task_committed" (tk_id t) None
    (tk_ingested_at t) (DState (tk_state t)).
Definition event_frame (e : TaskEventRow) : frame_row :=
  mkFrameRow ("task_event:" +:+ te_id e) (te_team e) "task_event" (te_task e) None
    (te_occurred_at e) (DPayload (te_payload e)).
Definition control_frame (c : ControlEventRow) : frame_row :=
  mkFrameRow ("control_event:" +:+ ce_id c) (ce_team c) "control_event" (ce_task c)
    (Some (ce_control c)) (ce_occurred_at c)
    (DControl "task.control.requested" (ce_status c) (ce_executor c) (ce_payload c)).
Definition log_frame (l : LogChunkRow) : frame_row :=
  mkFrameRow ("task_log:" +:+ lc_id l) (lc_team l) "task_log" (lc_task l) None (lc_occurred_at l)
    (DLog (lc_offset l) (lc_stream l) (lc_content l)).

Definition frames (team : string) (d : DB) : list frame_row :=
  (task_frame <$> filter (λ t, tk_team t = team) (rows (db_tasks d))) ++
  (event_frame <$> filter (λ e, te_team e = team) (rows (db_task_events d))) ++
  (control_frame <$> filter (λ c, ce_team c = team) (rows (db_control_events d))) ++
  (log_frame <$> filter (λ l, lc_team l = team) (rows (db_logs d))).

Definition frame_key (r : frame_row) : UIAfter := (fw_at r, fw_id r).

(** The frames of a subscription: of the team, and of one task when it names one. *)
Definition subscribed (team task : string) (d : DB) : list frame_row :=
  filter (λ r, task = "" ∨ fw_task r = task) (frames team d).

(** Up to the loop: a refusal, a connection that is closed at once, or a stream with its team and
    task; or, without a repository, nothing until the client leaves. The upgrade can fail. *)
Inductive opening (F : Type) : Type :=
| Refused (status : Z) (code : string)
| Closed
| Waiting
| Streaming (team task : string) (s : stream F).
Arguments Refused {F}.
Arguments Closed {F}.
Arguments Waiting {F}.
Arguments Streaming {F}.

Section stream.
Context `{Collation, PgTime, TimeCodec}.

Definition render_frame (r : frame_row) : UIStreamFrame :=
  mkFrame (fw_id r) (fw_team r) (fw_type r) (Some (fw_task r)) (fw_control r)
    (format_rfc3339 (fw_at r)) (fw_data r).

Definition next_frames (team task : string) (c : UIAfter) (d : DB) : list frame_row :=
  take 100 (order_by (by_key pair_le frame_key)
    (filter (λ r, past (pg_ts c.1, c.2) (frame_key r)) (subscribed team task d))).

Definition ListUIStreamFrames (team task : string) (after : Z) (afterFrameID : string) :
    TxS (list UIStreamFrame) :=
  l <- query (ErrWrap "list UI stream frames") (next_frames team task (after, afterFrameID)) ;;
  ret (render_frame <$> l).

Definition frame_feed (team task : string) : feed frame_row UIStreamFrame :=
  mkFeed (subscribed team task) frame_key render_frame fr_occurred_at fr_id
    (ListUIStreamFrames team task).

(** The rows of a stream of task events, with their identifiers as they are. *)
Definition streamed_events (team task : string) (d : DB) : list TaskEventRow :=
  filter (λ e, te_team e = team ∧ (task = "" ∨ te_task e = task)) (rows (db_task_events d)).
Definition event_key (e : TaskEventRow) : UIAfter := (te_occurred_at e, te_id e).
Definition event_item (e : TaskEventRow) : TaskEvent :=
  mkEvent (te_id e) (te_team e) (te_task e) (Some (te_executor e)) (te_type e)
    (format_rfc3339 (te_occurred_at e)) (Some (te_payload e)).

Definition event_feed (team task : string) : feed TaskEventRow TaskEvent :=
  mkFeed (streamed_events team task) event_key event_item ev_occurred_at ev_id
    (λ after id, ListStreamTaskEvents team task (after, id)).

(** ** The handlers up to their loops *)

(** The origins the upgrader admits; [parse] is url.Parse with the scheme and the host name. *)
Definition allowLoopbackOrigin (parse : string → option (string * string)) (origin : string) : bool :=
  let origin := trim_space origin in
  if bool_decide (origin = "") then true
  else match parse origin with
       | Some (scheme, host) =>
           if bool_decide (scheme = "" ∨ host = "") then false
           else bool_decide (host ∈ ["127.0.0.1"; "::1"; "localhost"])
       | None => false
       end.

Definition uiStream (repo upgraded : bool) (team : string) (q : ui_query) (clock : Z) :
    opening UIStreamFrame :=
  match uiTeamID team with
  | None => Refused 404 "not_found"
  | Some id =>
      if negb repo then Refused 404 "not_found"
      else if negb upgraded then Closed
      else
        let task := trim_space (query_get q "task_id") in
        if negb (bool_decide (task = "")) && negb (validListingIdentifier task) then Closed
        else
          let rawAfter := trim_space (query_get q "after") in
          match (if bool_decide (rawAfter = "") then Some clock else parse_rfc3339 rawAfter) with
          | None => Closed
          | Some after =>
              let afterFrameID := trim_space (query_get q "after_frame_id") in
              if (200 <? String.length afterFrameID)%nat then Closed
              else Streaming id task (mkStream after afterFrameID [] true)
          end
  end.

(** GET /v1/events/stream behind requireTrustedGatewayUpgrade: from now on, without a cursor. *)
Definition events_stream (repo upgraded : bool) (h : gateway_headers) (q : ui_query) (clock : Z) :
    opening TaskEvent :=
  match trustedGatewayMiddleware false h with
  | Err (status, code) => Refused status code
  | Ok (team, _) =>
      if negb upgraded then Closed
      else if negb repo then Waiting
      else
        let task := trim_space (query_get q "task_id") in
        let task := if negb (bool_decide (task = "")) && negb (validListingIdentifier task)
                    then "invalid" else task in
        Streaming team task (mkStream clock "" [] true)
  end.

End stream.

(** ** The frames of a reachable registry *)

Section stored.
Context `{Collation, PgTime, JsonCodec, JsonCompact, TimeCodec, TokenCodec, ImageCodec, Aead}.
Context (cfg : StoreConfig).

(** The instants of the tables are instants of the database, and the rows of the controls and the
    logs are stored under their identifiers. *)
Record stamped (d : DB) : Prop := mkStamped {
  sm_tasks : map_Forall (λ _ t, pg_ts (tk_ingested_at t) = tk_ingested_at t) (db_tasks d);
  sm_controls : map_Forall (λ k c, ce_id c = k ∧ pg_ts (ce_occurred_at c) = ce_occurred_at c)
                  (db_control_events d);
  sm_logs : map_Forall (λ k l, lc_id l = k ∧ pg_ts (lc_occurred_at l) = lc_occurred_at l)
              (db_logs d) }.

Lemma stamped_empty : stamped empty_db.
Proof using. constructor; apply map_Forall_empty. Qed.

Lemma whole_second t : pg_whole → pg_ts (trunc_second t) = trunc_second t.
Proof using.
  intros Hw. apply Hw. unfold trunc_second. change (10 ^ 9) with (10 ^ 6 * 1000).
  rewrite <- Z.mul_assoc, (Z.mul_comm 1000), Z.mul_assoc. by apply Z.mod_mul.
Qed.

Lemma perform_stamped o env db : pg_whole → stamped db → stamped (perform cfg o env db).2.
Proof using.
  intros Hw [St Sc Sl]. destruct (is_config o) eqn:Hcfg.
  { destruct (perform_config cfg o env db Hcfg) as ([Et _ _ _ _ [_ Ec] El _ _ _ _] & _).
    by constructor; rewrite ?Et, ?Ec, ?El. }
  destruct (perform_cases cfg o env db) as [->|[env' E]]; [by destruct o|done|].
  revert E. generalize (perform cfg o env db).2. intros db' E.
  destruct o; try discriminate Hcfg; simpl in E; apply outcome_ok in E as [a E].
  - apply CreateTeam_ok in E as (_ & _ & _ & _ & id & au & _ & _ & ->). done.
  - apply UpdateTeam_ok in E as (t & id & _ & _ & _ & _ & ->). done.
  - destruct a as [t []]; apply ArchiveTeam_ok in E as (t0 & _ & Hc);
      [destruct Hc as (_ & _ & id & _ & ->)|destruct Hc as (_ & _ & ->)]; done.
  - apply CreateSourceSystem_ok in E as (_ & _ & _ & _ & ->). done.
  - apply CreateTaskType_ok in E as (_ & _ & _ & ->). done.
  - apply IngestTask_ok in E
      as (_ & _ & _ & _ & tag & _ & [(t & _ & _ & ->)|(id & p & _ & _ & _ & _ & _ & ->)]); [done|].
    constructor; [|done..]. apply map_Forall_insert_2; [by apply whole_second|done].
  - apply RegisterExecutor_ok in E as (-> & _). done.
  - apply ClaimTask_ok in E as (e & t & He & Ht & _ & _ & _ & _ & Hc).
    destruct Hc as [(_ & _ & _ & -> & _)|(_ & base & i & src & p & Hs & _)]; [done|].
    destruct (same_but_snapshots_tables _ _ (cl_frame _ _ _ _ _ _ _ _ _ _ _ Hs))
      as (Et & _ & _ & _ & _ & _ & _ & _ & Ec & _ & El & _).
    rewrite (cl_result _ _ _ _ _ _ _ _ _ _ _ Hs).
    constructor; simpl; rewrite ?Et, ?Ec, ?El; try done. apply map_Forall_insert_2; [|done].
    by apply (St _ _ Ht).
  - apply AppendTaskEvent_ok in E as (occ & pl & x & t & _ & _ & _ & _ & _ & _ & Ht & _ & _ & Hc).
    destruct Hc as [(e & _ & _ & _ & _ & _ & -> & _)|(_ & st & au & Hs)]; [done|].
    rewrite (es_result _ _ _ _ _ _ _ _ _ Hs). constructor; [|done..].
    apply map_Forall_insert_2; [|done]. by apply (St _ _ Ht).
  - by apply AppendExecutorEvent_ok in E
      as (x & _ & _ & [(e & _ & ->)|(_ & o & p & s & x' & au & _ & _ & _ & _ & _ & _ & ->)]).
  - apply CreateTaskControl_ok in E as (_ & [(c & _ & _ & ->)|(id & aid & at_ & ev & au & -> & Q)]);
      [done|]. constructor; [done| |done]. apply map_Forall_insert_2; [|done]. split; [done|]. apply Q.
  - apply AppendTaskControlEvent_ok in E as (c & t & _ & _ & _ & _ & _ & _ & _ & Hc).
    destruct Hc as [(e & _ & _ & _ & ->)|(st & au & Hs)]; [done|].
    rewrite (cs_result _ _ _ _ _ _ _ _ _ Hs). constructor; [done| |done].
    apply map_Forall_insert_2; [|done]. split; [done|]. apply pg_ts_idem.
  - apply AppendTaskLog_ok in E as (t & _ & _ & _ & _ & [(_ & _ & _ & _ & _ & ->)|(_ & _ & ->)]);
      [done|]. constructor; [done..|]. apply map_Forall_insert_2; [|done]. split; [done|]. apply pg_ts_idem.
Qed.

Lemma reachable_stamped d : pg_whole → reachable cfg d → stamped d.
Proof using.
  intros Hw. induction 1 as [|d d' _ IH [o env]]; [apply stamped_empty|by apply perform_stamped].
Qed.
End stored.

(** ** The rows behind the frames *)

(** A kind of frame has the frames of the rows of one table; the kinds have their own prefixes. *)
Definition frame_source (team : string) (d : DB) (r : frame_row) : Prop :=
  (∃ k t, db_tasks d !! k = Some t ∧ tk_team t = team ∧ r = task_frame t) ∨
  (∃ k e, db_task_events d !! k = Some e ∧ te_team e = team ∧ r = event_frame e) ∨
  (∃ k c, db_control_events d !! k = Some c ∧ ce_team c = team ∧ r = control_frame c) ∨
  (∃ k l, db_logs d !! k = Some l ∧ lc_team l = team ∧ r = log_frame l).

Lemma elem_of_selected {V} (m : gmap string V) (team : V → string) (f : V → frame_row) x r :
  r ∈ f <$> filter (λ v, team v = x) (rows m) ↔ ∃ k v, m !! k = Some v ∧ team v = x ∧ r = f v.
Proof.
  rewrite list_elem_of_fmap. split.
  - intros (v & -> & [? [k ?]%elem_of_rows]%list_elem_of_filter). eauto.
  - intros (k & v & ? & ? & ->). exists v. split; [done|]. apply list_elem_of_filter.
    split; [done|]. apply elem_of_rows. eauto.
Qed.

Lemma elem_of_frames team d r : r ∈ frames team d ↔ frame_source team d r.
Proof. unfold frames, frame_source. by rewrite !elem_of_app, !elem_of_selected. Qed.

Lemma elem_of_subscribed team task d r :
  r ∈ subscribed team task d ↔ (task = "" ∨ fw_task r = task) ∧ frame_source team d r.
Proof. unfold subscribed. by rewrite list_elem_of_filter, elem_of_frames. Qed.

Section frames_of.
Context `{Collation, PgTime, JsonCodec, JsonCompact, TimeCodec, TokenCodec, ImageCodec, Aead}.
Context (cfg : StoreConfig).

Lemma selected_ids {V} (m : gmap string V) (team id : V → string) (f : V → frame_row) p x :
  map_Forall (λ k v, id v = k) m → (∀ v, fw_id (f v) = p +:+ id v) →
  NoDup (fw_id <$> (f <$> filter (λ v, team v = x) (rows m))).
Proof using.
  intros Hk Hf. rewrite <- list_fmap_compose. apply NoDup_rows_fmap.
  intros k k' v v' Hv Hv' _ _ E. unfold compose in E. rewrite !Hf in E.
  apply (inj (String.append p)) in E. by rewrite <- (Hk _ _ Hv), <- (Hk _ _ Hv').
Qed.

(** Frames of different kinds have different identifiers. *)
Ltac apart :=
  intros i (r & -> & (k & v & _ & _ & ->)%elem_of_selected)%list_elem_of_fmap;
  rewrite <- ?fmap_app; intros (r' & E & Hr')%list_elem_of_fmap;
  rewrite ?elem_of_app, !elem_of_selected in Hr';
  repeat (destruct Hr' as [(? & ? & _ & _ & ->)|Hr']; [discriminate E|]);
  destruct Hr' as (? & ? & _ & _ & ->); discriminate E.

(** Every frame has an identifier of its own. *)
Lemma frames_distinct team task d :
  pg_whole → reachable cfg d → distinct_keys pair_le frame_key (subscribed team task d).
Proof using.
  intros Hw Hr. pose proof (reachable_inv _ _ Hr) as Hi.
  destruct (reachable_stamped _ _ Hw Hr) as [_ Sc Sl].
  apply distinct_keys_fmap, (NoDup_fmap_1 snd). rewrite <- list_fmap_compose.
  change (snd ∘ frame_key) with fw_id. unfold subscribed.
  eapply sublist_NoDup; [|apply fmap_sublist, sublist_filter]. unfold frames. rewrite !fmap_app.
  rewrite !NoDup_app. repeat split; try apart.
  all: eapply selected_ids; [|done]; intros k v Hv.
  - by apply (ti_keyed _ Hi).
  - by apply (ti_events _ Hi).
  - by apply (Sc _ _ Hv).
  - by apply (Sl _ _ Hv).
Qed.

(** The instants of the frames are instants of the database. *)
Lemma frames_stamped team task d r :
  pg_whole → reachable cfg d → r ∈ subscribed team task d → pg_ts (fw_at r) = fw_at r.
Proof using.
  intros Hw Hr [_ Hs]%elem_of_subscribed. pose proof (reachable_inv _ _ Hr) as Hi.
  destruct (reachable_stamped _ _ Hw Hr) as [St Sc Sl].
  destruct Hs as [(k & v & Hv & _ & ->)|[(k & v & Hv & _ & ->)|[(k & v & Hv & _ & ->)|(k & v & Hv & _ & ->)]]].
  - by apply (St _ _ Hv).
  - by apply (ti_events _ Hi) in Hv as (_ & ? & _).
  - by apply (Sc _ _ Hv).
  - by apply (Sl _ _ Hv).
Qed.

Lemma task_kept d d' k t :
  task_step d d' → db_tasks d !! k = Some t →
  ∃ t', db_tasks d' !! k = Some t' ∧ tk_id t' = tk_id t ∧ tk_team t' = tk_team t ∧
        tk_ingested_at t' = tk_ingested_at t.
Proof using.
  intros Hs Ht. destruct Hs as [-> _|t0 Hn _ _ _ -> _|t0 c x a im src p Ht0 _ _ _ -> _
                               |t0 req x o p s _ Ht0 _ _ _ _ _ -> _].
  - eauto.
  - exists t. by rewrite lookup_insert_ne by congruence.
  - destruct (decide (tk_id t0 = k)) as [<-|Hne].
    + simplify_eq. eexists. by rewrite lookup_insert_eq.
    + exists t. by rewrite lookup_insert_ne.
  - destruct (decide (tk_id t0 = k)) as [<-|Hne].
    + simplify_eq. eexists. by rewrite lookup_insert_eq.
    + exists t. by rewrite lookup_insert_ne.
Qed.

(** No operation removes a frame. *)
Lemma frames_kept team task d d' :
  reachable cfg d → step cfg d d' →
  frame_key <$> subscribed team task d ⊆ frame_key <$> subscribed team task d'.
Proof using.
  intros Hr [o env] k (r & -> & [Ht Hs]%elem_of_subscribed)%list_elem_of_fmap.
  pose proof (reachable_inv _ _ Hr) as Hi.
  destruct (perform_appends cfg o env d) as [Ae _ _ Ac Al _ _ _ _].
  pose proof (perform_task_step cfg o env d (ti_keyed _ Hi)) as Hstep.
  set (d1 := (perform cfg o env d).2) in *. apply list_elem_of_fmap.
  destruct Hs as [(i & v & Hv & Hm & ->)|[(i & v & Hv & Hm & ->)|[(i & v & Hv & Hm & ->)|(i & v & Hv & Hm & ->)]]].
  - destruct (task_kept _ _ _ _ Hstep Hv) as (v' & Hv' & E & Em & Ea). exists (task_frame v').
    unfold frame_key. simpl in *. rewrite Ea, E. split; [done|]. apply elem_of_subscribed.
    split; [by simpl; rewrite E|]. left. exists i, v'. by rewrite Em.
  - exists (event_frame v). split; [done|]. apply elem_of_subscribed. split; [done|].
    right. left. exists i, v. split; [|done]. by eapply lookup_weaken.
  - exists (control_frame v). split; [done|]. apply elem_of_subscribed. split; [done|].
    right. right. left. exists i, v. split; [|done]. by eapply lookup_weaken.
  - exists (log_frame v). split; [done|]. apply elem_of_subscribed. split; [done|].
    right. right. right. exists i, v. split; [|done]. by eapply lookup_weaken.
Qed.
End frames_of.

(** ** Both streams are feeds *)

Section feeds.
Context `{Collation, PgTime, JsonCodec, JsonCompact, TimeCodec, TokenCodec, ImageCodec, Aead}.
Context (cfg : StoreConfig) (team task : string).

Lemma frame_feed_ok : pg_whole → feed_ok cfg (frame_feed team task).
Proof using.
  intros Hw. constructor; simpl.
  - intros r. apply parse_format.
  - done.
  - intros after frame env db. unfold run_tx, ListUIStreamFrames, query, stmt, bind, begin_st. simpl.
    destruct (env_fault env 0); [by eexists|done].
  - intros d Hr. by apply (frames_distinct cfg).
  - intros d r Hr. by apply (frames_stamped cfg).
  - intros d d'. apply frames_kept.
Qed.

Lemma elem_of_streamed d e :
  e ∈ streamed_events team task d ↔
  (te_team e = team ∧ (task = "" ∨ te_task e = task)) ∧ ∃ k, db_task_events d !! k = Some e.
Proof using. unfold streamed_events. by rewrite list_elem_of_filter, elem_of_rows. Qed.

Lemma event_feed_ok : feed_ok cfg (event_feed team task).
Proof using.
  constructor; simpl.
  - intros e. apply parse_format.
  - done.
  - intros after id env db. unfold run_tx, ListStreamTaskEvents, query, stmt, bind, begin_st. simpl.
    destruct (env_fault env 0); [by eexists|]. simpl. f_equal. f_equal. unfold ahead, stream_events.
    simpl. f_equal. apply (f_equal (order_by event_le)). unfold streamed_events.
    rewrite list_filter_filter. apply list_filter_iff. intros e. unfold past. simpl. tauto.
  - intros d Hr. apply rows_distinct; [by left|]. intros k e He.
    by apply (ti_events _ (reachable_inv _ _ Hr)) in He as [? _].
  - intros d e Hr [_ [k He]]%elem_of_streamed.
    by apply (ti_events _ (reachable_inv _ _ Hr)) in He as (_ & ? & _).
  - intros d d' Hr [o env] k (e & -> & [Hp [i He]]%elem_of_streamed)%list_elem_of_fmap.
    apply list_elem_of_fmap_2, elem_of_streamed. split; [done|]. exists i.
    eapply lookup_weaken; [done|]. apply (ap_task_events _ _ (perform_appends cfg o env d)).
Qed.
End feeds.

(** ** Properties *)

Section properties.
Context `{Collation, PgTime, JsonCodec, JsonCompact, TimeCodec, TokenCodec, ImageCodec, Aead}.
Context (cfg : StoreConfig) (team task : string).

(** C25. While operations of the registry commit between the ticks of a stream, reads fail, writes
    fail and clients hang up, the stream of a team sends frames of its subscription only, strictly
    in the order of their instants and identifiers, none twice; and of the frames between its start
    and its position it has sent all but the late ones, those that committed at or before the
    position. *)
Theorem stream_exact d0 s0 d s late :
  pg_whole → reachable cfg d0 → st_written s0 = [] →
  rtc (live_step cfg (frame_feed team task)) (mkLive d0 s0 []) (mkLive d s late) →
  ∃ rs, st_written s = render_frame <$> rs ∧
    StronglySorted past (reached s0 :: (frame_key <$> rs)) ∧
    ∀ k, k ∈ frame_key <$> rs ↔
      k ∈ frame_key <$> subscribed team task d ∧ past (reached s0) k ∧ ¬ past (reached s) k ∧ k ∉ late.
Proof using. intros Hw Hr. by apply (feed_exact cfg _ (frame_feed_ok cfg team task Hw)). Qed.

(** C26. On a registry at rest, with a database that answers and a client that reads, the stream
    of a team delivers everything: after m ticks it has sent the first 100 m frames behind its
    start, in order, and it still runs. *)
Theorem stream_delivers m accepts env d s :
  pg_whole → reachable cfg d → (∀ i, env_fault env i = false) → (∀ i, accepts i = true) →
  let s' := Nat.iter m (tick (frame_feed team task) accepts env d) s in
  let behind := order_by (by_key pair_le frame_key)
                  (filter (λ r, past (reached s) (frame_key r)) (subscribed team task d)) in
  st_written s' = st_written s ++ (render_frame <$> take (100 * m) behind) ∧
  st_open s' = st_open s.
Proof using.
  intros Hw Hr Hf Ha. apply (feed_delivers cfg); [by apply frame_feed_ok|done..].
Qed.

(** A client that reconnects with the instant and the identifier of a frame it received starts
    right behind that frame. *)
Theorem reconnect_resumes name q clock r :
  uiTeamID name = Some team → trim_space (query_get q "task_id") = "" →
  trim_space (query_get q "after") = format_rfc3339 (fw_at r) → format_rfc3339 (fw_at r) ≠ "" →
  trim_space (query_get q "after_frame_id") = fw_id r → (String.length (fw_id r) ≤ 200)%nat →
  uiStream true true name q clock = Streaming team "" (mkStream (fw_at r) (fw_id r) [] true).
Proof using.
  intros Hn Ht Ha Hne Hf Hl. unfold uiStream. rewrite Hn, Ht, Ha, Hf. simpl.
  rewrite bool_decide_eq_false_2, parse_format by done.
  by rewrite (proj2 (Nat.ltb_ge _ _) Hl).
Qed.

(** The stream of task events keeps the same contract with the events of its team. *)
Theorem events_stream_exact d0 s0 d s late :
  reachable cfg d0 → st_written s0 = [] →
  rtc (live_step cfg (event_feed team task)) (mkLive d0 s0 []) (mkLive d s late) →
  ∃ es, st_written s = event_item <$> es ∧
    StronglySorted past (reached s0 :: (event_key <$> es)) ∧
    ∀ k, k ∈ event_key <$> es ↔
      k ∈ event_key <$> streamed_events team task d ∧ past (reached s0) k ∧ ¬ past (reached s) k ∧
      k ∉ late.
Proof using. intros Hr. by apply (feed_exact cfg _ (event_feed_ok cfg team task)). Qed.

Theorem events_stream_delivers m accepts env d s :
  reachable cfg d → (∀ i, env_fault env i = false) → (∀ i, accepts i = true) →
  let s' := Nat.iter m (tick (event_feed team task) accepts env d) s in
  st_written s' = st_written s ++
    (event_item <$> take (100 * m) (ahead (event_feed team task) (reached s) d)) ∧
  st_open s' = st_open s.
Proof using. intros Hr Hf Ha. apply (feed_delivers cfg); [apply event_feed_ok|done..]. Qed.
End properties.

(** ** A stream of the small registry *)

Section witnesses.
#[local] Existing Instances pg_micros collation_C time_bits json_plain compact_plain token_fields
  image_plain toy_aead.

(** A client that follows the team from the start, before and after a second task is ingested. *)
Definition fx_origin (s : string) : option (string * string) :=
  if bool_decide (s = "https://localhost:8080") then Some ("https", "localhost")
  else if bool_decide (s = "https://example.org") then Some ("https", "example.org") else None.

Example loopback_only :
  allowLoopbackOrigin fx_origin <$> [""; " https://localhost:8080"; "https://example.org"; "null"]
  = [true; true; false; false].
Proof. vm_compute. reflexivity. Qed.

Definition fx_stream : stream UIStreamFrame := mkStream 0 "" [] true.
Definition fx_tick (d : DB) (s : stream UIStreamFrame) : stream UIStreamFrame :=
  tick (frame_feed "team" "") (λ _, true) (fx_env 9000) d s.

Definition fx_second : op :=
  OpIngestTask (mkIngestion "team" "src" "item2" "type" "{}" None None) fx_listener.
Definition fx_later : DB := (perform fx_config fx_second (fx_env_id "t2" 9000) fx_reached).2.

Definition fx_watched : stream UIStreamFrame := fx_tick fx_later (fx_tick fx_reached fx_stream).
Definition fx_late : list UIAfter := late_keys (frame_feed "team" "") fx_reached fx_later (fx_tick fx_reached fx_stream).

Lemma fx_live :
  rtc (live_step fx_config (frame_feed "team" "")) (mkLive fx_reached fx_stream []) (mkLive fx_later fx_watched fx_late).
Proof.
  assert (st_open (fx_tick fx_reached fx_stream) = true) as E by (vm_compute; reflexivity).
  apply (rtc_l _ _ (mkLive fx_reached (fx_tick fx_reached fx_stream) [])).
  { exact (live_tick fx_config (frame_feed "team" "") fx_reached fx_stream [] (λ _, true) (fx_env 9000) eq_refl). }
  apply (rtc_l _ _ (mkLive fx_later (fx_tick fx_reached fx_stream) fx_late)).
  { exact (live_commit fx_config (frame_feed "team" "") fx_reached fx_later (fx_tick fx_reached fx_stream) []
             (step_perform fx_config fx_reached fx_second (fx_env_id "t2" 9000))). }
  apply rtc_once.
  exact (live_tick fx_config (frame_feed "team" "") fx_later (fx_tick fx_reached fx_stream) fx_late (λ _, true)
           (fx_env 9000) E).
Qed.

(** A task is ingested at the start of the second of its transaction, and the stream is past it: the
    task exists and its frame is never sent, to this stream or to one that starts where it is. *)
Example task_missed :
  is_Some (db_tasks fx_later !! "t2") ∧
  (fr_id <$> st_written fx_watched) = ["task_committed:t1"; "task_event:evt-t1"; "task_event:e1"] ∧
  fx_late = [(0, "task_committed:t2")] ∧
  next_frames "team" "" (st_position fx_watched) fx_later = [].
Proof. split; [eexists|]; vm_compute; [reflexivity|]. by repeat split. Qed.

Lemma stream_exact_witness :
  fx_late = [(0, "task_committed:t2")] ∧
  ∃ rs, st_written fx_watched = render_frame <$> rs ∧ length rs = 3%nat ∧
    (0, "task_committed:t2") ∉ frame_key <$> rs.
Proof.
  assert (E : fx_late = [(0, "task_committed:t2")]) by (vm_compute; reflexivity).
  split; [exact E|].
  destruct (stream_exact fx_config "team" "" fx_reached fx_stream fx_later fx_watched fx_late micros_whole fx_reachable eq_refl fx_live)
    as (rs & Hw & _ & Hk).
  exists rs. split; [exact Hw|]. split.
  - apply (f_equal length) in Hw. rewrite length_fmap in Hw. rewrite <- Hw. vm_compute. reflexivity.
  - intros (_ & _ & _ & Hn)%Hk. apply Hn. rewrite E. by left.
Defined.

Lemma stream_delivers_witness :
  st_written (fx_tick fx_later fx_stream)
  = render_frame <$> take 100 (order_by (by_key pair_le frame_key)
      (filter (λ r, past (reached fx_stream) (frame_key r)) (subscribed "team" "" fx_later))) ∧
  length (st_written (fx_tick fx_later fx_stream)) = 4%nat.
Proof.
  split; [|vm_compute; reflexivity].
  exact (proj1 (stream_delivers fx_config "team" "" 1 (λ _, true) (fx_env 9000) fx_later fx_stream
    micros_whole (reach_step _ _ _ fx_reachable (step_perform _ _ _ _)) (λ _, eq_refl) (λ _, eq_refl))).
Defined.
End witnesses.
